(** * office_open_xml: IttyZip and BasicWorkbook

    A shallow embedding of the archive writer (IttyZip.cpp) and of the
    spreadsheet model (BasicWorkbook.cpp), followed by the properties of the
    cell/reference conversions, the sheet model, the archive life cycle and
    the document assembler.

    Conventions of the embedding:
    - [uint32_t], [uint16_t] and [size_t] values are integers of [Z]; every
      arithmetic operation of the source that can wrap is written with its
      wrap-around ([u32], [u16]);
    - [double] is the IEEE 754 binary64 type [float];
    - [std::string] is [string], a [char] is an [ascii] (one byte);
    - a function that can throw returns a [result]; a method returns its
      result together with the object state it leaves behind, also when it
      throws;
    - a [std::set] with a comparator is the list of its elements in iteration
      order, see [set_insert]. *)

From Stdlib Require Import ZArith List String Ascii Bool Lia Sorted.
From Stdlib Require Import Floats.PrimFloat.
Import ListNotations.

Local Open Scope string_scope.
Local Open Scope Z_scope.

(** ** Machine integers and characters *)

Definition u16 (z : Z) : Z := z mod 2 ^ 16.
Definition u32 (z : Z) : Z := z mod 2 ^ 32.

(** The value of a [char] as an unsigned byte. *)
Definition code (c : ascii) : Z := Z.of_N (N_of_ascii c).
Definition char_of (z : Z) : ascii := ascii_of_N (Z.to_N (z mod 256)).

(** <cctype> in the C locale. *)
Definition isupper (c : ascii) : bool := (65 <=? code c) && (code c <=? 90).
Definition islower (c : ascii) : bool := (97 <=? code c) && (code c <=? 122).
Definition isalpha (c : ascii) : bool := isupper c || islower c.
Definition isdigit (c : ascii) : bool := (48 <=? code c) && (code c <=? 57).
Definition isspace (c : ascii) : bool :=
  (code c =? 32) || ((9 <=? code c) && (code c <=? 13)).
Definition toupper (c : ascii) : ascii :=
  if islower c then char_of (code c - 32) else c.
Definition tolower (c : ascii) : ascii :=
  if isupper c then char_of (code c + 32) else c.

(** ** Exceptions and results *)

(** The exception classes thrown by the two libraries, each with its
    [what()] message. [std_exception] is the [std::exception(message)] of
    IttyZip. *)
Inductive exn : Type :=
| invalid_argument (what : string)
| runtime_error (what : string)
| length_error (what : string)
| std_exception (what : string).

Inductive result (A : Type) : Type :=
| Ok (a : A)
| Throw (e : exn).
Arguments Ok {A} a.
Arguments Throw {A} e.

Definition rbind {A B : Type} (r : result A) (k : A -> result B) : result B :=
  match r with
  | Ok a => k a
  | Throw e => Throw e
  end.

(** ** <string>: std::to_string on unsigned integers, std::stoll *)

(** [std::to_string] of an unsigned integer: its decimal digits, most
    significant first. The fuel is the value itself, which is never used
    up ([to_string_loop_fuel]). *)
Fixpoint to_string_loop (fuel : nat) (n : Z) (acc : string) : string :=
  let acc' := String (char_of (n mod 10 + 48)) acc in
  if n <? 10 then acc'
  else match fuel with
       | O => acc'
       | S fuel' => to_string_loop fuel' (n / 10) acc'
       end.

Definition to_string (n : Z) : string := to_string_loop (Z.to_nat n) n "".

Inductive stoll_result : Type :=
| stoll_value (v : Z) (idx : nat)
| stoll_invalid_argument
| stoll_out_of_range.

Fixpoint skip_space (s : string) (n : nat) : string * nat :=
  match s with
  | String c s' => if isspace c then skip_space s' (S n) else (s, n)
  | EmptyString => (s, n)
  end.

(** The longest prefix of decimal digits: its value and its length. *)
Fixpoint stoll_digits (s : string) (acc : Z) (n : nat) : Z * nat :=
  match s with
  | String c s' =>
      if isdigit c then stoll_digits s' (10 * acc + (code c - 48)) (S n)
      else (acc, n)
  | EmptyString => (acc, n)
  end.

(** [std::stoll(str, &idx, 10)]: white space, an optional sign, decimal
    digits; [idx] is the number of characters consumed. *)
Definition stoll (str : string) : stoll_result :=
  let '(s1, n1) := skip_space str 0%nat in
  let '(s2, n2, sign) :=
    match s1 with
    | String c s' =>
        if code c =? 45 then (s', S n1, -1)
        else if code c =? 43 then (s', S n1, 1)
        else (s1, n1, 1)
    | EmptyString => (s1, n1, 1)
    end in
  let '(v, n3) := stoll_digits s2 0 n2 in
  if Nat.eqb n3 n2 then stoll_invalid_argument
  else if (sign * v <? - 2 ^ 63) || (2 ^ 63 - 1 <? sign * v) then stoll_out_of_range
  else stoll_value (sign * v) n3.

(** ** Methods: state and exceptions *)

(** A method of an object of type [S]: it returns or throws, and leaves the
    object in a new state either way (nothing is rolled back by a throw). *)
Definition M (S A : Type) : Type := S -> result A * S.

Definition ret {S A : Type} (a : A) : M S A := fun s => (Ok a, s).
Definition throw {S A : Type} (e : exn) : M S A := fun s => (Throw e, s).
Definition bind {S A B : Type} (m : M S A) (k : A -> M S B) : M S B :=
  fun s =>
    match m s with
    | (Ok a, s') => k a s'
    | (Throw e, s') => (Throw e, s')
    end.
Definition gets {S A : Type} (f : S -> A) : M S A := fun s => (Ok (f s), s).
Definition modify {S : Type} (f : S -> S) : M S unit := fun s => (Ok tt, f s).
Definition lift_result {S A : Type} (r : result A) : M S A := fun s => (r, s).

Declare Scope method_scope.
Delimit Scope method_scope with method.
Notation "x <- m ;; k" := (bind m (fun x => k))
  (at level 61, m at next level, right associativity) : method_scope.
Notation "m ;; k" := (bind m (fun _ => k))
  (at level 61, right associativity) : method_scope.
Local Open Scope method_scope.

(** ** std::set *)

(** A [std::set<T, Compare>] is the list of its elements in iteration order.
    [set_insert] is [std::set::insert]: it walks to the place of [x]; when an
    element equivalent to [x] under the comparator is there (neither is less
    than the other) the set is left as it is and the flag is [false]. *)
Section StdSet.
Context {T : Type} (less : T -> T -> bool).

Fixpoint set_insert (x : T) (s : list T) : list T * bool :=
  match s with
  | [] => ([x], true)
  | y :: s' =>
      if less x y then (x :: s, true)
      else if less y x then
        let '(s'', inserted) := set_insert x s' in (y :: s'', inserted)
      else (s, false)
  end.

(** [std::set::find]: the element equivalent to the key, if any. *)
Fixpoint set_find (x : T) (s : list T) : option T :=
  match s with
  | [] => None
  | y :: s' =>
      if less x y then None
      else if less y x then set_find x s'
      else Some y
  end.
End StdSet.

(** ** The platform: <ctime>, <fstream> *)

(** [std::string::size]. *)
Definition strlen (s : string) : Z := Z.of_nat (String.length s).

(** The fields of [std::tm] the code reads. *)
Record tm : Type := {
  tm_sec : Z; tm_min : Z; tm_hour : Z; tm_mday : Z; tm_mon : Z; tm_year : Z
}.

(** What the C++ runtime and the operating system supply: the clock as
    local and as UTC broken-down time, whether a file can be opened for
    writing, whether the stream is still good once a further chunk of bytes
    is written to it after those written so far, and [std::to_string] on a
    [double]. The buffer of the stream is on the side of the platform: a
    stream may take a short chunk that its device would refuse. *)
Record platform : Type := {
  localtime_now : tm;
  gmtime_now : tm;
  can_open : string -> bool;
  write_ok : string -> string -> bool;
  to_string_double : float -> string
}.

(** [std::ofstream]: open flag, failure state and the bytes that the stream
    has taken. *)
Record ofstream : Type := {
  is_open : bool;
  fail : bool;
  file_name : string;
  file_bytes : string
}.

Definition ofstream_default : ofstream :=
  {| is_open := false; fail := false; file_name := ""; file_bytes := "" |}.

Definition set_failbit (f : ofstream) : ofstream :=
  {| is_open := is_open f; fail := true; file_name := file_name f; file_bytes := file_bytes f |}.

(** [open(name, binary | out | trunc)]. *)
Definition ofstream_open (P : platform) (name : string) (f : ofstream) : ofstream :=
  if is_open f then set_failbit f
  else if can_open P name
  then {| is_open := true; fail := false; file_name := name; file_bytes := "" |}
  else set_failbit f.

(** [write(bytes, size)]: nothing is written to a stream that is not good,
    and a write that the platform refuses sets the failure state. *)
Definition ofstream_write (P : platform) (bytes : string) (f : ofstream) : ofstream :=
  if negb (is_open f) || fail f then set_failbit f
  else if write_ok P (file_bytes f) bytes
  then {| is_open := true; fail := false; file_name := file_name f;
          file_bytes := file_bytes f ++ bytes |}
  else set_failbit f.

(** [close()]. Closing a stream that is not open sets the failure state.
    The flush of what the buffer still holds is taken to succeed: a failure
    found only at that flush is not modelled. *)
Definition ofstream_close (f : ofstream) : ofstream :=
  if is_open f
  then {| is_open := false; fail := fail f; file_name := file_name f; file_bytes := file_bytes f |}
  else set_failbit f.

(** ** IttyZip *)

Module IttyZip.

Definition CANNOT_OPEN_MESG : string := "IttyZip cannot open the output file for writing.".
Definition DOUBLE_OPEN_MESG : string := "IttyZip::open() was called with an output file already open.".
Definition NOT_OPENED_MESG : string := "IttyZip::addFile() or finalize() called either before the output file has been opened or after it has been closed.".
Definition UNEXPECTED_CLOSE_MESG : string := "IttyZip exception: The output file closed unexpectedly.".
Definition OUTPUT_FAIL_MESG : string := "IttyZip exception: The output stream failed.".
Definition EMPTY_FINALIZE_MESG : string := "IttyZip::finalize() was called on an empty IttyZip object.".
Definition DUPLICATE_FILE_MESG : string := "IttyZip::addFile() was called twice with the same filename.".

Record dostimedate_t : Type := { time : Z; date : Z }.

Record localheader_t : Type := {
  lh_signature : Z;
  lh_extract_version : Z;
  lh_general_bit_flag : Z;
  lh_compression_method : Z;
  lh_file_mod_timedate : dostimedate_t;
  lh_crc32 : Z;
  lh_size_compressed : Z;
  lh_size_uncompressed : Z;
  lh_filename_length : Z;
  lh_extra_field_length : Z;
  lh_filename : string
}.

Record dirheader_t : Type := {
  dh_signature : Z;
  dh_version_made_by : Z;
  dh_extract_version : Z;
  dh_general_bit_flag : Z;
  dh_compression_method : Z;
  dh_file_mod_timedate : dostimedate_t;
  dh_crc32 : Z;
  dh_size_compressed : Z;
  dh_size_uncompressed : Z;
  dh_filename_length : Z;
  dh_extra_field_length : Z;
  dh_comment_length : Z;
  dh_disk_number_start : Z;
  dh_internal_attributes : Z;
  dh_external_attributes : Z;
  dh_local_header_offset : Z;
  dh_filename : string
}.

Record endrecord_t : Type := {
  er_signature : Z;
  er_disk_number : Z;
  er_dir_start_disk_number : Z;
  er_this_disk_entries : Z;
  er_total_entries : Z;
  er_central_dir_size : Z;
  er_central_dir_offset : Z;
  er_comment_length : Z
}.

(** [dosTimeDate], from the local time of the platform. *)
Definition dosTimeDate (P : platform) : dostimedate_t :=
  let timestruct := localtime_now P in
  let time0 := Z.land 0x001F (Z.quot (Z.min (tm_sec timestruct) 59) 2) in
  let time1 := Z.lor time0 (Z.land 0x07E0 (Z.shiftl (tm_min timestruct) 5)) in
  let time2 := Z.lor time1 (Z.land 0xF800 (Z.shiftl (tm_hour timestruct) 11)) in
  let date0 := Z.land 0x001F (tm_mday timestruct) in
  let date1 := Z.lor date0 (Z.land 0x01E0 (Z.shiftl (tm_mon timestruct + 1) 5)) in
  let date2 :=
    if (tm_year timestruct >=? 80) && (tm_year timestruct - 80 <? 128)
    then Z.lor date1 (Z.land 0xFE00 (Z.shiftl (tm_year timestruct - 80) 9))
    else date1 in
  {| time := u16 time2; date := u16 date2 |}.

Definition crc32_table : list Z := [
    0x00000000; 0x77073096; 0xEE0E612C; 0x990951BA; 0x076DC419; 0x706AF48F; 0xE963A535; 0x9E6495A3;
    0x0EDB8832; 0x79DCB8A4; 0xE0D5E91E; 0x97D2D988; 0x09B64C2B; 0x7EB17CBD; 0xE7B82D07; 0x90BF1D91;
    0x1DB71064; 0x6AB020F2; 0xF3B97148; 0x84BE41DE; 0x1ADAD47D; 0x6DDDE4EB; 0xF4D4B551; 0x83D385C7;
    0x136C9856; 0x646BA8C0; 0xFD62F97A; 0x8A65C9EC; 0x14015C4F; 0x63066CD9; 0xFA0F3D63; 0x8D080DF5;
    0x3B6E20C8; 0x4C69105E; 0xD56041E4; 0xA2677172; 0x3C03E4D1; 0x4B04D447; 0xD20D85FD; 0xA50AB56B;
    0x35B5A8FA; 0x42B2986C; 0xDBBBC9D6; 0xACBCF940; 0x32D86CE3; 0x45DF5C75; 0xDCD60DCF; 0xABD13D59;
    0x26D930AC; 0x51DE003A; 0xC8D75180; 0xBFD06116; 0x21B4F4B5; 0x56B3C423; 0xCFBA9599; 0xB8BDA50F;
    0x2802B89E; 0x5F058808; 0xC60CD9B2; 0xB10BE924; 0x2F6F7C87; 0x58684C11; 0xC1611DAB; 0xB6662D3D;
    0x76DC4190; 0x01DB7106; 0x98D220BC; 0xEFD5102A; 0x71B18589; 0x06B6B51F; 0x9FBFE4A5; 0xE8B8D433;
    0x7807C9A2; 0x0F00F934; 0x9609A88E; 0xE10E9818; 0x7F6A0DBB; 0x086D3D2D; 0x91646C97; 0xE6635C01;
    0x6B6B51F4; 0x1C6C6162; 0x856530D8; 0xF262004E; 0x6C0695ED; 0x1B01A57B; 0x8208F4C1; 0xF50FC457;
    0x65B0D9C6; 0x12B7E950; 0x8BBEB8EA; 0xFCB9887C; 0x62DD1DDF; 0x15DA2D49; 0x8CD37CF3; 0xFBD44C65;
    0x4DB26158; 0x3AB551CE; 0xA3BC0074; 0xD4BB30E2; 0x4ADFA541; 0x3DD895D7; 0xA4D1C46D; 0xD3D6F4FB;
    0x4369E96A; 0x346ED9FC; 0xAD678846; 0xDA60B8D0; 0x44042D73; 0x33031DE5; 0xAA0A4C5F; 0xDD0D7CC9;
    0x5005713C; 0x270241AA; 0xBE0B1010; 0xC90C2086; 0x5768B525; 0x206F85B3; 0xB966D409; 0xCE61E49F;
    0x5EDEF90E; 0x29D9C998; 0xB0D09822; 0xC7D7A8B4; 0x59B33D17; 0x2EB40D81; 0xB7BD5C3B; 0xC0BA6CAD;
    0xEDB88320; 0x9ABFB3B6; 0x03B6E20C; 0x74B1D29A; 0xEAD54739; 0x9DD277AF; 0x04DB2615; 0x73DC1683;
    0xE3630B12; 0x94643B84; 0x0D6D6A3E; 0x7A6A5AA8; 0xE40ECF0B; 0x9309FF9D; 0x0A00AE27; 0x7D079EB1;
    0xF00F9344; 0x8708A3D2; 0x1E01F268; 0x6906C2FE; 0xF762575D; 0x806567CB; 0x196C3671; 0x6E6B06E7;
    0xFED41B76; 0x89D32BE0; 0x10DA7A5A; 0x67DD4ACC; 0xF9B9DF6F; 0x8EBEEFF9; 0x17B7BE43; 0x60B08ED5;
    0xD6D6A3E8; 0xA1D1937E; 0x38D8C2C4; 0x4FDFF252; 0xD1BB67F1; 0xA6BC5767; 0x3FB506DD; 0x48B2364B;
    0xD80D2BDA; 0xAF0A1B4C; 0x36034AF6; 0x41047A60; 0xDF60EFC3; 0xA867DF55; 0x316E8EEF; 0x4669BE79;
    0xCB61B38C; 0xBC66831A; 0x256FD2A0; 0x5268E236; 0xCC0C7795; 0xBB0B4703; 0x220216B9; 0x5505262F;
    0xC5BA3BBE; 0xB2BD0B28; 0x2BB45A92; 0x5CB36A04; 0xC2D7FFA7; 0xB5D0CF31; 0x2CD99E8B; 0x5BDEAE1D;
    0x9B64C2B0; 0xEC63F226; 0x756AA39C; 0x026D930A; 0x9C0906A9; 0xEB0E363F; 0x72076785; 0x05005713;
    0x95BF4A82; 0xE2B87A14; 0x7BB12BAE; 0x0CB61B38; 0x92D28E9B; 0xE5D5BE0D; 0x7CDCEFB7; 0x0BDBDF21;
    0x86D3D2D4; 0xF1D4E242; 0x68DDB3F8; 0x1FDA836E; 0x81BE16CD; 0xF6B9265B; 0x6FB077E1; 0x18B74777;
    0x88085AE6; 0xFF0F6A70; 0x66063BCA; 0x11010B5C; 0x8F659EFF; 0xF862AE69; 0x616BFFD3; 0x166CCF45;
    0xA00AE278; 0xD70DD2EE; 0x4E048354; 0x3903B3C2; 0xA7672661; 0xD06016F7; 0x4969474D; 0x3E6E77DB;
    0xAED16A4A; 0xD9D65ADC; 0x40DF0B66; 0x37D83BF0; 0xA9BCAE53; 0xDEBB9EC5; 0x47B2CF7F; 0x30B5FFE9;
    0xBDBDF21C; 0xCABAC28A; 0x53B39330; 0x24B4A3A6; 0xBAD03605; 0xCDD70693; 0x54DE5729; 0x23D967BF;
    0xB3667A2E; 0xC4614AB8; 0x5D681B02; 0x2A6F2B94; 0xB40BBE37; 0xC30C8EA1; 0x5A05DF1B; 0x2D02EF8D
].

Fixpoint crc32_loop (data : string) (crc_reg : Z) : Z :=
  match data with
  | EmptyString => crc_reg
  | String c data' =>
      let table_indx := Z.lxor (Z.land 0x000000FF crc_reg) (code c) in
      let crc_reg := Z.shiftr crc_reg 8 in
      let crc_reg := Z.lxor crc_reg (nth (Z.to_nat table_indx) crc32_table 0) in
      crc32_loop data' crc_reg
  end.

Definition crc32 (data : string) : Z :=
  Z.lxor (crc32_loop data 0xFFFFFFFF) 0xFFFFFFFF.

(** The two or four bytes written to the buffer, in order. *)
Definition uint16_to_buffer (i : Z) : string :=
  String (char_of (Z.land 0x00FF i))
    (String (char_of (Z.land 0x00FF (Z.shiftr i 8))) "").

Definition uint32_to_buffer (i : Z) : string :=
  String (char_of (Z.land 0x000000FF i))
    (String (char_of (Z.land 0x000000FF (Z.shiftr i 8)))
       (String (char_of (Z.land 0x000000FF (Z.shiftr i 16)))
          (String (char_of (Z.land 0x000000FF (Z.shiftr i 24))) ""))).

Record IttyZip : Type := {
  num_files : Z;
  out_file : ofstream;
  opened : bool;
  next_offset : Z;
  central_directory : string;
  filenames : list string
}.

Definition with_out_file (f : ofstream -> ofstream) (z : IttyZip) : IttyZip :=
  {| num_files := num_files z; out_file := f (out_file z); opened := opened z;
     next_offset := next_offset z; central_directory := central_directory z;
     filenames := filenames z |}.

Definition write (P : platform) (bytes : string) : M IttyZip unit :=
  modify (with_out_file (ofstream_write P bytes)).

(** [IttyZip(void)]. *)
Definition IttyZip_default : IttyZip :=
  {| num_files := 0; out_file := ofstream_default; opened := false;
     next_offset := 0; central_directory := ""; filenames := [] |}.

(** [IttyZip(outputFilename)]. *)
Definition IttyZip_with_file (P : platform) (outputFilename : string) : result unit * IttyZip :=
  let f := ofstream_open P outputFilename ofstream_default in
  let z := {| num_files := 0; out_file := f; opened := false;
              next_offset := 0; central_directory := ""; filenames := [] |} in
  if negb (is_open f) then (Throw (std_exception CANNOT_OPEN_MESG), z)
  else (Ok tt, {| num_files := 0; out_file := f; opened := true;
                  next_offset := 0; central_directory := ""; filenames := [] |}).

Definition open (P : platform) (outputFilename : string) : M IttyZip unit :=
  fun z =>
    if opened z || is_open (out_file z) then (Throw (std_exception DOUBLE_OPEN_MESG), z)
    else
      let f := ofstream_open P outputFilename (out_file z) in
      let z' := {| num_files := 0; out_file := f; opened := false; next_offset := 0;
                   central_directory := ""; filenames := filenames z |} in
      if negb (is_open f) then (Throw (std_exception CANNOT_OPEN_MESG), z')
      else (Ok tt, {| num_files := 0; out_file := f; opened := true; next_offset := 0;
                      central_directory := ""; filenames := filenames z |}).

Definition generateHeaders (P : platform) (filename : string) (file_size file_crc32 : Z)
  : M IttyZip (localheader_t * dirheader_t) :=
  fun z =>
    let timedate := dosTimeDate P in
    let filename_length := u16 (strlen filename) in
    let stored_name := substring 0 (Z.to_nat filename_length) filename in
    (Ok ({| lh_signature := 0x04034b50;
            lh_extract_version := 0x000A;
            lh_general_bit_flag := 0;
            lh_compression_method := 0;
            lh_file_mod_timedate := timedate;
            lh_crc32 := file_crc32;
            lh_size_compressed := file_size;
            lh_size_uncompressed := file_size;
            lh_filename_length := filename_length;
            lh_extra_field_length := 0;
            lh_filename := stored_name |},
         {| dh_signature := 0x02014b50;
            dh_version_made_by := 0x000A;
            dh_extract_version := 0x000A;
            dh_general_bit_flag := 0;
            dh_compression_method := 0;
            dh_file_mod_timedate := timedate;
            dh_crc32 := file_crc32;
            dh_size_compressed := file_size;
            dh_size_uncompressed := file_size;
            dh_filename_length := filename_length;
            dh_extra_field_length := 0;
            dh_comment_length := 0;
            dh_disk_number_start := 0;
            dh_internal_attributes := 0;
            dh_external_attributes := 0;
            dh_local_header_offset := next_offset z;
            dh_filename := stored_name |}), z).

(** The checks shared by [addFile], [writeLocalheader] and [writeEndRecord]. *)
Definition check_output : M IttyZip unit :=
  fun z =>
    if negb (opened z) then (Throw (std_exception NOT_OPENED_MESG), z)
    else if negb (is_open (out_file z)) then (Throw (std_exception UNEXPECTED_CLOSE_MESG), z)
    else if fail (out_file z) then (Throw (std_exception OUTPUT_FAIL_MESG), z)
    else (Ok tt, z).

Definition writeLocalheader (P : platform) (localheader : localheader_t) : M IttyZip Z :=
  check_output ;;
  write P (uint32_to_buffer (lh_signature localheader)) ;;
  write P (uint16_to_buffer (lh_extract_version localheader)) ;;
  write P (uint16_to_buffer (lh_general_bit_flag localheader)) ;;
  write P (uint16_to_buffer (lh_compression_method localheader)) ;;
  write P (uint16_to_buffer (time (lh_file_mod_timedate localheader))) ;;
  write P (uint16_to_buffer (date (lh_file_mod_timedate localheader))) ;;
  write P (uint32_to_buffer (lh_crc32 localheader)) ;;
  write P (uint32_to_buffer (lh_size_compressed localheader)) ;;
  write P (uint32_to_buffer (lh_size_uncompressed localheader)) ;;
  write P (uint16_to_buffer (lh_filename_length localheader)) ;;
  write P (uint16_to_buffer (lh_extra_field_length localheader)) ;;
  write P (substring 0 (Z.to_nat (lh_filename_length localheader)) (lh_filename localheader)) ;;
  ret (u32 (30 + lh_filename_length localheader)).

Definition dirheader_bytes (dirheader : dirheader_t) : string :=
  uint32_to_buffer (dh_signature dirheader)
  ++ uint16_to_buffer (dh_version_made_by dirheader)
  ++ uint16_to_buffer (dh_extract_version dirheader)
  ++ uint16_to_buffer (dh_general_bit_flag dirheader)
  ++ uint16_to_buffer (dh_compression_method dirheader)
  ++ uint16_to_buffer (time (dh_file_mod_timedate dirheader))
  ++ uint16_to_buffer (date (dh_file_mod_timedate dirheader))
  ++ uint32_to_buffer (dh_crc32 dirheader)
  ++ uint32_to_buffer (dh_size_compressed dirheader)
  ++ uint32_to_buffer (dh_size_uncompressed dirheader)
  ++ uint16_to_buffer (dh_filename_length dirheader)
  ++ uint16_to_buffer (dh_extra_field_length dirheader)
  ++ uint16_to_buffer (dh_comment_length dirheader)
  ++ uint16_to_buffer (dh_disk_number_start dirheader)
  ++ uint16_to_buffer (dh_internal_attributes dirheader)
  ++ uint32_to_buffer (dh_external_attributes dirheader)
  ++ uint32_to_buffer (dh_local_header_offset dirheader)
  ++ substring 0 (Z.to_nat (dh_filename_length dirheader)) (dh_filename dirheader).

Definition storeDirheader (dirheader : dirheader_t) : M IttyZip unit :=
  modify (fun z =>
    {| num_files := num_files z; out_file := out_file z; opened := opened z;
       next_offset := next_offset z;
       central_directory := central_directory z ++ dirheader_bytes dirheader;
       filenames := filenames z |}).

Definition add_next_offset (n : Z) : M IttyZip unit :=
  modify (fun z =>
    {| num_files := num_files z; out_file := out_file z; opened := opened z;
       next_offset := u32 (next_offset z + n);
       central_directory := central_directory z; filenames := filenames z |}).

Definition filenames_insert (name : string) : M IttyZip bool :=
  fun z =>
    let '(s, inserted) := set_insert String.ltb name (filenames z) in
    (Ok inserted,
     {| num_files := num_files z; out_file := out_file z; opened := opened z;
        next_offset := next_offset z; central_directory := central_directory z;
        filenames := s |}).

Definition addFile (P : platform) (filename contents : string) : M IttyZip unit :=
  check_output ;;
  let file_crc32 := crc32 contents in
  file_headers <- generateHeaders P filename (u32 (strlen contents)) file_crc32 ;;
  ins_ret <- filenames_insert (lh_filename (fst file_headers)) ;;
  if negb ins_ret then throw (std_exception DUPLICATE_FILE_MESG)
  else
    storeDirheader (snd file_headers) ;;
    written <- writeLocalheader P (fst file_headers) ;;
    add_next_offset written ;;
    write P contents ;;
    add_next_offset (u32 (strlen contents)) ;;
    modify (fun z =>
      {| num_files := u16 (num_files z + 1); out_file := out_file z; opened := opened z;
         next_offset := next_offset z; central_directory := central_directory z;
         filenames := filenames z |}).

Definition generateEndRecord : M IttyZip endrecord_t :=
  gets (fun z =>
    {| er_signature := 0x06054b50;
       er_disk_number := 0;
       er_dir_start_disk_number := 0;
       er_this_disk_entries := num_files z;
       er_total_entries := num_files z;
       er_central_dir_size := u32 (strlen (central_directory z));
       er_central_dir_offset := next_offset z;
       er_comment_length := 0 |}).

Definition writeEndRecord (P : platform) (end_record : endrecord_t) : M IttyZip unit :=
  check_output ;;
  write P (uint32_to_buffer (er_signature end_record)) ;;
  write P (uint16_to_buffer (er_disk_number end_record)) ;;
  write P (uint16_to_buffer (er_dir_start_disk_number end_record)) ;;
  write P (uint16_to_buffer (er_this_disk_entries end_record)) ;;
  write P (uint16_to_buffer (er_total_entries end_record)) ;;
  write P (uint32_to_buffer (er_central_dir_size end_record)) ;;
  write P (uint32_to_buffer (er_central_dir_offset end_record)) ;;
  write P (uint16_to_buffer (er_comment_length end_record)).

Definition finalize (P : platform) : M IttyZip unit :=
  fun z =>
    if (num_files z =? 0) || (next_offset z =? 0) || (strlen (central_directory z) =? 0)
    then (Throw (std_exception EMPTY_FINALIZE_MESG), z)
    else
      (check_output ;;
       write P (central_directory z) ;;
       end_record <- generateEndRecord ;;
       writeEndRecord P end_record ;;
       modify (fun z =>
         {| num_files := 0; out_file := ofstream_close (out_file z); opened := false;
            next_offset := 0; central_directory := ""; filenames := filenames z |})) z.

End IttyZip.

(** ** BasicWorkbook: cell references *)

Module BasicWorkbook.

Definition MAX_ROW : Z := 1048576.
Definition MAX_COL : Z := 16384.

Record integerref_t : Type := { row : Z; col : Z }.

(** [column_to_integer]: the loop over all characters but the last, then
    the last character. [integer] is a [uint32_t]. *)
Fixpoint column_to_integer_loop (column : string) (integer : Z) : result Z :=
  match column with
  | EmptyString => Ok integer
  | String c rest =>
      match rest with
      | EmptyString =>
          let last_char := toupper c in
          if negb (isupper last_char)
          then Throw (invalid_argument "column_to_integer() received non-alphabetic input character.")
          else
            let integer := u32 (integer + u32 (code last_char - 64)) in
            if integer >? MAX_COL
            then Throw (invalid_argument "column_to_integer() received a too large column index.")
            else Ok integer
      | String _ _ =>
          let this_char := toupper c in
          if negb (isupper this_char)
          then Throw (invalid_argument "column_to_integer() received non-alphabetic input character.")
          else column_to_integer_loop rest
                 (u32 (26 * u32 (u32 (integer + code this_char) - 64)))
      end
  end.

Definition column_to_integer (column : string) : result Z :=
  match column with
  | EmptyString => Throw (invalid_argument "column_to_integer() received empty input string.")
  | String _ _ => column_to_integer_loop column 0
  end.

(** The [while (integer > 0u)] loop of [integer_to_column]. The fuel is
    the value of [integer] on entry, which is never used up
    ([integer_to_column_loop_fuel]). *)
Fixpoint integer_to_column_loop (fuel : nat) (integer : Z) (column : string) : string :=
  if integer >? 0 then
    match fuel with
    | O => column
    | S fuel' =>
        let remainder := integer mod 26 in
        let integer := u32 (integer - 1) in
        let integer := integer / 26 in
        if remainder =? 0
        then integer_to_column_loop fuel' integer (String "Z" column)
        else integer_to_column_loop fuel' integer (String (char_of (u32 (remainder + 64))) column)
    end
  else column.

Definition integer_to_column (integer : Z) : result string :=
  if integer =? 0
  then Throw (invalid_argument "integer_to_column() received an input of 0.")
  else if integer >? MAX_COL
  then Throw (invalid_argument "integer_to_column() received a too large column index.")
  else Ok (integer_to_column_loop (Z.to_nat integer) integer "").

Definition invalid_mixedref : exn :=
  invalid_argument "mixedref_to_integerref() received an invalid cell reference.".

(** The scanning loop of [mixedref_to_integerref]; [row_start] is [None]
    for [std::string::npos], which it no longer is once a digit is found. *)
Fixpoint mixedref_scan (s : string) (jChar : nat)
    (found_first_alpha found_first_decimal : bool) (row_start : option nat)
  : result (bool * bool * option nat) :=
  match s with
  | EmptyString => Ok (found_first_alpha, found_first_decimal, row_start)
  | String this_char s' =>
      if isalpha this_char then
        if found_first_decimal then Throw invalid_mixedref
        else mixedref_scan s' (S jChar) true found_first_decimal row_start
      else if isdigit this_char then
        if negb found_first_alpha then Throw invalid_mixedref
        else mixedref_scan s' (S jChar) found_first_alpha true
               (if negb found_first_decimal then Some jChar else row_start)
      else Throw invalid_mixedref
  end.

Definition mixedref_to_integerref (mixedref : string) : result integerref_t :=
  rbind (mixedref_scan mixedref 0%nat false false None) (fun '(found_first_alpha, found_first_decimal, row_start) =>
  if negb found_first_alpha || negb found_first_decimal then Throw invalid_mixedref
  else
    match row_start with
    | None => Throw invalid_mixedref
    | Some row_start =>
        let column_str := substring 0 row_start mixedref in
        rbind (column_to_integer column_str) (fun col_ =>
        match stoll (substring row_start (String.length mixedref - row_start) mixedref) with
        | stoll_invalid_argument => Throw invalid_mixedref
        | stoll_out_of_range => Throw invalid_mixedref
        | stoll_value row_decode after_int =>
            if negb (Nat.eqb after_int (String.length mixedref - row_start))
               || (row_decode <? 1) || (row_decode >? MAX_ROW)
            then Throw invalid_mixedref
            else Ok {| row := u32 row_decode; col := col_ |}
        end)
    end).

Definition integerref_to_mixedref (integerref : integerref_t) : result string :=
  if (col integerref <? 1) || (col integerref >? MAX_COL)
     || (row integerref <? 1) || (row integerref >? MAX_ROW)
  then Throw (invalid_argument "integerref_to_mixedref() received an invalid cell reference.")
  else rbind (integer_to_column (col integerref)) (fun column =>
       Ok (column ++ to_string (row integerref))).

(** The overload taking the row and the column separately. *)
Definition integerref_to_mixedref_rc (row_ col_ : Z) : result string :=
  integerref_to_mixedref {| row := row_; col := col_ |}.


(** *** Cells, styles and sheets *)

Definition MIN_COL_WIDTH : float := 0%float.
Definition MAX_COL_WIDTH : float := 255%float.

(** The limits of BasicWorkbook.h that the source files at hand use but do
    not define: they are parameters of the model. *)
Record limits : Type := {
  MAX_FORMULA_LEN : Z;
  MAX_STRING_LEN : Z;
  MAX_STRING_LINE_BREAKS : Z;
  MIN_ROW_HEIGHT : float;
  MAX_ROW_HEIGHT : float
}.

Inductive CellType : Type := NUMBER | FORMULA | STRING | EMPTY.

Module NumberFormat.
Inductive t : Type :=
  | GENERAL | TEXT | FIX0 | FIX1 | FIX2 | FIX3 | FIX4 | FIX5 | FIX6
  | FIX7 | FIX8 | FIX9 | FIX10 | FIX11 | FIX12 | FIX13 | FIX14 | FIX15
  | FIX16 | SCI0 | SCI1 | SCI2 | SCI3 | SCI4 | SCI5 | SCI6 | SCI7
  | SCI8 | SCI9 | SCI10 | SCI11 | SCI12 | SCI13 | SCI14 | SCI15 | SCI16
  | PCT0 | PCT1 | PCT2 | PCT3 | PCT4 | PCT5 | PCT6 | PCT7 | PCT8
  | PCT9 | PCT10 | PCT11 | PCT12 | PCT13 | PCT14 | PCT15 | PCT16.

(** The underlying [uint8_t] value. *)
Definition code (f : t) : Z :=
  match f with
  | GENERAL => 0 | TEXT => 49 | FIX0 => 100 | FIX1 => 101 | FIX2 => 102
  | FIX3 => 103 | FIX4 => 104 | FIX5 => 105 | FIX6 => 106 | FIX7 => 107
  | FIX8 => 108 | FIX9 => 109 | FIX10 => 110 | FIX11 => 111 | FIX12 => 112
  | FIX13 => 113 | FIX14 => 114 | FIX15 => 115 | FIX16 => 116 | SCI0 => 117
  | SCI1 => 118 | SCI2 => 119 | SCI3 => 120 | SCI4 => 121 | SCI5 => 122
  | SCI6 => 123 | SCI7 => 124 | SCI8 => 125 | SCI9 => 126 | SCI10 => 127
  | SCI11 => 128 | SCI12 => 129 | SCI13 => 130 | SCI14 => 131 | SCI15 => 132
  | SCI16 => 133 | PCT0 => 134 | PCT1 => 135 | PCT2 => 136 | PCT3 => 137
  | PCT4 => 138 | PCT5 => 139 | PCT6 => 140 | PCT7 => 141 | PCT8 => 142
  | PCT9 => 143 | PCT10 => 144 | PCT11 => 145 | PCT12 => 146 | PCT13 => 147
  | PCT14 => 148 | PCT15 => 149 | PCT16 => 150
  end.

Definition eqb (a b : t) : bool := code a =? code b.
End NumberFormat.

Module HorizontalAlignment.
Inductive t : Type := GENERAL | LEFT | CENTER | RIGHT.
Definition eqb (a b : t) : bool :=
  match a, b with
  | GENERAL, GENERAL | LEFT, LEFT | CENTER, CENTER | RIGHT, RIGHT => true
  | _, _ => false
  end.
End HorizontalAlignment.

Module VerticalAlignment.
Inductive t : Type := BOTTOM | CENTER | TOP.
Definition eqb (a b : t) : bool :=
  match a, b with
  | BOTTOM, BOTTOM | CENTER, CENTER | TOP, TOP => true
  | _, _ => false
  end.
End VerticalAlignment.

Record cell_style_t : Type := {
  num_format : NumberFormat.t;
  horiz_align : HorizontalAlignment.t;
  vert_align : VerticalAlignment.t;
  wrap_text : bool;
  bold : bool
}.

Definition generic_style : cell_style_t :=
  {| num_format := NumberFormat.GENERAL; horiz_align := HorizontalAlignment.GENERAL;
     vert_align := VerticalAlignment.BOTTOM; wrap_text := false; bold := false |}.
Definition generic_string_style : cell_style_t :=
  {| num_format := NumberFormat.TEXT; horiz_align := HorizontalAlignment.GENERAL;
     vert_align := VerticalAlignment.BOTTOM; wrap_text := false; bold := false |}.

Record cell_t : Type := {
  integerref : integerref_t;
  type : CellType;
  style_index : Z;
  num_val : float;
  str_fml_val : string
}.

Record merged_cell_t : Type := { start_ref : integerref_t; end_ref : integerref_t }.

Definition cell_sort_compare (a b : cell_t) : bool :=
  (row (integerref a) <? row (integerref b))
  || ((row (integerref a) =? row (integerref b))
      && (col (integerref a) <? col (integerref b))).

Definition merged_cell_sort_compare (a b : merged_cell_t) : bool :=
  (row (start_ref a) <? row (start_ref b))
  || ((row (start_ref a) =? row (start_ref b))
      && (col (start_ref a) <? col (start_ref b))).

Definition column_widths_sort_compare (a b : Z * float) : bool := fst a <? fst b.
Definition row_heights_sort_compare (a b : Z * float) : bool := fst a <? fst b.

(** [operator==] on [cell_style_t]. *)
Definition cell_style_eq (lhs rhs : cell_style_t) : bool :=
  NumberFormat.eqb (num_format lhs) (num_format rhs)
  && HorizontalAlignment.eqb (horiz_align lhs) (horiz_align rhs)
  && VerticalAlignment.eqb (vert_align lhs) (vert_align rhs)
  && Bool.eqb (wrap_text lhs) (wrap_text rhs)
  && Bool.eqb (bold lhs) (bold rhs).

Fixpoint case_insensitive_same_loop (a b : string) : bool :=
  match a, b with
  | String x a', String y b' =>
      if negb (code (tolower x) =? code (tolower y)) then false
      else case_insensitive_same_loop a' b'
  | _, _ => true
  end.

Definition case_insensitive_same (a b : string) : bool :=
  if negb (Nat.eqb (String.length a) (String.length b)) then false
  else case_insensitive_same_loop a b.

Record Sheet : Type := {
  name : string;
  filename : string;
  sheetId : Z;
  relId : string;
  used_columns : list Z;
  column_widths : list (Z * float);
  row_heights : list (Z * float);
  cells : list cell_t;
  merged_cells : list merged_cell_t
}.

(** The private constructor [Sheet(name_, filename_, sheetId_, relId_, workbook_)]. *)
Definition Sheet_new (name_ filename_ : string) (sheetId_ : Z) (relId_ : string) : Sheet :=
  {| name := name_; filename := filename_; sheetId := sheetId_; relId := relId_;
     used_columns := []; column_widths := []; row_heights := [];
     cells := []; merged_cells := [] |}.

Definition set_used_columns (v : list Z) (s : Sheet) : Sheet :=
  {| name := name s; filename := filename s; sheetId := sheetId s; relId := relId s;
     used_columns := v; column_widths := column_widths s; row_heights := row_heights s;
     cells := cells s; merged_cells := merged_cells s |}.
Definition set_column_widths (v : list (Z * float)) (s : Sheet) : Sheet :=
  {| name := name s; filename := filename s; sheetId := sheetId s; relId := relId s;
     used_columns := used_columns s; column_widths := v; row_heights := row_heights s;
     cells := cells s; merged_cells := merged_cells s |}.
Definition set_row_heights (v : list (Z * float)) (s : Sheet) : Sheet :=
  {| name := name s; filename := filename s; sheetId := sheetId s; relId := relId s;
     used_columns := used_columns s; column_widths := column_widths s; row_heights := v;
     cells := cells s; merged_cells := merged_cells s |}.
Definition set_cells (v : list cell_t) (s : Sheet) : Sheet :=
  {| name := name s; filename := filename s; sheetId := sheetId s; relId := relId s;
     used_columns := used_columns s; column_widths := column_widths s;
     row_heights := row_heights s; cells := v; merged_cells := merged_cells s |}.
Definition set_merged_cells (v : list merged_cell_t) (s : Sheet) : Sheet :=
  {| name := name s; filename := filename s; sheetId := sheetId s; relId := relId s;
     used_columns := used_columns s; column_widths := column_widths s;
     row_heights := row_heights s; cells := cells s; merged_cells := v |}.

(** *** The style catalog of the workbook *)

(** [std::find] over the catalog: the index of the first equal style. *)
Fixpoint find_style (cell_style : cell_style_t) (cell_styles : list cell_style_t) (i : Z)
  : option Z :=
  match cell_styles with
  | [] => None
  | st :: rest =>
      if cell_style_eq st cell_style then Some i
      else find_style cell_style rest (i + 1)
  end.

(** [Workbook::addStyle] on the catalog [cell_styles]. *)
Definition addStyle (cell_style : cell_style_t) (cell_styles : list cell_style_t)
  : Z * list cell_style_t :=
  match find_style cell_style cell_styles 0 with
  | None =>
      let cell_styles' := (cell_styles ++ [cell_style])%list in
      (Z.of_nat (List.length cell_styles') - 1, cell_styles')
  | Some i => (i, cell_styles)
  end.

(** *** Sheet methods *)

(** What a [Sheet] method reads and writes: the sheet itself and, through
    its [workbook] reference (used solely to call [addStyle]), the style
    catalog of the workbook that owns it. *)
Record sheet_state : Type := {
  workbook_cell_styles : list cell_style_t;
  sheet : Sheet
}.

Definition on_this (f : Sheet -> Sheet) (st : sheet_state) : sheet_state :=
  {| workbook_cell_styles := workbook_cell_styles st; sheet := f (sheet st) |}.

Definition workbook_addStyle (cell_style : cell_style_t) : M sheet_state Z :=
  fun st =>
    let '(i, cell_styles') := addStyle cell_style (workbook_cell_styles st) in
    (Ok i, {| workbook_cell_styles := cell_styles'; sheet := sheet st |}).

(** [cells.insert(std::move(cell))], giving [insret.second]. *)
Definition cells_insert (cell : cell_t) : M sheet_state bool :=
  fun st =>
    let '(s, inserted) := set_insert cell_sort_compare cell (cells (sheet st)) in
    (Ok inserted, on_this (set_cells s) st).

Definition used_columns_insert (c : Z) : M sheet_state unit :=
  modify (on_this (fun s => set_used_columns (fst (set_insert Z.ltb c (used_columns s))) s)).

Definition merged_cells_insert (m : merged_cell_t) : M sheet_state unit :=
  modify (on_this (fun s =>
    set_merged_cells (fst (set_insert merged_cell_sort_compare m (merged_cells s))) s)).

Definition invalid_ref (r : integerref_t) : bool :=
  (col r <? 1) || (col r >? MAX_COL) || (row r <? 1) || (row r >? MAX_ROW).

(** [std::count(value.begin(), value.end(), '\n')]. *)
Fixpoint count_line_breaks (value : string) : Z :=
  match value with
  | EmptyString => 0
  | String c value' => (if code c =? 10 then 1 else 0) + count_line_breaks value'
  end.

(** A [for] loop over a list of values; a throw in the body leaves the loop. *)
Fixpoint for_each {S T : Type} (l : list T) (body : T -> M S unit) : M S unit :=
  match l with
  | [] => ret tt
  | x :: l' => body x ;; for_each l' body
  end.

(** The values of [for (uint32_t j = lo; j <= hi; j++)] when [hi] is below
    the largest [uint32_t], as it is after the bounds checks. *)
Definition range (lo hi : Z) : list Z :=
  map (fun k => lo + Z.of_nat k) (seq 0 (Z.to_nat (hi + 1 - lo))).

Section WithLimits.
Context (L : limits).

Definition add_number_cell (integerref_ : integerref_t) (number : float)
    (cell_style : cell_style_t) : M sheet_state unit :=
  if invalid_ref integerref_
  then throw (invalid_argument "add_number_cell() received an invalid cell reference.")
  else
    index <- workbook_addStyle cell_style ;;
    let cell := {| integerref := integerref_; type := NUMBER; style_index := index;
                   num_val := number; str_fml_val := "" |} in
    insret <- cells_insert cell ;;
    if negb insret
    then throw (runtime_error "add_number_cell() encountered duplicate insertion of a cell at the same reference.")
    else used_columns_insert (col integerref_).

Definition add_formula_cell (integerref_ : integerref_t) (formula : string)
    (cell_style : cell_style_t) : M sheet_state unit :=
  if invalid_ref integerref_
  then throw (invalid_argument "add_formula_cell() received an invalid cell reference.")
  else if strlen formula >? MAX_FORMULA_LEN L
  then throw (invalid_argument "the formula supplied to add_formula_cell() is too long.")
  else
    index <- workbook_addStyle cell_style ;;
    let cell := {| integerref := integerref_; type := FORMULA; style_index := index;
                   num_val := nan; str_fml_val := formula |} in
    insret <- cells_insert cell ;;
    if negb insret
    then throw (runtime_error "add_formula_cell() encountered duplicate insertion of a cell at the same reference.")
    else used_columns_insert (col integerref_).

Definition add_string_cell (integerref_ : integerref_t) (value : string)
    (cell_style : cell_style_t) : M sheet_state unit :=
  if invalid_ref integerref_
  then throw (invalid_argument "add_string_cell() received an invalid cell reference.")
  else if strlen value >? MAX_STRING_LEN L
  then throw (invalid_argument "the string value supplied to add_string_cell() is too long.")
  else if count_line_breaks value >? MAX_STRING_LINE_BREAKS L
  then throw (invalid_argument "the string value supplied to add_string_cell() contains too many line breaks.")
  else
    index <- workbook_addStyle cell_style ;;
    let cell := {| integerref := integerref_; type := STRING; style_index := index;
                   num_val := nan; str_fml_val := value |} in
    insret <- cells_insert cell ;;
    if negb insret
    then throw (runtime_error "add_string_cell() encountered duplicate insertion of a cell at the same reference.")
    else used_columns_insert (col integerref_).

Definition add_empty_cell (integerref_ : integerref_t) (cell_style : cell_style_t)
  : M sheet_state unit :=
  if invalid_ref integerref_
  then throw (invalid_argument "add_empty_cell() received an invalid cell reference.")
  else
    index <- workbook_addStyle cell_style ;;
    let cell := {| integerref := integerref_; type := EMPTY; style_index := index;
                   num_val := nan; str_fml_val := "" |} in
    insret <- cells_insert cell ;;
    if negb insret
    then throw (runtime_error "add_empty_cell() encountered duplicate insertion of a cell at the same reference.")
    else used_columns_insert (col integerref_).

(** The two nested [for] loops of the merged adds, then the insertion of
    the merge into [merged_cells]. *)
Definition add_merge_rest (start_ref_ end_ref_ : integerref_t) (cell_style : cell_style_t)
  : M sheet_state unit :=
  for_each (range (row start_ref_) (row end_ref_)) (fun jRow =>
    for_each (range (col start_ref_) (col end_ref_)) (fun jCol =>
      if (jRow =? row start_ref_) && (jCol =? col start_ref_) then ret tt
      else add_empty_cell {| row := jRow; col := jCol |} cell_style)) ;;
  merged_cells_insert {| start_ref := start_ref_; end_ref := end_ref_ |}.

(** The test of the merged adds on the two corners. *)
Definition end_not_after_start (start_ref_ end_ref_ : integerref_t) : bool :=
  (col start_ref_ >? col end_ref_) || (row start_ref_ >? row end_ref_)
  || ((col start_ref_ =? col end_ref_) && (row start_ref_ =? row end_ref_)).

Definition add_merged_number_cell (start_ref_ end_ref_ : integerref_t) (number : float)
    (cell_style : cell_style_t) : M sheet_state unit :=
  if invalid_ref start_ref_
  then throw (invalid_argument "add_merged_number_cell() received an invalid starting cell reference.")
  else if invalid_ref end_ref_
  then throw (invalid_argument "add_merged_number_cell() received an invalid ending cell reference.")
  else if end_not_after_start start_ref_ end_ref_
  then throw (invalid_argument "add_merged_number_cell() received an ending cell reference equal or prior to its starting cell reference.")
  else
    add_number_cell start_ref_ number cell_style ;;
    add_merge_rest start_ref_ end_ref_ cell_style.

Definition add_merged_formula_cell (start_ref_ end_ref_ : integerref_t) (formula : string)
    (cell_style : cell_style_t) : M sheet_state unit :=
  if invalid_ref start_ref_
  then throw (invalid_argument "add_merged_formula_cell() received an invalid starting cell reference.")
  else if invalid_ref end_ref_
  then throw (invalid_argument "add_merged_formula_cell() received an invalid ending cell reference.")
  else if end_not_after_start start_ref_ end_ref_
  then throw (invalid_argument "add_merged_formula_cell() received an ending cell reference equal or prior to its starting cell reference.")
  else
    add_formula_cell start_ref_ formula cell_style ;;
    add_merge_rest start_ref_ end_ref_ cell_style.

Definition add_merged_string_cell (start_ref_ end_ref_ : integerref_t) (value : string)
    (cell_style : cell_style_t) : M sheet_state unit :=
  if invalid_ref start_ref_
  then throw (invalid_argument "add_merged_string_cell() received an invalid starting cell reference.")
  else if invalid_ref end_ref_
  then throw (invalid_argument "add_merged_string_cell() received an invalid ending cell reference.")
  else if end_not_after_start start_ref_ end_ref_
  then throw (invalid_argument "add_merged_string_cell() received an ending cell reference equal or prior to its starting cell reference.")
  else
    add_string_cell start_ref_ value cell_style ;;
    add_merge_rest start_ref_ end_ref_ cell_style.

(** The overloads that take references in mixed form. *)
Definition add_number_cell_mixedref (mixedref : string) (number : float)
    (cell_style : cell_style_t) : M sheet_state unit :=
  integerref_ <- lift_result (mixedref_to_integerref mixedref) ;;
  add_number_cell integerref_ number cell_style.

Definition add_formula_cell_mixedref (mixedref formula : string)
    (cell_style : cell_style_t) : M sheet_state unit :=
  integerref_ <- lift_result (mixedref_to_integerref mixedref) ;;
  add_formula_cell integerref_ formula cell_style.

Definition add_string_cell_mixedref (mixedref value : string)
    (cell_style : cell_style_t) : M sheet_state unit :=
  integerref_ <- lift_result (mixedref_to_integerref mixedref) ;;
  add_string_cell integerref_ value cell_style.

Definition add_merged_number_cell_mixedref (start_ref_ end_ref_ : string) (number : float)
    (cell_style : cell_style_t) : M sheet_state unit :=
  int_start_ref <- lift_result (mixedref_to_integerref start_ref_) ;;
  int_end_ref <- lift_result (mixedref_to_integerref end_ref_) ;;
  add_merged_number_cell int_start_ref int_end_ref number cell_style.

Definition add_merged_formula_cell_mixedref (start_ref_ end_ref_ formula : string)
    (cell_style : cell_style_t) : M sheet_state unit :=
  int_start_ref <- lift_result (mixedref_to_integerref start_ref_) ;;
  int_end_ref <- lift_result (mixedref_to_integerref end_ref_) ;;
  add_merged_formula_cell int_start_ref int_end_ref formula cell_style.

Definition add_merged_string_cell_mixedref (start_ref_ end_ref_ value : string)
    (cell_style : cell_style_t) : M sheet_state unit :=
  int_start_ref <- lift_result (mixedref_to_integerref start_ref_) ;;
  int_end_ref <- lift_result (mixedref_to_integerref end_ref_) ;;
  add_merged_string_cell int_start_ref int_end_ref value cell_style.

Definition set_column_width (col_ : Z) (width : float) : M sheet_state unit :=
  if PrimFloat.ltb width MIN_COL_WIDTH || PrimFloat.ltb MAX_COL_WIDTH width
  then throw (invalid_argument "set_column_width() received invalid width argument.")
  else if (col_ <? 1) || (col_ >? MAX_COL)
  then throw (invalid_argument "set_column_width() received invalid col argument.")
  else
    modify (on_this (fun s =>
      set_column_widths
        (fst (set_insert column_widths_sort_compare (col_, width) (column_widths s))) s)).

Definition set_column_width_letters (column : string) (width : float) : M sheet_state unit :=
  col_ <- lift_result (column_to_integer column) ;;
  set_column_width col_ width.

Definition set_row_height (row_ : Z) (height : float) : M sheet_state unit :=
  if PrimFloat.ltb height (MIN_ROW_HEIGHT L) || PrimFloat.ltb (MAX_ROW_HEIGHT L) height
  then throw (invalid_argument "set_row_height() received invalid height argument.")
  else if (row_ <? 1) || (row_ >? MAX_ROW)
  then throw (invalid_argument "set_row_height() received invalid row argument.")
  else
    modify (on_this (fun s =>
      set_row_heights
        (fst (set_insert row_heights_sort_compare (row_, height) (row_heights s))) s)).

End WithLimits.

Definition get_name (s : Sheet) : string := name s.


(** *** Sheet::generate_file *)

Definition dq : string := String (char_of 34) "".

(** [std::string::substr(pos)]. *)
Definition substr (pos : nat) (s : string) : string :=
  substring pos (String.length s - pos) s.

(** The elements that [generate_file] writes inside [<cols>], [<sheetData>]
    and [<mergeCells>], in the order it writes them. *)
Inductive sheet_event : Type :=
| col_custom (used_col : Z) (width : float)
| col_best_fit (used_col : Z)
| row_close
| row_open (this_row : Z) (height : option float)
| cell_element (this_cell : cell_t) (mixedref : string)
| merge_element (start_mixedref end_mixedref : string).

(** The text appended to [file] for each element. *)
Definition render_event (P : platform) (e : sheet_event) : string :=
  match e with
  | col_custom used_col width =>
      let colnum := to_string used_col in
      "<col min=" ++ dq ++ colnum ++ dq ++ " max=" ++ dq ++ colnum ++ dq ++ " width=" ++ dq ++ to_string_double P width ++ dq ++ " customWidth=" ++ dq ++ "1" ++ dq ++ "/>"
  | col_best_fit used_col =>
      let colnum := to_string used_col in
      "<col min=" ++ dq ++ colnum ++ dq ++ " max=" ++ dq ++ colnum ++ dq ++ " width=" ++ dq ++ "9.005" ++ dq ++ " bestFit=" ++ dq ++ "1" ++ dq ++ "/>"
  | row_close => "</row>"
  | row_open this_row height =>
      "<row r=" ++ dq ++ to_string this_row ++ dq
      ++ match height with
         | Some ht => " ht=" ++ dq ++ to_string_double P ht ++ dq ++ " customHeight=" ++ dq ++ "1" ++ dq
         | None => ""
         end
      ++ ">"
  | cell_element this_cell mixedref =>
      match type this_cell with
      | NUMBER =>
          "<c r=" ++ dq ++ mixedref ++ dq
          ++ " s=" ++ dq ++ to_string (style_index this_cell) ++ dq
          ++ "><v>" ++ to_string_double P (num_val this_cell) ++ "</v></c>"
      | FORMULA =>
          "<c r=" ++ dq ++ mixedref ++ dq
          ++ " s=" ++ dq ++ to_string (style_index this_cell) ++ dq
          ++ "><f>" ++ str_fml_val this_cell ++ "</f></c>"
      | STRING =>
          "<c r=" ++ dq ++ mixedref ++ dq
          ++ " s=" ++ dq ++ to_string (style_index this_cell) ++ dq ++ " "
          ++ "t=" ++ dq ++ "inlineStr" ++ dq ++ "><is><t>" ++ str_fml_val this_cell ++ "</t></is></c>"
      | EMPTY =>
          "<c r=" ++ dq ++ mixedref ++ dq
          ++ " s=" ++ dq ++ to_string (style_index this_cell) ++ dq ++ "/>"
      end
  | merge_element start_mixedref end_mixedref =>
      "<mergeCell ref=" ++ dq ++ start_mixedref ++ ":" ++ end_mixedref ++ dq ++ "/>"
  end.


Definition render_events (P : platform) (es : list sheet_event) : string :=
  String.concat "" (map (render_event P) es).

(** The loop over [used_columns]. *)
Definition cols_events (s : Sheet) : list sheet_event :=
  map (fun used_col =>
         match set_find column_widths_sort_compare (used_col, 0%float) (column_widths s) with
         | Some col_widths => col_custom used_col (snd col_widths)
         | None => col_best_fit used_col
         end)
      (used_columns s).

(** The loop over [cells]; [this_row] is the row of the [<row>] element that
    is open, 0 when none is. *)
Fixpoint sheetData_loop (row_heights_ : list (Z * float)) (cells_ : list cell_t)
    (this_row : Z) : result (list sheet_event) :=
  match cells_ with
  | [] => Ok []
  | this_cell :: rest =>
      let new_row := row (integerref this_cell) >? this_row in
      let opening :=
        if new_row then
          ((if this_row >? 0 then [row_close] else [])
           ++ [row_open (row (integerref this_cell))
                 (option_map snd
                    (set_find row_heights_sort_compare
                       (row (integerref this_cell), 0%float) row_heights_))])%list
        else [] in
      let this_row := if new_row then row (integerref this_cell) else this_row in
      rbind (integerref_to_mixedref (integerref this_cell)) (fun mixedref =>
      rbind (sheetData_loop row_heights_ rest this_row) (fun es =>
      Ok (opening ++ cell_element this_cell mixedref :: es)%list))
  end.

(** The elements between [<sheetData>] and [</sheetData>] of a sheet with
    cells: those of the loop, then the [</row>] that closes the last row. *)
Definition sheetData_events (s : Sheet) : result (list sheet_event) :=
  rbind (sheetData_loop (row_heights s) (cells s) 0) (fun es =>
  Ok (es ++ [row_close])%list).

Fixpoint mergeCells_events (merged_cells_ : list merged_cell_t) : result (list sheet_event) :=
  match merged_cells_ with
  | [] => Ok []
  | this_merge :: rest =>
      rbind (integerref_to_mixedref (start_ref this_merge)) (fun start_mixedref =>
      rbind (integerref_to_mixedref (end_ref this_merge)) (fun end_mixedref =>
      rbind (mergeCells_events rest) (fun es =>
      Ok (merge_element start_mixedref end_mixedref :: es))))
  end.

(** The text of [file] up to and including [</cols>]. *)
Definition worksheet_head (P : platform) (s : Sheet) : string :=
    "<?xml version=" ++ dq ++ "1.0" ++ dq ++ " encoding=" ++ dq ++ "UTF-8" ++ dq ++ " standalone=" ++ dq ++ "yes" ++ dq ++ "?>"
    ++ "<worksheet xmlns=" ++ dq ++ "http://schemas.openxmlformats.org/spreadsheetml/2006/main" ++ dq ++ " xmlns:r=" ++ dq ++ "http://schemas.openxmlformats.org/officeDocument/2006/relationships" ++ dq ++ " xmlns:mc=" ++ dq ++ "http://schemas.openxmlformats.org/markup-compatibility/2006" ++ dq ++ ">"
    ++ "<sheetViews><sheetView workbookViewId=" ++ dq ++ "0" ++ dq ++ "/></sheetViews>"
    ++ "<sheetFormatPr defaultRowHeight=" ++ dq ++ "17" ++ dq ++ "/>"
    ++ "<cols>" ++ render_events P (cols_events s) ++ "</cols>".

(** The text appended for the cells: [<sheetData/>] when there is no cell. *)
Definition sheetData_section (P : platform) (s : Sheet) : result string :=
  match cells s with
  | [] => Ok "<sheetData/>"
  | _ :: _ =>
      rbind (sheetData_events s) (fun es =>
      Ok ("<sheetData>" ++ render_events P es ++ "</sheetData>"))
  end.

(** The text appended for the merges: nothing when there is no merge. *)
Definition mergeCells_section (P : platform) (s : Sheet) : result string :=
  match merged_cells s with
  | [] => Ok ""
  | _ :: _ =>
      rbind (mergeCells_events (merged_cells s)) (fun es =>
      Ok ("<mergeCells count=" ++ dq ++ to_string (Z.of_nat (List.length (merged_cells s))) ++ dq ++ ">"
          ++ render_events P es ++ "</mergeCells>"))
  end.

(** [Sheet::generate_file]. The method is [noexcept]: a [Throw] here is an
    exception of [integerref_to_mixedref] that would end the program. *)
Definition generate_file (P : platform) (s : Sheet) : result string :=
  rbind (sheetData_section P s) (fun data =>
  rbind (mergeCells_section P s) (fun merges =>
  Ok (worksheet_head P s ++ data ++ merges ++ "</worksheet>"))).

(** *** Workbook *)

Record Workbook : Type := {
  sheets : list Sheet;
  cell_styles : list cell_style_t;
  archive : IttyZip.IttyZip
}.

(** [Workbook(void)]. *)
Definition Workbook_new : Workbook :=
  {| sheets := []; cell_styles := []; archive := IttyZip.IttyZip_default |}.

Definition set_sheets (v : list Sheet) (wb : Workbook) : Workbook :=
  {| sheets := v; cell_styles := cell_styles wb; archive := archive wb |}.

(** A method of the [archive] member. *)
Definition on_archive {A : Type} (m : M IttyZip.IttyZip A) : M Workbook A :=
  fun wb =>
    let '(r, z) := m (archive wb) in
    (r, {| sheets := sheets wb; cell_styles := cell_styles wb; archive := z |}).

(** A method of the sheet at index [j] of [sheets], the sheet that a
    [Sheet&] handle refers to; [None] when there is no such sheet. *)
Definition on_sheet {A : Type} (j : nat) (m : M sheet_state A) (wb : Workbook)
  : option (result A * Workbook) :=
  match nth_error (sheets wb) j with
  | None => None
  | Some s =>
      let '(r, st) := m {| workbook_cell_styles := cell_styles wb; sheet := s |} in
      Some (r, {| sheets := (firstn j (sheets wb) ++ sheet st :: skipn (S j) (sheets wb))%list;
                  cell_styles := workbook_cell_styles st; archive := archive wb |})
  end.

(** [std::vector::back] and [pop_back]. *)
Definition back {T : Type} (l : list T) : option T :=
  match rev l with
  | [] => None
  | x :: _ => Some x
  end.
Definition pop_back {T : Type} (l : list T) : list T := removelast l.

(** [Workbook::addSheet]; the result is the index in [sheets] of the new
    sheet, to which the returned reference refers. *)
Definition addSheet (name_ : string) : M Workbook nat :=
  fun wb =>
    if Nat.eqb (String.length name_) 0
    then (Throw (invalid_argument "addsheet() received an empty name for a new sheet."), wb)
    else if existsb (fun s => case_insensitive_same name_ (get_name s)) (sheets wb)
    then (Throw (runtime_error "addSheet() received a new sheet with the same name as an existing sheet."), wb)
    else
      let sheetId_ := u32 (Z.of_nat (List.length (sheets wb)) + 1) in
      let sheet_filename := "xl/worksheets/sheet" ++ to_string sheetId_ ++ ".xml" in
      let sheet_relId := "rId" ++ to_string (u32 (sheetId_ + 1)) in
      (Ok (List.length (sheets wb)),
       set_sheets (sheets wb ++ [Sheet_new name_ sheet_filename sheetId_ sheet_relId])%list wb).

(** [Workbook::addStyle] as a method of the workbook. *)
Definition Workbook_addStyle (cell_style : cell_style_t) : M Workbook Z :=
  fun wb =>
    let '(i, cell_styles') := addStyle cell_style (cell_styles wb) in
    (Ok i, {| sheets := sheets wb; cell_styles := cell_styles'; archive := archive wb |}).

(** *** The parts written by [Workbook::publish] *)

(** [[Content_Types].xml]. *)
Definition content_types_xml (wb : Workbook) : string :=
  String.concat "" [
    "<?xml version=" ++ dq ++ "1.0" ++ dq ++ " encoding=" ++ dq ++ "UTF-8" ++ dq ++ " standalone=" ++ dq ++ "yes" ++ dq ++ "?>";
    "<Types xmlns=" ++ dq ++ "http://schemas.openxmlformats.org/package/2006/content-types" ++ dq ++ ">";
    "<Default Extension=" ++ dq ++ "rels" ++ dq ++ " ContentType=" ++ dq ++ "application/vnd.openxmlformats-package.relationships+xml" ++ dq ++ "/>";
    "<Default Extension=" ++ dq ++ "xml" ++ dq ++ " ContentType=" ++ dq ++ "application/xml" ++ dq ++ "/>";
    "<Override PartName=" ++ dq ++ "/xl/workbook.xml" ++ dq ++ " ContentType=" ++ dq ++ "application/vnd.openxmlformats-officedocument.spreadsheetml.sheet.main+xml" ++ dq ++ "/>";
    String.concat "" (map (fun sheet_ => "<Override PartName=" ++ dq ++ "/" ++ filename sheet_ ++ dq ++ " ContentType=" ++ dq ++ "application/vnd.openxmlformats-officedocument.spreadsheetml.worksheet+xml" ++ dq ++ "/>") (sheets wb));
    "<Override PartName=" ++ dq ++ "/xl/styles.xml" ++ dq ++ " ContentType=" ++ dq ++ "application/vnd.openxmlformats-officedocument.spreadsheetml.styles+xml" ++ dq ++ "/>";
    "<Override PartName=" ++ dq ++ "/docProps/core.xml" ++ dq ++ " ContentType=" ++ dq ++ "application/vnd.openxmlformats-package.core-properties+xml" ++ dq ++ "/>";
    "<Override PartName=" ++ dq ++ "/docProps/app.xml" ++ dq ++ " ContentType=" ++ dq ++ "application/vnd.openxmlformats-officedocument.extended-properties+xml" ++ dq ++ "/>";
    "</Types>"
  ].

(** [_rels/.rels]. *)
Definition root_rels_xml : string :=
  String.concat "" [
    "<?xml version=" ++ dq ++ "1.0" ++ dq ++ " encoding=" ++ dq ++ "UTF-8" ++ dq ++ " standalone=" ++ dq ++ "yes" ++ dq ++ "?>";
    "<Relationships xmlns=" ++ dq ++ "http://schemas.openxmlformats.org/package/2006/relationships" ++ dq ++ ">";
    "<Relationship Id=" ++ dq ++ "rId3" ++ dq ++ " Type=" ++ dq ++ "http://schemas.openxmlformats.org/officeDocument/2006/relationships/extended-properties" ++ dq ++ " Target=" ++ dq ++ "docProps/app.xml" ++ dq ++ "/>";
    "<Relationship Id=" ++ dq ++ "rId2" ++ dq ++ " Type=" ++ dq ++ "http://schemas.openxmlformats.org/package/2006/relationships/metadata/core-properties" ++ dq ++ " Target=" ++ dq ++ "docProps/core.xml" ++ dq ++ "/>";
    "<Relationship Id=" ++ dq ++ "rId1" ++ dq ++ " Type=" ++ dq ++ "http://schemas.openxmlformats.org/officeDocument/2006/relationships/officeDocument" ++ dq ++ " Target=" ++ dq ++ "xl/workbook.xml" ++ dq ++ "/>";
    "</Relationships>"
  ].

(** [docProps/app.xml]. *)
Definition app_xml (wb : Workbook) : string :=
  String.concat "" [
    "<?xml version=" ++ dq ++ "1.0" ++ dq ++ " encoding=" ++ dq ++ "UTF-8" ++ dq ++ " standalone=" ++ dq ++ "yes" ++ dq ++ "?>";
    "<Properties xmlns=" ++ dq ++ "http://schemas.openxmlformats.org/officeDocument/2006/extended-properties" ++ dq ++ " xmlns:vt=" ++ dq ++ "http://schemas.openxmlformats.org/officeDocument/2006/docPropsVTypes" ++ dq ++ ">";
    "<Application>BasicWorkbook</Application>";
    "<AppVersion>1.0</AppVersion>";
    "<DocSecurity>0</DocSecurity>";
    "<ScaleCrop>false</ScaleCrop>";
    "<HeadingPairs>";
    "<vt:vector size=" ++ dq ++ "2" ++ dq ++ " baseType=" ++ dq ++ "variant" ++ dq ++ ">";
    "<vt:variant><vt:lpstr>Worksheets</vt:lpstr></vt:variant>";
    "<vt:variant><vt:i4>" ++ to_string (Z.of_nat (List.length (sheets wb))) ++ "</vt:i4></vt:variant>";
    "</vt:vector>";
    "</HeadingPairs>";
    "<TitlesOfParts>";
    "<vt:vector size=" ++ dq ++ to_string (Z.of_nat (List.length (sheets wb))) ++ dq ++ " baseType=" ++ dq ++ "lpstr" ++ dq ++ ">";
    String.concat "" (map (fun sheet_ => "<vt:lpstr>" ++ name sheet_ ++ "</vt:lpstr>") (sheets wb));
    "</vt:vector>";
    "</TitlesOfParts>";
    "<LinksUpToDate>false</LinksUpToDate>";
    "<SharedDoc>false</SharedDoc>";
    "<HyperlinksChanged>false</HyperlinksChanged>";
    "</Properties>"
  ].

(** [docProps/core.xml], given the time stamp. *)
Definition core_xml (time_string : string) : string :=
  String.concat "" [
    "<?xml version=" ++ dq ++ "1.0" ++ dq ++ " encoding=" ++ dq ++ "UTF-8" ++ dq ++ " standalone=" ++ dq ++ "yes" ++ dq ++ "?>";
    "<cp:coreProperties xmlns:cp=" ++ dq ++ "http://schemas.openxmlformats.org/package/2006/metadata/core-properties" ++ dq ++ " xmlns:dc=" ++ dq ++ "http://purl.org/dc/elements/1.1/" ++ dq ++ " xmlns:dcterms=" ++ dq ++ "http://purl.org/dc/terms/" ++ dq ++ " xmlns:dcmitype=" ++ dq ++ "http://purl.org/dc/dcmitype/" ++ dq ++ " xmlns:xsi=" ++ dq ++ "http://www.w3.org/2001/XMLSchema-instance" ++ dq ++ ">";
    "<dc:creator/>";
    "<cp:lastModifiedBy/>";
    "<dcterms:created xsi:type=" ++ dq ++ "dcterms:W3CDTF" ++ dq ++ ">" ++ time_string ++ "</dcterms:created>";
    "<dcterms:modified xsi:type=" ++ dq ++ "dcterms:W3CDTF" ++ dq ++ ">" ++ time_string ++ "</dcterms:modified>";
    "</cp:coreProperties>"
  ].

(** [xl/_rels/workbook.xml.rels]. *)
Definition workbook_rels_xml (wb : Workbook) : string :=
  String.concat "" [
    "<?xml version=" ++ dq ++ "1.0" ++ dq ++ " encoding=" ++ dq ++ "UTF-8" ++ dq ++ " standalone=" ++ dq ++ "yes" ++ dq ++ "?>";
    "<Relationships xmlns=" ++ dq ++ "http://schemas.openxmlformats.org/package/2006/relationships" ++ dq ++ ">";
    "<Relationship Id=" ++ dq ++ "rId1" ++ dq ++ " Type=" ++ dq ++ "http://schemas.openxmlformats.org/officeDocument/2006/relationships/styles" ++ dq ++ " Target=" ++ dq ++ "styles.xml" ++ dq ++ "/>";
    String.concat "" (map (fun sheet_ => "<Relationship Id=" ++ dq ++ relId sheet_ ++ dq ++ " Type=" ++ dq ++ "http://schemas.openxmlformats.org/officeDocument/2006/relationships/worksheet" ++ dq ++ " Target=" ++ dq ++ substr 3 (filename sheet_) ++ dq ++ "/>") (sheets wb));
    "</Relationships>"
  ].

(** [xl/styles.xml]. *)
Definition styles_xml (wb : Workbook) : string :=
  String.concat "" [
    "<?xml version=" ++ dq ++ "1.0" ++ dq ++ " encoding=" ++ dq ++ "UTF-8" ++ dq ++ " standalone=" ++ dq ++ "yes" ++ dq ++ "?>";
    "<styleSheet xmlns=" ++ dq ++ "http://schemas.openxmlformats.org/spreadsheetml/2006/main" ++ dq ++ " xmlns:mc=" ++ dq ++ "http://schemas.openxmlformats.org/markup-compatibility/2006" ++ dq ++ ">";
    "<numFmts count=" ++ dq ++ "51" ++ dq ++ ">";
    "<numFmt numFmtId=" ++ dq ++ "100" ++ dq ++ " formatCode=" ++ dq ++ "0" ++ dq ++ "/>";
    "<numFmt numFmtId=" ++ dq ++ "101" ++ dq ++ " formatCode=" ++ dq ++ "0.0" ++ dq ++ "/>";
    "<numFmt numFmtId=" ++ dq ++ "102" ++ dq ++ " formatCode=" ++ dq ++ "0.00" ++ dq ++ "/>";
    "<numFmt numFmtId=" ++ dq ++ "103" ++ dq ++ " formatCode=" ++ dq ++ "0.000" ++ dq ++ "/>";
    "<numFmt numFmtId=" ++ dq ++ "104" ++ dq ++ " formatCode=" ++ dq ++ "0.0000" ++ dq ++ "/>";
    "<numFmt numFmtId=" ++ dq ++ "105" ++ dq ++ " formatCode=" ++ dq ++ "0.00000" ++ dq ++ "/>";
    "<numFmt numFmtId=" ++ dq ++ "106" ++ dq ++ " formatCode=" ++ dq ++ "0.000000" ++ dq ++ "/>";
    "<numFmt numFmtId=" ++ dq ++ "107" ++ dq ++ " formatCode=" ++ dq ++ "0.0000000" ++ dq ++ "/>";
    "<numFmt numFmtId=" ++ dq ++ "108" ++ dq ++ " formatCode=" ++ dq ++ "0.00000000" ++ dq ++ "/>";
    "<numFmt numFmtId=" ++ dq ++ "109" ++ dq ++ " formatCode=" ++ dq ++ "0.000000000" ++ dq ++ "/>";
    "<numFmt numFmtId=" ++ dq ++ "110" ++ dq ++ " formatCode=" ++ dq ++ "0.0000000000" ++ dq ++ "/>";
    "<numFmt numFmtId=" ++ dq ++ "111" ++ dq ++ " formatCode=" ++ dq ++ "0.00000000000" ++ dq ++ "/>";
    "<numFmt numFmtId=" ++ dq ++ "112" ++ dq ++ " formatCode=" ++ dq ++ "0.000000000000" ++ dq ++ "/>";
    "<numFmt numFmtId=" ++ dq ++ "113" ++ dq ++ " formatCode=" ++ dq ++ "0.0000000000000" ++ dq ++ "/>";
    "<numFmt numFmtId=" ++ dq ++ "114" ++ dq ++ " formatCode=" ++ dq ++ "0.00000000000000" ++ dq ++ "/>";
    "<numFmt numFmtId=" ++ dq ++ "115" ++ dq ++ " formatCode=" ++ dq ++ "0.000000000000000" ++ dq ++ "/>";
    "<numFmt numFmtId=" ++ dq ++ "116" ++ dq ++ " formatCode=" ++ dq ++ "0.0000000000000000" ++ dq ++ "/>";
    "<numFmt numFmtId=" ++ dq ++ "117" ++ dq ++ " formatCode=" ++ dq ++ "0E+0" ++ dq ++ "/>";
    "<numFmt numFmtId=" ++ dq ++ "118" ++ dq ++ " formatCode=" ++ dq ++ "0.0E+0" ++ dq ++ "/>";
    "<numFmt numFmtId=" ++ dq ++ "119" ++ dq ++ " formatCode=" ++ dq ++ "0.00E+0" ++ dq ++ "/>";
    "<numFmt numFmtId=" ++ dq ++ "120" ++ dq ++ " formatCode=" ++ dq ++ "0.000E+0" ++ dq ++ "/>";
    "<numFmt numFmtId=" ++ dq ++ "121" ++ dq ++ " formatCode=" ++ dq ++ "0.0000E+0" ++ dq ++ "/>";
    "<numFmt numFmtId=" ++ dq ++ "122" ++ dq ++ " formatCode=" ++ dq ++ "0.00000E+0" ++ dq ++ "/>";
    "<numFmt numFmtId=" ++ dq ++ "123" ++ dq ++ " formatCode=" ++ dq ++ "0.000000E+0" ++ dq ++ "/>";
    "<numFmt numFmtId=" ++ dq ++ "124" ++ dq ++ " formatCode=" ++ dq ++ "0.0000000E+0" ++ dq ++ "/>";
    "<numFmt numFmtId=" ++ dq ++ "125" ++ dq ++ " formatCode=" ++ dq ++ "0.00000000E+0" ++ dq ++ "/>";
    "<numFmt numFmtId=" ++ dq ++ "126" ++ dq ++ " formatCode=" ++ dq ++ "0.000000000E+0" ++ dq ++ "/>";
    "<numFmt numFmtId=" ++ dq ++ "127" ++ dq ++ " formatCode=" ++ dq ++ "0.0000000000E+0" ++ dq ++ "/>";
    "<numFmt numFmtId=" ++ dq ++ "128" ++ dq ++ " formatCode=" ++ dq ++ "0.00000000000E+0" ++ dq ++ "/>";
    "<numFmt numFmtId=" ++ dq ++ "129" ++ dq ++ " formatCode=" ++ dq ++ "0.000000000000E+0" ++ dq ++ "/>";
    "<numFmt numFmtId=" ++ dq ++ "130" ++ dq ++ " formatCode=" ++ dq ++ "0.0000000000000E+0" ++ dq ++ "/>";
    "<numFmt numFmtId=" ++ dq ++ "131" ++ dq ++ " formatCode=" ++ dq ++ "0.00000000000000E+0" ++ dq ++ "/>";
    "<numFmt numFmtId=" ++ dq ++ "132" ++ dq ++ " formatCode=" ++ dq ++ "0.000000000000000E+0" ++ dq ++ "/>";
    "<numFmt numFmtId=" ++ dq ++ "133" ++ dq ++ " formatCode=" ++ dq ++ "0.0000000000000000E+0" ++ dq ++ "/>";
    "<numFmt numFmtId=" ++ dq ++ "134" ++ dq ++ " formatCode=" ++ dq ++ "0%" ++ dq ++ "/>";
    "<numFmt numFmtId=" ++ dq ++ "135" ++ dq ++ " formatCode=" ++ dq ++ "0.0%" ++ dq ++ "/>";
    "<numFmt numFmtId=" ++ dq ++ "136" ++ dq ++ " formatCode=" ++ dq ++ "0.00%" ++ dq ++ "/>";
    "<numFmt numFmtId=" ++ dq ++ "137" ++ dq ++ " formatCode=" ++ dq ++ "0.000%" ++ dq ++ "/>";
    "<numFmt numFmtId=" ++ dq ++ "138" ++ dq ++ " formatCode=" ++ dq ++ "0.0000%" ++ dq ++ "/>";
    "<numFmt numFmtId=" ++ dq ++ "139" ++ dq ++ " formatCode=" ++ dq ++ "0.00000%" ++ dq ++ "/>";
    "<numFmt numFmtId=" ++ dq ++ "140" ++ dq ++ " formatCode=" ++ dq ++ "0.000000%" ++ dq ++ "/>";
    "<numFmt numFmtId=" ++ dq ++ "141" ++ dq ++ " formatCode=" ++ dq ++ "0.0000000%" ++ dq ++ "/>";
    "<numFmt numFmtId=" ++ dq ++ "142" ++ dq ++ " formatCode=" ++ dq ++ "0.00000000%" ++ dq ++ "/>";
    "<numFmt numFmtId=" ++ dq ++ "143" ++ dq ++ " formatCode=" ++ dq ++ "0.000000000%" ++ dq ++ "/>";
    "<numFmt numFmtId=" ++ dq ++ "144" ++ dq ++ " formatCode=" ++ dq ++ "0.0000000000%" ++ dq ++ "/>";
    "<numFmt numFmtId=" ++ dq ++ "145" ++ dq ++ " formatCode=" ++ dq ++ "0.00000000000%" ++ dq ++ "/>";
    "<numFmt numFmtId=" ++ dq ++ "146" ++ dq ++ " formatCode=" ++ dq ++ "0.000000000000%" ++ dq ++ "/>";
    "<numFmt numFmtId=" ++ dq ++ "147" ++ dq ++ " formatCode=" ++ dq ++ "0.0000000000000%" ++ dq ++ "/>";
    "<numFmt numFmtId=" ++ dq ++ "148" ++ dq ++ " formatCode=" ++ dq ++ "0.00000000000000%" ++ dq ++ "/>";
    "<numFmt numFmtId=" ++ dq ++ "149" ++ dq ++ " formatCode=" ++ dq ++ "0.000000000000000%" ++ dq ++ "/>";
    "<numFmt numFmtId=" ++ dq ++ "150" ++ dq ++ " formatCode=" ++ dq ++ "0.0000000000000000%" ++ dq ++ "/>";
    "</numFmts>";
    "<fonts count=" ++ dq ++ "2" ++ dq ++ "><font>";
    "<sz val=" ++ dq ++ "12" ++ dq ++ "/>";
    "<color rgb=" ++ dq ++ "FF000000" ++ dq ++ "/>";
    "<name val=" ++ dq ++ "Calibri" ++ dq ++ "/>";
    "<family val=" ++ dq ++ "2" ++ dq ++ "/>";
    "<scheme val=" ++ dq ++ "minor" ++ dq ++ "/>";
    "</font><font><b/>";
    "<sz val=" ++ dq ++ "12" ++ dq ++ "/>";
    "<color rgb=" ++ dq ++ "FF000000" ++ dq ++ "/>";
    "<name val=" ++ dq ++ "Calibri" ++ dq ++ "/>";
    "<family val=" ++ dq ++ "2" ++ dq ++ "/>";
    "<scheme val=" ++ dq ++ "minor" ++ dq ++ "/>";
    "</font></fonts>";
    "<fills count=" ++ dq ++ "1" ++ dq ++ "><fill>";
    "<patternFill patternType=" ++ dq ++ "none" ++ dq ++ "/>";
    "</fill></fills>";
    "<borders count=" ++ dq ++ "1" ++ dq ++ "><border>";
    "<left/><right/><top/><bottom/><diagonal/>";
    "</border></borders>";
    "<cellStyleXfs count=" ++ dq ++ "1" ++ dq ++ ">";
    "<xf numFmtId=" ++ dq ++ "0" ++ dq ++ " fontId=" ++ dq ++ "0" ++ dq ++ " fillId=" ++ dq ++ "0" ++ dq ++ " borderId=" ++ dq ++ "0" ++ dq ++ "/>";
    "</cellStyleXfs>";
    "<cellXfs count=" ++ dq ++ to_string (Z.max (Z.of_nat (List.length (cell_styles wb))) 1) ++ dq ++ ">";
    match cell_styles wb with
    | [] => "<xf numFmtId=" ++ dq ++ "0" ++ dq ++ " xfId=" ++ dq ++ "0" ++ dq ++ " applyNumberFormat=" ++ dq ++ "1" ++ dq ++ "/>"
    | _ :: _ =>
      String.concat "" (map (fun this_style =>
      "<xf numFmtId=" ++ dq ++ to_string (NumberFormat.code (num_format this_style)) ++ dq ++ " "
      ++ (if bold this_style then "fontId=" ++ dq ++ "1" ++ dq ++ " " else "fontId=" ++ dq ++ "0" ++ dq ++ " ")
      ++ "fillId=" ++ dq ++ "0" ++ dq ++ " borderId=" ++ dq ++ "0" ++ dq ++ " xfId=" ++ dq ++ "0" ++ dq ++ " "
      ++ "applyNumberFormat=" ++ dq ++ "1" ++ dq ++ " applyFont=" ++ dq ++ "1" ++ dq ++ " applyAlignment=" ++ dq ++ "1" ++ dq ++ ">"
      ++ "<alignment horizontal=" ++ dq
      ++ match horiz_align this_style with
         | HorizontalAlignment.LEFT => "left"
         | HorizontalAlignment.CENTER => "center"
         | HorizontalAlignment.RIGHT => "right"
         | HorizontalAlignment.GENERAL => "general"
         end
      ++ dq ++ " vertical=" ++ dq
      ++ match vert_align this_style with
         | VerticalAlignment.CENTER => "center"
         | VerticalAlignment.TOP => "top"
         | VerticalAlignment.BOTTOM => "bottom"
         end
      ++ dq ++ " wrapText=" ++ dq
      ++ (if wrap_text this_style then "true" else "false")
      ++ dq ++ "/></xf>") (cell_styles wb))
    end;
    "</cellXfs>";
    "<cellStyles count=" ++ dq ++ "1" ++ dq ++ ">";
    "<cellStyle name=" ++ dq ++ "Normal" ++ dq ++ " xfId=" ++ dq ++ "0" ++ dq ++ " builtinId=" ++ dq ++ "0" ++ dq ++ "/>";
    "</cellStyles>";
    "<dxfs count=" ++ dq ++ "0" ++ dq ++ "/>";
    "<tableStyles count=" ++ dq ++ "0" ++ dq ++ "/>";
    "</styleSheet>"
  ].

(** [xl/workbook.xml]. *)
Definition workbook_xml (wb : Workbook) : string :=
  String.concat "" [
    "<?xml version=" ++ dq ++ "1.0" ++ dq ++ " encoding=" ++ dq ++ "UTF-8" ++ dq ++ " standalone=" ++ dq ++ "yes" ++ dq ++ "?>";
    "<workbook xmlns=" ++ dq ++ "http://schemas.openxmlformats.org/spreadsheetml/2006/main" ++ dq ++ " xmlns:r=" ++ dq ++ "http://schemas.openxmlformats.org/officeDocument/2006/relationships" ++ dq ++ " xmlns:mc=" ++ dq ++ "http://schemas.openxmlformats.org/markup-compatibility/2006" ++ dq ++ ">";
    "<sheets>";
    String.concat "" (map (fun sheet_ => "<sheet name=" ++ dq ++ name sheet_ ++ dq ++ " sheetId=" ++ dq ++ to_string (sheetId sheet_) ++ dq ++ " r:id=" ++ dq ++ relId sheet_ ++ dq ++ "/>") (sheets wb));
    "</sheets>";
    "<calcPr fullPrecision=" ++ dq ++ "1" ++ dq ++ "/>";
    "</workbook>"
  ].

(** *** Workbook::publish *)

(** Two decimal digits, as [%m], [%d], [%H], [%M] and [%S] print them. *)
Definition two_digits (n : Z) : string :=
  if n <? 10 then "0" ++ to_string n else to_string n.

(** [strftime(timestamp, maxsize, "%Y-%m-%dT%H:%M:%SZ", &timestruct)] for a
    broken-down time of a year from 0 on: the text written, or [None] when
    it does not fit and [strftime] returns 0. *)
Definition strftime_timestamp (maxsize : Z) (timestruct : tm) : option string :=
  let text :=
    to_string (tm_year timestruct + 1900)
    ++ "-" ++ two_digits (tm_mon timestruct + 1)
    ++ "-" ++ two_digits (tm_mday timestruct)
    ++ "T" ++ two_digits (tm_hour timestruct)
    ++ ":" ++ two_digits (tm_min timestruct)
    ++ ":" ++ two_digits (tm_sec timestruct) ++ "Z" in
  if strlen text + 1 <=? maxsize then Some text else None.

Definition TIME_BUF_SIZE : Z := 22.

(** The blocks of [publish] between [archive.open] and the loop over the
    sheets: one [archive.addFile] each. *)
Definition publish_fixed_parts (P : platform) : M Workbook unit :=
  wb <- gets (fun wb => wb) ;;
  on_archive (IttyZip.addFile P "[Content_Types].xml" (content_types_xml wb)) ;;
  on_archive (IttyZip.addFile P "_rels/.rels" root_rels_xml) ;;
  on_archive (IttyZip.addFile P "docProps/app.xml" (app_xml wb)) ;;
  match strftime_timestamp TIME_BUF_SIZE (gmtime_now P) with
  | None => throw (length_error "Could not assemble timestamp string for core.xml in publish().")
  | Some time_string =>
      on_archive (IttyZip.addFile P "docProps/core.xml" (core_xml time_string))
  end ;;
  on_archive (IttyZip.addFile P "xl/_rels/workbook.xml.rels" (workbook_rels_xml wb)) ;;
  on_archive (IttyZip.addFile P "xl/styles.xml" (styles_xml wb)) ;;
  on_archive (IttyZip.addFile P "xl/workbook.xml" (workbook_xml wb)).

(** [while (!sheets.empty())]: at most [n] rounds, where [n] is the number
    of sheets on entry; each round removes one sheet. *)
Fixpoint publish_sheets (P : platform) (n : nat) : M Workbook unit :=
  match n with
  | O => ret tt
  | S n' =>
      wb <- gets (fun wb => wb) ;;
      match back (sheets wb) with
      | None => ret tt
      | Some last_sheet =>
          contents <- lift_result (generate_file P last_sheet) ;;
          on_archive (IttyZip.addFile P (filename last_sheet) contents) ;;
          modify (fun wb => set_sheets (pop_back (sheets wb)) wb) ;;
          publish_sheets P n'
      end
  end.

Definition publish (P : platform) (filename_ : string) : M Workbook unit :=
  wb <- gets (fun wb => wb) ;;
  match sheets wb with
  | [] => throw (runtime_error "publish() called, but Workbook has no Sheets.")
  | _ :: _ =>
      if Nat.eqb (String.length filename_) 0
      then throw (invalid_argument "publish() called with empty filename.")
      else
        on_archive (IttyZip.open P filename_) ;;
        publish_fixed_parts P ;;
        publish_sheets P (List.length (sheets wb)) ;;
        modify (set_sheets []) ;;
        on_archive (IttyZip.finalize P)
  end.

End BasicWorkbook.

Import BasicWorkbook.

Example integer_to_column_28 : integer_to_column 28 = Ok "AB".
Proof. reflexivity. Qed.
Example integer_to_column_max : integer_to_column 16384 = Ok "XFD".
Proof. reflexivity. Qed.
Example integer_to_column_702 : integer_to_column 702 = Ok "ZZ".
Proof. reflexivity. Qed.
Example column_to_integer_xfd : column_to_integer "xfd" = Ok 16384.
Proof. reflexivity. Qed.
Example mixedref_AH11 : mixedref_to_integerref "AH11" = Ok {| row := 11; col := 34 |}.
Proof. reflexivity. Qed.
Example integerref_AH11 : integerref_to_mixedref {| row := 11; col := 34 |} = Ok "AH11".
Proof. reflexivity. Qed.
Example mixedref_bad : mixedref_to_integerref "A1B" = Throw invalid_mixedref.
Proof. reflexivity. Qed.
Example mixedref_zero_row : mixedref_to_integerref "A0" = Throw invalid_mixedref.
Proof. reflexivity. Qed.
Example crc32_check_value : IttyZip.crc32 "123456789" = 0xCBF43926.
Proof. reflexivity. Qed.
Example crc32_empty : IttyZip.crc32 "" = 0.
Proof. reflexivity. Qed.
Example uint32_to_buffer_signature :
  IttyZip.uint32_to_buffer 0x04034b50 = String "P" (String "K" (String (char_of 3) (String (char_of 4) ""))).
Proof. reflexivity. Qed.

(** * Properties *)

(** ** Characters and strings *)

Fixpoint string_forall (p : ascii -> bool) (s : string) : bool :=
  match s with
  | EmptyString => true
  | String c s' => p c && string_forall p s'
  end.

Lemma u32_small (z : Z) : 0 <= z < 4294967296 -> u32 z = z.
Proof. intros H. unfold u32. apply Z.mod_small. exact H. Qed.

Lemma code_range (c : ascii) : 0 <= code c < 256.
Proof.
  unfold code. pose proof (N_ascii_bounded c) as H. lia.
Qed.

Lemma code_char_of (z : Z) : 0 <= z < 256 -> code (char_of z) = z.
Proof.
  intros H. unfold code, char_of.
  rewrite Z.mod_small by exact H.
  rewrite N_ascii_embedding by lia. lia.
Qed.

Lemma char_of_code (c : ascii) : char_of (code c) = c.
Proof.
  unfold char_of. pose proof (code_range c) as H.
  rewrite Z.mod_small by exact H.
  unfold code. rewrite N2Z.id. apply ascii_N_embedding.
Qed.

Lemma code_inj (a b : ascii) : code a = code b -> a = b.
Proof.
  intros H. rewrite <- (char_of_code a), <- (char_of_code b). now rewrite H.
Qed.

Lemma isupper_code (c : ascii) : isupper c = true <-> 65 <= code c <= 90.
Proof. unfold isupper. rewrite andb_true_iff, !Z.leb_le. tauto. Qed.

Lemma isdigit_code (c : ascii) : isdigit c = true <-> 48 <= code c <= 57.
Proof. unfold isdigit. rewrite andb_true_iff, !Z.leb_le. tauto. Qed.

Lemma toupper_isupper (c : ascii) : isupper c = true -> toupper c = c.
Proof.
  intros H. apply isupper_code in H. unfold toupper, islower.
  destruct (97 <=? code c) eqn:E; [apply Z.leb_le in E; lia | reflexivity].
Qed.

Lemma isupper_isalpha (c : ascii) : isupper c = true -> isalpha c = true.
Proof. intros H. unfold isalpha. now rewrite H. Qed.

Lemma isdigit_not_isalpha (c : ascii) : isdigit c = true -> isalpha c = false.
Proof.
  intros H. apply isdigit_code in H. unfold isalpha, isupper, islower.
  destruct (65 <=? code c) eqn:E1; [apply Z.leb_le in E1; lia |].
  destruct (97 <=? code c) eqn:E2; [apply Z.leb_le in E2; lia |].
  reflexivity.
Qed.

Lemma string_forall_app (p : ascii -> bool) (s1 s2 : string) :
  string_forall p (s1 ++ s2) = string_forall p s1 && string_forall p s2.
Proof.
  induction s1 as [|c s1 IH]; simpl; [reflexivity|].
  now rewrite IH, andb_assoc.
Qed.

Lemma string_append_assoc (s1 s2 s3 : string) : (s1 ++ s2) ++ s3 = s1 ++ (s2 ++ s3).
Proof. induction s1 as [|c s1 IH]; simpl; [reflexivity | now rewrite IH]. Qed.

Lemma string_length_app (s1 s2 : string) :
  String.length (s1 ++ s2) = (String.length s1 + String.length s2)%nat.
Proof. induction s1 as [|c s1 IH]; simpl; [reflexivity | now rewrite IH]. Qed.

Lemma substring_prefix (s1 s2 : string) :
  substring 0 (String.length s1) (s1 ++ s2) = s1.
Proof. induction s1 as [|c s1 IH]; simpl; [now destruct s2 | now rewrite IH]. Qed.

Lemma substring_all (s : string) : substring 0 (String.length s) s = s.
Proof. induction s as [|c s IH]; simpl; [reflexivity | now rewrite IH]. Qed.

Lemma substring_suffix (s1 s2 : string) :
  substring (String.length s1) (String.length (s1 ++ s2) - String.length s1) (s1 ++ s2) = s2.
Proof.
  rewrite string_length_app. replace (String.length s1 + String.length s2 - String.length s1)%nat
    with (String.length s2) by lia.
  induction s1 as [|c s1 IH]; simpl; [apply substring_all | exact IH].
Qed.

(** ** Column letters: bijective base 26 *)

(** The value of a letter sequence, most significant letter first, with
    A = 1, ..., Z = 26. *)
Fixpoint col_value (s : string) (acc : Z) : Z :=
  match s with
  | EmptyString => acc
  | String c s' => col_value s' (26 * acc + (code c - 64))
  end.

Lemma col_value_app (s1 s2 : string) (acc : Z) :
  col_value (s1 ++ s2) acc = col_value s2 (col_value s1 acc).
Proof. revert acc. induction s1 as [|c s1 IH]; intros acc; simpl; [reflexivity | apply IH]. Qed.

Lemma col_value_lower_bound (s : string) (acc : Z) :
  string_forall isupper s = true -> 0 <= acc -> acc <= col_value s acc.
Proof.
  revert acc. induction s as [|c s IH]; intros acc Hs Hacc;
    cbn [col_value string_forall] in *; [lia|].
  apply andb_true_iff in Hs as [Hc Hs]. apply isupper_code in Hc.
  specialize (IH (26 * acc + (code c - 64)) Hs). lia.
Qed.

Lemma column_to_integer_loop_cons (c c' : ascii) (s : string) (integer : Z) :
  column_to_integer_loop (String c (String c' s)) integer =
  if negb (isupper (toupper c))
  then Throw (invalid_argument "column_to_integer() received non-alphabetic input character.")
  else column_to_integer_loop (String c' s)
         (u32 (26 * u32 (u32 (integer + code (toupper c)) - 64))).
Proof. reflexivity. Qed.

(** On upper-case letters whose value fits, the decoder computes
    [col_value]; the running [integer] is 26 times the value read so far. *)
Lemma column_to_integer_loop_value (s : string) (acc : Z) :
  s <> EmptyString -> string_forall isupper s = true -> 0 <= acc ->
  col_value s acc <= MAX_COL ->
  column_to_integer_loop s (26 * acc) = Ok (col_value s acc).
Proof.
  revert acc. induction s as [|c s IH]; intros acc Hne Hs Hacc Hmax; [congruence|].
  simpl in Hs. apply andb_true_iff in Hs as [Hc Hs].
  pose proof Hc as Hcode. apply isupper_code in Hcode.
  unfold MAX_COL in *.
  destruct s as [|c' s'].
  - cbn [column_to_integer_loop col_value] in *.
    rewrite (toupper_isupper c Hc), Hc. cbn [negb].
    rewrite (u32_small (code c - 64)) by lia.
    rewrite u32_small by lia. unfold MAX_COL.
    destruct (26 * acc + (code c - 64) >? 16384) eqn:E.
    + apply Z.gtb_lt in E. lia.
    + reflexivity.
  - change (col_value (String c (String c' s')) acc)
      with (col_value (String c' s') (26 * acc + (code c - 64))) in *.
    pose proof (col_value_lower_bound (String c' s') (26 * acc + (code c - 64)) Hs) as Hlow.
    assert (Hstep : 26 * (26 * acc + (code c - 64)) < col_value (String c' s') (26 * acc + (code c - 64))).
    { cbn [col_value string_forall] in *. apply andb_true_iff in Hs as [Hc' Hs'].
      apply isupper_code in Hc'.
      pose proof (col_value_lower_bound s' (26 * (26 * acc + (code c - 64)) + (code c' - 64)) Hs').
      lia. }
    rewrite <- IH; try (congruence || lia || assumption).
    rewrite column_to_integer_loop_cons.
    rewrite (toupper_isupper c Hc), Hc. cbn [negb].
    rewrite (u32_small (26 * acc + code c)) by lia.
    rewrite (u32_small (26 * acc + code c - 64)) by lia.
    rewrite u32_small by lia.
    replace (26 * acc + code c - 64) with (26 * acc + (code c - 64)) by lia.
    reflexivity.
Qed.

Lemma integer_to_column_loop_app (fuel : nat) (n : Z) (column : string) :
  integer_to_column_loop fuel n column = integer_to_column_loop fuel n "" ++ column.
Proof.
  revert n column. induction fuel as [|fuel IH]; intros n column; simpl.
  - now destruct (n >? 0).
  - destruct (n >? 0); [|reflexivity].
    destruct (n mod 26 =? 0).
    + rewrite IH, (IH _ (String "Z" "")), string_append_assoc. reflexivity.
    + rewrite IH, (IH _ (String _ "")), string_append_assoc. reflexivity.
Qed.

(** The letter emitted for [n] and the rest of [n]: n = 26 * rest + letter. *)
Lemma column_step (n : Z) : 0 < n < 4294967296 ->
  let c := if n mod 26 =? 0 then "Z"%char else char_of (u32 (n mod 26 + 64)) in
  let n' := u32 (n - 1) / 26 in
  isupper c = true /\ n = 26 * n' + (code c - 64) /\ 0 <= n' < n.
Proof.
  intros Hn. cbv zeta. rewrite (u32_small (n - 1)) by lia.
  pose proof (Z.mod_pos_bound n 26 ltac:(lia)) as Hr.
  destruct (n mod 26 =? 0) eqn:E.
  - apply Z.eqb_eq in E. split; [reflexivity|].
    change (code "Z") with 90. Z.div_mod_to_equations. lia.
  - apply Z.eqb_neq in E.
    rewrite (u32_small (n mod 26 + 64)) by lia.
    rewrite code_char_of by lia. split.
    + apply isupper_code. rewrite code_char_of by lia. lia.
    + Z.div_mod_to_equations. lia.
Qed.

Lemma integer_to_column_loop_value (fuel : nat) (n : Z) :
  0 <= n <= Z.of_nat fuel -> n < 4294967296 ->
  col_value (integer_to_column_loop fuel n "") 0 = n
  /\ string_forall isupper (integer_to_column_loop fuel n "") = true
  /\ (0 < n -> integer_to_column_loop fuel n "" <> EmptyString).
Proof.
  revert n. induction fuel as [|fuel IH]; intros n Hn Hlt.
  - assert (n = 0) by lia. subst n. simpl. repeat split; lia.
  - cbn [integer_to_column_loop]. destruct (n >? 0) eqn:Epos.
    + apply Z.gtb_lt in Epos.
      destruct (column_step n ltac:(lia)) as (Hup & Heq & Hn').
      set (n' := u32 (n - 1) / 26) in *.
      destruct (IH n' ltac:(lia) ltac:(lia)) as (Hv & Hall & _).
      assert (Hgoal : forall c, isupper c = true -> n = 26 * n' + (code c - 64) ->
                col_value (integer_to_column_loop fuel n' (String c "")) 0 = n
                /\ string_forall isupper (integer_to_column_loop fuel n' (String c "")) = true
                /\ (0 < n -> integer_to_column_loop fuel n' (String c "") <> EmptyString)).
      { intros c Hc Hcn. rewrite integer_to_column_loop_app.
        rewrite col_value_app, Hv, string_forall_app, Hall.
        cbn [col_value string_forall andb]. rewrite Hc.
        split; [lia|]. split; [reflexivity|].
        intros _. destruct (integer_to_column_loop fuel n' ""); discriminate. }
      destruct (n mod 26 =? 0); apply Hgoal; assumption.
    + rewrite Z.gtb_ltb in Epos. apply Z.ltb_ge in Epos.
      assert (n = 0) by lia. subst n. simpl. repeat split; lia.
Qed.

(** The fuel of [integer_to_column_loop] is never used up: any fuel from
    the value of [integer] on gives the same letters. *)
Lemma integer_to_column_loop_fuel (fuel1 fuel2 : nat) (n : Z) (column : string) :
  0 <= n <= Z.of_nat fuel1 -> n <= Z.of_nat fuel2 -> n < 4294967296 ->
  integer_to_column_loop fuel1 n column = integer_to_column_loop fuel2 n column.
Proof.
  revert fuel2 n column. induction fuel1 as [|fuel1 IH]; intros fuel2 n column H1 H2 Hlt.
  - assert (n = 0) by lia. subst n. now destruct fuel2.
  - destruct fuel2 as [|fuel2].
    + assert (n = 0) by lia. subst n. reflexivity.
    + cbn [integer_to_column_loop]. destruct (n >? 0) eqn:Epos; [|reflexivity].
      apply Z.gtb_lt in Epos.
      destruct (column_step n ltac:(lia)) as (_ & _ & Hn').
      destruct (n mod 26 =? 0); apply IH; lia.
Qed.

Lemma integer_to_column_Ok (i : Z) : 1 <= i <= MAX_COL ->
  integer_to_column i = Ok (integer_to_column_loop (Z.to_nat i) i "").
Proof.
  intros Hi. unfold integer_to_column, MAX_COL in *.
  destruct (i =? 0) eqn:E0; [apply Z.eqb_eq in E0; lia|].
  destruct (i >? 16384) eqn:E1; [apply Z.gtb_lt in E1; lia|].
  reflexivity.
Qed.

Lemma integer_to_column_letters (i : Z) : 1 <= i <= MAX_COL ->
  exists s, integer_to_column i = Ok s /\ s <> EmptyString
            /\ string_forall isupper s = true /\ col_value s 0 = i.
Proof.
  intros Hi. exists (integer_to_column_loop (Z.to_nat i) i "").
  unfold MAX_COL in Hi.
  destruct (integer_to_column_loop_value (Z.to_nat i) i ltac:(lia) ltac:(lia)) as (Hv & Hall & Hne).
  repeat split; [apply integer_to_column_Ok; unfold MAX_COL; lia | apply Hne; lia | exact Hall | exact Hv].
Qed.

Lemma column_to_integer_letters (s : string) :
  s <> EmptyString -> string_forall isupper s = true -> col_value s 0 <= MAX_COL ->
  column_to_integer s = Ok (col_value s 0).
Proof.
  intros Hne Hall Hmax. unfold column_to_integer.
  destruct s as [|c s]; [congruence|].
  change 0 with (26 * 0) at 1. apply column_to_integer_loop_value; try assumption. lia.
Qed.

(** C1. Column letters round-trip: for every column index i in
    [1, 16384], integer_to_column returns a letter sequence s,
    column_to_integer of s is i, and integer_to_column of the index decoded
    from s is s again. *)
Theorem column_letters_round_trip (i : Z) :
  1 <= i <= 16384 ->
  exists s, integer_to_column i = Ok s
            /\ column_to_integer s = Ok i
            /\ rbind (column_to_integer s) integer_to_column = Ok s.
Proof.
  intros Hi.
  destruct (integer_to_column_letters i Hi) as (s & Hs & Hne & Hall & Hv).
  exists s. assert (Hdec : column_to_integer s = Ok i).
  { rewrite column_to_integer_letters; try assumption.
    - now rewrite Hv.
    - rewrite Hv. unfold MAX_COL. lia. }
  split; [exact Hs|]. split; [exact Hdec|].
  rewrite Hdec. exact Hs.
Qed.

Lemma column_letters_round_trip_witness :
  exists s, integer_to_column 16384 = Ok s
            /\ column_to_integer s = Ok 16384
            /\ rbind (column_to_integer s) integer_to_column = Ok s.
Proof. apply (column_letters_round_trip 16384). lia. Defined.

(** ** Decimal numbers: std::to_string and std::stoll *)

Fixpoint dec_value (s : string) (acc : Z) : Z :=
  match s with
  | EmptyString => acc
  | String c s' => dec_value s' (10 * acc + (code c - 48))
  end.

Lemma dec_value_app (s1 s2 : string) (acc : Z) :
  dec_value (s1 ++ s2) acc = dec_value s2 (dec_value s1 acc).
Proof. revert acc. induction s1 as [|c s1 IH]; intros acc; simpl; [reflexivity | apply IH]. Qed.

Lemma to_string_loop_app (fuel : nat) (n : Z) (acc : string) :
  to_string_loop fuel n acc = to_string_loop fuel n "" ++ acc.
Proof.
  revert n acc. induction fuel as [|fuel IH]; intros n acc; cbn [to_string_loop].
  - now destruct (n <? 10).
  - destruct (n <? 10); [reflexivity|].
    rewrite IH, (IH _ (String _ "")), string_append_assoc. reflexivity.
Qed.

Lemma to_string_loop_value (fuel : nat) (n : Z) :
  0 <= n <= Z.of_nat fuel ->
  dec_value (to_string_loop fuel n "") 0 = n
  /\ string_forall isdigit (to_string_loop fuel n "") = true
  /\ to_string_loop fuel n "" <> EmptyString.
Proof.
  revert n. induction fuel as [|fuel IH]; intros n Hn.
  - assert (n = 0) by lia. subst n. cbn. repeat split; discriminate.
  - cbn [to_string_loop].
    pose proof (Z.mod_pos_bound n 10 ltac:(lia)) as Hr.
    assert (Hd : code (char_of (n mod 10 + 48)) = n mod 10 + 48)
      by (apply code_char_of; lia).
    assert (Hdig : isdigit (char_of (n mod 10 + 48)) = true)
      by (apply isdigit_code; lia).
    destruct (n <? 10) eqn:E.
    + apply Z.ltb_lt in E. cbn [dec_value string_forall]. rewrite Hd, Hdig.
      rewrite Z.mod_small by lia. repeat split; [lia | discriminate].
    + apply Z.ltb_ge in E.
      destruct (IH (n / 10)) as (Hv & Hall & Hne).
      { Z.div_mod_to_equations. lia. }
      rewrite to_string_loop_app, dec_value_app, Hv, string_forall_app, Hall.
      cbn [dec_value string_forall andb]. rewrite Hd, Hdig.
      split; [Z.div_mod_to_equations; lia|]. split; [reflexivity|].
      destruct (to_string_loop fuel (n / 10) ""); discriminate.
Qed.

(** The fuel of [to_string_loop] is never used up. *)
Lemma to_string_loop_fuel (fuel1 fuel2 : nat) (n : Z) (acc : string) :
  0 <= n <= Z.of_nat fuel1 -> n <= Z.of_nat fuel2 ->
  to_string_loop fuel1 n acc = to_string_loop fuel2 n acc.
Proof.
  revert fuel2 n acc. induction fuel1 as [|fuel1 IH]; intros fuel2 n acc H1 H2.
  - assert (n = 0) by lia. subst n. now destruct fuel2.
  - destruct fuel2 as [|fuel2].
    + assert (n = 0) by lia. subst n. reflexivity.
    + cbn [to_string_loop]. destruct (n <? 10) eqn:E; [reflexivity|].
      apply Z.ltb_ge in E. apply IH; Z.div_mod_to_equations; lia.
Qed.

Lemma to_string_digits (n : Z) : 0 <= n ->
  dec_value (to_string n) 0 = n
  /\ string_forall isdigit (to_string n) = true
  /\ to_string n <> EmptyString.
Proof. intros Hn. apply to_string_loop_value. lia. Qed.

Lemma stoll_digits_all (s : string) (acc : Z) (n : nat) :
  string_forall isdigit s = true ->
  stoll_digits s acc n = (dec_value s acc, (n + String.length s)%nat).
Proof.
  revert acc n. induction s as [|c s IH]; intros acc n Hs; cbn [stoll_digits dec_value].
  - cbn. f_equal. lia.
  - cbn [string_forall] in Hs. apply andb_true_iff in Hs as [Hc Hs].
    rewrite Hc, IH by exact Hs. cbn [String.length]. f_equal. lia.
Qed.

(** [stoll] reads back a non-empty sequence of digits whole. *)
Lemma stoll_decimal (s : string) :
  s <> EmptyString -> string_forall isdigit s = true ->
  0 <= dec_value s 0 < 9223372036854775808 ->
  stoll s = stoll_value (dec_value s 0) (String.length s).
Proof.
  intros Hne Hs Hv. destruct s as [|c s]; [congruence|].
  pose proof Hs as Hs'. cbn [string_forall] in Hs'.
  apply andb_true_iff in Hs' as [Hc _]. pose proof Hc as Hcode.
  apply isdigit_code in Hcode.
  unfold stoll. cbn [skip_space].
  assert (Hsp : isspace c = false).
  { unfold isspace. destruct (code c =? 32) eqn:E1; [apply Z.eqb_eq in E1; lia|].
    destruct (code c <=? 13) eqn:E2; [apply Z.leb_le in E2; lia|].
    now rewrite andb_false_r. }
  rewrite Hsp.
  destruct (code c =? 45) eqn:E1; [apply Z.eqb_eq in E1; lia|].
  destruct (code c =? 43) eqn:E2; [apply Z.eqb_eq in E2; lia|].
  rewrite stoll_digits_all by exact Hs.
  cbn [String.length Nat.add Nat.eqb].
  rewrite Z.mul_1_l.
  destruct (dec_value (String c s) 0 <? - 2 ^ 63) eqn:E3.
  { apply Z.ltb_lt in E3. change (- 2 ^ 63) with (-9223372036854775808) in E3. lia. }
  destruct (2 ^ 63 - 1 <? dec_value (String c s) 0) eqn:E4.
  { apply Z.ltb_lt in E4. change (2 ^ 63 - 1) with 9223372036854775807 in E4. lia. }
  reflexivity.
Qed.

(** ** Mixed references *)

Lemma mixedref_scan_letters (s1 s2 : string) (jChar : nat) (found_first_alpha : bool) :
  string_forall isalpha s1 = true ->
  mixedref_scan (s1 ++ s2) jChar found_first_alpha false None =
  mixedref_scan s2 (jChar + String.length s1)
    (match s1 with EmptyString => found_first_alpha | String _ _ => true end) false None.
Proof.
  revert jChar found_first_alpha.
  induction s1 as [|c s1 IH]; intros jChar fa Hs.
  - cbn. f_equal. lia.
  - cbn [string_forall] in Hs. apply andb_true_iff in Hs as [Hc Hs].
    cbn [append mixedref_scan]. rewrite Hc, IH by exact Hs.
    cbn [String.length]. replace (S jChar + String.length s1)%nat
      with (jChar + S (String.length s1))%nat by lia.
    now destruct s1.
Qed.

Lemma mixedref_scan_digits (s : string) (jChar : nat) (row_start : option nat) :
  string_forall isdigit s = true ->
  mixedref_scan s jChar true true row_start = Ok (true, true, row_start).
Proof.
  revert jChar. induction s as [|c s IH]; intros jChar Hs; [reflexivity|].
  cbn [string_forall] in Hs. apply andb_true_iff in Hs as [Hc Hs].
  cbn [mixedref_scan]. rewrite (isdigit_not_isalpha c Hc), Hc. cbn [negb].
  apply IH. exact Hs.
Qed.

Lemma mixedref_scan_letters_digits (s1 s2 : string) :
  s1 <> EmptyString -> s2 <> EmptyString ->
  string_forall isalpha s1 = true -> string_forall isdigit s2 = true ->
  mixedref_scan (s1 ++ s2) 0 false false None = Ok (true, true, Some (String.length s1)).
Proof.
  intros Hne1 Hne2 Hs1 Hs2. rewrite mixedref_scan_letters by exact Hs1.
  destruct s1 as [|c1 s1]; [congruence|]. destruct s2 as [|c2 s2]; [congruence|].
  cbn [string_forall] in Hs2. apply andb_true_iff in Hs2 as [Hc Hs2].
  cbn [mixedref_scan]. rewrite (isdigit_not_isalpha c2 Hc), Hc. cbn [negb Nat.add].
  apply mixedref_scan_digits. exact Hs2.
Qed.

Lemma string_forall_impl (p q : ascii -> bool) (s : string) :
  (forall c, p c = true -> q c = true) ->
  string_forall p s = true -> string_forall q s = true.
Proof.
  intros Hpq. induction s as [|c s IH]; cbn [string_forall]; [reflexivity|].
  rewrite !andb_true_iff. intros [Hc Hs]. split; [now apply Hpq | now apply IH].
Qed.

(** Letters followed by the digits of a row number decode to that column
    and row. *)
Lemma mixedref_to_integerref_letters_digits (letters : string) (c r : Z) :
  letters <> EmptyString -> string_forall isupper letters = true ->
  column_to_integer letters = Ok c -> 1 <= r <= MAX_ROW ->
  mixedref_to_integerref (letters ++ to_string r) = Ok {| row := r; col := c |}.
Proof.
  intros Hne Hup Hcol Hr. unfold MAX_ROW in Hr.
  destruct (to_string_digits r ltac:(lia)) as (Hv & Hdig & Hne2).
  unfold mixedref_to_integerref.
  rewrite mixedref_scan_letters_digits; try assumption;
    [| now apply (string_forall_impl isupper isalpha), Hup; apply isupper_isalpha ].
  cbn [rbind negb orb].
  rewrite substring_prefix, Hcol. cbn [rbind].
  rewrite substring_suffix.
  rewrite stoll_decimal; try assumption; [| rewrite Hv; lia].
  rewrite Hv, string_length_app.
  replace (String.length letters + String.length (to_string r) - String.length letters)%nat
    with (String.length (to_string r)) by lia.
  rewrite Nat.eqb_refl. cbn [negb orb]. unfold MAX_ROW.
  destruct (r <? 1) eqn:E1; [apply Z.ltb_lt in E1; lia|].
  destruct (r >? 1048576) eqn:E2; [apply Z.gtb_lt in E2; lia|].
  cbn [orb]. rewrite u32_small by lia. reflexivity.
Qed.

(** A reference within the grid prints as the letters of its column
    followed by the digits of its row. *)
Lemma integerref_to_mixedref_letters (r : integerref_t) :
  1 <= row r <= MAX_ROW -> 1 <= col r <= MAX_COL ->
  exists letters,
    letters <> EmptyString /\ string_forall isupper letters = true
    /\ column_to_integer letters = Ok (col r)
    /\ integerref_to_mixedref r = Ok (letters ++ to_string (row r)).
Proof.
  intros Hrow Hcol.
  destruct (integer_to_column_letters (col r) Hcol) as (letters & Hs & Hne & Hall & Hv).
  exists letters. split; [exact Hne|]. split; [exact Hall|]. split.
  - rewrite column_to_integer_letters; try assumption.
    + now rewrite Hv.
    + rewrite Hv. lia.
  - unfold integerref_to_mixedref. unfold MAX_COL, MAX_ROW in *.
    destruct (col r <? 1) eqn:E1; [apply Z.ltb_lt in E1; lia|].
    destruct (col r >? 16384) eqn:E2; [apply Z.gtb_lt in E2; lia|].
    destruct (row r <? 1) eqn:E3; [apply Z.ltb_lt in E3; lia|].
    destruct (row r >? 1048576) eqn:E4; [apply Z.gtb_lt in E4; lia|].
    cbn [orb]. rewrite Hs. reflexivity.
Qed.

(** C2. Cell references round-trip: every reference within the grid is
    printed by integerref_to_mixedref, and mixedref_to_integerref reads the
    printed text back as the same reference. *)
Theorem cell_reference_round_trip (r : integerref_t) :
  1 <= row r <= 1048576 -> 1 <= col r <= 16384 ->
  exists s, integerref_to_mixedref r = Ok s /\ mixedref_to_integerref s = Ok r.
Proof.
  intros Hrow Hcol.
  destruct (integerref_to_mixedref_letters r Hrow Hcol) as (letters & Hne & Hall & Hc & Hs).
  exists (letters ++ to_string (row r)). split; [exact Hs|].
  rewrite (mixedref_to_integerref_letters_digits letters (col r) (row r)); try assumption.
  now destruct r.
Qed.

Lemma cell_reference_round_trip_witness :
  exists s, integerref_to_mixedref {| row := 1048576; col := 16384 |} = Ok s
            /\ mixedref_to_integerref s = Ok {| row := 1048576; col := 16384 |}.
Proof. apply (cell_reference_round_trip {| row := 1048576; col := 16384 |}); simpl; lia. Defined.

(** ** std::set: insertion and search in a sorted list *)

Section SetFacts.
Context {T : Type} (less : T -> T -> bool).

Definition lt_of (a b : T) : Prop := less a b = true.
Definition equiv_of (a b : T) : Prop := less a b = false /\ less b a = false.

(** The comparator is a strict weak ordering. *)
Hypothesis less_irrefl : forall a, less a a = false.
Hypothesis less_trans : forall a b c, less a b = true -> less b c = true -> less a c = true.
Hypothesis less_cotrans : forall a b c, less a c = true -> less a b = true \/ less b c = true.

Lemma set_insert_In (x a : T) (s : list T) :
  In a (fst (set_insert less x s)) -> a = x \/ In a s.
Proof.
  induction s as [|y s IH]; cbn [set_insert].
  - cbn. intuition congruence.
  - destruct (less x y).
    + cbn. intuition congruence.
    + destruct (less y x).
      * destruct (set_insert less x s) as [s' b]. cbn in *. intuition congruence.
      * cbn. intuition congruence.
Qed.

Lemma set_insert_keeps (x a : T) (s : list T) :
  In a s -> In a (fst (set_insert less x s)).
Proof.
  induction s as [|y s IH]; [intros [] | cbn [set_insert]].
  destruct (less x y).
  - cbn. tauto.
  - destruct (less y x).
    + destruct (set_insert less x s) as [s' b]. cbn in *. intuition.
    + cbn. tauto.
Qed.

Lemma set_insert_true_In (x : T) (s : list T) :
  snd (set_insert less x s) = true -> In x (fst (set_insert less x s)).
Proof.
  induction s as [|y s IH]; cbn [set_insert].
  - cbn. tauto.
  - destruct (less x y).
    + cbn. tauto.
    + destruct (less y x).
      * destruct (set_insert less x s) as [s' b]. cbn in *. intuition.
      * cbn. discriminate.
Qed.

(** An insertion that reports [false] leaves the set as it was. *)
Lemma set_insert_false_same (x : T) (s : list T) :
  snd (set_insert less x s) = false -> fst (set_insert less x s) = s.
Proof.
  induction s as [|y s IH]; cbn [set_insert].
  - cbn. discriminate.
  - destruct (less x y).
    + cbn. discriminate.
    + destruct (less y x).
      * destruct (set_insert less x s) as [s' b]. cbn in *.
        intros Hb. now rewrite IH.
      * reflexivity.
Qed.

Lemma set_insert_sorted (x : T) (s : list T) :
  StronglySorted lt_of s -> StronglySorted lt_of (fst (set_insert less x s)).
Proof.
  induction s as [|y s IH]; intros Hs; cbn [set_insert].
  - cbn. repeat constructor.
  - inversion Hs as [|? ? Hs' Hall]; subst.
    destruct (less x y) eqn:Exy.
    + cbn. constructor; [exact Hs|]. constructor; [exact Exy|].
      eapply Forall_impl; [|exact Hall]. intros z Hz. exact (less_trans _ _ _ Exy Hz).
    + destruct (less y x) eqn:Eyx.
      * specialize (IH Hs').
        pose proof (fun a => set_insert_In x a s) as Hin.
        destruct (set_insert less x s) as [s' b]. cbn in *.
        constructor; [exact IH|]. apply Forall_forall. intros z Hz.
        destruct (Hin z Hz) as [->|Hzs]; [exact Eyx|].
        rewrite Forall_forall in Hall. now apply Hall.
      * exact Hs.
Qed.

Lemma set_insert_fresh (x : T) (s : list T) :
  (forall y, In y s -> ~ equiv_of x y) -> snd (set_insert less x s) = true.
Proof.
  induction s as [|y s IH]; intros Hfresh; cbn [set_insert]; [reflexivity|].
  destruct (less x y) eqn:Exy; [reflexivity|].
  destruct (less y x) eqn:Eyx.
  - specialize (IH (fun z Hz => Hfresh z (or_intror Hz))).
    now destruct (set_insert less x s).
  - exfalso. apply (Hfresh y (or_introl eq_refl)). now split.
Qed.

(** In a sorted set, the walk of [insert] and of [find] for [x] comes to
    the element equivalent to [x]. *)
Lemma set_walk_to_equiv (x y z : T) (s : list T) :
  StronglySorted lt_of (z :: s) -> In y (z :: s) -> equiv_of x y ->
  less x z = false /\ (less z x = true -> In y s).
Proof.
  intros Hs Hin [Hxy Hyx]. inversion Hs as [|? ? Hs' Hall]; subst.
  rewrite Forall_forall in Hall. split.
  - destruct (less x z) eqn:Exz; [|reflexivity]. exfalso.
    destruct Hin as [->|Hin]; [congruence|].
    destruct (less_cotrans x y z Exz) as [H|H]; [congruence|].
    pose proof (less_trans _ _ _ H (Hall y Hin)) as Hyy.
    rewrite less_irrefl in Hyy. discriminate.
  - intros Hzx. destruct Hin as [->|Hin]; [congruence | exact Hin].
Qed.

Lemma set_insert_present (x y : T) (s : list T) :
  StronglySorted lt_of s -> In y s -> equiv_of x y ->
  set_insert less x s = (s, false).
Proof.
  induction s as [|z s IH]; intros Hs Hin Heq; [destruct Hin|].
  destruct (set_walk_to_equiv x y z s Hs Hin Heq) as [Hxz Hnext].
  cbn [set_insert]. rewrite Hxz.
  destruct (less z x) eqn:Ezx; [|reflexivity].
  inversion Hs; subst. rewrite IH; auto.
Qed.

Lemma set_find_present (x y : T) (s : list T) :
  StronglySorted lt_of s -> In y s -> equiv_of x y ->
  set_find less x s = Some y.
Proof.
  induction s as [|z s IH]; intros Hs Hin Heq; [destruct Hin|].
  destruct (set_walk_to_equiv x y z s Hs Hin Heq) as [Hxz Hnext].
  cbn [set_find]. rewrite Hxz.
  destruct (less z x) eqn:Ezx.
  - inversion Hs; subst. apply IH; auto.
  - destruct Hin as [->|Hin]; [reflexivity|]. exfalso.
    inversion Hs as [|? ? Hs' Hall]; subst. rewrite Forall_forall in Hall.
    destruct Heq as [Hxy Hyx].
    destruct (less_cotrans z x y (Hall y Hin)) as [H|H]; congruence.
Qed.

Lemma set_find_absent (x : T) (s : list T) :
  (forall y, In y s -> ~ equiv_of x y) -> set_find less x s = None.
Proof.
  induction s as [|y s IH]; intros Hfresh; cbn [set_find]; [reflexivity|].
  destruct (less x y) eqn:Exy; [reflexivity|].
  destruct (less y x) eqn:Eyx.
  - apply IH. intros z Hz. apply Hfresh. now right.
  - exfalso. apply (Hfresh y (or_introl eq_refl)). now split.
Qed.

(** Two equivalent elements of a sorted set are the same element. *)
Lemma sorted_equiv_unique (a b : T) (s : list T) :
  StronglySorted lt_of s -> In a s -> In b s -> equiv_of a b -> a = b.
Proof.
  intros Hs Ha Hb Heq.
  pose proof (set_find_present a b s Hs Hb Heq) as H1.
  pose proof (set_find_present a a s Hs Ha (conj (less_irrefl a) (less_irrefl a))) as H2.
  congruence.
Qed.

End SetFacts.

(** ** The comparators of the sheet's sets *)

Lemma cell_sort_compare_lt (a b : cell_t) :
  cell_sort_compare a b = true <->
  row (integerref a) < row (integerref b)
  \/ (row (integerref a) = row (integerref b) /\ col (integerref a) < col (integerref b)).
Proof.
  unfold cell_sort_compare.
  rewrite orb_true_iff, andb_true_iff, !Z.ltb_lt, Z.eqb_eq. tauto.
Qed.

Lemma cell_sort_compare_ge (a b : cell_t) :
  cell_sort_compare a b = false <->
  row (integerref b) < row (integerref a)
  \/ (row (integerref a) = row (integerref b) /\ col (integerref b) <= col (integerref a)).
Proof.
  rewrite <- not_true_iff_false, cell_sort_compare_lt. lia.
Qed.

Lemma cell_less_irrefl (a : cell_t) : cell_sort_compare a a = false.
Proof. apply cell_sort_compare_ge. lia. Qed.

Lemma cell_less_trans (a b c : cell_t) :
  cell_sort_compare a b = true -> cell_sort_compare b c = true ->
  cell_sort_compare a c = true.
Proof. rewrite !cell_sort_compare_lt. lia. Qed.

Lemma cell_less_cotrans (a b c : cell_t) :
  cell_sort_compare a c = true ->
  cell_sort_compare a b = true \/ cell_sort_compare b c = true.
Proof. rewrite !cell_sort_compare_lt. lia. Qed.

(** Two cells are equivalent under the comparator exactly when they are at
    the same reference. *)
Lemma cell_equiv_same_ref (a b : cell_t) :
  equiv_of cell_sort_compare a b <-> integerref a = integerref b.
Proof.
  unfold equiv_of. rewrite !cell_sort_compare_ge. split.
  - intros H. destruct (integerref a) as [ra ca], (integerref b) as [rb cb].
    cbn [row col] in *. f_equal; lia.
  - intros ->. lia.
Qed.

Lemma pair_less_lt (a b : Z * float) :
  column_widths_sort_compare a b = true <-> fst a < fst b.
Proof. unfold column_widths_sort_compare. apply Z.ltb_lt. Qed.

Lemma pair_less_irrefl (a : Z * float) : column_widths_sort_compare a a = false.
Proof. unfold column_widths_sort_compare. apply Z.ltb_irrefl. Qed.

Lemma pair_less_trans (a b c : Z * float) :
  column_widths_sort_compare a b = true -> column_widths_sort_compare b c = true ->
  column_widths_sort_compare a c = true.
Proof. rewrite !pair_less_lt. lia. Qed.

Lemma pair_less_cotrans (a b c : Z * float) :
  column_widths_sort_compare a c = true ->
  column_widths_sort_compare a b = true \/ column_widths_sort_compare b c = true.
Proof. rewrite !pair_less_lt. lia. Qed.

Lemma pair_equiv_same_index (a b : Z * float) :
  equiv_of column_widths_sort_compare a b <-> fst a = fst b.
Proof.
  unfold equiv_of, column_widths_sort_compare. rewrite !Z.ltb_ge. lia.
Qed.

(** ** The style catalog *)

Lemma NumberFormat_eqb_refl (a : NumberFormat.t) : NumberFormat.eqb a a = true.
Proof. unfold NumberFormat.eqb. apply Z.eqb_refl. Qed.

Lemma cell_style_eq_refl (s : cell_style_t) : cell_style_eq s s = true.
Proof.
  unfold cell_style_eq. rewrite NumberFormat_eqb_refl, !eqb_reflx.
  now destruct (horiz_align s), (vert_align s).
Qed.

Lemma find_style_app (x : cell_style_t) (l : list cell_style_t) (i : Z) :
  find_style x (l ++ [x]) i =
  match find_style x l i with
  | Some j => Some j
  | None => Some (i + Z.of_nat (List.length l))
  end.
Proof.
  revert i. induction l as [|y l IH]; intros i; cbn [app find_style List.length].
  - rewrite cell_style_eq_refl. f_equal. lia.
  - destruct (cell_style_eq y x); [reflexivity|].
    rewrite IH. destruct (find_style x l (i + 1)); [reflexivity|]. f_equal. lia.
Qed.

(** Adding a style a second time returns the index of the first time and
    leaves the catalog as it is. *)
Lemma addStyle_again (x : cell_style_t) (l : list cell_style_t) :
  addStyle x (snd (addStyle x l)) = addStyle x l.
Proof.
  unfold addStyle. destruct (find_style x l 0) eqn:E; cbn [snd].
  - now rewrite E.
  - rewrite find_style_app, E, List.length_app. cbn [List.length].
    f_equal. lia.
Qed.

(** The catalog after [addStyle]: unchanged, or one entry longer. *)
Lemma addStyle_catalog (x : cell_style_t) (l : list cell_style_t) :
  snd (addStyle x l) = l \/ snd (addStyle x l) = (l ++ [x])%list.
Proof. unfold addStyle. destruct (find_style x l 0); cbn; tauto. Qed.

(** ** Reasoning about methods *)

Section Preservation.
Context {S : Type} (I : S -> Prop).

(** [m] keeps [I], whether it returns or throws. *)
Definition preserves {A : Type} (m : M S A) : Prop :=
  forall s, I s -> I (snd (m s)).

Lemma preserves_ret {A : Type} (a : A) : preserves (ret a).
Proof. intros s Hs. exact Hs. Qed.

Lemma preserves_throw {A : Type} (e : exn) : preserves (@throw S A e).
Proof. intros s Hs. exact Hs. Qed.

Lemma preserves_lift_result {A : Type} (r : result A) : preserves (lift_result r).
Proof. intros s Hs. exact Hs. Qed.

Lemma preserves_gets {A : Type} (f : S -> A) : preserves (gets f).
Proof. intros s Hs. exact Hs. Qed.

Lemma preserves_bind {A B : Type} (m : M S A) (k : A -> M S B) :
  preserves m -> (forall a, preserves (k a)) -> preserves (bind m k).
Proof.
  intros Hm Hk s Hs. unfold bind. specialize (Hm s Hs).
  destruct (m s) as [[a|e] s']; cbn [snd] in *; [now apply Hk | exact Hm].
Qed.

Lemma preserves_for_each {T : Type} (l : list T) (body : T -> M S unit) :
  (forall x, preserves (body x)) -> preserves (for_each l body).
Proof.
  intros Hbody. induction l as [|x l IH]; cbn [for_each].
  - apply preserves_ret.
  - apply preserves_bind; [apply Hbody | intros _; exact IH].
Qed.

End Preservation.

(** ** The sheet invariant *)

Definition valid_ref (r : integerref_t) : Prop :=
  1 <= row r <= MAX_ROW /\ 1 <= col r <= MAX_COL.

Lemma invalid_ref_false (r : integerref_t) : invalid_ref r = false <-> valid_ref r.
Proof.
  unfold invalid_ref, valid_ref.
  rewrite !orb_false_iff, !Z.ltb_ge, !Z.gtb_ltb, !Z.ltb_ge. lia.
Qed.

Record sheet_inv (st : sheet_state) : Prop := {
  inv_cells_sorted : StronglySorted (lt_of cell_sort_compare) (cells (sheet st));
  inv_cells_valid : Forall (fun c => valid_ref (integerref c)) (cells (sheet st));
  inv_widths_sorted :
    StronglySorted (lt_of column_widths_sort_compare) (column_widths (sheet st));
  inv_heights_sorted :
    StronglySorted (lt_of row_heights_sort_compare) (row_heights (sheet st));
  inv_merged_valid :
    Forall (fun m => valid_ref (start_ref m) /\ valid_ref (end_ref m))
      (merged_cells (sheet st))
}.

Lemma workbook_addStyle_preserves (cs : cell_style_t) :
  preserves sheet_inv (workbook_addStyle cs).
Proof.
  intros st [H1 H2 H3 H4 H5]. unfold workbook_addStyle.
  destruct (addStyle cs (workbook_cell_styles st)). now constructor.
Qed.

Lemma cells_insert_preserves (cell : cell_t) :
  valid_ref (integerref cell) -> preserves sheet_inv (cells_insert cell).
Proof.
  intros Hv st [H1 H2 H3 H4 H5]. unfold cells_insert.
  pose proof (set_insert_sorted cell_sort_compare cell_less_trans cell _ H1) as Hs.
  pose proof (fun a => set_insert_In cell_sort_compare cell a (cells (sheet st))) as Hin.
  destruct (set_insert cell_sort_compare cell (cells (sheet st))) as [s b].
  cbn [fst snd] in *. constructor; cbn; try assumption.
  apply Forall_forall. intros c Hc. destruct (Hin c Hc) as [->|Hc']; [exact Hv|].
  rewrite Forall_forall in H2. now apply H2.
Qed.

Lemma used_columns_insert_preserves (c : Z) :
  preserves sheet_inv (used_columns_insert c).
Proof. intros st [H1 H2 H3 H4 H5]. now constructor. Qed.

Lemma merged_cells_insert_preserves (m : merged_cell_t) :
  valid_ref (start_ref m) -> valid_ref (end_ref m) ->
  preserves sheet_inv (merged_cells_insert m).
Proof.
  intros Hs He st [H1 H2 H3 H4 H5]. constructor; cbn; try assumption.
  apply Forall_forall. intros x Hx.
  apply set_insert_In in Hx. destruct Hx as [->|Hx]; [now split|].
  rewrite Forall_forall in H5. now apply H5.
Qed.

Lemma add_number_cell_preserves (r : integerref_t) (number : float) (cs : cell_style_t) :
  preserves sheet_inv (add_number_cell r number cs).
Proof.
  unfold add_number_cell. destruct (invalid_ref r) eqn:E; [apply preserves_throw|].
  apply invalid_ref_false in E.
  apply preserves_bind; [apply workbook_addStyle_preserves | intros index].
  apply preserves_bind; [now apply cells_insert_preserves | intros [|]].
  - apply used_columns_insert_preserves.
  - apply preserves_throw.
Qed.

Lemma add_formula_cell_preserves (L : limits) (r : integerref_t) (formula : string)
    (cs : cell_style_t) :
  preserves sheet_inv (add_formula_cell L r formula cs).
Proof.
  unfold add_formula_cell. destruct (invalid_ref r) eqn:E; [apply preserves_throw|].
  apply invalid_ref_false in E.
  destruct (strlen formula >? MAX_FORMULA_LEN L); [apply preserves_throw|].
  apply preserves_bind; [apply workbook_addStyle_preserves | intros index].
  apply preserves_bind; [now apply cells_insert_preserves | intros [|]].
  - apply used_columns_insert_preserves.
  - apply preserves_throw.
Qed.

Lemma add_string_cell_preserves (L : limits) (r : integerref_t) (value : string)
    (cs : cell_style_t) :
  preserves sheet_inv (add_string_cell L r value cs).
Proof.
  unfold add_string_cell. destruct (invalid_ref r) eqn:E; [apply preserves_throw|].
  apply invalid_ref_false in E.
  destruct (strlen value >? MAX_STRING_LEN L); [apply preserves_throw|].
  destruct (count_line_breaks value >? MAX_STRING_LINE_BREAKS L); [apply preserves_throw|].
  apply preserves_bind; [apply workbook_addStyle_preserves | intros index].
  apply preserves_bind; [now apply cells_insert_preserves | intros [|]].
  - apply used_columns_insert_preserves.
  - apply preserves_throw.
Qed.

Lemma add_empty_cell_preserves (r : integerref_t) (cs : cell_style_t) :
  preserves sheet_inv (add_empty_cell r cs).
Proof.
  unfold add_empty_cell. destruct (invalid_ref r) eqn:E; [apply preserves_throw|].
  apply invalid_ref_false in E.
  apply preserves_bind; [apply workbook_addStyle_preserves | intros index].
  apply preserves_bind; [now apply cells_insert_preserves | intros [|]].
  - apply used_columns_insert_preserves.
  - apply preserves_throw.
Qed.

Lemma add_merge_rest_preserves (s e : integerref_t) (cs : cell_style_t) :
  valid_ref s -> valid_ref e -> preserves sheet_inv (add_merge_rest s e cs).
Proof.
  intros Hs He. unfold add_merge_rest.
  apply preserves_bind; [| intros _; now apply merged_cells_insert_preserves].
  apply preserves_for_each. intros jRow. apply preserves_for_each. intros jCol.
  destruct ((jRow =? row s) && (jCol =? col s)).
  - apply preserves_ret.
  - apply add_empty_cell_preserves.
Qed.

Lemma add_merged_number_cell_preserves (s e : integerref_t) (number : float)
    (cs : cell_style_t) :
  preserves sheet_inv (add_merged_number_cell s e number cs).
Proof.
  unfold add_merged_number_cell.
  destruct (invalid_ref s) eqn:Es; [apply preserves_throw|].
  destruct (invalid_ref e) eqn:Ee; [apply preserves_throw|].
  destruct (end_not_after_start s e); [apply preserves_throw|].
  apply invalid_ref_false in Es, Ee.
  apply preserves_bind; [apply add_number_cell_preserves | intros _].
  now apply add_merge_rest_preserves.
Qed.

Lemma add_merged_formula_cell_preserves (L : limits) (s e : integerref_t)
    (formula : string) (cs : cell_style_t) :
  preserves sheet_inv (add_merged_formula_cell L s e formula cs).
Proof.
  unfold add_merged_formula_cell.
  destruct (invalid_ref s) eqn:Es; [apply preserves_throw|].
  destruct (invalid_ref e) eqn:Ee; [apply preserves_throw|].
  destruct (end_not_after_start s e); [apply preserves_throw|].
  apply invalid_ref_false in Es, Ee.
  apply preserves_bind; [apply add_formula_cell_preserves | intros _].
  now apply add_merge_rest_preserves.
Qed.

Lemma add_merged_string_cell_preserves (L : limits) (s e : integerref_t)
    (value : string) (cs : cell_style_t) :
  preserves sheet_inv (add_merged_string_cell L s e value cs).
Proof.
  unfold add_merged_string_cell.
  destruct (invalid_ref s) eqn:Es; [apply preserves_throw|].
  destruct (invalid_ref e) eqn:Ee; [apply preserves_throw|].
  destruct (end_not_after_start s e); [apply preserves_throw|].
  apply invalid_ref_false in Es, Ee.
  apply preserves_bind; [apply add_string_cell_preserves | intros _].
  now apply add_merge_rest_preserves.
Qed.

Lemma set_column_width_preserves (c : Z) (width : float) :
  preserves sheet_inv (set_column_width c width).
Proof.
  unfold set_column_width.
  destruct (_ || _)%bool; [apply preserves_throw|].
  destruct (_ || _)%bool; [apply preserves_throw|].
  intros st [H1 H2 H3 H4 H5]. constructor; cbn; try assumption.
  apply set_insert_sorted; [exact pair_less_trans | exact H3].
Qed.

Lemma set_row_height_preserves (L : limits) (r : Z) (height : float) :
  preserves sheet_inv (set_row_height L r height).
Proof.
  unfold set_row_height.
  destruct (_ || _)%bool; [apply preserves_throw|].
  destruct (_ || _)%bool; [apply preserves_throw|].
  intros st [H1 H2 H3 H4 H5]. constructor; cbn; try assumption.
  apply set_insert_sorted; [exact pair_less_trans | exact H4].
Qed.

(** ** Reachable sheet states *)

(** The calls that change a sheet or the catalog it shares: the public
    methods of [Sheet] (the overloads on a row and a column are those on an
    [integerref_t]), the private [add_empty_cell], and [Workbook::addStyle]
    called from elsewhere. *)
Inductive sheet_call : Type :=
| call_add_number_cell (r : integerref_t) (number : float) (cs : cell_style_t)
| call_add_number_cell_mixedref (mixedref : string) (number : float) (cs : cell_style_t)
| call_add_merged_number_cell (s e : integerref_t) (number : float) (cs : cell_style_t)
| call_add_merged_number_cell_mixedref (s e : string) (number : float) (cs : cell_style_t)
| call_add_formula_cell (r : integerref_t) (formula : string) (cs : cell_style_t)
| call_add_formula_cell_mixedref (mixedref formula : string) (cs : cell_style_t)
| call_add_merged_formula_cell (s e : integerref_t) (formula : string) (cs : cell_style_t)
| call_add_merged_formula_cell_mixedref (s e formula : string) (cs : cell_style_t)
| call_add_string_cell (r : integerref_t) (value : string) (cs : cell_style_t)
| call_add_string_cell_mixedref (mixedref value : string) (cs : cell_style_t)
| call_add_merged_string_cell (s e : integerref_t) (value : string) (cs : cell_style_t)
| call_add_merged_string_cell_mixedref (s e value : string) (cs : cell_style_t)
| call_add_empty_cell (r : integerref_t) (cs : cell_style_t)
| call_set_column_width (c : Z) (width : float)
| call_set_column_width_letters (column : string) (width : float)
| call_set_row_height (r : Z) (height : float)
| call_workbook_addStyle (cs : cell_style_t).

Definition run_call (L : limits) (c : sheet_call) : M sheet_state unit :=
  match c with
  | call_add_number_cell r number cs => add_number_cell r number cs
  | call_add_number_cell_mixedref m number cs => add_number_cell_mixedref m number cs
  | call_add_merged_number_cell s e number cs => add_merged_number_cell s e number cs
  | call_add_merged_number_cell_mixedref s e number cs =>
      add_merged_number_cell_mixedref s e number cs
  | call_add_formula_cell r formula cs => add_formula_cell L r formula cs
  | call_add_formula_cell_mixedref m formula cs => add_formula_cell_mixedref L m formula cs
  | call_add_merged_formula_cell s e formula cs => add_merged_formula_cell L s e formula cs
  | call_add_merged_formula_cell_mixedref s e formula cs =>
      add_merged_formula_cell_mixedref L s e formula cs
  | call_add_string_cell r value cs => add_string_cell L r value cs
  | call_add_string_cell_mixedref m value cs => add_string_cell_mixedref L m value cs
  | call_add_merged_string_cell s e value cs => add_merged_string_cell L s e value cs
  | call_add_merged_string_cell_mixedref s e value cs =>
      add_merged_string_cell_mixedref L s e value cs
  | call_add_empty_cell r cs => add_empty_cell r cs
  | call_set_column_width c width => set_column_width c width
  | call_set_column_width_letters column width => set_column_width_letters column width
  | call_set_row_height r height => set_row_height L r height
  | call_workbook_addStyle cs => bind (workbook_addStyle cs) (fun _ => ret tt)
  end.

(** A fresh sheet of a workbook with any catalog. *)
Definition fresh_sheet (name_ filename_ : string) (sheetId_ : Z) (relId_ : string)
    (catalog : list cell_style_t) : sheet_state :=
  {| workbook_cell_styles := catalog;
     sheet := Sheet_new name_ filename_ sheetId_ relId_ |}.

Inductive reachable (L : limits) : sheet_state -> Prop :=
| reachable_fresh name_ filename_ sheetId_ relId_ catalog :
    reachable L (fresh_sheet name_ filename_ sheetId_ relId_ catalog)
| reachable_call st c :
    reachable L st -> reachable L (snd (run_call L c st)).

Lemma run_call_preserves (L : limits) (c : sheet_call) :
  preserves sheet_inv (run_call L c).
Proof.
  destruct c; cbn [run_call];
    repeat first
      [ apply add_number_cell_preserves | apply add_formula_cell_preserves
      | apply add_string_cell_preserves | apply add_empty_cell_preserves
      | apply add_merged_number_cell_preserves | apply add_merged_formula_cell_preserves
      | apply add_merged_string_cell_preserves | apply set_column_width_preserves
      | apply set_row_height_preserves | apply workbook_addStyle_preserves
      | apply preserves_ret | apply preserves_lift_result
      | apply preserves_bind; [| intros ?] ].
Qed.

Lemma reachable_inv (L : limits) (st : sheet_state) : reachable L st -> sheet_inv st.
Proof.
  induction 1 as [? ? ? ? ?|st c Hr IH].
  - constructor; cbn; constructor.
  - now apply run_call_preserves.
Qed.

(** ** Examples *)

Definition A1 : integerref_t := {| row := 1; col := 1 |}.
Definition A2 : integerref_t := {| row := 2; col := 1 |}.
Definition B1 : integerref_t := {| row := 1; col := 2 |}.
Definition B2 : integerref_t := {| row := 2; col := 2 |}.

(** Limits and a platform for the examples. *)
Definition example_limits : limits :=
  {| MAX_FORMULA_LEN := 8192; MAX_STRING_LEN := 32767; MAX_STRING_LINE_BREAKS := 253;
     MIN_ROW_HEIGHT := 0%float; MAX_ROW_HEIGHT := 409%float |}.

Definition example_platform : platform :=
  {| localtime_now := {| tm_sec := 31; tm_min := 15; tm_hour := 10;
                         tm_mday := 3; tm_mon := 10; tm_year := 126 |};
     gmtime_now := {| tm_sec := 31; tm_min := 15; tm_hour := 9;
                      tm_mday := 3; tm_mon := 10; tm_year := 126 |};
     can_open := fun _ => true;
     write_ok := fun _ _ => true;
     to_string_double := fun _ => "0.000000" |}.

Definition example_sheet : sheet_state :=
  fresh_sheet "Sheet1" "xl/worksheets/sheet1.xml" 1 "rId2" [].

Definition bold_style : cell_style_t :=
  {| num_format := NumberFormat.GENERAL; horiz_align := HorizontalAlignment.GENERAL;
     vert_align := VerticalAlignment.BOTTOM; wrap_text := false; bold := true |}.

(** The example sheet with a number at A1. *)
Definition example_sheet_A1 : sheet_state :=
  snd (add_number_cell A1 1%float generic_style example_sheet).

(** ** Single-cell adds *)

(** The four kinds of cell and the method that adds each. *)
Inductive cell_add : Type :=
| AddNumber (number : float)
| AddFormula (formula : string)
| AddString (value : string)
| AddEmpty.

Definition run_add (L : limits) (a : cell_add) (r : integerref_t) (cs : cell_style_t)
  : M sheet_state unit :=
  match a with
  | AddNumber number => add_number_cell r number cs
  | AddFormula formula => add_formula_cell L r formula cs
  | AddString value => add_string_cell L r value cs
  | AddEmpty => add_empty_cell r cs
  end.

(** The limits on the content that each kind checks before it touches the
    sheet. *)
Definition within_limits (L : limits) (a : cell_add) : Prop :=
  match a with
  | AddNumber _ | AddEmpty => True
  | AddFormula formula => strlen formula <= MAX_FORMULA_LEN L
  | AddString value =>
      strlen value <= MAX_STRING_LEN L
      /\ count_line_breaks value <= MAX_STRING_LINE_BREAKS L
  end.

Definition add_name (a : cell_add) : string :=
  match a with
  | AddNumber _ => "add_number_cell"
  | AddFormula _ => "add_formula_cell"
  | AddString _ => "add_string_cell"
  | AddEmpty => "add_empty_cell"
  end.

(** The duplicate-cell error of the method named [fn]. *)
Definition duplicate_cell_error (fn : string) : exn :=
  runtime_error (fn ++ "() encountered duplicate insertion of a cell at the same reference.").

Definition cell_of_add (a : cell_add) (r : integerref_t) (index : Z) : cell_t :=
  match a with
  | AddNumber number =>
      {| integerref := r; type := NUMBER; style_index := index;
         num_val := number; str_fml_val := "" |}
  | AddFormula formula =>
      {| integerref := r; type := FORMULA; style_index := index;
         num_val := nan; str_fml_val := formula |}
  | AddString value =>
      {| integerref := r; type := STRING; style_index := index;
         num_val := nan; str_fml_val := value |}
  | AddEmpty =>
      {| integerref := r; type := EMPTY; style_index := index;
         num_val := nan; str_fml_val := "" |}
  end.

Lemma cell_of_add_ref (a : cell_add) (r : integerref_t) (index : Z) :
  integerref (cell_of_add a r index) = r.
Proof. now destruct a. Qed.

(** What the four methods share once their checks have passed. *)
Definition add_checked (a : cell_add) (r : integerref_t) (cs : cell_style_t)
  : M sheet_state unit :=
  bind (workbook_addStyle cs) (fun index =>
  bind (cells_insert (cell_of_add a r index)) (fun insret =>
  if negb insret then throw (duplicate_cell_error (add_name a))
  else used_columns_insert (col r))).

Lemma run_add_checked (L : limits) (a : cell_add) (r : integerref_t) (cs : cell_style_t) :
  valid_ref r -> within_limits L a -> run_add L a r cs = add_checked a r cs.
Proof.
  intros Hr Ha. apply invalid_ref_false in Hr.
  destruct a; cbn [run_add within_limits] in *.
  - unfold add_number_cell. now rewrite Hr.
  - unfold add_formula_cell. rewrite Hr.
    destruct (strlen formula >? MAX_FORMULA_LEN L) eqn:E; [apply Z.gtb_lt in E; lia|].
    reflexivity.
  - unfold add_string_cell. rewrite Hr.
    destruct (strlen value >? MAX_STRING_LEN L) eqn:E1; [apply Z.gtb_lt in E1; lia|].
    destruct (count_line_breaks value >? MAX_STRING_LINE_BREAKS L) eqn:E2;
      [apply Z.gtb_lt in E2; lia|].
    reflexivity.
  - unfold add_empty_cell. now rewrite Hr.
Qed.

(** Whatever the checks, a method that throws its duplicate-cell error has
    run the shared part. *)
Lemma run_add_duplicate_checked (L : limits) (a : cell_add) (r : integerref_t)
    (cs : cell_style_t) (st st' : sheet_state) :
  run_add L a r cs st = (Throw (duplicate_cell_error (add_name a)), st') ->
  add_checked a r cs st = (Throw (duplicate_cell_error (add_name a)), st').
Proof.
  destruct a; cbn [run_add].
  - unfold add_number_cell. destruct (invalid_ref r); [discriminate | tauto].
  - unfold add_formula_cell. destruct (invalid_ref r); [discriminate|].
    destruct (strlen formula >? MAX_FORMULA_LEN L); [discriminate | tauto].
  - unfold add_string_cell. destruct (invalid_ref r); [discriminate|].
    destruct (strlen value >? MAX_STRING_LEN L); [discriminate|].
    destruct (count_line_breaks value >? MAX_STRING_LINE_BREAKS L); [discriminate | tauto].
  - unfold add_empty_cell. destruct (invalid_ref r); [discriminate | tauto].
Qed.

Lemma set_cells_same (s : Sheet) : set_cells (cells s) s = s.
Proof. now destruct s. Qed.

(** The shared part, in one step. *)
Lemma add_checked_run (a : cell_add) (r : integerref_t) (cs : cell_style_t)
    (st : sheet_state) :
  let index := fst (addStyle cs (workbook_cell_styles st)) in
  let catalog := snd (addStyle cs (workbook_cell_styles st)) in
  let ins := set_insert cell_sort_compare (cell_of_add a r index) (cells (sheet st)) in
  add_checked a r cs st =
  if snd ins
  then (Ok tt,
        {| workbook_cell_styles := catalog;
           sheet := set_used_columns
                      (fst (set_insert Z.ltb (col r) (used_columns (sheet st))))
                      (set_cells (fst ins) (sheet st)) |})
  else (Throw (duplicate_cell_error (add_name a)),
        {| workbook_cell_styles := catalog; sheet := set_cells (fst ins) (sheet st) |}).
Proof.
  cbv zeta. unfold add_checked, bind, workbook_addStyle, cells_insert.
  destruct (addStyle cs (workbook_cell_styles st)) as [index catalog]. cbn [fst snd sheet on_this].
  destruct (set_insert cell_sort_compare (cell_of_add a r index) (cells (sheet st))) as [s [|]];
    reflexivity.
Qed.

(** On a sheet with no cell at [r], the add succeeds and the cell is in. *)
Lemma add_checked_fresh (a : cell_add) (r : integerref_t) (cs : cell_style_t)
    (st : sheet_state) :
  (forall c, In c (cells (sheet st)) -> integerref c <> r) ->
  exists st', add_checked a r cs st = (Ok tt, st')
              /\ exists c, In c (cells (sheet st')) /\ integerref c = r.
Proof.
  intros Hfree. rewrite add_checked_run.
  set (cell := cell_of_add a r (fst (addStyle cs (workbook_cell_styles st)))).
  assert (Hins : snd (set_insert cell_sort_compare cell (cells (sheet st))) = true).
  { apply set_insert_fresh. intros y Hy Heq. apply cell_equiv_same_ref in Heq.
    apply (Hfree y Hy). rewrite <- Heq. apply cell_of_add_ref. }
  rewrite Hins. eexists. split; [reflexivity|].
  exists cell. split; [| apply cell_of_add_ref].
  cbn. now apply set_insert_true_In.
Qed.

(** On a sheet that has a cell at [r], the add throws the duplicate-cell
    error; the sheet is as before and the catalog is that of [addStyle]. *)
Lemma add_checked_present (a : cell_add) (r : integerref_t) (cs : cell_style_t)
    (st : sheet_state) (c : cell_t) :
  sheet_inv st -> In c (cells (sheet st)) -> integerref c = r ->
  add_checked a r cs st =
  (Throw (duplicate_cell_error (add_name a)),
   {| workbook_cell_styles := snd (addStyle cs (workbook_cell_styles st));
      sheet := sheet st |}).
Proof.
  intros Hinv Hc Hr. rewrite add_checked_run.
  rewrite (set_insert_present cell_sort_compare cell_less_irrefl cell_less_trans
             cell_less_cotrans _ c).
  - cbn [fst snd]. now rewrite set_cells_same.
  - apply Hinv.
  - exact Hc.
  - apply cell_equiv_same_ref. now rewrite cell_of_add_ref.
Qed.

(** In a sorted set of cells no two cells are at the same reference. *)
Lemma sorted_cells_NoDup (l : list cell_t) :
  StronglySorted (lt_of cell_sort_compare) l -> NoDup (map integerref l).
Proof.
  induction 1 as [|c l Hs IH Hall]; cbn [map]; constructor; [|exact IH].
  intros Hin. apply in_map_iff in Hin as (c' & Href & Hc').
  rewrite Forall_forall in Hall. specialize (Hall c' Hc').
  unfold lt_of in Hall. apply cell_sort_compare_lt in Hall. rewrite Href in Hall. lia.
Qed.

(** C5. In a reachable sheet no two cells are at the same reference; and
    for an in-bounds reference r with no cell yet and two adds at r of any
    kinds, each with content within the limits of its kind, the first add
    returns and the second throws the duplicate-cell error of its method,
    leaving the cells of the sheet as the first add left them. *)
Theorem duplicate_cell_on_second_add (L : limits) (st : sheet_state) :
  reachable L st ->
  NoDup (map integerref (cells (sheet st)))
  /\ forall (r : integerref_t) (a1 a2 : cell_add) (cs1 cs2 : cell_style_t),
       valid_ref r ->
       (forall c, In c (cells (sheet st)) -> integerref c <> r) ->
       within_limits L a1 -> within_limits L a2 ->
       exists st1 st2,
         run_add L a1 r cs1 st = (Ok tt, st1)
         /\ run_add L a2 r cs2 st1 = (Throw (duplicate_cell_error (add_name a2)), st2)
         /\ sheet st2 = sheet st1
         /\ NoDup (map integerref (cells (sheet st2))).
Proof.
  intros Hreach. pose proof (reachable_inv L st Hreach) as Hinv. split.
  - apply sorted_cells_NoDup, Hinv.
  - intros r a1 a2 cs1 cs2 Hr Hfree Ha1 Ha2.
    destruct (add_checked_fresh a1 r cs1 st Hfree) as (st1 & Hrun1 & c & Hc & Hcr).
    assert (Hinv1 : sheet_inv st1).
    { replace st1 with (snd (run_add L a1 r cs1 st))
        by (rewrite run_add_checked, Hrun1; auto).
      destruct a1; cbn [run_add];
        [ apply add_number_cell_preserves | apply add_formula_cell_preserves
        | apply add_string_cell_preserves | apply add_empty_cell_preserves ]; exact Hinv. }
    exists st1. eexists. rewrite !run_add_checked by assumption.
    split; [exact Hrun1|]. split; [apply (add_checked_present a2 r cs2 st1 c); assumption|].
    split; [reflexivity|]. apply sorted_cells_NoDup, Hinv1.
Qed.

Lemma duplicate_cell_on_second_add_witness :
  exists st1 st2,
    run_add example_limits (AddNumber 1%float) A1 generic_style example_sheet = (Ok tt, st1)
    /\ run_add example_limits (AddString "text") A1 generic_string_style st1
       = (Throw (duplicate_cell_error "add_string_cell"), st2)
    /\ sheet st2 = sheet st1
    /\ NoDup (map integerref (cells (sheet st2))).
Proof.
  apply (proj2 (duplicate_cell_on_second_add example_limits example_sheet
                  (reachable_fresh example_limits _ _ _ _ _))).
  - unfold valid_ref, MAX_ROW, MAX_COL. cbn. lia.
  - intros c [].
  - exact I.
  - cbn. lia.
Defined.

(** ** Merged adds *)

Lemma range_1_2 : range 1 2 = [1; 2].
Proof. reflexivity. Qed.

(** C3. On a fresh sheet, a merged string cell over A1:B2 (with a value
    within the limits) leaves exactly four cells: the string cell at A1 and
    empty cells at B1, A2 and B2, all with the style index that addStyle
    gives the style; and exactly one merge, from A1 to B2. *)
Theorem merged_string_cell_A1_B2 (L : limits) (name_ filename_ : string) (sheetId_ : Z)
    (relId_ : string) (catalog : list cell_style_t) (value : string) (cs : cell_style_t) :
  strlen value <= MAX_STRING_LEN L ->
  count_line_breaks value <= MAX_STRING_LINE_BREAKS L ->
  let index := fst (addStyle cs catalog) in
  exists st,
    add_merged_string_cell L A1 B2 value cs
      (fresh_sheet name_ filename_ sheetId_ relId_ catalog) = (Ok tt, st)
    /\ cells (sheet st) =
         [ {| integerref := A1; type := STRING; style_index := index;
              num_val := nan; str_fml_val := value |};
           {| integerref := B1; type := EMPTY; style_index := index;
              num_val := nan; str_fml_val := "" |};
           {| integerref := A2; type := EMPTY; style_index := index;
              num_val := nan; str_fml_val := "" |};
           {| integerref := B2; type := EMPTY; style_index := index;
              num_val := nan; str_fml_val := "" |} ]
    /\ merged_cells (sheet st) = [ {| start_ref := A1; end_ref := B2 |} ].
Proof.
  intros Hlen Hbreaks index. subst index.
  assert (E1 : (strlen value >? MAX_STRING_LEN L) = false)
    by (rewrite Z.gtb_ltb; apply Z.ltb_ge; exact Hlen).
  assert (E2 : (count_line_breaks value >? MAX_STRING_LINE_BREAKS L) = false)
    by (rewrite Z.gtb_ltb; apply Z.ltb_ge; exact Hbreaks).
  pose proof (addStyle_again cs catalog) as E'.
  destruct (addStyle cs catalog) as [index catalog'] eqn:E. cbn [fst snd] in *.
  unfold add_merged_string_cell, add_string_cell, add_merge_rest, add_empty_cell,
    workbook_addStyle, cells_insert, used_columns_insert, merged_cells_insert,
    fresh_sheet, Sheet_new.
  change (invalid_ref A1) with false. change (invalid_ref B2) with false.
  change (end_not_after_start A1 B2) with false. cbv iota.
  rewrite E1, E2.
  change (row A1) with 1. change (row B2) with 2.
  change (col A1) with 1. change (col B2) with 2. rewrite range_1_2.
  cbn [for_each].
  unfold bind, ret, modify, throw. cbn -[addStyle].
  repeat (first [rewrite E | rewrite E']; cbn -[addStyle]).
  eexists. split; [reflexivity|]. split; reflexivity.
Qed.

Lemma merged_string_cell_A1_B2_witness :
  exists st,
    add_merged_string_cell example_limits A1 B2 "title" generic_string_style example_sheet
    = (Ok tt, st)
    /\ cells (sheet st) =
         [ {| integerref := A1; type := STRING; style_index := 0;
              num_val := nan; str_fml_val := "title" |};
           {| integerref := B1; type := EMPTY; style_index := 0;
              num_val := nan; str_fml_val := "" |};
           {| integerref := A2; type := EMPTY; style_index := 0;
              num_val := nan; str_fml_val := "" |};
           {| integerref := B2; type := EMPTY; style_index := 0;
              num_val := nan; str_fml_val := "" |} ]
    /\ merged_cells (sheet st) = [ {| start_ref := A1; end_ref := B2 |} ].
Proof.
  apply (merged_string_cell_A1_B2 example_limits "Sheet1" "xl/worksheets/sheet1.xml" 1
           "rId2" [] "title" generic_string_style); cbn; lia.
Defined.

(** The overload on mixed references does the same on the texts A1 and B2. *)
Lemma mixedref_overload_A1_B2 (L : limits) (value : string) (cs : cell_style_t)
    (st : sheet_state) :
  add_merged_string_cell_mixedref L "A1" "B2" value cs st
  = add_merged_string_cell L A1 B2 value cs st.
Proof. reflexivity. Qed.

(** The corners on which a merged add throws: the end is left of the
    start, above it, or the start itself. *)
Lemma end_not_after_start_true (s e : integerref_t) :
  end_not_after_start s e = true <->
  col e < col s \/ row e < row s \/ (col e = col s /\ row e = row s).
Proof.
  unfold end_not_after_start.
  rewrite !orb_true_iff, andb_true_iff, !Z.gtb_ltb, !Z.ltb_lt, !Z.eqb_eq. lia.
Qed.




(** C10. A single-cell add that throws its duplicate-cell error leaves the
    sheet (cells, used columns, merges and the rest) as it was, and the
    catalog as addStyle leaves it: unchanged, or one entry longer. The
    second case occurs: the add of a bold cell at an occupied A1 throws and
    leaves a catalog of two styles where there was one. *)
Theorem duplicate_add_keeps_sheet_not_catalog :
  (forall (L : limits) (a : cell_add) (r : integerref_t) (cs : cell_style_t)
          (st st' : sheet_state),
      run_add L a r cs st = (Throw (duplicate_cell_error (add_name a)), st') ->
      sheet st' = sheet st
      /\ workbook_cell_styles st' = snd (addStyle cs (workbook_cell_styles st))
      /\ (workbook_cell_styles st' = workbook_cell_styles st
          \/ workbook_cell_styles st' = (workbook_cell_styles st ++ [cs])%list))
  /\ (fst (add_number_cell A1 2%float bold_style example_sheet_A1)
        = Throw (duplicate_cell_error "add_number_cell")
      /\ sheet (snd (add_number_cell A1 2%float bold_style example_sheet_A1))
         = sheet example_sheet_A1
      /\ workbook_cell_styles example_sheet_A1 = [generic_style]
      /\ workbook_cell_styles (snd (add_number_cell A1 2%float bold_style example_sheet_A1))
         = [generic_style; bold_style]).
Proof.
  split.
  - intros L a r cs st st' Hrun.
    apply run_add_duplicate_checked in Hrun. rewrite add_checked_run in Hrun.
    pose proof (set_insert_false_same cell_sort_compare
                  (cell_of_add a r (fst (addStyle cs (workbook_cell_styles st))))
                  (cells (sheet st))) as Hsame.
    destruct (snd (set_insert cell_sort_compare _ (cells (sheet st)))); [discriminate|].
    injection Hrun as <-. cbn [sheet workbook_cell_styles].
    rewrite Hsame by reflexivity. rewrite set_cells_same.
    split; [reflexivity|]. split; [reflexivity|]. apply addStyle_catalog.
  - repeat split.
Qed.

Lemma duplicate_add_keeps_sheet_not_catalog_witness :
  sheet (snd (run_add example_limits (AddString "text") A1 bold_style example_sheet_A1))
    = sheet example_sheet_A1
  /\ workbook_cell_styles
       (snd (run_add example_limits (AddString "text") A1 bold_style example_sheet_A1))
     = snd (addStyle bold_style (workbook_cell_styles example_sheet_A1))
  /\ (workbook_cell_styles
        (snd (run_add example_limits (AddString "text") A1 bold_style example_sheet_A1))
      = workbook_cell_styles example_sheet_A1
      \/ workbook_cell_styles
           (snd (run_add example_limits (AddString "text") A1 bold_style example_sheet_A1))
         = (workbook_cell_styles example_sheet_A1 ++ [bold_style])%list).
Proof.
  apply (proj1 duplicate_add_keeps_sheet_not_catalog example_limits (AddString "text") A1
           bold_style example_sheet_A1).
  reflexivity.
Defined.

(** ** Rows in the rendered sheet *)

Definition row_of (c : cell_t) : Z := row (integerref c).
Definition col_of (c : cell_t) : Z := col (integerref c).

(** The reference of a cell in mixed form. *)
Definition mixed (c : cell_t) : string :=
  match integerref_to_mixedref (integerref c) with
  | Ok m => m
  | Throw _ => ""
  end.

Definition cell_event (c : cell_t) : sheet_event := cell_element c (mixed c).

Definition cells_of_row (cells_ : list cell_t) (r : Z) : list cell_t :=
  filter (fun c => row_of c =? r) cells_.

Definition height_of (row_heights_ : list (Z * float)) (r : Z) : option float :=
  option_map snd (set_find row_heights_sort_compare (r, 0%float) row_heights_).

(** One [<row>] element: the opening tag of row [r], the cells of the sheet
    in row [r] in the order of the set, the closing tag. *)
Definition row_block (row_heights_ : list (Z * float)) (cells_ : list cell_t) (r : Z)
  : list sheet_event :=
  (row_open r (height_of row_heights_ r) :: map cell_event (cells_of_row cells_ r)
   ++ [row_close])%list.

(** The rows that the loop opens, in the order it opens them. *)
Fixpoint new_rows (cells_ : list cell_t) (this_row : Z) : list Z :=
  match cells_ with
  | [] => []
  | c :: rest =>
      if row_of c >? this_row then row_of c :: new_rows rest (row_of c)
      else new_rows rest this_row
  end.

Lemma integerref_to_mixedref_Ok (r : integerref_t) :
  valid_ref r -> exists m, integerref_to_mixedref r = Ok m.
Proof.
  intros [Hrow Hcol].
  destruct (integerref_to_mixedref_letters r Hrow Hcol) as (letters & _ & _ & _ & Hm).
  eexists. exact Hm.
Qed.

Lemma mixed_Ok (c : cell_t) :
  valid_ref (integerref c) -> integerref_to_mixedref (integerref c) = Ok (mixed c).
Proof.
  intros Hv. unfold mixed. destruct (integerref_to_mixedref_Ok _ Hv) as (m & ->). reflexivity.
Qed.

Lemma new_rows_gt (cells_ : list cell_t) (this_row r : Z) :
  In r (new_rows cells_ this_row) -> this_row < r.
Proof.
  revert this_row. induction cells_ as [|c rest IH]; intros t; cbn [new_rows]; [intros []|].
  destruct (row_of c >? t) eqn:E.
  - apply Z.gtb_lt in E. intros [<-|Hin]; [lia|]. specialize (IH _ Hin). lia.
  - apply IH.
Qed.

Lemma new_rows_sorted (cells_ : list cell_t) (this_row : Z) :
  StronglySorted Z.lt (new_rows cells_ this_row).
Proof.
  revert this_row. induction cells_ as [|c rest IH]; intros t; cbn [new_rows].
  - constructor.
  - destruct (row_of c >? t); [|apply IH].
    constructor; [apply IH|]. apply Forall_forall. intros r Hr.
    now apply new_rows_gt in Hr.
Qed.

Lemma sorted_cells_rows (c : cell_t) (rest : list cell_t) :
  StronglySorted (lt_of cell_sort_compare) (c :: rest) ->
  Forall (fun c' => row_of c <= row_of c') rest.
Proof.
  intros Hs. inversion Hs as [|? ? _ Hall]; subst.
  eapply Forall_impl; [|exact Hall]. intros c' Hlt.
  apply cell_sort_compare_lt in Hlt. unfold row_of. lia.
Qed.

Lemma new_rows_In (cells_ : list cell_t) (this_row r : Z) :
  StronglySorted (lt_of cell_sort_compare) cells_ ->
  In r (new_rows cells_ this_row) <->
  this_row < r /\ exists c, In c cells_ /\ row_of c = r.
Proof.
  revert this_row. induction cells_ as [|c rest IH]; intros t Hs; cbn [new_rows].
  - cbn. split; [tauto | intros (_ & c & [] & _)].
  - pose proof (sorted_cells_rows c rest Hs) as Hrows. rewrite Forall_forall in Hrows.
    inversion Hs as [|? ? Hs' _]; subst.
    destruct (row_of c >? t) eqn:E.
    + apply Z.gtb_lt in E. cbn [In]. rewrite (IH _ Hs'). split.
      * intros [<-|(Hlt & c' & Hc' & Hr)].
        -- split; [lia|]. exists c. cbn. tauto.
        -- split; [lia|]. exists c'. cbn. tauto.
      * intros (Hlt & c' & [<-|Hc'] & Hr); [now left|].
        specialize (Hrows c' Hc').
        destruct (Z.eq_dec (row_of c) r) as [Heq|Hne]; [now left|].
        right. split; [lia|]. now exists c'.
    + rewrite Z.gtb_ltb in E. apply Z.ltb_ge in E. rewrite (IH _ Hs'). split.
      * intros (Hlt & c' & Hc' & Hr). split; [exact Hlt|]. exists c'. cbn. tauto.
      * intros (Hlt & c' & [<-|Hc'] & Hr); [lia|]. split; [exact Hlt|]. now exists c'.
Qed.

Lemma cells_of_row_none (cells_ : list cell_t) (r : Z) :
  Forall (fun c => row_of c <> r) cells_ -> cells_of_row cells_ r = [].
Proof.
  induction 1 as [|c rest Hc _ IH]; [reflexivity|].
  unfold cells_of_row in *. cbn [filter].
  destruct (row_of c =? r) eqn:E; [apply Z.eqb_eq in E; contradiction | exact IH].
Qed.

Lemma row_blocks_skip (row_heights_ : list (Z * float)) (c : cell_t)
    (rest : list cell_t) (rows : list Z) :
  (forall r, In r rows -> row_of c <> r) ->
  flat_map (row_block row_heights_ (c :: rest)) rows
  = flat_map (row_block row_heights_ rest) rows.
Proof.
  intros Hrows. induction rows as [|r rows IH]; [reflexivity|].
  cbn [flat_map]. rewrite IH by (intros r' Hr'; apply Hrows; now right).
  f_equal. unfold row_block, cells_of_row. cbn [filter].
  destruct (row_of c =? r) eqn:E; [|reflexivity].
  apply Z.eqb_eq in E. exfalso. apply (Hrows r); [now left | exact E].
Qed.

(** The loop with a row open: it writes the rest of that row, and then one
    block for each further row. *)
Lemma sheetData_loop_open (row_heights_ : list (Z * float)) (cells_ : list cell_t)
    (this_row : Z) :
  0 < this_row ->
  StronglySorted (lt_of cell_sort_compare) cells_ ->
  Forall (fun c => valid_ref (integerref c) /\ this_row <= row_of c) cells_ ->
  exists es,
    sheetData_loop row_heights_ cells_ this_row = Ok es
    /\ (es ++ [row_close])%list
       = (map cell_event (cells_of_row cells_ this_row) ++ [row_close]
          ++ flat_map (row_block row_heights_ cells_) (new_rows cells_ this_row))%list.
Proof.
  revert this_row. induction cells_ as [|c rest IH]; intros t Ht Hs Hall.
  - exists []. split; reflexivity.
  - inversion Hall as [|? ? [Hv Hge] Hall']; subst.
    pose proof (sorted_cells_rows c rest Hs) as Hrows.
    inversion Hs as [|? ? Hs' _]; subst.
    cbn [sheetData_loop new_rows]. rewrite (mixed_Ok c Hv). cbn [rbind].
    fold (row_of c). destruct (row_of c >? t) eqn:E.
    + apply Z.gtb_lt in E.
      destruct (IH (row_of c) ltac:(lia) Hs') as (es & Hes & Heq).
      { rewrite Forall_forall in *. intros c' Hc'. split; [apply Hall', Hc' | apply Hrows, Hc']. }
      rewrite Hes. cbn [rbind]. eexists. split; [reflexivity|].
      destruct (t >? 0) eqn:Et; [|rewrite Z.gtb_ltb in Et; apply Z.ltb_ge in Et; lia].
      rewrite cells_of_row_none.
      2:{ constructor; [lia|]. eapply Forall_impl; [|exact Hrows]. cbn. intros; lia. }
      cbn [map app flat_map]. rewrite row_blocks_skip.
      2:{ intros r Hr. apply new_rows_gt in Hr. lia. }
      unfold row_block at 1, cells_of_row at 1. cbn [filter].
      fold (row_of c). rewrite Z.eqb_refl. cbn [map app].
      fold (cells_of_row rest (row_of c)). fold (height_of row_heights_ (row_of c)).
      change (cell_event c) with (cell_element c (mixed c)).
      rewrite Heq, <- app_assoc. reflexivity.
    + rewrite Z.gtb_ltb in E. apply Z.ltb_ge in E.
      assert (Hrow : row_of c = t) by lia.
      destruct (IH t Ht Hs' Hall') as (es & Hes & Heq).
      rewrite Hes. cbn [rbind]. eexists. split; [reflexivity|].
      rewrite row_blocks_skip.
      2:{ intros r Hr. apply new_rows_gt in Hr. lia. }
      unfold cells_of_row at 1. cbn [filter]. fold (row_of c).
      rewrite Hrow, Z.eqb_refl. fold (cells_of_row rest t).
      cbn [map app]. change (cell_event c) with (cell_element c (mixed c)).
      rewrite Heq. reflexivity.
Qed.

(** The elements of [<sheetData>] for a sheet with cells: one block for each
    row that the loop opens from row 0. *)
Lemma sheetData_events_blocks (s : Sheet) :
  cells s <> [] ->
  StronglySorted (lt_of cell_sort_compare) (cells s) ->
  Forall (fun c => valid_ref (integerref c)) (cells s) ->
  sheetData_events s
  = Ok (flat_map (row_block (row_heights s) (cells s)) (new_rows (cells s) 0)).
Proof.
  intros Hne Hs Hall. unfold sheetData_events.
  destruct (cells s) as [|c rest]; [congruence|].
  inversion Hall as [|? ? Hv Hall']; subst.
  pose proof (sorted_cells_rows c rest Hs) as Hrows.
  inversion Hs as [|? ? Hs' _]; subst.
  assert (Hpos : 0 < row_of c) by (destruct Hv as [Hv _]; unfold row_of; lia).
  cbn [sheetData_loop new_rows]. rewrite (mixed_Ok c Hv). cbn [rbind].
  fold (row_of c).
  destruct (row_of c >? 0) eqn:E; [|rewrite Z.gtb_ltb in E; apply Z.ltb_ge in E; lia].
  destruct (sheetData_loop_open (row_heights s) rest (row_of c) Hpos Hs') as (es & Hes & Heq).
  { rewrite Forall_forall in *. intros c' Hc'. split; [apply Hall', Hc' | apply Hrows, Hc']. }
  rewrite Hes. cbn [rbind Z.gtb Z.compare app]. f_equal.
  cbn [flat_map]. rewrite row_blocks_skip.
  2:{ intros r Hr. apply new_rows_gt in Hr. lia. }
  unfold row_block at 1, cells_of_row at 1. cbn [filter].
  fold (row_of c). rewrite Z.eqb_refl. cbn [map app].
  fold (cells_of_row rest (row_of c)). fold (height_of (row_heights s) (row_of c)).
  unfold cell_event at 1. do 2 f_equal.
  rewrite <- app_assoc. exact Heq.
Qed.

(** Within a row the cells of a sorted set are in increasing column order. *)
Lemma cells_of_row_columns (cells_ : list cell_t) (r : Z) :
  StronglySorted (lt_of cell_sort_compare) cells_ ->
  StronglySorted Z.lt (map col_of (cells_of_row cells_ r)).
Proof.
  induction 1 as [|c rest Hs IH Hall]; [constructor|].
  unfold cells_of_row in *. cbn [filter].
  destruct (row_of c =? r) eqn:E; [|exact IH].
  apply Z.eqb_eq in E. cbn [map]. constructor; [exact IH|].
  apply Forall_forall. intros x Hx. apply in_map_iff in Hx as (c' & <- & Hc').
  apply filter_In in Hc' as [Hc' Hr]. apply Z.eqb_eq in Hr.
  rewrite Forall_forall in Hall. specialize (Hall c' Hc').
  apply cell_sort_compare_lt in Hall. unfold row_of, col_of in *. lia.
Qed.

Lemma mergeCells_events_Ok (merged_cells_ : list merged_cell_t) :
  Forall (fun m => valid_ref (start_ref m) /\ valid_ref (end_ref m)) merged_cells_ ->
  exists es, mergeCells_events merged_cells_ = Ok es.
Proof.
  induction 1 as [|m rest [Hs He] _ (es & IH)]; [now exists []|].
  cbn [mergeCells_events].
  destruct (integerref_to_mixedref_Ok _ Hs) as (ms & ->).
  destruct (integerref_to_mixedref_Ok _ He) as (me & ->).
  rewrite IH. cbn [rbind]. eexists. reflexivity.
Qed.

(** The text of [<sheetData>] for the rows [rows] of a sheet. *)
Definition sheetData_text (P : platform) (s : Sheet) (rows : list Z) : string :=
  match rows with
  | [] => "<sheetData/>"
  | _ :: _ =>
      "<sheetData>"
      ++ render_events P (flat_map (row_block (row_heights s) (cells s)) rows)
      ++ "</sheetData>"
  end.

(** ** Elements in the rendered text *)

(** The number of places of [s] at which [pat] starts. *)
Fixpoint occurrences (pat s : string) : nat :=
  match s with
  | EmptyString => 0%nat
  | String _ s' => ((if prefix pat s then 1 else 0) + occurrences pat s')%nat
  end.

Definition lt_sign : ascii := "<"%char.

(** A text without [<]: it opens and closes no element. [generate_file]
    appends the text of a string or formula cell as it is, so a cell text
    with [<] writes markup of its own into the sheet. *)
Definition markup_free (s : string) : bool :=
  string_forall (fun c => negb (Ascii.eqb c lt_sign)) s.

(** A text that is empty or starts with [<]. *)
Definition tagged (s : string) : Prop :=
  match s with
  | EmptyString => True
  | String c _ => c = lt_sign
  end.

(** Pieces of text one after the other, each after a [<]. *)
Fixpoint tags (bodies : list string) : string :=
  match bodies with
  | [] => ""
  | b :: rest => String lt_sign (b ++ tags rest)
  end.

Lemma string_app_nil_r (s : string) : s ++ "" = s.
Proof. induction s as [|c s IH]; cbn [append]; [reflexivity | now rewrite IH]. Qed.

Lemma markup_free_app (s1 s2 : string) :
  markup_free (s1 ++ s2) = markup_free s1 && markup_free s2.
Proof. apply string_forall_app. Qed.

Lemma markup_free_cons (c : ascii) (s : string) :
  markup_free (String c s) = true -> c <> lt_sign /\ markup_free s = true.
Proof.
  unfold markup_free. cbn [string_forall]. rewrite andb_true_iff, negb_true_iff.
  intros [Hc Hs]. split; [|exact Hs]. intros ->. now rewrite Ascii.eqb_refl in Hc.
Qed.

Lemma tags_tagged (bodies : list string) : tagged (tags bodies).
Proof. destruct bodies; cbn; [exact I | reflexivity]. Qed.

Lemma tags_app (l1 l2 : list string) : tags (l1 ++ l2) = tags l1 ++ tags l2.
Proof.
  induction l1 as [|b l1 IH]; [reflexivity|].
  cbn [app tags append]. now rewrite IH, string_append_assoc.
Qed.

(** A pattern without [<] cannot run into the element that follows. *)
Lemma prefix_before_tag (q a b : string) :
  markup_free q = true -> tagged b -> prefix q (a ++ b) = prefix q a.
Proof.
  revert a. induction q as [|x q IH]; intros a Hq Hb.
  - now destruct a, b.
  - apply markup_free_cons in Hq as [Hx Hq]. destruct a as [|y a].
    + cbn [append]. destruct b as [|c b]; [reflexivity|].
      cbn in Hb. subst c. cbn [prefix].
      destruct (ascii_dec x lt_sign) as [E|_]; [contradiction | reflexivity].
    + cbn [append prefix]. destruct (ascii_dec x y); [now apply IH | reflexivity].
Qed.

Lemma occurrences_markup_free (q s : string) :
  markup_free s = true -> occurrences (String lt_sign q) s = 0%nat.
Proof.
  induction s as [|c s IH]; [reflexivity|]. intros Hs.
  apply markup_free_cons in Hs as [Hc Hs]. cbn [occurrences prefix].
  rewrite (IH Hs). destruct (ascii_dec lt_sign c) as [E|_]; [now subst c | reflexivity].
Qed.

Lemma occurrences_app (q a b : string) :
  markup_free q = true -> tagged b ->
  occurrences (String lt_sign q) (a ++ b)
  = (occurrences (String lt_sign q) a + occurrences (String lt_sign q) b)%nat.
Proof.
  intros Hq Hb. induction a as [|y a IH]; [reflexivity|].
  cbn [append occurrences prefix]. rewrite IH, (prefix_before_tag q a b Hq Hb). lia.
Qed.

(** In a run of elements whose pieces have no [<], a tag occurs once for
    each piece that starts with it. *)
Lemma occurrences_tags (q : string) (bodies : list string) :
  markup_free q = true ->
  Forall (fun b => markup_free b = true) bodies ->
  occurrences (String lt_sign q) (tags bodies) = List.length (filter (prefix q) bodies).
Proof.
  intros Hq. induction 1 as [|b rest Hb _ IH]; [reflexivity|].
  cbn [tags occurrences prefix filter].
  destruct (ascii_dec lt_sign lt_sign) as [_|E]; [|contradiction].
  rewrite (prefix_before_tag q b (tags rest) Hq (tags_tagged rest)).
  rewrite (occurrences_app q b (tags rest) Hq (tags_tagged rest)).
  rewrite (occurrences_markup_free q b Hb), IH.
  destruct (prefix q b); reflexivity.
Qed.

Lemma to_string_loop_markup_free (fuel : nat) (n : Z) (acc : string) :
  markup_free acc = true -> markup_free (to_string_loop fuel n acc) = true.
Proof.
  assert (Hdigit : forall m acc', markup_free acc' = true ->
            markup_free (String (char_of (m mod 10 + 48)) acc') = true).
  { intros m acc' Hacc. unfold markup_free in *. cbn [string_forall]. rewrite Hacc, andb_true_r.
    apply negb_true_iff. destruct (Ascii.eqb _ _) eqn:E; [|reflexivity].
    apply Ascii.eqb_eq in E. apply (f_equal code) in E.
    rewrite code_char_of in E by (pose proof (Z.mod_pos_bound m 10); lia).
    change (code lt_sign) with 60 in E. pose proof (Z.mod_pos_bound m 10). lia. }
  revert n acc. induction fuel as [|fuel IH]; intros n acc Hacc; cbn [to_string_loop].
  - destruct (n <? 10); now apply Hdigit.
  - destruct (n <? 10); [now apply Hdigit|]. apply IH. now apply Hdigit.
Qed.

Lemma to_string_markup_free (n : Z) : markup_free (to_string n) = true.
Proof. now apply to_string_loop_markup_free. Qed.

(** The reference of a place of the grid in mixed form. *)
Definition mixed_ref (r : integerref_t) : string :=
  match integerref_to_mixedref r with
  | Ok m => m
  | Throw _ => ""
  end.

Lemma mixed_ref_Ok (r : integerref_t) :
  valid_ref r -> integerref_to_mixedref r = Ok (mixed_ref r).
Proof.
  intros Hv. unfold mixed_ref. destruct (integerref_to_mixedref_Ok _ Hv) as (m & ->). reflexivity.
Qed.

Lemma mixed_ref_markup_free (r : integerref_t) : markup_free (mixed_ref r) = true.
Proof.
  unfold mixed_ref. destruct (integerref_to_mixedref r) as [m|] eqn:E; [|reflexivity].
  assert (Hv : valid_ref r).
  { apply invalid_ref_false. unfold integerref_to_mixedref in E. unfold invalid_ref.
    destruct (_ || _); [discriminate | reflexivity]. }
  destruct Hv as [Hrow Hcol].
  destruct (integerref_to_mixedref_letters r Hrow Hcol) as (letters & _ & Hup & _ & Hm).
  rewrite Hm in E. injection E as <-.
  rewrite markup_free_app, to_string_markup_free, andb_true_r.
  apply (string_forall_impl isupper); [|exact Hup].
  intros c Hc. apply negb_true_iff. destruct (Ascii.eqb c lt_sign) eqn:Ec; [|reflexivity].
  apply Ascii.eqb_eq in Ec. subst c. discriminate.
Qed.

(** *** The pieces of each element *)

Definition cell_open (c : cell_t) (mixedref : string) : string :=
  "c r=" ++ dq ++ mixedref ++ dq ++ " s=" ++ dq ++ to_string (style_index c) ++ dq.

(** The text of an element cut at each [<] that [generate_file] writes. *)
Definition event_tags (P : platform) (e : sheet_event) : list string :=
  match e with
  | col_custom used_col width =>
      ["col min=" ++ dq ++ to_string used_col ++ dq ++ " max=" ++ dq ++ to_string used_col ++ dq
       ++ " width=" ++ dq ++ to_string_double P width ++ dq
       ++ " customWidth=" ++ dq ++ "1" ++ dq ++ "/>"]
  | col_best_fit used_col =>
      ["col min=" ++ dq ++ to_string used_col ++ dq ++ " max=" ++ dq ++ to_string used_col ++ dq
       ++ " width=" ++ dq ++ "9.005" ++ dq ++ " bestFit=" ++ dq ++ "1" ++ dq ++ "/>"]
  | row_close => ["/row>"]
  | row_open this_row height =>
      ["row r=" ++ dq ++ to_string this_row ++ dq
       ++ match height with
          | Some ht =>
              " ht=" ++ dq ++ to_string_double P ht ++ dq ++ " customHeight=" ++ dq ++ "1" ++ dq
          | None => ""
          end
       ++ ">"]
  | cell_element c mixedref =>
      match type c with
      | NUMBER =>
          [cell_open c mixedref ++ ">"; "v>" ++ to_string_double P (num_val c); "/v>"; "/c>"]
      | FORMULA => [cell_open c mixedref ++ ">"; "f>" ++ str_fml_val c; "/f>"; "/c>"]
      | STRING =>
          [cell_open c mixedref ++ " t=" ++ dq ++ "inlineStr" ++ dq ++ ">"; "is>";
           "t>" ++ str_fml_val c; "/t>"; "/is>"; "/c>"]
      | EMPTY => [cell_open c mixedref ++ "/>"]
      end
  | merge_element start_mixedref end_mixedref =>
      ["mergeCell ref=" ++ dq ++ start_mixedref ++ ":" ++ end_mixedref ++ dq ++ "/>"]
  end.

Lemma render_event_tags (P : platform) (e : sheet_event) :
  render_event P e = tags (event_tags P e).
Proof.
  destruct e as [c w|c| |r [ht|]|c m|a b]; cbn [render_event event_tags];
    try destruct (type c); cbn [tags]; unfold cell_open;
    repeat rewrite string_append_assoc; reflexivity.
Qed.

Lemma render_events_cons (P : platform) (e : sheet_event) (es : list sheet_event) :
  render_events P (e :: es) = render_event P e ++ render_events P es.
Proof.
  unfold render_events. cbn [map String.concat].
  destruct (map (render_event P) es); [now rewrite string_app_nil_r | reflexivity].
Qed.

Lemma render_events_app (P : platform) (es1 es2 : list sheet_event) :
  render_events P (es1 ++ es2) = render_events P es1 ++ render_events P es2.
Proof.
  induction es1 as [|e es1 IH]; [reflexivity|].
  cbn [app]. now rewrite !render_events_cons, IH, string_append_assoc.
Qed.

Lemma render_events_tags (P : platform) (es : list sheet_event) :
  render_events P es = tags (flat_map (event_tags P) es).
Proof.
  induction es as [|e es IH]; [reflexivity|].
  cbn [flat_map]. now rewrite render_events_cons, tags_app, render_event_tags, IH.
Qed.

(** An element whose reference and cell text have no [<]. *)
Definition event_clean (e : sheet_event) : bool :=
  match e with
  | cell_element c m => markup_free m && markup_free (str_fml_val c)
  | merge_element a b => markup_free a && markup_free b
  | _ => true
  end.

(** [std::to_string] of a [double] writes digits, a sign and a point. *)
Definition markup_free_platform (P : platform) : Prop :=
  forall x, markup_free (to_string_double P x) = true.

Ltac markup_free_pieces :=
  repeat (rewrite markup_free_app; apply andb_true_iff; split);
  first [ reflexivity | assumption | apply to_string_markup_free | idtac ].

Lemma event_tags_markup_free (P : platform) (e : sheet_event) :
  markup_free_platform P -> event_clean e = true ->
  Forall (fun b => markup_free b = true) (event_tags P e).
Proof.
  intros HP He.
  destruct e as [c w|c| |r [ht|]|c m|a b]; cbn [event_tags event_clean] in *;
    try (apply andb_true_iff in He as [He1 He2]);
    try destruct (type c); unfold cell_open;
    repeat (apply Forall_cons || apply Forall_nil);
    markup_free_pieces; apply HP.
Qed.

Lemma events_tags_markup_free (P : platform) (es : list sheet_event) :
  markup_free_platform P -> Forall (fun e => event_clean e = true) es ->
  Forall (fun b => markup_free b = true) (flat_map (event_tags P) es).
Proof.
  intros HP. induction 1 as [|e es He _ IH]; [constructor|].
  cbn [flat_map]. apply Forall_app. split; [now apply event_tags_markup_free | exact IH].
Qed.

(** *** The sheet as a run of elements *)

(** The text of [file] before [<cols>]. *)
Definition worksheet_preamble : string :=
    "<?xml version=" ++ dq ++ "1.0" ++ dq ++ " encoding=" ++ dq ++ "UTF-8" ++ dq ++ " standalone=" ++ dq ++ "yes" ++ dq ++ "?>"
    ++ "<worksheet xmlns=" ++ dq ++ "http://schemas.openxmlformats.org/spreadsheetml/2006/main" ++ dq ++ " xmlns:r=" ++ dq ++ "http://schemas.openxmlformats.org/officeDocument/2006/relationships" ++ dq ++ " xmlns:mc=" ++ dq ++ "http://schemas.openxmlformats.org/markup-compatibility/2006" ++ dq ++ ">"
    ++ "<sheetViews><sheetView workbookViewId=" ++ dq ++ "0" ++ dq ++ "/></sheetViews>"
    ++ "<sheetFormatPr defaultRowHeight=" ++ dq ++ "17" ++ dq ++ "/>".

Lemma worksheet_head_preamble (P : platform) (s : Sheet) :
  worksheet_head P s
  = worksheet_preamble ++ "<cols>" ++ render_events P (cols_events s) ++ "</cols>".
Proof. reflexivity. Qed.

Definition merge_event (m : merged_cell_t) : sheet_event :=
  merge_element (mixed_ref (start_ref m)) (mixed_ref (end_ref m)).

Lemma mergeCells_events_map (merged_cells_ : list merged_cell_t) :
  Forall (fun m => valid_ref (start_ref m) /\ valid_ref (end_ref m)) merged_cells_ ->
  mergeCells_events merged_cells_ = Ok (map merge_event merged_cells_).
Proof.
  induction 1 as [|m rest [Hs He] _ IH]; [reflexivity|].
  cbn [mergeCells_events map].
  rewrite (mixed_ref_Ok _ Hs), (mixed_ref_Ok _ He), IH. reflexivity.
Qed.

Definition cols_tags (P : platform) (s : Sheet) : list string :=
  "cols>" :: flat_map (event_tags P) (cols_events s) ++ ["/cols>"].

Definition sheetData_tags (P : platform) (s : Sheet) (rows : list Z) : list string :=
  match rows with
  | [] => ["sheetData/>"]
  | _ :: _ =>
      "sheetData>"
      :: flat_map (event_tags P) (flat_map (row_block (row_heights s) (cells s)) rows)
      ++ ["/sheetData>"]
  end.

Definition mergeCells_tags (P : platform) (s : Sheet) : list string :=
  match merged_cells s with
  | [] => []
  | _ :: _ =>
      ("mergeCells count=" ++ dq ++ to_string (Z.of_nat (List.length (merged_cells s))) ++ dq
       ++ ">")
      :: flat_map (event_tags P) (map merge_event (merged_cells s)) ++ ["/mergeCells>"]
  end.

(** The rendered sheet after its preamble, cut at each [<] that
    [generate_file] writes. *)
Definition sheet_tags (P : platform) (s : Sheet) (rows : list Z) : list string :=
  cols_tags P s ++ sheetData_tags P s rows ++ mergeCells_tags P s ++ ["/worksheet>"].

Lemma cols_text_tags (P : platform) (s : Sheet) :
  "<cols>" ++ render_events P (cols_events s) ++ "</cols>" = tags (cols_tags P s).
Proof.
  unfold cols_tags. cbn [tags]. rewrite tags_app, render_events_tags. reflexivity.
Qed.

Lemma sheetData_text_tags (P : platform) (s : Sheet) (rows : list Z) :
  sheetData_text P s rows = tags (sheetData_tags P s rows).
Proof.
  unfold sheetData_text, sheetData_tags. destruct rows as [|r rows]; [reflexivity|].
  cbn [tags]. rewrite tags_app, render_events_tags. reflexivity.
Qed.

Lemma mergeCells_section_tags (P : platform) (s : Sheet) :
  Forall (fun m => valid_ref (start_ref m) /\ valid_ref (end_ref m)) (merged_cells s) ->
  mergeCells_section P s = Ok (tags (mergeCells_tags P s)).
Proof.
  intros Hm. unfold mergeCells_section, mergeCells_tags.
  rewrite (mergeCells_events_map _ Hm).
  destruct (merged_cells s) as [|m ms]; [reflexivity|].
  cbn [rbind tags]. rewrite tags_app, render_events_tags.
  repeat rewrite string_append_assoc. reflexivity.
Qed.

(** The rows of a sheet: those that the loop of [generate_file] opens. *)
Definition sheet_rows (s : Sheet) : list Z := new_rows (cells s) 0.

Lemma sheetData_section_rows (P : platform) (st : sheet_state) :
  sheet_inv st ->
  sheetData_section P (sheet st) = Ok (sheetData_text P (sheet st) (sheet_rows (sheet st))).
Proof.
  intros [Hs Hv _ _ _]. unfold sheetData_section, sheetData_text, sheet_rows.
  pose proof (sheetData_events_blocks (sheet st)) as Hblocks.
  destruct (cells (sheet st)) as [|c rest] eqn:Ec; [reflexivity|].
  rewrite Hblocks by (discriminate || assumption). cbn [rbind].
  assert (Hpos : (row_of c >? 0) = true).
  { inversion Hv as [|? ? [Hrow _] _]; subst. apply Z.gtb_lt. unfold row_of. lia. }
  cbn [new_rows]. rewrite Hpos. reflexivity.
Qed.

Lemma sheet_rows_sorted (s : Sheet) : StronglySorted Z.lt (sheet_rows s).
Proof. apply new_rows_sorted. Qed.

Lemma sheet_rows_In (st : sheet_state) (r : Z) :
  sheet_inv st ->
  In r (sheet_rows (sheet st)) <-> exists c, In c (cells (sheet st)) /\ row_of c = r.
Proof.
  intros [Hs Hv _ _ _]. unfold sheet_rows. rewrite (new_rows_In _ 0 r Hs). split.
  - intros (_ & Hc). exact Hc.
  - intros (c & Hc & Hr). split; [|now exists c].
    rewrite Forall_forall in Hv. destruct (Hv c Hc) as [Hrow _].
    unfold row_of in Hr. lia.
Qed.

(** What [generate_file] returns for a sheet that satisfies the invariant. *)
Lemma generate_file_tags (P : platform) (st : sheet_state) :
  sheet_inv st ->
  generate_file P (sheet st)
  = Ok (worksheet_preamble ++ tags (sheet_tags P (sheet st) (sheet_rows (sheet st)))).
Proof.
  intros Hinv. unfold generate_file.
  rewrite (sheetData_section_rows P st Hinv).
  rewrite (mergeCells_section_tags P (sheet st) (inv_merged_valid st Hinv)).
  cbn [rbind]. f_equal. unfold sheet_tags.
  rewrite worksheet_head_preamble, sheetData_text_tags, !tags_app.
  rewrite <- cols_text_tags. repeat rewrite string_append_assoc. reflexivity.
Qed.

Lemma cols_events_clean (s : Sheet) : Forall (fun e => event_clean e = true) (cols_events s).
Proof.
  unfold cols_events. apply Forall_forall. intros e He.
  apply in_map_iff in He as (c & <- & _). now destruct (set_find _ _ _).
Qed.

Definition clean_cells (s : Sheet) : Prop :=
  Forall (fun c => markup_free (str_fml_val c) = true) (cells s).

Lemma row_block_clean (s : Sheet) (r : Z) :
  clean_cells s ->
  Forall (fun e => event_clean e = true) (row_block (row_heights s) (cells s) r).
Proof.
  intros Hc. unfold row_block. constructor; [reflexivity|].
  apply Forall_app. split; [|now constructor].
  apply Forall_forall. intros e He. apply in_map_iff in He as (c & <- & Hin).
  apply filter_In in Hin as [Hin _].
  unfold clean_cells in Hc. rewrite Forall_forall in Hc.
  cbn [cell_event event_clean]. rewrite (Hc c Hin), andb_true_r.
  apply (mixed_ref_markup_free (integerref c)).
Qed.

Lemma sheet_tags_markup_free (P : platform) (s : Sheet) (rows : list Z) :
  markup_free_platform P -> clean_cells s ->
  Forall (fun b => markup_free b = true) (sheet_tags P s rows).
Proof.
  intros HP Hc. unfold sheet_tags, cols_tags, sheetData_tags, mergeCells_tags.
  repeat (apply Forall_app; split).
  - constructor; [reflexivity|]. apply Forall_app. split; [|now constructor].
    apply events_tags_markup_free; [exact HP | apply cols_events_clean].
  - destruct rows as [|r rows]; [now constructor|].
    constructor; [reflexivity|]. apply Forall_app. split; [|now constructor].
    apply events_tags_markup_free; [exact HP|].
    apply Forall_flat_map. apply Forall_forall. intros r' _. now apply row_block_clean.
  - destruct (merged_cells s) as [|m ms]; [constructor|].
    constructor; [markup_free_pieces|]. apply Forall_app. split; [|now constructor].
    apply events_tags_markup_free; [exact HP|].
    apply Forall_forall. intros e He. apply in_map_iff in He as (m' & <- & _).
    cbn [merge_event event_clean]. now rewrite !mixed_ref_markup_free.
  - now constructor.
Qed.

(** *** Counting the elements of a kind *)

Definition tag_count (q : string) (bodies : list string) : nat :=
  List.length (filter (prefix q) bodies).

Lemma tag_count_app (q : string) (l1 l2 : list string) :
  tag_count q (l1 ++ l2) = (tag_count q l1 + tag_count q l2)%nat.
Proof. unfold tag_count. now rewrite filter_app, length_app. Qed.

(** What an element adds to a count that tells column elements, closing
    row tags and opening row tags apart from the rest. *)
Definition kind_count (ncol nclose nopen : nat) (e : sheet_event) : nat :=
  match e with
  | col_custom _ _ | col_best_fit _ => ncol
  | row_close => nclose
  | row_open _ _ => nopen
  | cell_element _ _ | merge_element _ _ => 0%nat
  end.

Lemma list_sum_cons (x : nat) (l : list nat) : list_sum (x :: l) = (x + list_sum l)%nat.
Proof. reflexivity. Qed.

Section Counting.
Variable P : platform.
Variable q : string.
Variables ncol nclose nopen : nat.
Hypothesis count_event :
  forall e, tag_count q (event_tags P e) = kind_count ncol nclose nopen e.
Hypothesis count_fixed :
  forall b,
    In b ["cols>"; "/cols>"; "sheetData/>"; "sheetData>"; "/sheetData>"; "/mergeCells>";
          "/worksheet>"] ->
    prefix q b = false.
Hypothesis count_mergeCells : forall count, prefix q ("mergeCells count=" ++ count) = false.

Lemma tag_count_wrapped (a b : string) (l : list string) :
  prefix q a = false -> prefix q b = false ->
  tag_count q (a :: l ++ [b]) = tag_count q l.
Proof.
  intros Ha Hb. change (a :: l ++ [b])%list with ([a] ++ l ++ [b])%list.
  rewrite !tag_count_app. unfold tag_count at 1 3. cbn [filter]. rewrite Ha, Hb. cbn. lia.
Qed.

Lemma tag_count_events (es : list sheet_event) :
  tag_count q (flat_map (event_tags P) es)
  = list_sum (map (kind_count ncol nclose nopen) es).
Proof.
  induction es as [|e es IH]; [reflexivity|].
  cbn [flat_map map]. now rewrite list_sum_cons, tag_count_app, count_event, IH.
Qed.

Lemma count_cols_events (s : Sheet) :
  list_sum (map (kind_count ncol nclose nopen) (cols_events s))
  = (ncol * List.length (used_columns s))%nat.
Proof.
  unfold cols_events. induction (used_columns s) as [|c cs IH]; [cbn; lia|].
  cbn [map List.length]. rewrite list_sum_cons, IH.
  destruct (set_find _ _ _); cbn [kind_count]; lia.
Qed.

Lemma count_cell_events (l : list cell_t) :
  list_sum (map (kind_count ncol nclose nopen) (map cell_event l)) = 0%nat.
Proof. induction l as [|c l IH]; [reflexivity|]. cbn [map]. now rewrite list_sum_cons, IH. Qed.

Lemma count_row_blocks (s : Sheet) (rows : list Z) :
  list_sum (map (kind_count ncol nclose nopen)
              (flat_map (row_block (row_heights s) (cells s)) rows))
  = ((nopen + nclose) * List.length rows)%nat.
Proof.
  induction rows as [|r rows IH]; [cbn; lia|].
  cbn [flat_map List.length]. rewrite map_app, list_sum_app, IH.
  unfold row_block. cbn [map]. rewrite list_sum_cons, map_app, list_sum_app, count_cell_events.
  cbn [map]. rewrite list_sum_cons. cbn [kind_count list_sum fold_right]. lia.
Qed.

Lemma count_merge_events (ms : list merged_cell_t) :
  list_sum (map (kind_count ncol nclose nopen) (map merge_event ms)) = 0%nat.
Proof. induction ms as [|m ms IH]; [reflexivity|]. cbn [map]. now rewrite list_sum_cons, IH. Qed.

(** The pieces of a sheet that start with [q]. *)
Lemma tag_count_sheet (s : Sheet) (rows : list Z) :
  tag_count q (sheet_tags P s rows)
  = (ncol * List.length (used_columns s) + (nopen + nclose) * List.length rows)%nat.
Proof.
  unfold sheet_tags. rewrite !tag_count_app.
  assert (Hcols : tag_count q (cols_tags P s) = (ncol * List.length (used_columns s))%nat).
  { unfold cols_tags. rewrite tag_count_wrapped by (apply count_fixed; cbn; tauto).
    now rewrite tag_count_events, count_cols_events. }
  assert (Hrows : tag_count q (sheetData_tags P s rows)
                  = ((nopen + nclose) * List.length rows)%nat).
  { unfold sheetData_tags. destruct rows as [|r rows].
    - unfold tag_count. cbn [filter]. rewrite count_fixed by (cbn; tauto). cbn. lia.
    - rewrite tag_count_wrapped by (apply count_fixed; cbn; tauto).
      now rewrite tag_count_events, count_row_blocks. }
  assert (Hmerges : tag_count q (mergeCells_tags P s) = 0%nat).
  { unfold mergeCells_tags. destruct (merged_cells s) as [|m ms]; [reflexivity|].
    rewrite tag_count_wrapped
      by first [apply count_mergeCells | apply count_fixed; cbn; tauto].
    now rewrite tag_count_events, count_merge_events. }
  rewrite Hcols, Hrows, Hmerges. unfold tag_count at 1. cbn [filter].
  rewrite count_fixed by (cbn; tauto). cbn. lia.
Qed.
End Counting.

Lemma count_row_open (P : platform) (e : sheet_event) :
  tag_count "row " (event_tags P e) = kind_count 0 0 1 e.
Proof.
  destruct e as [c w|c| |r [ht|]|c m|a b]; cbn [event_tags];
    try destruct (type c); reflexivity.
Qed.

Lemma count_row_close (P : platform) (e : sheet_event) :
  tag_count "/row>" (event_tags P e) = kind_count 0 1 0 e.
Proof.
  destruct e as [c w|c| |r [ht|]|c m|a b]; cbn [event_tags];
    try destruct (type c); reflexivity.
Qed.

Lemma count_col (P : platform) (e : sheet_event) :
  tag_count "col " (event_tags P e) = kind_count 1 0 0 e.
Proof.
  destruct e as [c w|c| |r [ht|]|c m|a b]; cbn [event_tags];
    try destruct (type c); reflexivity.
Qed.

Ltac fixed_pieces :=
  first [ intros b Hb; cbn [In] in Hb; decompose [or] Hb; subst;
          first [reflexivity | contradiction]
        | intros count; reflexivity ].

(** In the sheet of clean cells the tags [<row ], [</row>] and [<col ] occur
    as often as [generate_file] writes them. *)
Lemma occurrences_in_sheet (P : platform) (s : Sheet) (rows : list Z) :
  markup_free_platform P -> clean_cells s ->
  occurrences "<row " (worksheet_preamble ++ tags (sheet_tags P s rows)) = List.length rows
  /\ occurrences "</row>" (worksheet_preamble ++ tags (sheet_tags P s rows)) = List.length rows
  /\ occurrences "<col " (worksheet_preamble ++ tags (sheet_tags P s rows))
     = List.length (used_columns s).
Proof.
  intros HP Hc. pose proof (sheet_tags_markup_free P s rows HP Hc) as Hfree.
  split; [|split].
  - change "<row " with (String lt_sign "row ").
    rewrite occurrences_app by (reflexivity || apply tags_tagged).
    rewrite (occurrences_tags "row " _ eq_refl Hfree).
    fold (tag_count "row " (sheet_tags P s rows)).
    rewrite (tag_count_sheet P "row " 0 0 1) by (apply count_row_open || fixed_pieces).
    change (occurrences _ worksheet_preamble) with 0%nat. lia.
  - change "</row>" with (String lt_sign "/row>").
    rewrite occurrences_app by (reflexivity || apply tags_tagged).
    rewrite (occurrences_tags "/row>" _ eq_refl Hfree).
    fold (tag_count "/row>" (sheet_tags P s rows)).
    rewrite (tag_count_sheet P "/row>" 0 1 0) by (apply count_row_close || fixed_pieces).
    change (occurrences _ worksheet_preamble) with 0%nat. lia.
  - change "<col " with (String lt_sign "col ").
    rewrite occurrences_app by (reflexivity || apply tags_tagged).
    rewrite (occurrences_tags "col " _ eq_refl Hfree).
    fold (tag_count "col " (sheet_tags P s rows)).
    rewrite (tag_count_sheet P "col " 1 0 0) by (apply count_col || fixed_pieces).
    change (occurrences _ worksheet_preamble) with 0%nat. lia.
Qed.

(** *** The text of a row element *)

(** The element of a cell. *)
Definition cell_text (P : platform) (c : cell_t) : string :=
  "<c r=" ++ dq ++ mixed c ++ dq ++ " s=" ++ dq ++ to_string (style_index c) ++ dq
  ++ match type c with
     | NUMBER => "><v>" ++ to_string_double P (num_val c) ++ "</v></c>"
     | FORMULA => "><f>" ++ str_fml_val c ++ "</f></c>"
     | STRING =>
         " t=" ++ dq ++ "inlineStr" ++ dq ++ "><is><t>" ++ str_fml_val c ++ "</t></is></c>"
     | EMPTY => "/>"
     end.

(** The element of row [r]: its opening tag, with the height when one is
    recorded, the cells of the row in the order of the set, its closing
    tag. *)
Definition row_text (P : platform) (s : Sheet) (r : Z) : string :=
  "<row r=" ++ dq ++ to_string r ++ dq
  ++ match height_of (row_heights s) r with
     | Some ht =>
         " ht=" ++ dq ++ to_string_double P ht ++ dq ++ " customHeight=" ++ dq ++ "1" ++ dq
     | None => ""
     end
  ++ ">" ++ String.concat "" (map (cell_text P) (cells_of_row (cells s) r)) ++ "</row>".

(** The text of [<sheetData>]: one row element after the other. *)
Definition rows_text (P : platform) (s : Sheet) (rows : list Z) : string :=
  match rows with
  | [] => "<sheetData/>"
  | _ :: _ => "<sheetData>" ++ String.concat "" (map (row_text P s) rows) ++ "</sheetData>"
  end.

Lemma concat_cons (x : string) (l : list string) :
  String.concat "" (x :: l) = x ++ String.concat "" l.
Proof. cbn [String.concat]. destruct l; [now rewrite string_app_nil_r | reflexivity]. Qed.

Lemma render_cell_events (P : platform) (l : list cell_t) :
  render_events P (map cell_event l) = String.concat "" (map (cell_text P) l).
Proof.
  induction l as [|c l IH]; [reflexivity|].
  cbn [map]. rewrite render_events_cons, concat_cons, IH. f_equal.
  unfold cell_event, cell_text. cbn [render_event]. destruct (type c); reflexivity.
Qed.

Lemma render_row_block (P : platform) (s : Sheet) (r : Z) :
  render_events P (row_block (row_heights s) (cells s) r) = row_text P s r.
Proof.
  unfold row_block, row_text.
  rewrite render_events_cons, render_events_app, render_cell_events.
  cbn [render_event]. destruct (height_of (row_heights s) r);
    repeat rewrite string_append_assoc; reflexivity.
Qed.

Lemma sheetData_text_rows (P : platform) (s : Sheet) (rows : list Z) :
  sheetData_text P s rows = rows_text P s rows.
Proof.
  unfold sheetData_text, rows_text. destruct rows as [|r0 rows0]; [reflexivity|].
  do 2 f_equal. generalize (r0 :: rows0). intros rows.
  induction rows as [|r rows IH]; [reflexivity|].
  cbn [flat_map map]. now rewrite render_events_app, concat_cons, render_row_block, IH.
Qed.

Lemma generate_file_rows (P : platform) (st : sheet_state) :
  sheet_inv st ->
  exists merges,
    mergeCells_section P (sheet st) = Ok merges
    /\ generate_file P (sheet st)
       = Ok (worksheet_head P (sheet st) ++ rows_text P (sheet st) (sheet_rows (sheet st))
             ++ merges ++ "</worksheet>").
Proof.
  intros Hinv. eexists. split; [apply mergeCells_section_tags, (inv_merged_valid st Hinv)|].
  unfold generate_file.
  rewrite (sheetData_section_rows P st Hinv).
  rewrite (mergeCells_section_tags P (sheet st) (inv_merged_valid st Hinv)).
  cbn [rbind]. now rewrite sheetData_text_rows.
Qed.

(** C4, for cell texts without markup. For every reachable sheet whose
    cell texts hold no [<], on a platform whose [std::to_string] writes none
    for a [double], there is a list of rows, strictly increasing, that holds
    exactly the row indices of the cells of the sheet, such that the text
    that [generate_file] returns is the head of the sheet, then [<sheetData>]
    with one row element for each row of the list, in that order, each made
    of the opening tag of the row, the elements of the cells of that row and
    the closing tag, then the merges and the end of the worksheet; the cells
    of each row are in strictly increasing column order; and in the whole
    text [<row ] and [</row>] occur once for each row of the list. *)
Theorem one_row_element_per_row (P : platform) (L : limits) (st : sheet_state) :
  reachable L st ->
  markup_free_platform P ->
  clean_cells (sheet st) ->
  exists rows,
    StronglySorted Z.lt rows
    /\ (forall r, In r rows <-> exists c, In c (cells (sheet st)) /\ row_of c = r)
    /\ (forall r, StronglySorted Z.lt (map col_of (cells_of_row (cells (sheet st)) r)))
    /\ exists merges text,
         mergeCells_section P (sheet st) = Ok merges
         /\ generate_file P (sheet st) = Ok text
         /\ text = worksheet_head P (sheet st) ++ rows_text P (sheet st) rows
                   ++ merges ++ "</worksheet>"
         /\ occurrences "<row " text = List.length rows
         /\ occurrences "</row>" text = List.length rows.
Proof.
  intros Hreach HP Hclean. pose proof (reachable_inv L st Hreach) as Hinv.
  exists (sheet_rows (sheet st)).
  split; [apply sheet_rows_sorted|].
  split; [intros r; now apply sheet_rows_In|].
  split; [intros r; apply cells_of_row_columns, (inv_cells_sorted st Hinv)|].
  destruct (generate_file_rows P st Hinv) as (merges & Hmerges & Hfile).
  pose proof (generate_file_tags P st Hinv) as Htags.
  exists merges, (worksheet_preamble ++ tags (sheet_tags P (sheet st) (sheet_rows (sheet st)))).
  split; [exact Hmerges|]. split; [exact Htags|]. split; [congruence|].
  destruct (occurrences_in_sheet P (sheet st) (sheet_rows (sheet st)) HP Hclean)
    as (Hopen & Hclose & _).
  split; assumption.
Qed.

(** The example sheet after a merged string cell over A1:B2. *)
Definition example_sheet_merged : sheet_state :=
  snd (run_call example_limits
         (call_add_merged_string_cell A1 B2 "title" generic_string_style) example_sheet).

Lemma one_row_element_per_row_witness :
  exists rows,
    StronglySorted Z.lt rows
    /\ (forall r, In r rows <->
                  exists c, In c (cells (sheet example_sheet_merged)) /\ row_of c = r)
    /\ (forall r, StronglySorted Z.lt
                    (map col_of (cells_of_row (cells (sheet example_sheet_merged)) r)))
    /\ exists merges text,
         mergeCells_section example_platform (sheet example_sheet_merged) = Ok merges
         /\ generate_file example_platform (sheet example_sheet_merged) = Ok text
         /\ text = worksheet_head example_platform (sheet example_sheet_merged)
                   ++ rows_text example_platform (sheet example_sheet_merged) rows
                   ++ merges ++ "</worksheet>"
         /\ occurrences "<row " text = List.length rows
         /\ occurrences "</row>" text = List.length rows.
Proof.
  apply (one_row_element_per_row example_platform example_limits).
  - apply reachable_call. apply reachable_fresh.
  - intros x. reflexivity.
  - vm_compute. repeat constructor.
Defined.

(** The rows of the example are 1 and 2, and its text has the two row
    elements. *)
Example example_sheet_merged_rows :
  sheet_rows (sheet example_sheet_merged) = [1; 2]
  /\ rows_text example_platform (sheet example_sheet_merged) [1; 2]
     = "<sheetData>"
       ++ "<row r=" ++ dq ++ "1" ++ dq ++ ">"
       ++ "<c r=" ++ dq ++ "A1" ++ dq ++ " s=" ++ dq ++ "0" ++ dq ++ " t=" ++ dq ++ "inlineStr" ++ dq ++ "><is><t>title</t></is></c>"
       ++ "<c r=" ++ dq ++ "B1" ++ dq ++ " s=" ++ dq ++ "0" ++ dq ++ "/>"
       ++ "</row>"
       ++ "<row r=" ++ dq ++ "2" ++ dq ++ ">"
       ++ "<c r=" ++ dq ++ "A2" ++ dq ++ " s=" ++ dq ++ "0" ++ dq ++ "/>"
       ++ "<c r=" ++ dq ++ "B2" ++ dq ++ " s=" ++ dq ++ "0" ++ dq ++ "/>"
       ++ "</row>"
       ++ "</sheetData>".
Proof. split; vm_compute; reflexivity. Qed.

(** A string cell whose text closes its own row element and opens another. *)
Definition markup_text : string :=
  "x</t></is></c></row><row r=" ++ dq ++ "1" ++ dq ++ "><c r=" ++ dq ++ "B1" ++ dq
  ++ " s=" ++ dq ++ "0" ++ dq ++ " t=" ++ dq ++ "inlineStr" ++ dq ++ "><is><t>y".

Definition example_sheet_markup : sheet_state :=
  snd (run_call example_limits
         (call_add_string_cell A1 markup_text generic_string_style) example_sheet).

(** C4 as the spec has it fails: the sheet with the one string cell
    [markup_text] at A1 is reachable and has cells in row 1 only, and the
    text that [generate_file] returns holds two row elements. *)
Lemma markup_in_cell_text_adds_row_element :
  reachable example_limits example_sheet_markup
  /\ map row_of (cells (sheet example_sheet_markup)) = [1]
  /\ exists text,
       generate_file example_platform (sheet example_sheet_markup) = Ok text
       /\ occurrences "<row " text = 2%nat
       /\ occurrences "</row>" text = 2%nat
       /\ rows_text example_platform (sheet example_sheet_markup) [1]
          = "<sheetData>"
            ++ "<row r=" ++ dq ++ "1" ++ dq ++ ">"
            ++ "<c r=" ++ dq ++ "A1" ++ dq ++ " s=" ++ dq ++ "0" ++ dq ++ " t=" ++ dq ++ "inlineStr" ++ dq ++ "><is><t>x</t></is></c>"
            ++ "</row>"
            ++ "<row r=" ++ dq ++ "1" ++ dq ++ ">"
            ++ "<c r=" ++ dq ++ "B1" ++ dq ++ " s=" ++ dq ++ "0" ++ dq ++ " t=" ++ dq ++ "inlineStr" ++ dq ++ "><is><t>y</t></is></c>"
            ++ "</row>"
            ++ "</sheetData>".
Proof.
  split; [apply reachable_call, reachable_fresh|].
  split; [reflexivity|].
  eexists. split; [vm_compute; reflexivity|].
  split; [vm_compute; reflexivity|]. split; vm_compute; reflexivity.
Qed.

(** ** Column widths and row heights *)

Lemma set_column_widths_same (s : Sheet) : set_column_widths (column_widths s) s = s.
Proof. now destruct s. Qed.

Lemma set_row_heights_same (s : Sheet) : set_row_heights (row_heights s) s = s.
Proof. now destruct s. Qed.

(** Once a width is recorded for a column, [set_column_width] on that column
    changes nothing, whatever the new width. *)
Lemma set_column_width_again (c : Z) (v1 v2 : float) (st : sheet_state) :
  sheet_inv st -> In (c, v1) (column_widths (sheet st)) ->
  snd (set_column_width c v2 st) = st
  /\ set_find column_widths_sort_compare (c, 0%float) (column_widths (sheet st))
     = Some (c, v1).
Proof.
  intros Hinv Hin. split.
  - unfold set_column_width.
    destruct (_ || _)%bool; [reflexivity|]. destruct (_ || _)%bool; [reflexivity|].
    unfold modify, on_this. cbn [snd sheet].
    rewrite (set_insert_present column_widths_sort_compare pair_less_irrefl
                    pair_less_trans pair_less_cotrans _ (c, v1));
      [| apply Hinv | exact Hin | now apply pair_equiv_same_index].
    cbn [fst]. rewrite set_column_widths_same. now destruct st.
  - apply (set_find_present column_widths_sort_compare pair_less_irrefl
             pair_less_trans pair_less_cotrans);
      [apply Hinv | exact Hin | now apply pair_equiv_same_index].
Qed.

Lemma set_row_height_again (L : limits) (r : Z) (v1 v2 : float) (st : sheet_state) :
  sheet_inv st -> In (r, v1) (row_heights (sheet st)) ->
  snd (set_row_height L r v2 st) = st
  /\ set_find row_heights_sort_compare (r, 0%float) (row_heights (sheet st))
     = Some (r, v1).
Proof.
  intros Hinv Hin. split.
  - unfold set_row_height.
    destruct (_ || _)%bool; [reflexivity|]. destruct (_ || _)%bool; [reflexivity|].
    unfold modify, on_this. cbn [snd sheet].
    rewrite (set_insert_present row_heights_sort_compare pair_less_irrefl
                    pair_less_trans pair_less_cotrans _ (r, v1));
      [| apply Hinv | exact Hin | now apply pair_equiv_same_index].
    cbn [fst]. rewrite set_row_heights_same. now destruct st.
  - apply (set_find_present row_heights_sort_compare pair_less_irrefl
             pair_less_trans pair_less_cotrans);
      [apply Hinv | exact Hin | now apply pair_equiv_same_index].
Qed.

(** At most one width is stored for a column. *)
Lemma column_widths_NoDup (l : list (Z * float)) :
  StronglySorted (lt_of column_widths_sort_compare) l -> NoDup (map fst l).
Proof.
  induction 1 as [|p l Hs IH Hall]; cbn [map]; constructor; [|exact IH].
  intros Hin. apply in_map_iff in Hin as (q & Hq & Hin).
  rewrite Forall_forall in Hall. specialize (Hall q Hin).
  apply pair_less_lt in Hall. lia.
Qed.

(** A width, or a height, that the setter accepts. *)
Definition width_in_range (v : float) : Prop :=
  PrimFloat.ltb v MIN_COL_WIDTH = false /\ PrimFloat.ltb MAX_COL_WIDTH v = false.
Definition height_in_range (L : limits) (v : float) : Prop :=
  PrimFloat.ltb v (MIN_ROW_HEIGHT L) = false /\ PrimFloat.ltb (MAX_ROW_HEIGHT L) v = false.

Lemma set_column_width_Ok (c : Z) (v : float) (st : sheet_state) :
  1 <= c <= MAX_COL -> width_in_range v ->
  set_column_width c v st =
  (Ok tt,
   on_this (fun s => set_column_widths
                       (fst (set_insert column_widths_sort_compare (c, v) (column_widths s))) s)
     st).
Proof.
  intros Hc [Hlo Hhi]. unfold set_column_width. rewrite Hlo, Hhi. cbn [orb].
  destruct (c <? 1) eqn:E1; [apply Z.ltb_lt in E1; lia|].
  destruct (c >? MAX_COL) eqn:E2; [apply Z.gtb_lt in E2; lia|].
  reflexivity.
Qed.

Lemma set_row_height_Ok (L : limits) (r : Z) (v : float) (st : sheet_state) :
  1 <= r <= MAX_ROW -> height_in_range L v ->
  set_row_height L r v st =
  (Ok tt,
   on_this (fun s => set_row_heights
                       (fst (set_insert row_heights_sort_compare (r, v) (row_heights s))) s)
     st).
Proof.
  intros Hr [Hlo Hhi]. unfold set_row_height. rewrite Hlo, Hhi. cbn [orb].
  destruct (r <? 1) eqn:E1; [apply Z.ltb_lt in E1; lia|].
  destruct (r >? MAX_ROW) eqn:E2; [apply Z.gtb_lt in E2; lia|].
  reflexivity.
Qed.

(** The first value set for an index with no override is recorded. *)
Lemma set_insert_first (i : Z) (v : float) (l : list (Z * float)) :
  (forall p, In p l -> fst p <> i) ->
  In (i, v) (fst (set_insert column_widths_sort_compare (i, v) l)).
Proof.
  intros Hfree. apply set_insert_true_In, set_insert_fresh.
  intros p Hp Heq. apply pair_equiv_same_index in Heq. apply (Hfree p Hp). now rewrite <- Heq.
Qed.

Lemma cols_events_custom (s : Sheet) (c : Z) (v : float) :
  set_find column_widths_sort_compare (c, 0%float) (column_widths s) = Some (c, v) ->
  In c (used_columns s) -> In (col_custom c v) (cols_events s).
Proof.
  intros Hfind Hused. unfold cols_events. apply in_map_iff. exists c.
  rewrite Hfind. now split.
Qed.

(** What the setters do when called twice. In a reachable sheet, for an
    in-range index with no override yet and two in-range values set one
    after the other, both calls return, the second changes nothing, and the
    override recorded for the index, which is the one written for it, is
    the first value; one override at most is stored per index. This holds
    for column widths and for row heights. *)
Lemma first_width_or_height_is_kept (L : limits) (st : sheet_state) :
  reachable L st ->
  (forall (c : Z) (v1 v2 : float),
      1 <= c <= MAX_COL -> width_in_range v1 -> width_in_range v2 ->
      (forall p, In p (column_widths (sheet st)) -> fst p <> c) ->
      exists st1,
        set_column_width c v1 st = (Ok tt, st1)
        /\ set_column_width c v2 st1 = (Ok tt, st1)
        /\ set_find column_widths_sort_compare (c, 0%float) (column_widths (sheet st1))
           = Some (c, v1)
        /\ (In c (used_columns (sheet st1)) -> In (col_custom c v1) (cols_events (sheet st1)))
        /\ NoDup (map fst (column_widths (sheet st1))))
  /\ (forall (r : Z) (v1 v2 : float),
      1 <= r <= MAX_ROW -> height_in_range L v1 -> height_in_range L v2 ->
      (forall p, In p (row_heights (sheet st)) -> fst p <> r) ->
      exists st1,
        set_row_height L r v1 st = (Ok tt, st1)
        /\ set_row_height L r v2 st1 = (Ok tt, st1)
        /\ height_of (row_heights (sheet st1)) r = Some v1
        /\ (forall P,
              row_text P (sheet st1) r
              = "<row r=" ++ dq ++ to_string r ++ dq
                ++ " ht=" ++ dq ++ to_string_double P v1 ++ dq
                ++ " customHeight=" ++ dq ++ "1" ++ dq ++ ">"
                ++ String.concat "" (map (cell_text P) (cells_of_row (cells (sheet st1)) r))
                ++ "</row>")
        /\ NoDup (map fst (row_heights (sheet st1)))).
Proof.
  intros Hreach. pose proof (reachable_inv L st Hreach) as Hinv. split.
  - intros c v1 v2 Hc Hv1 Hv2 Hfree.
    eexists. split; [apply set_column_width_Ok; assumption|].
    set (st1 := on_this _ st).
    assert (Hinv1 : sheet_inv st1).
    { replace st1 with (snd (set_column_width c v1 st))
        by (now rewrite set_column_width_Ok).
      now apply set_column_width_preserves. }
    assert (Hin : In (c, v1) (column_widths (sheet st1)))
      by (cbn; now apply set_insert_first).
    destruct (set_column_width_again c v1 v2 st1 Hinv1 Hin) as [Hsame Hfind].
    split.
    { rewrite set_column_width_Ok in Hsame |- * by assumption. cbn [snd] in Hsame.
      now rewrite Hsame. }
    split; [exact Hfind|]. split; [now apply cols_events_custom|].
    apply column_widths_NoDup, Hinv1.
  - intros r v1 v2 Hr Hv1 Hv2 Hfree.
    eexists. split; [apply set_row_height_Ok; assumption|].
    set (st1 := on_this _ st).
    assert (Hinv1 : sheet_inv st1).
    { replace st1 with (snd (set_row_height L r v1 st))
        by (now rewrite set_row_height_Ok).
      now apply set_row_height_preserves. }
    assert (Hin : In (r, v1) (row_heights (sheet st1)))
      by (cbn; now apply set_insert_first).
    destruct (set_row_height_again L r v1 v2 st1 Hinv1 Hin) as [Hsame Hfind].
    split.
    { rewrite set_row_height_Ok in Hsame |- * by assumption. cbn [snd] in Hsame.
      now rewrite Hsame. }
    assert (Hheight : height_of (row_heights (sheet st1)) r = Some v1)
      by (unfold height_of; now rewrite Hfind).
    split; [exact Hheight|].
    split; [intros P; unfold row_text; rewrite Hheight;
            repeat rewrite string_append_assoc; reflexivity|].
    apply column_widths_NoDup, Hinv1.
Qed.

Lemma first_width_or_height_is_kept_witness :
  (exists st1,
     set_column_width 3 10%float example_sheet = (Ok tt, st1)
     /\ set_column_width 3 20%float st1 = (Ok tt, st1)
     /\ set_find column_widths_sort_compare (3, 0%float) (column_widths (sheet st1))
        = Some (3, 10%float)
     /\ (In 3 (used_columns (sheet st1)) -> In (col_custom 3 10%float) (cols_events (sheet st1)))
     /\ NoDup (map fst (column_widths (sheet st1))))
  /\ (exists st1,
     set_row_height example_limits 2 15%float example_sheet = (Ok tt, st1)
     /\ set_row_height example_limits 2 30%float st1 = (Ok tt, st1)
     /\ height_of (row_heights (sheet st1)) 2 = Some 15%float
     /\ (forall P,
           row_text P (sheet st1) 2
           = "<row r=" ++ dq ++ to_string 2 ++ dq
             ++ " ht=" ++ dq ++ to_string_double P 15%float ++ dq
             ++ " customHeight=" ++ dq ++ "1" ++ dq ++ ">"
             ++ String.concat "" (map (cell_text P) (cells_of_row (cells (sheet st1)) 2))
             ++ "</row>")
     /\ NoDup (map fst (row_heights (sheet st1)))).
Proof.
  destruct (first_width_or_height_is_kept example_limits example_sheet
              (reachable_fresh example_limits _ _ _ _ _)) as [Hw Hh].
  split.
  - apply (Hw 3 10%float 20%float); [unfold MAX_COL; lia | split; reflexivity
                                     | split; reflexivity | intros p []].
  - apply (Hh 2 15%float 30%float); [unfold MAX_ROW; lia | split; reflexivity
                                     | split; reflexivity | intros p []].
Defined.

Definition run_calls (L : limits) (calls : list sheet_call) : M sheet_state unit :=
  for_each calls (run_call L).

Definition C2_cell : integerref_t := {| row := 2; col := 3 |}.

(** A platform that prints the widths and heights of the examples as
    [std::to_string] does, with six decimals. *)
Definition decimal_platform : platform :=
  {| localtime_now := localtime_now example_platform;
     gmtime_now := gmtime_now example_platform;
     can_open := can_open example_platform;
     write_ok := write_ok example_platform;
     to_string_double := fun x =>
       if PrimFloat.eqb x 1 then "1.000000"
       else if PrimFloat.eqb x 10 then "10.000000"
       else if PrimFloat.eqb x 15 then "15.000000"
       else if PrimFloat.eqb x 20 then "20.000000"
       else if PrimFloat.eqb x 30 then "30.000000"
       else "0.000000" |}.

(** The sheet with a number at C2 after the width of column 3 is set to 10
    and then to 20, and the height of row 2 to 15 and then to 30. *)
Definition example_sheet_set_twice : result unit * sheet_state :=
  run_calls example_limits
    [ call_add_number_cell C2_cell 1%float generic_style;
      call_set_column_width 3 10%float; call_set_column_width 3 20%float;
      call_set_row_height 2 15%float; call_set_row_height 2 30%float ]
    example_sheet.

(** C6 at the failing input. Every call returns, all values are in range,
    and the widths and heights recorded are the first ones, 10 and 15: the
    text that [generate_file] returns has the column element with width 10
    and the row element with height 15, and 20 and 30 occur nowhere in it. *)
Lemma second_width_or_height_is_dropped :
  width_in_range 10%float /\ width_in_range 20%float
  /\ height_in_range example_limits 15%float /\ height_in_range example_limits 30%float
  /\ exists st text,
    example_sheet_set_twice = (Ok tt, st)
    /\ column_widths (sheet st) = [(3, 10%float)]
    /\ row_heights (sheet st) = [(2, 15%float)]
    /\ generate_file decimal_platform (sheet st) = Ok text
    /\ text
       = worksheet_preamble
         ++ "<cols><col min=" ++ dq ++ "3" ++ dq ++ " max=" ++ dq ++ "3" ++ dq ++ " width=" ++ dq ++ "10.000000" ++ dq ++ " customWidth=" ++ dq ++ "1" ++ dq ++ "/></cols>"
         ++ "<sheetData><row r=" ++ dq ++ "2" ++ dq ++ " ht=" ++ dq ++ "15.000000" ++ dq ++ " customHeight=" ++ dq ++ "1" ++ dq ++ ">"
         ++ "<c r=" ++ dq ++ "C2" ++ dq ++ " s=" ++ dq ++ "0" ++ dq ++ "><v>1.000000</v></c>"
         ++ "</row></sheetData></worksheet>"
    /\ occurrences "10.000000" text = 1%nat
    /\ occurrences "15.000000" text = 1%nat
    /\ occurrences "20.000000" text = 0%nat
    /\ occurrences "30.000000" text = 0%nat.
Proof.
  do 4 (split; [split; reflexivity|]).
  eexists. eexists. split; [vm_compute; reflexivity|].
  split; [reflexivity|]. split; [reflexivity|].
  split; [vm_compute; reflexivity|]. split; [vm_compute; reflexivity|].
  repeat split; vm_compute; reflexivity.
Qed.

(** ** The archive *)

Section ThrowKeeps.
Context {S : Type} (I : S -> Prop).

(** A state reached by a throw of [m] satisfies [I]. *)
Definition keeps_on_throw {A : Type} (m : M S A) : Prop :=
  forall s e s', I s -> m s = (Throw e, s') -> I s'.

Lemma preserves_keeps_on_throw {A : Type} (m : M S A) :
  preserves I m -> keeps_on_throw m.
Proof. intros Hm s e s' Hs Hrun. specialize (Hm s Hs). now rewrite Hrun in Hm. Qed.

Lemma keeps_on_throw_bind {A B : Type} (m : M S A) (k : A -> M S B) :
  preserves I m -> (forall a, keeps_on_throw (k a)) -> keeps_on_throw (bind m k).
Proof.
  intros Hm Hk s e s' Hs. unfold bind. specialize (Hm s Hs).
  destruct (m s) as [[a|e1] s1]; cbn [snd] in Hm.
  - intros Hrun. exact (Hk a s1 e s' Hm Hrun).
  - intros [= _ <-]. exact Hm.
Qed.

Lemma keeps_on_throw_modify (f : S -> S) : keeps_on_throw (modify f).
Proof. intros s e s' _ Hrun. discriminate. Qed.

End ThrowKeeps.

Definition has_num_files (n : Z) (z : IttyZip.IttyZip) : Prop := IttyZip.num_files z = n.

Lemma write_num_files (P : platform) (n : Z) (bytes : string) :
  preserves (has_num_files n) (IttyZip.write P bytes).
Proof. intros z Hz. exact Hz. Qed.

Lemma check_output_num_files (n : Z) : preserves (has_num_files n) IttyZip.check_output.
Proof.
  intros z Hz. unfold IttyZip.check_output.
  destruct (negb (IttyZip.opened z)); [exact Hz|].
  destruct (negb (is_open (IttyZip.out_file z))); [exact Hz|].
  destruct (fail (IttyZip.out_file z)); exact Hz.
Qed.

Lemma writeLocalheader_num_files (P : platform) (n : Z) (h : IttyZip.localheader_t) :
  preserves (has_num_files n) (IttyZip.writeLocalheader P h).
Proof.
  unfold IttyZip.writeLocalheader.
  repeat first [ apply preserves_bind; [| intros ?] | apply check_output_num_files
               | apply write_num_files | apply preserves_ret ].
Qed.

Lemma filenames_insert_num_files (n : Z) (name_ : string) :
  preserves (has_num_files n) (IttyZip.filenames_insert name_).
Proof.
  intros z Hz. unfold IttyZip.filenames_insert.
  destruct (set_insert String.ltb name_ (IttyZip.filenames z)). exact Hz.
Qed.

(** An [addFile] that throws leaves the count of files as it was. *)
Lemma addFile_throw_num_files (P : platform) (n : Z) (filename_ contents : string) :
  keeps_on_throw (has_num_files n) (IttyZip.addFile P filename_ contents).
Proof.
  unfold IttyZip.addFile.
  apply keeps_on_throw_bind; [apply check_output_num_files | intros _].
  apply keeps_on_throw_bind; [intros z Hz; exact Hz | intros headers].
  apply keeps_on_throw_bind; [apply filenames_insert_num_files | intros ins_ret].
  destruct (negb ins_ret); [apply preserves_keeps_on_throw, preserves_throw|].
  apply keeps_on_throw_bind; [intros z Hz; exact Hz | intros _].
  apply keeps_on_throw_bind; [apply writeLocalheader_num_files | intros written].
  apply keeps_on_throw_bind; [intros z Hz; exact Hz | intros _].
  apply keeps_on_throw_bind; [apply write_num_files | intros _].
  apply keeps_on_throw_bind; [intros z Hz; exact Hz | intros _].
  apply keeps_on_throw_modify.
Qed.

(** An open archive to which no entry has been added: one just opened, by
    [open] or by the constructor, and then only calls of [addFile] that
    threw. *)
Inductive open_empty (P : platform) : IttyZip.IttyZip -> Prop :=
| open_empty_open z outputFilename z' :
    IttyZip.open P outputFilename z = (Ok tt, z') -> open_empty P z'
| open_empty_constructed outputFilename z :
    IttyZip.IttyZip_with_file P outputFilename = (Ok tt, z) -> open_empty P z
| open_empty_failed_add z filename_ contents e z' :
    open_empty P z -> IttyZip.addFile P filename_ contents z = (Throw e, z') ->
    open_empty P z'.

Lemma open_empty_num_files (P : platform) (z : IttyZip.IttyZip) :
  open_empty P z -> IttyZip.num_files z = 0.
Proof.
  induction 1 as [z name_ z' Hopen | name_ z Hctor | z name_ contents e z' _ IH Hadd].
  - unfold IttyZip.open in Hopen.
    destruct (_ || _)%bool; [discriminate|].
    destruct (negb _); [discriminate|]. now injection Hopen as <-.
  - unfold IttyZip.IttyZip_with_file in Hctor.
    destruct (negb _); [discriminate|]. now injection Hctor as <-.
  - exact (addFile_throw_num_files P 0 name_ contents z e z' IH Hadd).
Qed.

(** C8. On an open archive to which no entry has been added, finalize
    throws the empty-archive error and leaves the archive, its output file
    included, exactly as it was. *)
Theorem finalize_empty_archive (P : platform) (z : IttyZip.IttyZip) :
  open_empty P z ->
  IttyZip.finalize P z = (Throw (std_exception IttyZip.EMPTY_FINALIZE_MESG), z).
Proof.
  intros Hz. apply open_empty_num_files in Hz.
  unfold IttyZip.finalize. now rewrite Hz.
Qed.

Lemma finalize_empty_archive_witness :
  IttyZip.finalize example_platform
    (snd (IttyZip.open example_platform "book.xlsx" IttyZip.IttyZip_default))
  = (Throw (std_exception IttyZip.EMPTY_FINALIZE_MESG),
     snd (IttyZip.open example_platform "book.xlsx" IttyZip.IttyZip_default)).
Proof.
  apply (finalize_empty_archive example_platform).
  apply (open_empty_open example_platform IttyZip.IttyZip_default "book.xlsx").
  reflexivity.
Defined.

(** ** Workbook::publish *)

(** The calls of [archive.addFile] for a list of named parts, in order. *)
Definition add_files (P : platform) (parts : list (string * string))
  : M IttyZip.IttyZip unit :=
  for_each parts (fun part => IttyZip.addFile P (fst part) (snd part)).

(** The parts that [publish] writes before the sheets. *)
Definition fixed_parts (wb : Workbook) (time_string : string) : list (string * string) :=
  [ ("[Content_Types].xml", content_types_xml wb);
    ("_rels/.rels", root_rels_xml);
    ("docProps/app.xml", app_xml wb);
    ("docProps/core.xml", core_xml time_string);
    ("xl/_rels/workbook.xml.rels", workbook_rels_xml wb);
    ("xl/styles.xml", styles_xml wb);
    ("xl/workbook.xml", workbook_xml wb) ].

(** The part of a sheet: its file name and its rendered text. *)
Definition sheet_part (P : platform) (s : Sheet) (part : string * string) : Prop :=
  fst part = filename s /\ generate_file P s = Ok (snd part).

Lemma add_files_app (P : platform) (l1 l2 : list (string * string)) (z : IttyZip.IttyZip) :
  add_files P (l1 ++ l2) z =
  match add_files P l1 z with
  | (Ok _, z1) => add_files P l2 z1
  | (Throw e, z1) => (Throw e, z1)
  end.
Proof.
  revert z. induction l1 as [|p l1 IH]; intros z; [reflexivity|].
  unfold add_files in *. cbn [app for_each]. unfold bind.
  destruct (IttyZip.addFile P (fst p) (snd p) z) as [[u|e] z1]; [apply IH | reflexivity].
Qed.

Lemma on_archive_Ok {A : Type} (m : M IttyZip.IttyZip A) (wb wb' : Workbook) (a : A) :
  on_archive m wb = (Ok a, wb') ->
  m (archive wb) = (Ok a, archive wb')
  /\ sheets wb' = sheets wb /\ cell_styles wb' = cell_styles wb.
Proof.
  unfold on_archive. destruct (m (archive wb)) as [r z]. intros [= -> <-]. now cbn.
Qed.

(** A step of a method that returns in the end returns itself. *)
Lemma bind_Ok {S A B : Type} (m : M S A) (k : A -> M S B) (s s' : S) (b : B) :
  bind m k s = (Ok b, s') -> exists a s1, m s = (Ok a, s1) /\ k a s1 = (Ok b, s').
Proof.
  unfold bind. destruct (m s) as [[a|e] s1]; [|discriminate].
  intros H. now exists a, s1.
Qed.

Lemma back_last {T : Type} (l : list T) (x : T) : back (l ++ [x]) = Some x.
Proof. unfold back. now rewrite rev_app_distr. Qed.

Lemma pop_back_last {T : Type} (l : list T) (x : T) : pop_back (l ++ [x]) = l.
Proof. apply removelast_last. Qed.

Lemma publish_fixed_parts_Ok (P : platform) (wb wb' : Workbook) :
  publish_fixed_parts P wb = (Ok tt, wb') ->
  exists time_string,
    strftime_timestamp TIME_BUF_SIZE (gmtime_now P) = Some time_string
    /\ add_files P (fixed_parts wb time_string) (archive wb) = (Ok tt, archive wb')
    /\ sheets wb' = sheets wb /\ cell_styles wb' = cell_styles wb.
Proof.
  unfold publish_fixed_parts. intros H.
  apply bind_Ok in H as (wb0 & w0 & [= <- <-] & H).
  apply bind_Ok in H as ([] & w1 & H1 & H). apply on_archive_Ok in H1 as (H1 & S1 & C1).
  apply bind_Ok in H as ([] & w2 & H2 & H). apply on_archive_Ok in H2 as (H2 & S2 & C2).
  apply bind_Ok in H as ([] & w3 & H3 & H). apply on_archive_Ok in H3 as (H3 & S3 & C3).
  apply bind_Ok in H as ([] & w4 & H4 & H).
  destruct (strftime_timestamp TIME_BUF_SIZE (gmtime_now P)) as [time_string|];
    [|discriminate].
  apply on_archive_Ok in H4 as (H4 & S4 & C4).
  apply bind_Ok in H as ([] & w5 & H5 & H). apply on_archive_Ok in H5 as (H5 & S5 & C5).
  apply bind_Ok in H as ([] & w6 & H6 & H). apply on_archive_Ok in H6 as (H6 & S6 & C6).
  apply on_archive_Ok in H as (H7 & S7 & C7).
  exists time_string. split; [reflexivity|]. split; [|split; congruence].
  unfold add_files, fixed_parts. cbn [for_each fst snd]. unfold bind, ret.
  rewrite H1, H2, H3, H4, H5, H6, H7. reflexivity.
Qed.

Lemma publish_sheets_Ok (P : platform) (l : list Sheet) (wb wb' : Workbook) :
  sheets wb = l ->
  publish_sheets P (List.length l) wb = (Ok tt, wb') ->
  exists parts,
    Forall2 (sheet_part P) (rev l) parts
    /\ add_files P parts (archive wb) = (Ok tt, archive wb')
    /\ sheets wb' = [] /\ cell_styles wb' = cell_styles wb.
Proof.
  revert wb. induction l as [|x l IH] using rev_ind; intros wb Hl H.
  - cbn in H. injection H as <-. exists []. repeat split; [constructor | exact Hl].
  - rewrite List.length_app, Nat.add_comm in H. cbn [List.length Nat.add publish_sheets] in H.
    apply bind_Ok in H as (wb0 & w0 & [= <- <-] & H).
    rewrite Hl, back_last in H.
    apply bind_Ok in H as (contents & w1 & H1 & H).
    unfold lift_result in H1. injection H1 as Hgen <-.
    apply bind_Ok in H as ([] & w2 & H2 & H). apply on_archive_Ok in H2 as (H2 & S2 & C2).
    apply bind_Ok in H as ([] & w3 & [= <-] & H).
    destruct (IH (set_sheets (pop_back (sheets w2)) w2)
                ltac:(unfold set_sheets; cbn [sheets]; rewrite S2, Hl; apply pop_back_last) H)
      as (parts & Hparts & Hadd & Hs & Hc).
    exists ((filename x, contents) :: parts). rewrite rev_app_distr. cbn [rev app].
    split; [constructor; [now split | exact Hparts]|].
    split; [| split; [exact Hs | cbn in Hc; congruence]].
    unfold add_files in *. cbn [for_each fst snd]. unfold bind at 1.
    rewrite H2. exact Hadd.
Qed.

(** C9, as the code has it. When publish returns, the sheet list is
    empty, and the archive is the one left by open, then addFile for the
    seven fixed parts, then addFile for the part of each sheet from the
    last sheet added to the workbook back to the first, then finalize. *)
Theorem publish_adds_sheets_in_reverse (P : platform) (filename_ : string)
    (wb wb' : Workbook) :
  publish P filename_ wb = (Ok tt, wb') ->
  sheets wb' = []
  /\ exists time_string sheet_parts,
       strftime_timestamp TIME_BUF_SIZE (gmtime_now P) = Some time_string
       /\ List.length (fixed_parts wb time_string) = 7%nat
       /\ Forall2 (sheet_part P) (rev (sheets wb)) sheet_parts
       /\ bind (IttyZip.open P filename_) (fun _ =>
          bind (add_files P (fixed_parts wb time_string ++ sheet_parts)) (fun _ =>
          IttyZip.finalize P)) (archive wb)
          = (Ok tt, archive wb').
Proof.
  unfold publish. intros H.
  apply bind_Ok in H as (wb0 & w0 & [= <- <-] & H).
  destruct (sheets wb) as [|s0 l0] eqn:Es; [discriminate|].
  destruct (Nat.eqb (String.length filename_) 0); [discriminate|].
  apply bind_Ok in H as ([] & w1 & H1 & H). apply on_archive_Ok in H1 as (H1 & S1 & C1).
  apply bind_Ok in H as ([] & w2 & H2 & H).
  apply publish_fixed_parts_Ok in H2 as (time_string & Hts & H2 & S2 & C2).
  apply bind_Ok in H as ([] & w3 & H3 & H).
  rewrite <- Es in H3.
  apply (publish_sheets_Ok P (sheets wb)) in H3 as (parts & Hparts & H3 & S3 & C3);
    [| congruence].
  apply bind_Ok in H as ([] & w4 & [= <-] & H). apply on_archive_Ok in H as (H4 & S4 & C4).
  split; [exact S4|].
  exists time_string, parts. rewrite <- Es.
  split; [exact Hts|]. split; [reflexivity|]. split; [exact Hparts|].
  unfold bind. rewrite H1, add_files_app.
  replace (fixed_parts wb time_string) with (fixed_parts w1 time_string)
    by (unfold fixed_parts, content_types_xml, app_xml, workbook_rels_xml, styles_xml,
          workbook_xml; now rewrite S1, C1).
  rewrite H2, H3. exact H4.
Qed.

(** A workbook with two sheets, in the order First, Second. *)
Definition example_workbook : Workbook :=
  snd (addSheet "Second" (snd (addSheet "First" Workbook_new))).

Lemma example_workbook_sheets :
  map name (sheets example_workbook) = ["First"; "Second"]
  /\ map filename (sheets example_workbook)
     = ["xl/worksheets/sheet1.xml"; "xl/worksheets/sheet2.xml"].
Proof. split; reflexivity. Qed.

Lemma publish_adds_sheets_in_reverse_witness :
  sheets (snd (publish example_platform "book.xlsx" example_workbook)) = []
  /\ exists time_string sheet_parts,
       strftime_timestamp TIME_BUF_SIZE (gmtime_now example_platform) = Some time_string
       /\ List.length (fixed_parts example_workbook time_string) = 7%nat
       /\ Forall2 (sheet_part example_platform) (rev (sheets example_workbook)) sheet_parts
       /\ bind (IttyZip.open example_platform "book.xlsx") (fun _ =>
          bind (add_files example_platform
                  (fixed_parts example_workbook time_string ++ sheet_parts)) (fun _ =>
          IttyZip.finalize example_platform)) (archive example_workbook)
          = (Ok tt, archive (snd (publish example_platform "book.xlsx" example_workbook))).
Proof.
  apply (publish_adds_sheets_in_reverse example_platform "book.xlsx" example_workbook).
  vm_compute. reflexivity.
Defined.

(** The example workbook once its archive is open, and once the fixed
    parts are written. *)
Definition example_workbook_opened : Workbook :=
  snd (on_archive (IttyZip.open example_platform "book.xlsx") example_workbook).
Definition example_workbook_fixed : Workbook :=
  snd (publish_fixed_parts example_platform example_workbook_opened).

(** C9 as stated fails: when publish comes to the loop over the sheets,
    seven entries are in the archive, not six. *)
Lemma seven_parts_precede_the_sheets :
  fst (publish_fixed_parts example_platform example_workbook_opened) = Ok tt
  /\ IttyZip.num_files (archive example_workbook_fixed) = 7
  /\ IttyZip.num_files (archive example_workbook_fixed) <> 6
  /\ IttyZip.filenames (archive example_workbook_fixed)
     = [ "[Content_Types].xml"; "_rels/.rels"; "docProps/app.xml"; "docProps/core.xml";
         "xl/_rels/workbook.xml.rels"; "xl/styles.xml"; "xl/workbook.xml" ].
Proof.
  assert (H : publish_fixed_parts example_platform example_workbook_opened
              = (Ok tt, example_workbook_fixed)) by (vm_compute; reflexivity).
  split; [now rewrite H|].
  assert (Hn : IttyZip.num_files (archive example_workbook_fixed) = 7)
    by (vm_compute; reflexivity).
  split; [exact Hn|]. split; [rewrite Hn; discriminate|].
  vm_compute. reflexivity.
Qed.

(** * Further properties *)

(** ** Column names: all of column_to_integer and integer_to_column *)

Fixpoint string_map (f : ascii -> ascii) (s : string) : string :=
  match s with
  | EmptyString => EmptyString
  | String c s' => String (f c) (string_map f s')
  end.

Lemma string_map_length (f : ascii -> ascii) (s : string) :
  String.length (string_map f s) = String.length s.
Proof. induction s as [|c s IH]; cbn; [reflexivity | now rewrite IH]. Qed.

Lemma string_map_app (f : ascii -> ascii) (s1 s2 : string) :
  string_map f (s1 ++ s2) = string_map f s1 ++ string_map f s2.
Proof. induction s1 as [|c s1 IH]; cbn; [reflexivity | now rewrite IH]. Qed.

Lemma islower_code (c : ascii) : islower c = true <-> 97 <= code c <= 122.
Proof. unfold islower. rewrite andb_true_iff, !Z.leb_le. tauto. Qed.

Lemma toupper_islower (c : ascii) :
  islower c = true -> code (toupper c) = code c - 32.
Proof.
  intros H. unfold toupper. rewrite H. apply islower_code in H.
  apply code_char_of. lia.
Qed.

Lemma toupper_not_islower (c : ascii) : islower c = false -> toupper c = c.
Proof. intros H. unfold toupper. now rewrite H. Qed.

(** After [toupper], [isupper] holds exactly of the letters. *)
Lemma isupper_toupper (c : ascii) : isupper (toupper c) = isalpha c.
Proof.
  unfold isalpha. destruct (islower c) eqn:El.
  - pose proof (toupper_islower c El) as Hc. apply islower_code in El.
    rewrite orb_true_r. apply isupper_code. lia.
  - rewrite (toupper_not_islower c El). now rewrite orb_false_r.
Qed.

Lemma isupper_not_islower (c : ascii) : isupper c = true -> islower c = false.
Proof.
  intros H. apply isupper_code in H. apply not_true_iff_false.
  rewrite islower_code. lia.
Qed.

Lemma toupper_idem (c : ascii) : toupper (toupper c) = toupper c.
Proof.
  destruct (isalpha c) eqn:Ea.
  - apply toupper_isupper. now rewrite isupper_toupper.
  - unfold isalpha in Ea. apply orb_false_iff in Ea as [_ El].
    now rewrite !(toupper_not_islower c El).
Qed.

Lemma toupper_tolower (c : ascii) : toupper (tolower c) = toupper c.
Proof.
  unfold tolower. destruct (isupper c) eqn:Eu; [|reflexivity].
  pose proof (isupper_not_islower c Eu) as El.
  rewrite (toupper_not_islower c El).
  apply isupper_code in Eu. apply code_inj.
  assert (Hl : islower (char_of (code c + 32)) = true).
  { apply islower_code. rewrite code_char_of by lia. lia. }
  rewrite (toupper_islower _ Hl), code_char_of by lia. lia.
Qed.

Lemma string_forall_map (p : ascii -> bool) (f : ascii -> ascii) (s : string) :
  string_forall p (string_map f s) = string_forall (fun c => p (f c)) s.
Proof. induction s as [|c s IH]; cbn; [reflexivity | now rewrite IH]. Qed.

Lemma string_forall_ext (p q : ascii -> bool) (s : string) :
  (forall c, p c = q c) -> string_forall p s = string_forall q s.
Proof. intros H. induction s as [|c s IH]; cbn; [reflexivity | now rewrite H, IH]. Qed.

Lemma string_map_toupper_isupper (s : string) :
  string_forall isupper (string_map toupper s) = string_forall isalpha s.
Proof. rewrite string_forall_map. apply string_forall_ext, isupper_toupper. Qed.

Lemma string_map_toupper_upper (s : string) :
  string_forall isupper s = true -> string_map toupper s = s.
Proof.
  induction s as [|c s IH]; cbn; [reflexivity|].
  rewrite andb_true_iff. intros [Hc Hs]. now rewrite (toupper_isupper c Hc), IH.
Qed.

(** Arithmetic of [uint32_t]: the wrap-around of an inner operation is
    absorbed by that of the outer one. *)
Lemma u32_add_l (a b : Z) : u32 (u32 a + b) = u32 (a + b).
Proof. unfold u32. apply Zplus_mod_idemp_l. Qed.

Lemma u32_add_r (a b : Z) : u32 (a + u32 b) = u32 (a + b).
Proof. unfold u32. apply Zplus_mod_idemp_r. Qed.

Lemma u32_sub_l (a b : Z) : u32 (u32 a - b) = u32 (a - b).
Proof. unfold u32. apply Zminus_mod_idemp_l. Qed.

Lemma u32_mul_r (a b : Z) : u32 (a * u32 b) = u32 (a * b).
Proof. unfold u32. apply Zmult_mod_idemp_r. Qed.

Lemma u32_range (z : Z) : 0 <= u32 z < 4294967296.
Proof. unfold u32. change (2 ^ 32) with 4294967296. apply Z.mod_pos_bound. lia. Qed.

Lemma u32_letter_step (acc c : Z) :
  u32 (26 * u32 (u32 (u32 (26 * acc) + c) - 64)) = u32 (26 * (26 * acc + (c - 64))).
Proof.
  rewrite u32_sub_l, u32_mul_r.
  rewrite <- (u32_mul_r 26 (u32 (26 * acc) + c - 64)).
  replace (u32 (26 * acc) + c - 64) with (u32 (26 * acc) + (c - 64)) by lia.
  rewrite u32_add_l, u32_mul_r. reflexivity.
Qed.

Lemma column_to_integer_loop_nonalpha (s : string) (integer : Z) :
  s <> EmptyString -> string_forall isalpha s = false ->
  column_to_integer_loop s integer
  = Throw (invalid_argument "column_to_integer() received non-alphabetic input character.").
Proof.
  revert integer. induction s as [|c s IH]; intros integer Hne Hs; [congruence|].
  destruct s as [|c' s'].
  - cbn [string_forall] in Hs. rewrite andb_true_r in Hs.
    cbn [column_to_integer_loop]. now rewrite isupper_toupper, Hs.
  - rewrite column_to_integer_loop_cons, isupper_toupper.
    destruct (isalpha c) eqn:Ec; [|reflexivity]. cbn [negb].
    apply IH; [discriminate|].
    change (string_forall isalpha (String c (String c' s')))
      with (isalpha c && string_forall isalpha (String c' s')) in Hs.
    now rewrite Ec in Hs.
Qed.

(** On letters, the loop computes the value of the upper-cased name modulo
    2^32: [integer] is 26 times the value read so far, wrapped. *)
Lemma column_to_integer_loop_wraps (s : string) (acc : Z) :
  s <> EmptyString -> string_forall isalpha s = true ->
  column_to_integer_loop s (u32 (26 * acc)) =
  if u32 (col_value (string_map toupper s) acc) >? MAX_COL
  then Throw (invalid_argument "column_to_integer() received a too large column index.")
  else Ok (u32 (col_value (string_map toupper s) acc)).
Proof.
  revert acc. induction s as [|c s IH]; intros acc Hne Hs; [congruence|].
  change (string_forall isalpha (String c s))
    with (isalpha c && string_forall isalpha s) in Hs.
  apply andb_true_iff in Hs as [Hc Hs].
  destruct s as [|c' s'].
  - cbn [column_to_integer_loop string_map col_value].
    rewrite isupper_toupper, Hc. cbn [negb].
    rewrite u32_add_r, u32_add_l. reflexivity.
  - rewrite column_to_integer_loop_cons, isupper_toupper, Hc. cbn [negb].
    change (string_map toupper (String c (String c' s')))
      with (String (toupper c) (string_map toupper (String c' s'))).
    change (col_value (String (toupper c) (string_map toupper (String c' s'))) acc)
      with (col_value (string_map toupper (String c' s')) (26 * acc + (code (toupper c) - 64))).
    rewrite <- IH by (discriminate || assumption).
    apply (f_equal (column_to_integer_loop (String c' s'))).
    apply u32_letter_step.
Qed.

(** [column_to_integer] in closed form. *)
Lemma column_to_integer_closed_form (column : string) :
  column_to_integer column =
  match column with
  | EmptyString =>
      Throw (invalid_argument "column_to_integer() received empty input string.")
  | String _ _ =>
      if negb (string_forall isalpha column)
      then Throw (invalid_argument "column_to_integer() received non-alphabetic input character.")
      else if u32 (col_value (string_map toupper column) 0) >? MAX_COL
      then Throw (invalid_argument "column_to_integer() received a too large column index.")
      else Ok (u32 (col_value (string_map toupper column) 0))
  end.
Proof.
  destruct column as [|c s]; [reflexivity|].
  unfold column_to_integer.
  destruct (string_forall isalpha (String c s)) eqn:Ea; cbn [negb].
  - change 0 with (u32 (26 * 0)) at 1.
    apply column_to_integer_loop_wraps; [discriminate | exact Ea].
  - apply column_to_integer_loop_nonalpha; [discriminate | exact Ea].
Qed.

(** X1. The whole behaviour of column_to_integer: it throws on the empty
    string; it throws the non-alphabetic error when some character is not a
    letter, whatever the others are; otherwise it takes the value of the
    upper-cased letters (A = 1, ..., Z = 26, most significant first)
    modulo 2^32, throws the too-large error when that is above 16384 and
    returns it otherwise. *)
Theorem column_to_integer_behaviour (column : string) :
  column_to_integer column =
  match column with
  | EmptyString =>
      Throw (invalid_argument "column_to_integer() received empty input string.")
  | String _ _ =>
      if negb (string_forall isalpha column)
      then Throw (invalid_argument "column_to_integer() received non-alphabetic input character.")
      else if u32 (col_value (string_map toupper column) 0) >? MAX_COL
      then Throw (invalid_argument "column_to_integer() received a too large column index.")
      else Ok (u32 (col_value (string_map toupper column) 0))
  end.
Proof. apply column_to_integer_closed_form. Qed.

(** The wrap-around at work: a name of seven letters whose value is 2^32
    decodes to the column index 0, and the next one to the index of A. *)
Example column_to_integer_wraps_to_0 : column_to_integer "MWLQKWV" = Ok 0.
Proof. reflexivity. Qed.
Example column_to_integer_wraps_to_1 : column_to_integer "MWLQKWW" = column_to_integer "A".
Proof. reflexivity. Qed.

(** X2. column_to_integer does not tell upper case from lower case. *)
Theorem column_to_integer_ignores_case (column : string) :
  column_to_integer (string_map toupper column) = column_to_integer column
  /\ column_to_integer (string_map tolower column) = column_to_integer column.
Proof.
  assert (H : forall f, (forall c, toupper (f c) = toupper c) ->
            column_to_integer (string_map f column) = column_to_integer column).
  { intros f Hf. rewrite !column_to_integer_closed_form.
    assert (Hmap : string_map toupper (string_map f column) = string_map toupper column).
    { induction column as [|c s IH]; cbn; [reflexivity | now rewrite Hf, IH]. }
    assert (Halpha : string_forall isalpha (string_map f column)
                     = string_forall isalpha column).
    { rewrite <- !string_map_toupper_isupper. now rewrite Hmap. }
    destruct column as [|c s]; [reflexivity|].
    rewrite Hmap, Halpha. reflexivity. }
  split; apply H; [apply toupper_idem | apply toupper_tolower].
Qed.

(** Induction on a string from its end. *)
Lemma string_last_split (s : string) :
  s = EmptyString \/ exists s' c, s = s' ++ String c "".
Proof.
  induction s as [|a s IH]; [now left|]. right.
  destruct IH as [->|(s' & c & ->)].
  - now exists "", a.
  - now exists (String a s'), c.
Qed.

Lemma string_snoc_ind (P : string -> Prop) :
  P EmptyString -> (forall s c, P s -> P (s ++ String c "")) -> forall s, P s.
Proof.
  intros H0 Hstep s.
  assert (H : forall n s, String.length s = n -> P s).
  { clear s. induction n as [|n IH]; intros s Hlen.
    - destruct s; [exact H0 | discriminate].
    - destruct (string_last_split s) as [->|(s' & c & ->)]; [discriminate|].
      apply Hstep, IH. rewrite string_length_app in Hlen. cbn in Hlen. lia. }
  now apply (H (String.length s)).
Qed.

Lemma col_value_snoc (s : string) (c : ascii) (acc : Z) :
  col_value (s ++ String c "") acc = 26 * col_value s acc + (code c - 64).
Proof. now rewrite col_value_app. Qed.

(** The encoder inverts the value: it gives back the upper-case name it is
    run on the value of. *)
Lemma integer_to_column_loop_inverse (s : string) :
  string_forall isupper s = true -> col_value s 0 < 4294967296 ->
  forall fuel, col_value s 0 <= Z.of_nat fuel ->
  integer_to_column_loop fuel (col_value s 0) "" = s.
Proof.
  induction s as [|s c IH] using string_snoc_ind; intros Hs Hlt fuel Hfuel.
  - now destruct fuel.
  - rewrite string_forall_app in Hs. apply andb_true_iff in Hs as [Hs Hc].
    cbn [string_forall] in Hc. rewrite andb_true_r in Hc.
    pose proof Hc as Hcode. apply isupper_code in Hcode.
    pose proof (col_value_lower_bound s 0 Hs ltac:(lia)) as Hlow.
    rewrite col_value_snoc in *.
    set (v := col_value s 0) in *.
    destruct fuel as [|fuel]; [lia|].
    cbn [integer_to_column_loop].
    destruct (26 * v + (code c - 64) >? 0) eqn:Epos;
      [| rewrite Z.gtb_ltb in Epos; apply Z.ltb_ge in Epos; lia].
    rewrite (u32_small (26 * v + (code c - 64) - 1)) by lia.
    replace ((26 * v + (code c - 64) - 1) / 26) with v
      by (Z.div_mod_to_equations; lia).
    assert (Hrest : forall c', c' = c ->
              integer_to_column_loop fuel v (String c' "") = s ++ String c "").
    { intros c' ->. rewrite integer_to_column_loop_app, IH; try (assumption || lia). reflexivity. }
    destruct ((26 * v + (code c - 64)) mod 26 =? 0) eqn:Erem.
    + apply Z.eqb_eq in Erem. apply Hrest. apply code_inj.
      change (code "Z") with 90. Z.div_mod_to_equations. lia.
    + apply Z.eqb_neq in Erem. apply Hrest. apply code_inj.
      assert (Hm : (26 * v + (code c - 64)) mod 26 = code c - 64)
        by (Z.div_mod_to_equations; lia).
      rewrite Hm, u32_small by lia. rewrite code_char_of by lia. lia.
Qed.

(** A name of [n] upper-case letters has a value below 27^n. *)
Lemma col_value_upper_bound (s : string) (acc : Z) :
  string_forall isupper s = true -> 0 <= acc ->
  col_value s acc + 1 <= 27 ^ Z.of_nat (String.length s) * (acc + 1).
Proof.
  revert acc. induction s as [|c s IH]; intros acc Hs Hacc.
  - cbn [col_value String.length]. change (Z.of_nat 0) with 0. rewrite Z.pow_0_r. lia.
  - cbn [string_forall] in Hs. apply andb_true_iff in Hs as [Hc Hs].
    apply isupper_code in Hc. cbn [col_value String.length].
    specialize (IH (26 * acc + (code c - 64)) Hs ltac:(lia)).
    rewrite Nat2Z.inj_succ, Z.pow_succ_r by lia.
    assert (Hp : 0 < 27 ^ Z.of_nat (String.length s)) by (apply Z.pow_pos_nonneg; lia).
    nia.
Qed.

(** Four letters or more are worth more than the last column. *)
Lemma col_value_four_letters (s : string) :
  string_forall isupper s = true -> (4 <= String.length s)%nat -> MAX_COL < col_value s 0.
Proof.
  intros Hs Hlen.
  destruct s as [|a [|b [|c [|d s]]]]; cbn [String.length] in Hlen; try lia.
  cbn [string_forall] in Hs.
  apply andb_true_iff in Hs as [Ha Hs]. apply andb_true_iff in Hs as [Hb Hs].
  apply andb_true_iff in Hs as [Hc Hs]. apply andb_true_iff in Hs as [Hd Hs].
  apply isupper_code in Ha, Hb, Hc, Hd. cbn [col_value].
  match goal with |- _ < col_value s ?x => pose proof (col_value_lower_bound s x Hs ltac:(lia)) end.
  unfold MAX_COL. lia.
Qed.

(** X3. The whole behaviour of integer_to_column on a uint32 value: it
    throws on 0 and above 16384; on i in [1, 16384] it returns a name of one
    to three upper-case letters whose value is i, and that name is the only
    sequence of upper-case letters with the value i. *)
Theorem integer_to_column_behaviour (i : Z) :
  0 <= i < 4294967296 ->
  (i = 0 ->
   integer_to_column i
   = Throw (invalid_argument "integer_to_column() received an input of 0."))
  /\ (MAX_COL < i ->
      integer_to_column i
      = Throw (invalid_argument "integer_to_column() received a too large column index."))
  /\ (1 <= i <= MAX_COL ->
      exists s, integer_to_column i = Ok s
                /\ (1 <= String.length s <= 3)%nat
                /\ string_forall isupper s = true
                /\ col_value s 0 = i
                /\ forall s', string_forall isupper s' = true -> col_value s' 0 = i -> s' = s).
Proof.
  intros Hi. split; [intros ->; reflexivity|]. split.
  - intros Hbig. unfold integer_to_column.
    destruct (i =? 0) eqn:E0; [apply Z.eqb_eq in E0; unfold MAX_COL in Hbig; lia|].
    destruct (i >? MAX_COL) eqn:E1; [reflexivity|].
    rewrite Z.gtb_ltb in E1. apply Z.ltb_ge in E1. lia.
  - intros Hrange.
    destruct (integer_to_column_letters i Hrange) as (s & Hs & Hne & Hall & Hv).
    exists s. split; [exact Hs|]. split.
    { split.
      - destruct s; [congruence | cbn; lia].
      - destruct (le_lt_dec (String.length s) 3) as [Hle|Hgt]; [exact Hle|].
        pose proof (col_value_four_letters s Hall ltac:(lia)). lia. }
    split; [exact Hall|]. split; [exact Hv|].
    intros s' Hall' Hv'.
    rewrite integer_to_column_Ok in Hs by exact Hrange. injection Hs as <-.
    rewrite <- Hv'. symmetry.
    apply integer_to_column_loop_inverse; [exact Hall' | lia | lia].
Qed.

Lemma integer_to_column_behaviour_witness :
  exists s, integer_to_column 16384 = Ok s
            /\ (1 <= String.length s <= 3)%nat
            /\ string_forall isupper s = true
            /\ col_value s 0 = 16384
            /\ forall s', string_forall isupper s' = true -> col_value s' 0 = 16384 -> s' = s.
Proof.
  apply (proj2 (proj2 (integer_to_column_behaviour 16384 ltac:(lia)))).
  unfold MAX_COL. lia.
Defined.

Lemma column_decode_encode (column : string) (n : Z) :
  (String.length column <= 6)%nat ->
  column_to_integer column = Ok n ->
  1 <= n <= MAX_COL /\ integer_to_column n = Ok (string_map toupper column).
Proof.
  intros Hlen Hdec. rewrite column_to_integer_closed_form in Hdec.
  destruct column as [|c s] eqn:Ecol; [discriminate|]. rewrite <- Ecol in *.
  destruct (string_forall isalpha column) eqn:Ea; [|discriminate]. cbn [negb] in Hdec.
  assert (Hup : string_forall isupper (string_map toupper column) = true)
    by now rewrite string_map_toupper_isupper.
  pose proof (col_value_upper_bound _ 0 Hup ltac:(lia)) as Hbound.
  rewrite string_map_length in Hbound.
  assert (Hpow : 27 ^ Z.of_nat (String.length column) <= 27 ^ 6)
    by (apply Z.pow_le_mono_r; lia).
  change (27 ^ 6) with 387420489 in Hpow.
  assert (Hpos : 1 <= col_value (string_map toupper column) 0).
  { rewrite Ecol in *. cbn [string_map col_value string_forall] in *.
    apply andb_true_iff in Hup as [Hc Hs]. apply isupper_code in Hc.
    match goal with |- _ <= col_value ?t ?x =>
      pose proof (col_value_lower_bound t x Hs ltac:(lia)) end.
    lia. }
  rewrite u32_small in Hdec by lia.
  destruct (col_value (string_map toupper column) 0 >? MAX_COL) eqn:Emax; [discriminate|].
  injection Hdec as <-.
  rewrite Z.gtb_ltb in Emax. apply Z.ltb_ge in Emax.
  split; [lia|].
  rewrite integer_to_column_Ok by lia. f_equal.
  apply integer_to_column_loop_inverse; [exact Hup | lia | lia].
Qed.

(** X4. Decoding a column name of at most six letters and encoding the
    index again gives the name in upper case. *)
Theorem column_name_canonical (column : string) (n : Z) :
  (String.length column <= 6)%nat ->
  column_to_integer column = Ok n ->
  1 <= n <= MAX_COL /\ integer_to_column n = Ok (string_map toupper column).
Proof. apply column_decode_encode. Qed.

Lemma column_name_canonical_witness :
  1 <= 16384 <= MAX_COL /\ integer_to_column 16384 = Ok (string_map toupper "xfd").
Proof. apply (column_name_canonical "xfd" 16384); [cbn; lia | reflexivity]. Defined.

(** ** Mixed references: what mixedref_to_integerref accepts *)

Lemma dec_value_lower_bound (s : string) (acc : Z) :
  string_forall isdigit s = true -> 0 <= acc -> acc <= dec_value s acc.
Proof.
  revert acc. induction s as [|c s IH]; intros acc Hs Hacc; cbn [dec_value]; [lia|].
  cbn [string_forall] in Hs. apply andb_true_iff in Hs as [Hc Hs]. apply isdigit_code in Hc.
  specialize (IH (10 * acc + (code c - 48)) Hs). lia.
Qed.

(** [stoll] on a non-empty sequence of digits: its value, or out of range. *)
Lemma stoll_all_digits (s : string) :
  s <> EmptyString -> string_forall isdigit s = true ->
  stoll s = if 9223372036854775807 <? dec_value s 0 then stoll_out_of_range
            else stoll_value (dec_value s 0) (String.length s).
Proof.
  intros Hne Hs. destruct s as [|c s]; [congruence|].
  pose proof (dec_value_lower_bound _ 0 Hs ltac:(lia)) as Hpos.
  pose proof Hs as Hs'. cbn [string_forall] in Hs'.
  apply andb_true_iff in Hs' as [Hc _]. pose proof Hc as Hcode.
  apply isdigit_code in Hcode.
  unfold stoll. cbn [skip_space].
  assert (Hsp : isspace c = false).
  { unfold isspace. destruct (code c =? 32) eqn:E1; [apply Z.eqb_eq in E1; lia|].
    destruct (code c <=? 13) eqn:E2; [apply Z.leb_le in E2; lia|].
    now rewrite andb_false_r. }
  rewrite Hsp.
  destruct (code c =? 45) eqn:E1; [apply Z.eqb_eq in E1; lia|].
  destruct (code c =? 43) eqn:E2; [apply Z.eqb_eq in E2; lia|].
  rewrite stoll_digits_all by exact Hs.
  cbn [String.length Nat.add Nat.eqb].
  rewrite Z.mul_1_l.
  destruct (dec_value (String c s) 0 <? - 2 ^ 63) eqn:E3.
  { apply Z.ltb_lt in E3. change (- 2 ^ 63) with (-9223372036854775808) in E3. lia. }
  change (2 ^ 63 - 1) with 9223372036854775807. cbn [orb].
  reflexivity.
Qed.

(** Once a digit has been read, the scan accepts digits only. *)
Lemma mixedref_scan_digits_inv (s : string) (jChar : nat) (row_start : option nat)
    (r : bool * bool * option nat) :
  mixedref_scan s jChar true true row_start = Ok r ->
  string_forall isdigit s = true /\ r = (true, true, row_start).
Proof.
  revert jChar. induction s as [|c s IH]; intros jChar H; cbn [mixedref_scan] in H.
  - injection H as <-. now split.
  - destruct (isalpha c); [discriminate|].
    destruct (isdigit c) eqn:Ed; [|discriminate]. cbn [negb] in H.
    apply IH in H as [Hs ->]. cbn [string_forall]. now rewrite Ed, Hs.
Qed.

(** A scan that ends with both flags set has read letters, then digits. *)
Lemma mixedref_scan_letters_inv (s : string) (jChar : nat) (found_first_alpha : bool)
    (k : nat) :
  mixedref_scan s jChar found_first_alpha false None = Ok (true, true, Some k) ->
  exists letters digits,
    s = letters ++ digits
    /\ string_forall isalpha letters = true /\ string_forall isdigit digits = true
    /\ digits <> EmptyString /\ k = (jChar + String.length letters)%nat
    /\ (found_first_alpha = true \/ letters <> EmptyString).
Proof.
  revert jChar found_first_alpha.
  induction s as [|c s IH]; intros jChar fa H; cbn [mixedref_scan] in H; [discriminate|].
  destruct (isalpha c) eqn:Ea.
  - apply IH in H as (letters & digits & -> & Hl & Hd & Hne & -> & _).
    exists (String c letters), digits. cbn [append string_forall String.length].
    rewrite Ea, Hl. repeat split; try assumption; [lia | right; discriminate].
  - destruct (isdigit c) eqn:Ed; [|discriminate].
    destruct fa; [|discriminate]. cbn [negb] in H.
    apply mixedref_scan_digits_inv in H as [Hs [= <-]].
    exists "", (String c s). cbn [append string_forall String.length].
    rewrite Ed, Hs. repeat split; [discriminate | lia | now left].
Qed.

Lemma mixedref_to_integerref_shape (mixedref : string) (r : integerref_t) :
  mixedref_to_integerref mixedref = Ok r ->
  exists letters digits,
    mixedref = letters ++ digits
    /\ letters <> EmptyString /\ digits <> EmptyString
    /\ string_forall isalpha letters = true /\ string_forall isdigit digits = true
    /\ column_to_integer letters = Ok (col r)
    /\ dec_value digits 0 = row r
    /\ 1 <= row r <= MAX_ROW
    /\ 0 <= col r <= MAX_COL
    /\ ((String.length letters <= 6)%nat -> 1 <= col r).
Proof.
  unfold mixedref_to_integerref. intros H.
  destruct (mixedref_scan mixedref 0 false false None) as [[[fa fd] rs]|e] eqn:Escan;
    [|discriminate].
  cbn [rbind] in H. destruct fa; [|discriminate]. destruct fd; [|discriminate].
  cbn [negb orb] in H. destruct rs as [k|]; [|discriminate].
  apply mixedref_scan_letters_inv in Escan
    as (letters & digits & -> & Hl & Hd & Hne & -> & [Hfa|Hlne]); [discriminate|].
  cbn [Nat.add] in H. rewrite substring_prefix, substring_suffix in H.
  destruct (column_to_integer letters) as [col_|e] eqn:Ecol; [|discriminate].
  cbn [rbind] in H.
  rewrite (stoll_all_digits digits Hne Hd) in H.
  destruct (9223372036854775807 <? dec_value digits 0); [discriminate|].
  destruct (negb _ || _ || _)%bool eqn:Echeck; [discriminate|].
  apply orb_false_iff in Echeck as [Echeck Ehi]. apply orb_false_iff in Echeck as [_ Elo].
  apply Z.ltb_ge in Elo. rewrite Z.gtb_ltb in Ehi. apply Z.ltb_ge in Ehi.
  injection H as <-. cbn [row col]. unfold MAX_ROW in *.
  rewrite u32_small by lia.
  exists letters, digits. repeat split; try assumption; try lia.
  - rewrite column_to_integer_closed_form in Ecol.
    destruct letters; [congruence|].
    destruct (negb _); [discriminate|].
    destruct (_ >? MAX_COL); [discriminate|]. injection Ecol as <-. apply u32_range.
  - rewrite column_to_integer_closed_form in Ecol.
    destruct letters; [congruence|].
    destruct (negb _); [discriminate|].
    destruct (_ >? MAX_COL) eqn:Emax; [discriminate|]. injection Ecol as <-.
    rewrite Z.gtb_ltb in Emax. now apply Z.ltb_ge in Emax.
  - intros Hlen. now apply (column_decode_encode letters col_ Hlen).
Qed.

(** X5. What mixedref_to_integerref accepts. A text that it turns into a
    reference is a non-empty run of letters followed by a non-empty run of
    decimal digits; the column of the reference is column_to_integer of the
    letters, the row is the value of the digits (leading zeros allowed) and
    lies in [1, 1048576]; the column is at most 16384, and at least 1 when
    there are no more than six letters. *)
Theorem mixedref_to_integerref_accepts (mixedref : string) (r : integerref_t) :
  mixedref_to_integerref mixedref = Ok r ->
  exists letters digits,
    mixedref = letters ++ digits
    /\ letters <> EmptyString /\ digits <> EmptyString
    /\ string_forall isalpha letters = true /\ string_forall isdigit digits = true
    /\ column_to_integer letters = Ok (col r)
    /\ dec_value digits 0 = row r
    /\ 1 <= row r <= MAX_ROW
    /\ 0 <= col r <= MAX_COL
    /\ ((String.length letters <= 6)%nat -> 1 <= col r).
Proof. apply mixedref_to_integerref_shape. Qed.

Lemma mixedref_to_integerref_accepts_witness :
  exists letters digits,
    "ah011" = letters ++ digits
    /\ letters <> EmptyString /\ digits <> EmptyString
    /\ string_forall isalpha letters = true /\ string_forall isdigit digits = true
    /\ column_to_integer letters = Ok 34
    /\ dec_value digits 0 = 11
    /\ 1 <= 11 <= MAX_ROW
    /\ 0 <= 34 <= MAX_COL
    /\ ((String.length letters <= 6)%nat -> 1 <= 34).
Proof.
  apply (mixedref_to_integerref_accepts "ah011" {| row := 11; col := 34 |}).
  reflexivity.
Defined.

(** Seven letters can stand for no column at all: the reference that comes
    back has column 0. *)
Example mixedref_to_integerref_column_0 :
  mixedref_to_integerref "MWLQKWV1" = Ok {| row := 1; col := 0 |}.
Proof. reflexivity. Qed.


(** ** The style catalog: what an index stands for *)

Lemma NumberFormat_code_inj (a b : NumberFormat.t) :
  NumberFormat.code a = NumberFormat.code b -> a = b.
Proof. destruct a, b; intros H; first [reflexivity | discriminate H]. Qed.

(** [operator==] on styles is equality of the five fields. *)
Lemma cell_style_eq_true (a b : cell_style_t) : cell_style_eq a b = true <-> a = b.
Proof.
  split; [| intros ->; apply cell_style_eq_refl].
  unfold cell_style_eq. rewrite !andb_true_iff. intros [[[[H1 H2] H3] H4] H5].
  destruct a as [n1 h1 v1 w1 b1], b as [n2 h2 v2 w2 b2]. cbn [num_format horiz_align vert_align wrap_text bold] in *.
  apply Z.eqb_eq, NumberFormat_code_inj in H1. apply eqb_prop in H4, H5.
  assert (h1 = h2) by (destruct h1, h2; first [reflexivity | discriminate H2]).
  assert (v1 = v2) by (destruct v1, v2; first [reflexivity | discriminate H3]).
  congruence.
Qed.

Lemma cell_style_eq_false (a b : cell_style_t) : cell_style_eq a b = false <-> a <> b.
Proof. rewrite <- not_true_iff_false, cell_style_eq_true. tauto. Qed.

(** [std::find]: the first position of the style, counted from [i]. *)
Lemma find_style_first (cs : cell_style_t) (l : list cell_style_t) (i : Z) :
  match find_style cs l i with
  | Some j =>
      exists k, j = i + Z.of_nat k /\ nth_error l k = Some cs
                /\ forall k', (k' < k)%nat -> nth_error l k' <> Some cs
  | None => ~ In cs l
  end.
Proof.
  revert i. induction l as [|st l IH]; intros i; cbn [find_style]; [intros []|].
  destruct (cell_style_eq st cs) eqn:E.
  - apply cell_style_eq_true in E as ->. exists 0%nat. repeat split; [lia | intros k' Hk'; lia].
  - apply cell_style_eq_false in E. specialize (IH (i + 1)).
    destruct (find_style cs l (i + 1)) as [j|].
    + destruct IH as (k & -> & Hk & Hfirst). exists (S k). repeat split; [lia | exact Hk |].
      intros [|k'] Hk'; cbn [nth_error]; [congruence | apply Hfirst; lia].
    + intros [->|Hin]; [congruence | contradiction].
Qed.

Lemma addStyle_facts (cs : cell_style_t) (l : list cell_style_t) :
  let i := fst (addStyle cs l) in
  let l' := snd (addStyle cs l) in
  0 <= i < Z.of_nat (List.length l')
  /\ nth_error l' (Z.to_nat i) = Some cs
  /\ (forall k, (k < Z.to_nat i)%nat -> nth_error l' k <> Some cs)
  /\ (In cs l -> l' = l)
  /\ (~ In cs l -> l' = (l ++ [cs])%list /\ i = Z.of_nat (List.length l))
  /\ (forall k s, nth_error l k = Some s -> nth_error l' k = Some s)
  /\ (NoDup l -> NoDup l').
Proof.
  cbv zeta. unfold addStyle. pose proof (find_style_first cs l 0) as Hfind.
  destruct (find_style cs l 0) as [j|]; cbn [fst snd].
  - destruct Hfind as (k & -> & Hk & Hfirst). rewrite Z.add_0_l, Nat2Z.id.
    assert (Hlt : (k < List.length l)%nat) by (apply nth_error_Some; congruence).
    split; [lia|]. split; [exact Hk|]. split; [exact Hfirst|]. split; [reflexivity|].
    split; [| split; [intros k' s Hs; exact Hs | intros Hnd; exact Hnd]].
    intros Hnot. exfalso. apply Hnot. eapply nth_error_In. exact Hk.
  - rewrite List.length_app. cbn [List.length].
    replace (Z.of_nat (List.length l + 1) - 1) with (Z.of_nat (List.length l)) by lia.
    rewrite Nat2Z.id.
    split; [lia|]. split; [rewrite nth_error_app2 by lia; now rewrite Nat.sub_diag|].
    split.
    { intros k Hk. rewrite nth_error_app1 by exact Hk.
      intros Hin. apply Hfind. eapply nth_error_In. exact Hin. }
    split; [intros Hin; contradiction|]. split; [intros _; split; reflexivity|].
    split.
    { intros k s Hk. rewrite nth_error_app1; [exact Hk|]. apply nth_error_Some. congruence. }
    intros Hnd. apply NoDup_app; [exact Hnd | repeat constructor; intros [] |].
    intros x Hx [<-|[]]. contradiction.
Qed.

(** X6. Workbook::addStyle returns an index at which the catalog it leaves
    holds the style, and the first such index; a style that is already in
    the catalog leaves the catalog as it is, and one that is not is put at
    its end; the styles at the indices given out before stay where they
    are, and a catalog without repetitions stays without. *)
Theorem addStyle_index (cs : cell_style_t) (l : list cell_style_t) :
  let i := fst (addStyle cs l) in
  let l' := snd (addStyle cs l) in
  0 <= i < Z.of_nat (List.length l')
  /\ nth_error l' (Z.to_nat i) = Some cs
  /\ (forall k, (k < Z.to_nat i)%nat -> nth_error l' k <> Some cs)
  /\ (In cs l -> l' = l)
  /\ (~ In cs l -> l' = (l ++ [cs])%list /\ i = Z.of_nat (List.length l))
  /\ (forall k s, nth_error l k = Some s -> nth_error l' k = Some s)
  /\ (NoDup l -> NoDup l').
Proof. apply addStyle_facts. Qed.

(** ** Sheets: what the adds keep *)

(** A reference at which the sheet has a cell. *)
Definition occupied (r : integerref_t) (st : sheet_state) : Prop :=
  exists c, In c (cells (sheet st)) /\ integerref c = r.

(** A single-cell add either fails one of its checks, throwing
    [invalid_argument] with nothing changed, or runs the shared part. *)
Lemma run_add_cases (L : limits) (a : cell_add) (r : integerref_t) (cs : cell_style_t)
    (st : sheet_state) :
  (valid_ref r /\ within_limits L a /\ run_add L a r cs st = add_checked a r cs st)
  \/ exists msg, run_add L a r cs st = (Throw (invalid_argument msg), st).
Proof.
  destruct (invalid_ref r) eqn:Er.
  - right. destruct a; cbn [run_add];
      unfold add_number_cell, add_formula_cell, add_string_cell, add_empty_cell;
      rewrite Er; eexists; reflexivity.
  - pose proof Er as Hr. apply invalid_ref_false in Hr.
    destruct a; cbn [run_add within_limits].
    + left. split; [exact Hr|]. split; [exact I|]. unfold add_number_cell. now rewrite Er.
    + unfold add_formula_cell. rewrite Er.
      destruct (strlen formula >? MAX_FORMULA_LEN L) eqn:E; [right; eexists; reflexivity|].
      left. rewrite Z.gtb_ltb in E. apply Z.ltb_ge in E.
      split; [exact Hr|]. split; [exact E | reflexivity].
    + unfold add_string_cell. rewrite Er.
      destruct (strlen value >? MAX_STRING_LEN L) eqn:E1; [right; eexists; reflexivity|].
      destruct (count_line_breaks value >? MAX_STRING_LINE_BREAKS L) eqn:E2;
        [right; eexists; reflexivity|].
      left. rewrite Z.gtb_ltb in E1, E2. apply Z.ltb_ge in E1, E2.
      split; [exact Hr|]. split; [split; assumption | reflexivity].
    + left. split; [exact Hr|]. split; [exact I|]. unfold add_empty_cell. now rewrite Er.
Qed.

Lemma add_checked_preserves (a : cell_add) (r : integerref_t) (cs : cell_style_t) :
  valid_ref r -> preserves sheet_inv (add_checked a r cs).
Proof.
  intros Hr. unfold add_checked.
  apply preserves_bind; [apply workbook_addStyle_preserves | intros index].
  apply preserves_bind; [apply cells_insert_preserves; now rewrite cell_of_add_ref | intros [|]].
  - apply used_columns_insert_preserves.
  - apply preserves_throw.
Qed.

Lemma Zltb_irrefl (a : Z) : Z.ltb a a = false.
Proof. apply Z.ltb_irrefl. Qed.

Lemma Zltb_trans (a b c : Z) : Z.ltb a b = true -> Z.ltb b c = true -> Z.ltb a c = true.
Proof. rewrite !Z.ltb_lt. lia. Qed.

Lemma Zltb_cotrans (a b c : Z) : Z.ltb a c = true -> Z.ltb a b = true \/ Z.ltb b c = true.
Proof. rewrite !Z.ltb_lt. lia. Qed.

(** After [used_columns.insert(c)] the column is in the set. *)
Lemma used_columns_insert_In (c x : Z) (s : list Z) :
  In x (fst (set_insert Z.ltb c s)) <-> x = c \/ In x s.
Proof.
  split; [apply set_insert_In|].
  intros [->|Hx]; [| now apply set_insert_keeps].
  induction s as [|y s IH]; cbn [set_insert]; [now left|].
  destruct (c <? y) eqn:E1; [now left|].
  destruct (y <? c) eqn:E2.
  - destruct (set_insert Z.ltb c s) as [s' b]. cbn [fst] in *. now right.
  - apply Z.ltb_ge in E1, E2. left. lia.
Qed.

(** The cells after a successful insertion: the new one and the old ones. *)
Lemma cells_insert_In (cell x : cell_t) (s : list cell_t) :
  snd (set_insert cell_sort_compare cell s) = true ->
  In x (fst (set_insert cell_sort_compare cell s)) <-> x = cell \/ In x s.
Proof.
  intros Hins. split; [apply set_insert_In|].
  intros [->|Hx]; [now apply set_insert_true_In | now apply set_insert_keeps].
Qed.

(** What the sheet keeps besides [sheet_inv]: the used columns are the
    columns of the cells, and every style index is an index of the
    catalog. *)
Record sheet_wf (st : sheet_state) : Prop := {
  wf_inv : sheet_inv st;
  wf_used_sorted : StronglySorted (lt_of Z.ltb) (used_columns (sheet st));
  wf_used : forall c, In c (used_columns (sheet st))
                      <-> exists x, In x (cells (sheet st)) /\ col (integerref x) = c;
  wf_styles : Forall (fun x => 0 <= style_index x
                               < Z.of_nat (List.length (workbook_cell_styles st)))
                (cells (sheet st))
}.

Lemma addStyle_length (cs : cell_style_t) (l : list cell_style_t) :
  (List.length l <= List.length (snd (addStyle cs l)))%nat.
Proof.
  destruct (addStyle_catalog cs l) as [->| ->]; [lia|].
  rewrite List.length_app. lia.
Qed.

Lemma cell_of_add_style (a : cell_add) (r : integerref_t) (index : Z) :
  style_index (cell_of_add a r index) = index.
Proof. now destruct a. Qed.

Lemma add_checked_wf (a : cell_add) (r : integerref_t) (cs : cell_style_t) :
  valid_ref r -> preserves sheet_wf (add_checked a r cs).
Proof.
  intros Hr st [Hinv Hsorted Hused Hstyles].
  pose proof (add_checked_preserves a r cs Hr st Hinv) as Hinv'.
  rewrite add_checked_run in *.
  pose proof (addStyle_facts cs (workbook_cell_styles st)) as Hadd. cbv zeta in Hadd.
  destruct Hadd as (Hidx & _).
  pose proof (addStyle_length cs (workbook_cell_styles st)) as Hlen.
  set (index := fst (addStyle cs (workbook_cell_styles st))) in *.
  set (cell := cell_of_add a r index) in *.
  pose proof (fun x => cells_insert_In cell x (cells (sheet st))) as Hin.
  pose proof (set_insert_false_same cell_sort_compare cell (cells (sheet st))) as Hsame.
  assert (Hold : Forall (fun x => 0 <= style_index x
                   < Z.of_nat (List.length (snd (addStyle cs (workbook_cell_styles st)))))
                   (cells (sheet st))).
  { eapply Forall_impl; [|exact Hstyles]. cbn. intros x Hx. lia. }
  destruct (snd (set_insert cell_sort_compare cell (cells (sheet st)))) eqn:Eins;
    cbn [snd] in *.
  - specialize (fun x => Hin x eq_refl).
    constructor; cbn [sheet workbook_cell_styles set_used_columns set_cells used_columns cells].
    + exact Hinv'.
    + apply set_insert_sorted; [exact Zltb_trans | exact Hsorted].
    + intros c. rewrite used_columns_insert_In, Hused. split.
      * intros [->|(x & Hx & Hc)].
        -- exists cell. split; [apply Hin; auto | unfold cell; now rewrite cell_of_add_ref].
        -- exists x. split; [apply Hin; auto | exact Hc].
      * intros (x & Hx & Hc). apply Hin in Hx. destruct Hx as [->|Hx].
        -- left. unfold cell in Hc. now rewrite cell_of_add_ref in Hc.
        -- right. now exists x.
    + apply Forall_forall. intros x Hx. apply Hin in Hx.
      destruct Hx as [->|Hx].
      * unfold cell. rewrite cell_of_add_style. exact Hidx.
      * rewrite Forall_forall in Hold. now apply Hold.
  - rewrite Hsame by reflexivity.
    constructor; cbn [sheet workbook_cell_styles set_cells used_columns cells]; try assumption.
    rewrite Hsame in Hinv' by reflexivity. exact Hinv'.
Qed.

Lemma run_add_wf (L : limits) (a : cell_add) (r : integerref_t) (cs : cell_style_t) :
  preserves sheet_wf (run_add L a r cs).
Proof.
  intros st Hwf.
  destruct (run_add_cases L a r cs st) as [(Hr & _ & ->)|(msg & ->)]; [|exact Hwf].
  now apply add_checked_wf.
Qed.

Lemma merged_cells_insert_wf (m : merged_cell_t) :
  valid_ref (start_ref m) -> valid_ref (end_ref m) ->
  preserves sheet_wf (merged_cells_insert m).
Proof.
  intros Hs He st [Hinv Hsorted Hused Hstyles].
  constructor; try assumption.
  now apply merged_cells_insert_preserves.
Qed.

Lemma add_merge_rest_wf (s e : integerref_t) (cs : cell_style_t) :
  valid_ref s -> valid_ref e -> preserves sheet_wf (add_merge_rest s e cs).
Proof.
  intros Hs He. unfold add_merge_rest.
  apply preserves_bind; [| intros _; now apply merged_cells_insert_wf].
  apply preserves_for_each. intros jRow. apply preserves_for_each. intros jCol.
  destruct ((jRow =? row s) && (jCol =? col s)).
  - apply preserves_ret.
  - apply (run_add_wf example_limits AddEmpty).
Qed.

Lemma setter_wf (f : Sheet -> Sheet) (st : sheet_state) :
  sheet_wf st -> sheet_inv (on_this f st) ->
  cells (f (sheet st)) = cells (sheet st) ->
  used_columns (f (sheet st)) = used_columns (sheet st) ->
  sheet_wf (on_this f st).
Proof.
  intros [Hinv Hsorted Hused Hstyles] Hinv' Hc Hu.
  constructor; cbn [on_this sheet workbook_cell_styles]; rewrite ?Hc, ?Hu; assumption.
Qed.

Lemma set_column_width_wf (c : Z) (width : float) :
  preserves sheet_wf (set_column_width c width).
Proof.
  intros st Hwf.
  pose proof (set_column_width_preserves c width st (wf_inv st Hwf)) as Hinv'.
  unfold set_column_width in *.
  destruct (_ || _)%bool; [exact Hwf|]. destruct (_ || _)%bool; [exact Hwf|].
  now apply setter_wf.
Qed.

Lemma set_row_height_wf (L : limits) (r : Z) (height : float) :
  preserves sheet_wf (set_row_height L r height).
Proof.
  intros st Hwf.
  pose proof (set_row_height_preserves L r height st (wf_inv st Hwf)) as Hinv'.
  unfold set_row_height in *.
  destruct (_ || _)%bool; [exact Hwf|]. destruct (_ || _)%bool; [exact Hwf|].
  now apply setter_wf.
Qed.

Lemma workbook_addStyle_wf (cs : cell_style_t) : preserves sheet_wf (workbook_addStyle cs).
Proof.
  intros st [Hinv Hsorted Hused Hstyles].
  pose proof (workbook_addStyle_preserves cs st Hinv) as Hinv'.
  pose proof (addStyle_length cs (workbook_cell_styles st)) as Hlen.
  unfold workbook_addStyle in *.
  destruct (addStyle cs (workbook_cell_styles st)) as [i l']. cbn [snd] in *.
  constructor; cbn [sheet workbook_cell_styles]; try assumption.
  eapply Forall_impl; [|exact Hstyles]. cbn. intros x Hx. lia.
Qed.

(** The three merged adds, after the checks on the corners. *)
Definition merged_add_body (L : limits) (a : cell_add) (s e : integerref_t)
    (cs : cell_style_t) : M sheet_state unit :=
  bind (run_add L a s cs) (fun _ => add_merge_rest s e cs).

Definition run_merged_add (L : limits) (a : cell_add) (s e : integerref_t)
    (cs : cell_style_t) : M sheet_state unit :=
  match a with
  | AddNumber number => add_merged_number_cell s e number cs
  | AddFormula formula => add_merged_formula_cell L s e formula cs
  | AddString value => add_merged_string_cell L s e value cs
  | AddEmpty => merged_add_body L AddEmpty s e cs
  end.

(** A merged add either fails a check on its corners, throwing
    [invalid_argument] with nothing changed, or adds the cell at the start
    and goes on to the rest. *)
Lemma run_merged_add_cases (L : limits) (a : cell_add) (s e : integerref_t)
    (cs : cell_style_t) (st : sheet_state) :
  a <> AddEmpty ->
  (valid_ref s /\ valid_ref e /\ end_not_after_start s e = false
   /\ run_merged_add L a s e cs st = merged_add_body L a s e cs st)
  \/ exists msg, run_merged_add L a s e cs st = (Throw (invalid_argument msg), st).
Proof.
  intros Ha.
  destruct a; [| | | congruence]; cbn [run_merged_add];
    unfold add_merged_number_cell, add_merged_formula_cell, add_merged_string_cell;
    (destruct (invalid_ref s) eqn:Es; [right; eexists; reflexivity|]);
    (destruct (invalid_ref e) eqn:Ee; [right; eexists; reflexivity|]);
    (destruct (end_not_after_start s e) eqn:Eend; [right; eexists; reflexivity|]);
    apply invalid_ref_false in Es, Ee; left;
    (split; [exact Es|]); (split; [exact Ee|]); (split; reflexivity).
Qed.

Lemma merged_add_body_wf (L : limits) (a : cell_add) (s e : integerref_t)
    (cs : cell_style_t) :
  valid_ref s -> valid_ref e -> preserves sheet_wf (merged_add_body L a s e cs).
Proof.
  intros Hs He. unfold merged_add_body.
  apply preserves_bind; [apply run_add_wf | intros _; now apply add_merge_rest_wf].
Qed.

Lemma run_merged_add_wf (L : limits) (a : cell_add) (s e : integerref_t)
    (cs : cell_style_t) :
  a <> AddEmpty -> preserves sheet_wf (run_merged_add L a s e cs).
Proof.
  intros Ha st Hwf.
  destruct (run_merged_add_cases L a s e cs st Ha) as [(Hs & He & _ & ->)|(msg & ->)];
    [| exact Hwf].
  now apply merged_add_body_wf.
Qed.

Lemma run_call_wf (L : limits) (c : sheet_call) : preserves sheet_wf (run_call L c).
Proof.
  assert (Hn : forall n, AddNumber n <> AddEmpty) by discriminate.
  assert (Hf : forall f, AddFormula f <> AddEmpty) by discriminate.
  assert (Hv : forall v, AddString v <> AddEmpty) by discriminate.
  destruct c; cbn [run_call];
    unfold add_number_cell_mixedref, add_formula_cell_mixedref, add_string_cell_mixedref,
      add_merged_number_cell_mixedref, add_merged_formula_cell_mixedref,
      add_merged_string_cell_mixedref, set_column_width_letters;
    repeat first
      [ apply (run_add_wf L (AddNumber number)) | apply (run_add_wf L (AddFormula formula))
      | apply (run_add_wf L (AddString value)) | apply (run_add_wf L AddEmpty)
      | apply (run_merged_add_wf L (AddNumber number)); [apply Hn]
      | apply (run_merged_add_wf L (AddFormula formula)); [apply Hf]
      | apply (run_merged_add_wf L (AddString value)); [apply Hv]
      | apply set_column_width_wf | apply set_row_height_wf | apply workbook_addStyle_wf
      | apply preserves_ret | apply preserves_lift_result
      | apply preserves_bind; [| intros ?] ].
Qed.

Lemma reachable_wf (L : limits) (st : sheet_state) : reachable L st -> sheet_wf st.
Proof.
  induction 1 as [? ? ? ? ?|st c Hr IH].
  - constructor; cbn.
    + constructor; cbn; constructor.
    + constructor.
    + intros c. split; [intros [] | intros (x & [] & _)].
    + constructor.
  - now apply run_call_wf.
Qed.

(** ** The [<col>] elements of a rendered sheet *)

(** The width recorded for a column, as [generate_file] looks it up. *)
Definition width_of (column_widths_ : list (Z * float)) (c : Z) : option float :=
  option_map snd (set_find column_widths_sort_compare (c, 0%float) column_widths_).

(** The [<col>] element written for the used column [c]. *)
Definition col_event (column_widths_ : list (Z * float)) (c : Z) : sheet_event :=
  match width_of column_widths_ c with
  | Some w => col_custom c w
  | None => col_best_fit c
  end.

Lemma cols_events_col_event (s : Sheet) :
  cols_events s = map (col_event (column_widths s)) (used_columns s).
Proof.
  unfold cols_events, col_event, width_of. apply map_ext. intros c.
  now destruct (set_find column_widths_sort_compare (c, 0%float) (column_widths s)).
Qed.

Lemma sorted_ltb_lt (l : list Z) : StronglySorted (lt_of Z.ltb) l -> StronglySorted Z.lt l.
Proof.
  induction 1 as [|c l Hs IH Hall]; constructor; [exact IH|].
  eapply Forall_impl; [|exact Hall]. intros x Hx. now apply Z.ltb_lt.
Qed.

(** The text of the [<col>] element of column [c]: with the width recorded
    for the column, or the best-fit element when none is recorded. *)
Definition col_text (P : platform) (column_widths_ : list (Z * float)) (c : Z) : string :=
  "<col min=" ++ dq ++ to_string c ++ dq ++ " max=" ++ dq ++ to_string c ++ dq
  ++ match width_of column_widths_ c with
     | Some w =>
         " width=" ++ dq ++ to_string_double P w ++ dq ++ " customWidth=" ++ dq ++ "1" ++ dq
     | None => " width=" ++ dq ++ "9.005" ++ dq ++ " bestFit=" ++ dq ++ "1" ++ dq
     end
  ++ "/>".

Lemma render_col_events (P : platform) (column_widths_ : list (Z * float)) (l : list Z) :
  render_events P (map (col_event column_widths_) l)
  = String.concat "" (map (col_text P column_widths_) l).
Proof.
  induction l as [|c l IH]; [reflexivity|].
  cbn [map]. rewrite render_events_cons, concat_cons, IH. f_equal.
  unfold col_event, col_text. destruct (width_of column_widths_ c); cbn [render_event];
    repeat rewrite string_append_assoc; reflexivity.
Qed.

Lemma width_of_recorded (st : sheet_state) (c : Z) (w : float) :
  sheet_inv st -> In (c, w) (column_widths (sheet st)) ->
  width_of (column_widths (sheet st)) c = Some w.
Proof.
  intros Hinv Hin. unfold width_of.
  rewrite (set_find_present column_widths_sort_compare pair_less_irrefl pair_less_trans
             pair_less_cotrans (c, 0%float) (c, w));
    [reflexivity | apply Hinv | exact Hin | now apply pair_equiv_same_index].
Qed.

Lemma width_of_none (l : list (Z * float)) (c : Z) :
  (forall p, In p l -> fst p <> c) -> width_of l c = None.
Proof.
  intros Hfree. unfold width_of. rewrite set_find_absent; [reflexivity|].
  intros p Hp Heq. apply pair_equiv_same_index in Heq. apply (Hfree p Hp). now rewrite <- Heq.
Qed.

(** X7. The <col> elements of a rendered sheet. For every reachable sheet
    whose cell texts hold no [<], on a platform whose [std::to_string]
    writes none for a [double], the text that generate_file returns is its
    preamble, then [<cols>] with one <col> element for each column in which
    the sheet has a cell (of any type, the empty cells of a merge included),
    in strictly increasing column order, then [</cols>] and the rest; and
    [<col ] occurs in the whole text once for each of these columns, so no
    other column has an element and a width set for a column without cells
    is not written. The element of a column carries the width recorded for
    it, and is the best-fit element when none is recorded. *)
Theorem one_col_element_per_used_column (P : platform) (L : limits) (st : sheet_state) :
  reachable L st ->
  markup_free_platform P ->
  clean_cells (sheet st) ->
  exists columns,
    StronglySorted Z.lt columns
    /\ (forall c, In c columns <-> exists x, In x (cells (sheet st)) /\ col_of x = c)
    /\ (forall c w, In (c, w) (column_widths (sheet st)) ->
                    width_of (column_widths (sheet st)) c = Some w)
    /\ (forall c, (forall p, In p (column_widths (sheet st)) -> fst p <> c) ->
                  width_of (column_widths (sheet st)) c = None)
    /\ exists rest text,
         generate_file P (sheet st) = Ok text
         /\ text = worksheet_preamble ++ "<cols>"
                   ++ String.concat "" (map (col_text P (column_widths (sheet st))) columns)
                   ++ "</cols>" ++ rest
         /\ occurrences "<col " text = List.length columns
         /\ occurrences "<col " rest = 0%nat.
Proof.
  intros Hreach HP Hclean. destruct (reachable_wf L st Hreach) as [Hinv Hsorted Hused _].
  exists (used_columns (sheet st)).
  split; [now apply sorted_ltb_lt|]. split; [exact Hused|].
  split; [intros c w; now apply width_of_recorded|].
  split; [intros c; apply width_of_none|].
  set (rows := sheet_rows (sheet st)).
  exists (tags (sheetData_tags P (sheet st) rows ++ mergeCells_tags P (sheet st)
                ++ ["/worksheet>"])%list).
  exists (worksheet_preamble ++ tags (sheet_tags P (sheet st) rows)).
  split; [now apply generate_file_tags|]. split.
  { unfold sheet_tags. rewrite tags_app, <- cols_text_tags, cols_events_col_event.
    rewrite render_col_events. repeat rewrite string_append_assoc. reflexivity. }
  split; [apply (occurrences_in_sheet P (sheet st) rows HP Hclean)|].
  pose proof (sheet_tags_markup_free P (sheet st) rows HP Hclean) as Hfree.
  unfold sheet_tags in Hfree. apply Forall_app in Hfree as [_ Hfree].
  change "<col " with (String lt_sign "col ").
  rewrite (occurrences_tags "col " _ eq_refl Hfree).
  fold (tag_count "col " (sheetData_tags P (sheet st) rows ++ mergeCells_tags P (sheet st)
                          ++ ["/worksheet>"])%list).
  pose proof (tag_count_sheet P "col " 1 0 0 (count_col P) ltac:(fixed_pieces)
                ltac:(fixed_pieces) (sheet st) rows) as Hall.
  unfold sheet_tags in Hall. rewrite tag_count_app in Hall.
  assert (Hcols : tag_count "col " (cols_tags P (sheet st))
                  = List.length (used_columns (sheet st))).
  { unfold cols_tags.
    rewrite (tag_count_wrapped "col " "cols>" "/cols>") by reflexivity.
    rewrite (tag_count_events P "col " 1 0 0 (count_col P)), count_cols_events. lia. }
  lia.
Qed.

(** The example sheet with the merged cell, after a width is set for its
    column B and for column D, which has no cell. *)
Definition example_sheet_widths : sheet_state :=
  snd (run_calls example_limits
         [call_set_column_width 2 10%float; call_set_column_width 4 20%float]
         example_sheet_merged).

Lemma example_sheet_widths_reachable : reachable example_limits example_sheet_widths.
Proof.
  change example_sheet_widths
    with (snd (run_call example_limits (call_set_column_width 4 20%float)
                 (snd (run_call example_limits (call_set_column_width 2 10%float)
                         (snd (run_call example_limits
                                 (call_add_merged_string_cell A1 B2 "title"
                                    generic_string_style)
                                 example_sheet)))))).
  do 3 apply reachable_call. apply reachable_fresh.
Qed.

Lemma one_col_element_per_used_column_witness :
  exists columns,
    StronglySorted Z.lt columns
    /\ (forall c, In c columns
                  <-> exists x, In x (cells (sheet example_sheet_widths)) /\ col_of x = c)
    /\ (forall c w, In (c, w) (column_widths (sheet example_sheet_widths)) ->
                    width_of (column_widths (sheet example_sheet_widths)) c = Some w)
    /\ (forall c, (forall p, In p (column_widths (sheet example_sheet_widths)) -> fst p <> c) ->
                  width_of (column_widths (sheet example_sheet_widths)) c = None)
    /\ exists rest text,
         generate_file decimal_platform (sheet example_sheet_widths) = Ok text
         /\ text = worksheet_preamble ++ "<cols>"
                   ++ String.concat ""
                        (map (col_text decimal_platform
                                (column_widths (sheet example_sheet_widths))) columns)
                   ++ "</cols>" ++ rest
         /\ occurrences "<col " text = List.length columns
         /\ occurrences "<col " rest = 0%nat.
Proof.
  apply (one_col_element_per_used_column decimal_platform example_limits).
  - exact example_sheet_widths_reachable.
  - intros x. cbn [to_string_double decimal_platform].
    repeat (destruct (PrimFloat.eqb x _); [reflexivity|]). reflexivity.
  - vm_compute. repeat constructor.
Defined.

(** In the example the columns with cells are A and B: the text has the
    best-fit element of A and the element of B with its width, and nothing
    for column D. *)
Example example_sheet_widths_cols :
  used_columns (sheet example_sheet_widths) = [1; 2]
  /\ column_widths (sheet example_sheet_widths) = [(2, 10%float); (4, 20%float)]
  /\ exists rest,
       generate_file decimal_platform (sheet example_sheet_widths)
       = Ok (worksheet_preamble
             ++ "<cols>"
             ++ "<col min=" ++ dq ++ "1" ++ dq ++ " max=" ++ dq ++ "1" ++ dq ++ " width=" ++ dq ++ "9.005" ++ dq ++ " bestFit=" ++ dq ++ "1" ++ dq ++ "/>"
             ++ "<col min=" ++ dq ++ "2" ++ dq ++ " max=" ++ dq ++ "2" ++ dq ++ " width=" ++ dq ++ "10.000000" ++ dq ++ " customWidth=" ++ dq ++ "1" ++ dq ++ "/>"
             ++ "</cols>" ++ rest)
       /\ occurrences "<col " rest = 0%nat
       /\ occurrences "20.000000" rest = 0%nat.
Proof.
  split; [reflexivity|]. split; [reflexivity|].
  eexists. split; [vm_compute; reflexivity|]. split; vm_compute; reflexivity.
Qed.

(** X8. In every reachable sheet the style index of every cell is an index
    of the workbook's style catalog: there is a style at that index. *)
Theorem style_indices_in_catalog (L : limits) (st : sheet_state) :
  reachable L st ->
  Forall (fun c =>
            0 <= style_index c < Z.of_nat (List.length (workbook_cell_styles st))
            /\ exists cs, nth_error (workbook_cell_styles st) (Z.to_nat (style_index c))
                          = Some cs)
    (cells (sheet st)).
Proof.
  intros Hreach. destruct (reachable_wf L st Hreach) as [_ _ _ Hstyles].
  eapply Forall_impl; [|exact Hstyles]. cbn. intros c Hc. split; [exact Hc|].
  destruct (nth_error (workbook_cell_styles st) (Z.to_nat (style_index c))) as [cs|] eqn:E.
  - now exists cs.
  - apply nth_error_None in E. lia.
Qed.

Lemma style_indices_in_catalog_witness :
  Forall (fun c =>
            0 <= style_index c
            < Z.of_nat (List.length (workbook_cell_styles example_sheet_merged))
            /\ exists cs, nth_error (workbook_cell_styles example_sheet_merged)
                            (Z.to_nat (style_index c)) = Some cs)
    (cells (sheet example_sheet_merged)).
Proof.
  apply (style_indices_in_catalog example_limits).
  apply reachable_call. apply reachable_fresh.
Defined.

(** ** Exceptions of the sheet methods *)

(** A loop that throws, throws from its body. *)
Lemma for_each_Throw {S T : Type} (l : list T) (body : T -> M S unit) (s s' : S) (e : exn) :
  for_each l body s = (Throw e, s') ->
  exists x s0, In x l /\ body x s0 = (Throw e, s').
Proof.
  revert s. induction l as [|x l IH]; intros s H; cbn [for_each] in H; [discriminate|].
  unfold bind in H. destruct (body x s) as [[u|e1] s1] eqn:E.
  - destruct (IH s1 H) as (y & s0 & Hy & Hrun). exists y, s0. split; [now right | exact Hrun].
  - injection H as <- <-. exists x, s. split; [now left | exact E].
Qed.

(** The shared part of the adds throws nothing but the duplicate-cell
    error. *)
Lemma add_checked_Throw (a : cell_add) (r : integerref_t) (cs : cell_style_t)
    (st st' : sheet_state) (e : exn) :
  add_checked a r cs st = (Throw e, st') -> e = duplicate_cell_error (add_name a).
Proof.
  rewrite add_checked_run.
  destruct (snd (set_insert cell_sort_compare _ (cells (sheet st)))); [discriminate|].
  now intros [= <- _].
Qed.

Lemma run_add_Throw_invalid (L : limits) (a : cell_add) (r : integerref_t)
    (cs : cell_style_t) (st st' : sheet_state) (msg : string) :
  run_add L a r cs st = (Throw (invalid_argument msg), st') -> st' = st.
Proof.
  destruct (run_add_cases L a r cs st) as [(_ & _ & ->)|(msg' & ->)].
  - intros H. apply add_checked_Throw in H. discriminate.
  - now intros [= _ <-].
Qed.

Lemma range_In (lo hi k : Z) : In k (range lo hi) <-> lo <= k <= hi.
Proof.
  unfold range. rewrite in_map_iff. split.
  - intros (n & <- & Hn). apply in_seq in Hn. lia.
  - intros Hk. exists (Z.to_nat (k - lo)). split; [lia|]. apply in_seq. lia.
Qed.

(** The references between two corners. *)
Definition in_region (s e r : integerref_t) : Prop :=
  row s <= row r <= row e /\ col s <= col r <= col e.

Lemma in_region_valid (s e r : integerref_t) :
  valid_ref s -> valid_ref e -> in_region s e r -> valid_ref r.
Proof. unfold valid_ref, in_region. lia. Qed.

(** The body of the loops of a merged add, on a reference. *)
Definition merge_rest_body (s : integerref_t) (cs : cell_style_t) (r : integerref_t)
  : M sheet_state unit :=
  if (row r =? row s) && (col r =? col s) then ret tt
  else add_empty_cell r cs.

Lemma merge_rest_body_start (s : integerref_t) (cs : cell_style_t) (r : integerref_t) :
  ((row r =? row s) && (col r =? col s) = true) <-> r = s.
Proof.
  rewrite andb_true_iff, !Z.eqb_eq. split.
  - intros [Hr Hc]. destruct r, s. cbn in *. congruence.
  - intros ->. split; reflexivity.
Qed.

(** The references of the region in the order of the two loops. *)
Definition region_refs (s e : integerref_t) : list integerref_t :=
  flat_map (fun jRow => map (fun jCol => {| row := jRow; col := jCol |})
                          (range (col s) (col e)))
    (range (row s) (row e)).

Lemma region_refs_In (s e r : integerref_t) : In r (region_refs s e) <-> in_region s e r.
Proof.
  unfold region_refs, in_region. rewrite in_flat_map. split.
  - intros (jRow & Hrow & Hin). apply in_map_iff in Hin as (jCol & <- & Hcol).
    apply range_In in Hrow, Hcol. cbn. lia.
  - intros [Hrow Hcol]. exists (row r). split; [now apply range_In|].
    apply in_map_iff. exists (col r). split; [now destruct r | now apply range_In].
Qed.

Lemma for_each_app {S T : Type} (l1 l2 : list T) (body : T -> M S unit) (s : S) :
  for_each (l1 ++ l2) body s = bind (for_each l1 body) (fun _ => for_each l2 body) s.
Proof.
  revert s. induction l1 as [|x l1 IH]; intros s; [reflexivity|].
  cbn [app for_each]. unfold bind in *.
  destruct (body x s) as [[u|e] s1]; [apply IH | reflexivity].
Qed.

Lemma for_each_map {S T U : Type} (g : U -> T) (l : list U) (body : T -> M S unit) (s : S) :
  for_each (map g l) body s = for_each l (fun x => body (g x)) s.
Proof.
  revert s. induction l as [|x l IH]; intros s; [reflexivity|].
  cbn [map for_each]. unfold bind.
  destruct (body (g x) s) as [[u|e] s1]; [apply IH | reflexivity].
Qed.

(** The two nested loops are one loop over the references of the region. *)
Lemma merge_loops_flat (s e : integerref_t) (cs : cell_style_t) (st : sheet_state) :
  for_each (range (row s) (row e)) (fun jRow =>
    for_each (range (col s) (col e)) (fun jCol =>
      if (jRow =? row s) && (jCol =? col s) then ret tt
      else add_empty_cell {| row := jRow; col := jCol |} cs)) st
  = for_each (region_refs s e) (merge_rest_body s cs) st.
Proof.
  unfold region_refs. revert st.
  induction (range (row s) (row e)) as [|jRow rows IH]; intros st; [reflexivity|].
  cbn [for_each flat_map]. rewrite for_each_app. unfold bind. rewrite for_each_map.
  change (fun x : Z => merge_rest_body s cs {| row := jRow; col := x |})
    with (fun jCol : Z => if (jRow =? row s) && (jCol =? col s) then ret tt
                          else add_empty_cell {| row := jRow; col := jCol |} cs).
  destruct (for_each (range (col s) (col e)) _ st) as [[u|err] s1]; [apply IH | reflexivity].
Qed.

Lemma add_merge_rest_flat (s e : integerref_t) (cs : cell_style_t) (st : sheet_state) :
  add_merge_rest s e cs st
  = bind (for_each (region_refs s e) (merge_rest_body s cs))
      (fun _ => merged_cells_insert {| start_ref := s; end_ref := e |}) st.
Proof. unfold add_merge_rest, bind. now rewrite merge_loops_flat. Qed.

(** In a region between two valid corners the body throws nothing but the
    duplicate-cell error of [add_empty_cell]. *)
Lemma merge_rest_body_Throw (s e : integerref_t) (cs : cell_style_t) (r : integerref_t)
    (st st' : sheet_state) (err : exn) :
  valid_ref s -> valid_ref e -> in_region s e r ->
  merge_rest_body s cs r st = (Throw err, st') ->
  err = duplicate_cell_error "add_empty_cell".
Proof.
  intros Hs He Hr H. unfold merge_rest_body in H.
  destruct ((row r =? row s) && (col r =? col s)); [discriminate|].
  change (add_empty_cell r cs) with (run_add example_limits AddEmpty r cs) in H.
  rewrite run_add_checked in H by (exact I || now apply (in_region_valid s e)).
  now apply add_checked_Throw in H.
Qed.

Lemma add_merge_rest_Throw (s e : integerref_t) (cs : cell_style_t)
    (st st' : sheet_state) (err : exn) :
  valid_ref s -> valid_ref e ->
  add_merge_rest s e cs st = (Throw err, st') ->
  err = duplicate_cell_error "add_empty_cell"
  /\ for_each (region_refs s e) (merge_rest_body s cs) st = (Throw err, st').
Proof.
  intros Hs He H. rewrite add_merge_rest_flat in H. unfold bind in H.
  destruct (for_each (region_refs s e) (merge_rest_body s cs) st) as [[u|e1] s1] eqn:E;
    [discriminate|].
  injection H as <- <-. split; [|reflexivity].
  apply for_each_Throw in E as (r & s0 & Hr & Hrun).
  apply region_refs_In in Hr. now apply (merge_rest_body_Throw s e cs r s0 s1).
Qed.

Lemma merged_add_body_Throw_invalid (L : limits) (a : cell_add) (s e : integerref_t)
    (cs : cell_style_t) (st st' : sheet_state) (msg : string) :
  valid_ref s -> valid_ref e ->
  merged_add_body L a s e cs st = (Throw (invalid_argument msg), st') -> st' = st.
Proof.
  intros Hs He H. unfold merged_add_body, bind in H.
  destruct (run_add L a s cs st) as [[u|e1] s1] eqn:E.
  - apply add_merge_rest_Throw in H as [H _]; [discriminate | assumption..].
  - injection H as -> <-. now apply run_add_Throw_invalid in E.
Qed.

Lemma run_merged_add_Throw_invalid (L : limits) (a : cell_add) (s e : integerref_t)
    (cs : cell_style_t) (st st' : sheet_state) (msg : string) :
  a <> AddEmpty ->
  run_merged_add L a s e cs st = (Throw (invalid_argument msg), st') -> st' = st.
Proof.
  intros Ha.
  destruct (run_merged_add_cases L a s e cs st Ha) as [(Hs & He & _ & ->)|(msg' & ->)].
  - now apply merged_add_body_Throw_invalid.
  - now intros [= _ <-].
Qed.

Lemma lift_bind_Throw_invalid {A : Type} (r : result A) (k : A -> M sheet_state unit)
    (st st' : sheet_state) (msg : string) :
  (forall a, k a st = (Throw (invalid_argument msg), st') -> st' = st) ->
  bind (lift_result r) k st = (Throw (invalid_argument msg), st') -> st' = st.
Proof.
  intros Hk. unfold bind, lift_result. destruct r as [a|e]; [apply Hk|].
  now intros [= _ <-].
Qed.

Lemma set_column_width_Throw (c : Z) (width : float) (st st' : sheet_state) (e : exn) :
  set_column_width c width st = (Throw e, st') -> st' = st.
Proof.
  unfold set_column_width.
  destruct (_ || _)%bool; [now intros [= _ <-]|].
  destruct (_ || _)%bool; [now intros [= _ <-] | discriminate].
Qed.

Lemma set_row_height_Throw (L : limits) (r : Z) (height : float) (st st' : sheet_state)
    (e : exn) :
  set_row_height L r height st = (Throw e, st') -> st' = st.
Proof.
  unfold set_row_height.
  destruct (_ || _)%bool; [now intros [= _ <-]|].
  destruct (_ || _)%bool; [now intros [= _ <-] | discriminate].
Qed.

Lemma run_call_Throw_invalid (L : limits) (c : sheet_call) (st st' : sheet_state)
    (msg : string) :
  run_call L c st = (Throw (invalid_argument msg), st') -> st' = st.
Proof.
  assert (Hn : forall n, AddNumber n <> AddEmpty) by discriminate.
  assert (Hf : forall f, AddFormula f <> AddEmpty) by discriminate.
  assert (Hv : forall v, AddString v <> AddEmpty) by discriminate.
  destruct c; cbn [run_call];
    unfold add_number_cell_mixedref, add_formula_cell_mixedref, add_string_cell_mixedref,
      add_merged_number_cell_mixedref, add_merged_formula_cell_mixedref,
      add_merged_string_cell_mixedref, set_column_width_letters;
    repeat (apply lift_bind_Throw_invalid; intros ?).
  - apply (run_add_Throw_invalid L (AddNumber number)).
  - apply (run_add_Throw_invalid L (AddNumber number)).
  - apply (run_merged_add_Throw_invalid L (AddNumber number)), Hn.
  - apply (run_merged_add_Throw_invalid L (AddNumber number)), Hn.
  - apply (run_add_Throw_invalid L (AddFormula formula)).
  - apply (run_add_Throw_invalid L (AddFormula formula)).
  - apply (run_merged_add_Throw_invalid L (AddFormula formula)), Hf.
  - apply (run_merged_add_Throw_invalid L (AddFormula formula)), Hf.
  - apply (run_add_Throw_invalid L (AddString value)).
  - apply (run_add_Throw_invalid L (AddString value)).
  - apply (run_merged_add_Throw_invalid L (AddString value)), Hv.
  - apply (run_merged_add_Throw_invalid L (AddString value)), Hv.
  - apply (run_add_Throw_invalid L AddEmpty).
  - apply set_column_width_Throw.
  - apply set_column_width_Throw.
  - apply set_row_height_Throw.
  - unfold bind, workbook_addStyle, ret.
    destruct (addStyle cs (workbook_cell_styles st)). discriminate.
Qed.

(** X9. An invalid_argument from a Sheet method means that nothing was
    changed: whichever method of the sheet throws it, in whichever of its
    forms, the sheet and the style catalog are as they were before the
    call. *)
Theorem invalid_argument_changes_nothing (L : limits) (c : sheet_call)
    (st st' : sheet_state) (msg : string) :
  run_call L c st = (Throw (invalid_argument msg), st') -> st' = st.
Proof. apply run_call_Throw_invalid. Qed.

Lemma invalid_argument_changes_nothing_witness :
  snd (run_call example_limits
         (call_add_merged_number_cell_mixedref "B2" "A1" 1%float bold_style)
         example_sheet_A1)
  = example_sheet_A1.
Proof.
  apply (invalid_argument_changes_nothing example_limits
           (call_add_merged_number_cell_mixedref "B2" "A1" 1%float bold_style)
           example_sheet_A1 _
           "add_merged_number_cell() received an ending cell reference equal or prior to its starting cell reference.").
  reflexivity.
Defined.

(** ** Adds on free and on occupied references *)

(** On a free reference the shared part of the adds returns. *)
Lemma add_checked_Ok (a : cell_add) (r : integerref_t) (cs : cell_style_t)
    (st : sheet_state) :
  ~ occupied r st ->
  let index := fst (addStyle cs (workbook_cell_styles st)) in
  let ins := set_insert cell_sort_compare (cell_of_add a r index) (cells (sheet st)) in
  snd ins = true
  /\ add_checked a r cs st =
     (Ok tt,
      {| workbook_cell_styles := snd (addStyle cs (workbook_cell_styles st));
         sheet := set_used_columns
                    (fst (set_insert Z.ltb (col r) (used_columns (sheet st))))
                    (set_cells (fst ins) (sheet st)) |}).
Proof.
  intros Hfree. cbv zeta.
  assert (Hins : snd (set_insert cell_sort_compare
                        (cell_of_add a r (fst (addStyle cs (workbook_cell_styles st))))
                        (cells (sheet st))) = true).
  { apply set_insert_fresh. intros y Hy Heq. apply cell_equiv_same_ref in Heq.
    apply Hfree. exists y. split; [exact Hy|]. rewrite <- Heq. apply cell_of_add_ref. }
  split; [exact Hins|]. rewrite add_checked_run. now rewrite Hins.
Qed.

(** In a sheet that keeps its invariant, the shared part returns on free
    references only, and then the reference has a cell. *)
Lemma add_checked_Ok_inv (a : cell_add) (r : integerref_t) (cs : cell_style_t)
    (st st' : sheet_state) :
  sheet_inv st -> add_checked a r cs st = (Ok tt, st') ->
  ~ occupied r st /\ occupied r st'.
Proof.
  intros Hinv Hrun. split.
  - intros (c & Hc & Hr).
    rewrite (add_checked_present a r cs st c Hinv Hc Hr) in Hrun. discriminate.
  - rewrite add_checked_run in Hrun.
    pose proof (set_insert_true_In cell_sort_compare
                  (cell_of_add a r (fst (addStyle cs (workbook_cell_styles st))))
                  (cells (sheet st))) as Hin.
    destruct (snd (set_insert cell_sort_compare _ (cells (sheet st)))); [|discriminate].
    injection Hrun as <-. eexists. split; [cbn; apply Hin; reflexivity | apply cell_of_add_ref].
Qed.

(** Cells stay: no method of the sheet removes a cell. *)
Lemma add_checked_keeps_cells (a : cell_add) (r : integerref_t) (cs : cell_style_t)
    (x : cell_t) :
  preserves (fun st => In x (cells (sheet st))) (add_checked a r cs).
Proof.
  intros st Hx. rewrite add_checked_run.
  destruct (snd (set_insert cell_sort_compare _ (cells (sheet st)))); cbn;
    now apply set_insert_keeps.
Qed.

Lemma run_add_keeps_cells (L : limits) (a : cell_add) (r : integerref_t)
    (cs : cell_style_t) (x : cell_t) :
  preserves (fun st => In x (cells (sheet st))) (run_add L a r cs).
Proof.
  intros st Hx.
  destruct (run_add_cases L a r cs st) as [(_ & _ & ->)|(msg & ->)]; [|exact Hx].
  now apply add_checked_keeps_cells.
Qed.

Lemma add_merge_rest_keeps_cells (s e : integerref_t) (cs : cell_style_t) (x : cell_t) :
  preserves (fun st => In x (cells (sheet st))) (add_merge_rest s e cs).
Proof.
  unfold add_merge_rest.
  apply preserves_bind; [| intros _ st Hx; exact Hx].
  apply preserves_for_each. intros jRow. apply preserves_for_each. intros jCol.
  destruct ((jRow =? row s) && (jCol =? col s)).
  - apply preserves_ret.
  - apply (run_add_keeps_cells example_limits AddEmpty).
Qed.

Lemma merged_add_body_keeps_cells (L : limits) (a : cell_add) (s e : integerref_t)
    (cs : cell_style_t) (x : cell_t) :
  preserves (fun st => In x (cells (sheet st))) (merged_add_body L a s e cs).
Proof.
  unfold merged_add_body.
  apply preserves_bind; [apply run_add_keeps_cells | intros _; apply add_merge_rest_keeps_cells].
Qed.

Lemma run_merged_add_keeps_cells (L : limits) (a : cell_add) (s e : integerref_t)
    (cs : cell_style_t) (x : cell_t) :
  a <> AddEmpty -> preserves (fun st => In x (cells (sheet st))) (run_merged_add L a s e cs).
Proof.
  intros Ha st Hx.
  destruct (run_merged_add_cases L a s e cs st Ha) as [(_ & _ & _ & ->)|(msg & ->)];
    [| exact Hx].
  now apply merged_add_body_keeps_cells.
Qed.

Lemma set_column_width_keeps_cells (c : Z) (width : float) (x : cell_t) :
  preserves (fun st => In x (cells (sheet st))) (set_column_width c width).
Proof.
  intros st Hx. unfold set_column_width.
  destruct (_ || _)%bool; [exact Hx|]. destruct (_ || _)%bool; exact Hx.
Qed.

Lemma set_row_height_keeps_cells (L : limits) (r : Z) (height : float) (x : cell_t) :
  preserves (fun st => In x (cells (sheet st))) (set_row_height L r height).
Proof.
  intros st Hx. unfold set_row_height.
  destruct (_ || _)%bool; [exact Hx|]. destruct (_ || _)%bool; exact Hx.
Qed.

Lemma workbook_addStyle_keeps_cells (cs : cell_style_t) (x : cell_t) :
  preserves (fun st => In x (cells (sheet st))) (workbook_addStyle cs).
Proof.
  intros st Hx. unfold workbook_addStyle.
  now destruct (addStyle cs (workbook_cell_styles st)).
Qed.

Lemma run_call_keeps_cells (L : limits) (c : sheet_call) (x : cell_t) :
  preserves (fun st => In x (cells (sheet st))) (run_call L c).
Proof.
  assert (Hn : forall n, AddNumber n <> AddEmpty) by discriminate.
  assert (Hf : forall f, AddFormula f <> AddEmpty) by discriminate.
  assert (Hv : forall v, AddString v <> AddEmpty) by discriminate.
  destruct c; cbn [run_call];
    unfold add_number_cell_mixedref, add_formula_cell_mixedref, add_string_cell_mixedref,
      add_merged_number_cell_mixedref, add_merged_formula_cell_mixedref,
      add_merged_string_cell_mixedref, set_column_width_letters;
    repeat first
      [ apply (run_add_keeps_cells L (AddNumber number))
      | apply (run_add_keeps_cells L (AddFormula formula))
      | apply (run_add_keeps_cells L (AddString value))
      | apply (run_add_keeps_cells L AddEmpty)
      | apply (run_merged_add_keeps_cells L (AddNumber number)); [apply Hn]
      | apply (run_merged_add_keeps_cells L (AddFormula formula)); [apply Hf]
      | apply (run_merged_add_keeps_cells L (AddString value)); [apply Hv]
      | apply set_column_width_keeps_cells | apply set_row_height_keeps_cells
      | apply workbook_addStyle_keeps_cells
      | apply preserves_ret | apply preserves_lift_result
      | apply preserves_bind; [| intros ?] ].
Qed.

Lemma keeps_cells_occupied (m : M sheet_state unit) (st : sheet_state) (r : integerref_t) :
  (forall x, preserves (fun st => In x (cells (sheet st))) m) ->
  occupied r st -> occupied r (snd (m st)).
Proof. intros Hm (c & Hc & Hr). exists c. split; [now apply Hm | exact Hr]. Qed.

(** X10. A single-cell add on a free reference. For an in-bounds reference
    with no cell and content within the limits of its kind, each of the
    four adds returns; the sheet then has the new cell (with that
    reference, the type and content of the add, and a style index at which
    the catalog holds the style given) and the cells it had, the used
    columns have the column of the reference besides those they had, and
    the widths, heights and merges are as before. *)
Theorem add_inserts_one_cell (L : limits) (a : cell_add) (r : integerref_t)
    (cs : cell_style_t) (st : sheet_state) :
  valid_ref r -> within_limits L a -> ~ occupied r st ->
  let index := fst (addStyle cs (workbook_cell_styles st)) in
  exists st',
    run_add L a r cs st = (Ok tt, st')
    /\ (forall x, In x (cells (sheet st'))
                  <-> x = cell_of_add a r index \/ In x (cells (sheet st)))
    /\ nth_error (workbook_cell_styles st') (Z.to_nat index) = Some cs
    /\ (forall c, In c (used_columns (sheet st'))
                  <-> c = col r \/ In c (used_columns (sheet st)))
    /\ column_widths (sheet st') = column_widths (sheet st)
    /\ row_heights (sheet st') = row_heights (sheet st)
    /\ merged_cells (sheet st') = merged_cells (sheet st).
Proof.
  intros Hr Ha Hfree index. rewrite run_add_checked by assumption.
  destruct (add_checked_Ok a r cs st Hfree) as [Hins Hrun]. cbv zeta in Hins, Hrun.
  eexists. split; [exact Hrun|]. cbn [sheet workbook_cell_styles set_used_columns set_cells
    cells used_columns column_widths row_heights merged_cells].
  split; [intros x; now apply cells_insert_In|].
  split; [exact (proj1 (proj2 (addStyle_facts cs (workbook_cell_styles st))))|].
  split; [intros c; apply used_columns_insert_In|].
  repeat split.
Qed.

Lemma add_inserts_one_cell_witness :
  exists st',
    run_add example_limits (AddFormula "A1+1") B2 bold_style example_sheet_A1 = (Ok tt, st')
    /\ (forall x, In x (cells (sheet st'))
                  <-> x = cell_of_add (AddFormula "A1+1") B2
                            (fst (addStyle bold_style (workbook_cell_styles example_sheet_A1)))
                      \/ In x (cells (sheet example_sheet_A1)))
    /\ nth_error (workbook_cell_styles st')
         (Z.to_nat (fst (addStyle bold_style (workbook_cell_styles example_sheet_A1))))
       = Some bold_style
    /\ (forall c, In c (used_columns (sheet st'))
                  <-> c = col B2 \/ In c (used_columns (sheet example_sheet_A1)))
    /\ column_widths (sheet st') = column_widths (sheet example_sheet_A1)
    /\ row_heights (sheet st') = row_heights (sheet example_sheet_A1)
    /\ merged_cells (sheet st') = merged_cells (sheet example_sheet_A1).
Proof.
  apply (add_inserts_one_cell example_limits (AddFormula "A1+1") B2 bold_style
           example_sheet_A1).
  - unfold valid_ref, MAX_ROW, MAX_COL. cbn. lia.
  - cbn. lia.
  - intros (c & [<-|[]] & Hc). discriminate Hc.
Defined.

(** ** Merged adds and merge regions *)

Lemma integerref_eq_dec (a b : integerref_t) : {a = b} + {a <> b}.
Proof.
  destruct a as [r1 c1], b as [r2 c2].
  destruct (Z.eq_dec r1 r2) as [->|Hr]; [|right; congruence].
  destruct (Z.eq_dec c1 c2) as [->|Hc]; [left; reflexivity | right; congruence].
Qed.

(** A loop that returns: what its rounds keep and what each round shows. *)
Lemma for_each_Ok {S T : Type} (l : list T) (body : T -> M S unit) (I : S -> Prop)
    (Q : T -> Prop) :
  (forall x s s', In x l -> I s -> body x s = (Ok tt, s') -> I s' /\ Q x) ->
  forall s s', I s -> for_each l body s = (Ok tt, s') -> I s' /\ Forall Q l.
Proof.
  induction l as [|x l IH]; intros Hbody s s' Hs Hrun; cbn [for_each] in Hrun.
  - injection Hrun as <-. split; [exact Hs | constructor].
  - apply bind_Ok in Hrun as ([] & s1 & Hx & Hrest).
    destruct (Hbody x s s1 (or_introl eq_refl) Hs Hx) as [Hs1 Hq].
    destruct (IH (fun y t t' Hy => Hbody y t t' (or_intror Hy)) s1 s' Hs1 Hrest) as [Hs' Hall].
    split; [exact Hs' | now constructor].
Qed.

Lemma merge_rest_body_keeps_cells (s : integerref_t) (cs : cell_style_t)
    (r : integerref_t) (x : cell_t) :
  preserves (fun st => In x (cells (sheet st))) (merge_rest_body s cs r).
Proof.
  unfold merge_rest_body. destruct ((row r =? row s) && (col r =? col s)).
  - apply preserves_ret.
  - apply (run_add_keeps_cells example_limits AddEmpty).
Qed.

Lemma merge_rest_body_preserves (s : integerref_t) (cs : cell_style_t) (r : integerref_t) :
  preserves sheet_inv (merge_rest_body s cs r).
Proof.
  unfold merge_rest_body. destruct ((row r =? row s) && (col r =? col s)).
  - apply preserves_ret.
  - apply add_empty_cell_preserves.
Qed.

(** A round of the loops of a merged add that returns, on a reference of
    the region other than the start: the reference was free and has a cell
    now. *)
Lemma merge_rest_body_Ok (s e : integerref_t) (cs : cell_style_t) (r : integerref_t)
    (st st' : sheet_state) :
  sheet_inv st -> valid_ref s -> valid_ref e -> in_region s e r -> r <> s ->
  merge_rest_body s cs r st = (Ok tt, st') ->
  ~ occupied r st /\ occupied r st'.
Proof.
  intros Hinv Hs He Hr Hne Hrun. unfold merge_rest_body in Hrun.
  destruct ((row r =? row s) && (col r =? col s)) eqn:E;
    [apply merge_rest_body_start in E; [contradiction | exact cs]|].
  change (add_empty_cell r cs) with (run_add example_limits AddEmpty r cs) in Hrun.
  rewrite run_add_checked in Hrun by (exact I || now apply (in_region_valid s e)).
  now apply add_checked_Ok_inv in Hrun.
Qed.

(** The loops of a merged add that return, in a sheet that keeps its
    invariant: every reference of the region other than the start was free
    and has a cell now. *)
Lemma merge_loops_Ok (s e : integerref_t) (cs : cell_style_t) (st st' : sheet_state) :
  sheet_inv st -> valid_ref s -> valid_ref e ->
  for_each (region_refs s e) (merge_rest_body s cs) st = (Ok tt, st') ->
  forall r, in_region s e r -> r <> s -> ~ occupied r st /\ occupied r st'.
Proof.
  intros Hinv Hs He Hrun r Hr Hne. split.
  - destruct (for_each_Ok (region_refs s e) (merge_rest_body s cs)
                (fun t => sheet_inv t /\ forall y, occupied y st -> occupied y t)
                (fun x => x <> s -> ~ occupied x st)) with (s := st) (s' := st')
      as [_ Hall]; [| now split | exact Hrun |].
    + intros x t t' Hx [Ht Hmono] Hbody. split; [split|].
      * replace t' with (snd (merge_rest_body s cs x t)) by now rewrite Hbody.
        now apply merge_rest_body_preserves.
      * intros y Hy. replace t' with (snd (merge_rest_body s cs x t)) by now rewrite Hbody.
        apply keeps_cells_occupied; [intros c; apply merge_rest_body_keeps_cells | auto].
      * intros Hxs Hocc. apply region_refs_In in Hx.
        destruct (merge_rest_body_Ok s e cs x t t' Ht Hs He Hx Hxs Hbody) as [Hfree _].
        apply Hfree, Hmono, Hocc.
    + rewrite Forall_forall in Hall. apply (Hall r); [now apply region_refs_In | exact Hne].
  - assert (Hpost : Forall (fun x => x <> s -> in_region s e x -> occupied x st')
                      (region_refs s e)).
    { revert Hinv Hrun. generalize st. clear Hr Hne r.
      induction (region_refs s e) as [|x l IH]; intros t Ht Hrun; [constructor|].
      cbn [for_each] in Hrun. apply bind_Ok in Hrun as ([] & t1 & Hx & Hrest).
      assert (Ht1 : sheet_inv t1).
      { replace t1 with (snd (merge_rest_body s cs x t)) by now rewrite Hx.
        now apply merge_rest_body_preserves. }
      constructor; [| now apply (IH t1)].
      intros Hxs Hxr.
      destruct (merge_rest_body_Ok s e cs x t t1 Ht Hs He Hxr Hxs Hx) as [_ Hocc].
      replace st' with (snd (for_each l (merge_rest_body s cs) t1)) by now rewrite Hrest.
      apply keeps_cells_occupied; [|exact Hocc].
      intros c. apply preserves_for_each. intros y. apply merge_rest_body_keeps_cells. }
    rewrite Forall_forall in Hpost. apply (Hpost r); [now apply region_refs_In | exact Hne | exact Hr].
Qed.

Lemma add_checked_keeps_merged (a : cell_add) (r : integerref_t) (cs : cell_style_t)
    (ms : list merged_cell_t) :
  preserves (fun st => merged_cells (sheet st) = ms) (add_checked a r cs).
Proof.
  intros st Hm. rewrite add_checked_run.
  now destruct (snd (set_insert cell_sort_compare _ (cells (sheet st)))).
Qed.

Lemma run_add_keeps_merged (L : limits) (a : cell_add) (r : integerref_t)
    (cs : cell_style_t) (ms : list merged_cell_t) :
  preserves (fun st => merged_cells (sheet st) = ms) (run_add L a r cs).
Proof.
  intros st Hm.
  destruct (run_add_cases L a r cs st) as [(_ & _ & ->)|(msg & ->)]; [|exact Hm].
  now apply add_checked_keeps_merged.
Qed.

Lemma merge_loops_keep_merged (s e : integerref_t) (cs : cell_style_t)
    (ms : list merged_cell_t) :
  preserves (fun st => merged_cells (sheet st) = ms)
    (for_each (region_refs s e) (merge_rest_body s cs)).
Proof.
  apply preserves_for_each. intros r. unfold merge_rest_body.
  destruct ((row r =? row s) && (col r =? col s)).
  - apply preserves_ret.
  - apply (run_add_keeps_merged example_limits AddEmpty).
Qed.

(** What a merged add does to the cells and to the merges, once its checks
    on the corners have passed: cells stay; when it returns, every
    reference of the region was free and has a cell now, and the merge has
    been put into the set; when it throws, the merges are as before. *)
Lemma merged_add_body_outcome (L : limits) (a : cell_add) (s e : integerref_t)
    (cs : cell_style_t) (st : sheet_state) :
  sheet_inv st -> valid_ref s -> valid_ref e ->
  let st' := snd (merged_add_body L a s e cs st) in
  (forall y, occupied y st -> occupied y st')
  /\ match fst (merged_add_body L a s e cs st) with
     | Ok _ =>
         (forall r, in_region s e r -> ~ occupied r st /\ occupied r st')
         /\ merged_cells (sheet st')
            = fst (set_insert merged_cell_sort_compare {| start_ref := s; end_ref := e |}
                     (merged_cells (sheet st)))
     | Throw _ => merged_cells (sheet st') = merged_cells (sheet st)
     end.
Proof.
  intros Hinv Hs He. cbv zeta. split.
  { intros y. apply keeps_cells_occupied. intros c. apply merged_add_body_keeps_cells. }
  unfold merged_add_body, bind.
  pose proof (run_add_keeps_merged L a s cs _ st eq_refl) as Hm1.
  pose proof (fun x => run_add_keeps_cells L a s cs x st) as Hc1.
  assert (Hinv1 : sheet_inv (snd (run_add L a s cs st))).
  { destruct a; cbn [run_add];
      [ apply add_number_cell_preserves | apply add_formula_cell_preserves
      | apply add_string_cell_preserves | apply add_empty_cell_preserves ]; exact Hinv. }
  pose proof (run_add_cases L a s cs st) as Hcases.
  destruct (run_add L a s cs st) as [[[]|e1] st1] eqn:Eadd; cbn [fst snd] in *;
    [| exact Hm1].
  destruct Hcases as [(_ & _ & Hchecked)|(msg & Hbad)]; [|discriminate].
  destruct (add_checked_Ok_inv a s cs st st1 Hinv (eq_sym Hchecked)) as [Hsfree Hsocc].
  rewrite add_merge_rest_flat. unfold bind.
  pose proof (merge_loops_keep_merged s e cs _ st1 Hm1) as Hm2.
  pose proof (merge_loops_Ok s e cs st1) as Hloops.
  pose proof (fun x => preserves_for_each (fun t => In x (cells (sheet t)))
                (region_refs s e) (merge_rest_body s cs)
                (fun r => merge_rest_body_keeps_cells s cs r x) st1) as Hc2.
  destruct (for_each (region_refs s e) (merge_rest_body s cs) st1) as [[[]|e2] st2];
    cbn [fst snd] in *; [| exact Hm2].
  unfold merged_cells_insert, modify, occupied. cbn [fst snd on_this sheet set_merged_cells
    cells merged_cells].
  split; [| now rewrite Hm2].
  intros r Hr. specialize (Hloops st2 Hinv1 Hs He eq_refl r Hr).
  destruct (integerref_eq_dec r s) as [->|Hne].
  - split; [exact Hsfree|]. destruct Hsocc as (c & Hc & Hcr). exists c. split; [|exact Hcr].
    now apply Hc2.
  - destruct (Hloops Hne) as [Hfree Hocc]. split.
    + intros (c & Hc & Hcr). apply Hfree. exists c. split; [now apply Hc1 | exact Hcr].
    + exact Hocc.
Qed.

Lemma merged_equiv_same_start (a b : merged_cell_t) :
  equiv_of merged_cell_sort_compare a b <-> start_ref a = start_ref b.
Proof.
  unfold equiv_of, merged_cell_sort_compare.
  rewrite !orb_false_iff, !andb_false_iff, !Z.ltb_ge, !Z.eqb_neq. split.
  - intros H. destruct (start_ref a) as [ra ca], (start_ref b) as [rb cb].
    cbn [row col] in *. f_equal; lia.
  - intros ->. lia.
Qed.

Lemma end_after_start (s e : integerref_t) :
  end_not_after_start s e = false <->
  row s <= row e /\ col s <= col e /\ s <> e.
Proof.
  rewrite <- not_true_iff_false, end_not_after_start_true. split.
  - intros H. split; [lia|]. split; [lia|]. intros ->. lia.
  - intros (Hr & Hc & Hne) H. apply Hne. destruct s, e. cbn [row col] in *.
    f_equal; lia.
Qed.

(** What the merges of a sheet keep: the corners of a merge are in the
    grid with the end after the start, every reference of its region has a
    cell, and no reference is in two regions. *)
Record merge_wf (st : sheet_state) : Prop := {
  mwf_corners : forall m, In m (merged_cells (sheet st)) ->
                  valid_ref (start_ref m) /\ valid_ref (end_ref m)
                  /\ end_not_after_start (start_ref m) (end_ref m) = false;
  mwf_cells : forall m r, In m (merged_cells (sheet st)) ->
                in_region (start_ref m) (end_ref m) r -> occupied r st;
  mwf_disjoint : forall m1 m2 r,
                   In m1 (merged_cells (sheet st)) -> In m2 (merged_cells (sheet st)) ->
                   in_region (start_ref m1) (end_ref m1) r ->
                   in_region (start_ref m2) (end_ref m2) r -> m1 = m2
}.

(** What a call does to the cells and the merges. *)
Definition merge_step (st st' : sheet_state) : Prop :=
  (forall y, occupied y st -> occupied y st')
  /\ (merged_cells (sheet st') = merged_cells (sheet st)
      \/ exists s e,
           valid_ref s /\ valid_ref e /\ end_not_after_start s e = false
           /\ (forall r, in_region s e r -> ~ occupied r st /\ occupied r st')
           /\ merged_cells (sheet st')
              = fst (set_insert merged_cell_sort_compare {| start_ref := s; end_ref := e |}
                       (merged_cells (sheet st)))).

Lemma merge_wf_step (st st' : sheet_state) :
  merge_wf st -> merge_step st st' -> merge_wf st'.
Proof.
  intros [Hcorners Hcells Hdisj] [Hmono [Hsame|(s & e & Hs & He & Hend & Hregion & Hins)]].
  - constructor; rewrite Hsame; eauto.
  - assert (Hin : forall m, In m (merged_cells (sheet st')) ->
                    m = {| start_ref := s; end_ref := e |} \/ In m (merged_cells (sheet st)))
      by (intros m; rewrite Hins; apply set_insert_In).
    constructor.
    + intros m Hm. destruct (Hin m Hm) as [->|Hold]; [now cbn | now apply Hcorners].
    + intros m r Hm Hr. destruct (Hin m Hm) as [->|Hold].
      * now apply Hregion.
      * apply Hmono. now apply (Hcells m).
    + intros m1 m2 r H1 H2 Hr1 Hr2.
      destruct (Hin m1 H1) as [->|Hold1], (Hin m2 H2) as [->|Hold2].
      * reflexivity.
      * exfalso. apply (Hregion r Hr1). now apply (Hcells m2).
      * exfalso. apply (Hregion r Hr2). now apply (Hcells m1).
      * now apply (Hdisj m1 m2 r).
Qed.

Lemma merge_step_keeps (m : M sheet_state unit) (st : sheet_state) :
  (forall x, preserves (fun st => In x (cells (sheet st))) m) ->
  (forall ms, preserves (fun st => merged_cells (sheet st) = ms) m) ->
  merge_step st (snd (m st)).
Proof.
  intros Hc Hm. split.
  - intros y. now apply keeps_cells_occupied.
  - left. now apply Hm.
Qed.

Lemma merge_step_refl (st : sheet_state) : merge_step st st.
Proof. split; [auto | now left]. Qed.

Lemma merge_step_lift_bind {A : Type} (r : result A) (k : A -> M sheet_state unit)
    (st : sheet_state) :
  (forall a, merge_step st (snd (k a st))) ->
  merge_step st (snd (bind (lift_result r) k st)).
Proof.
  intros Hk. unfold bind, lift_result. destruct r as [a|e]; [apply Hk | apply merge_step_refl].
Qed.

Lemma run_add_merge_step (L : limits) (a : cell_add) (r : integerref_t) (cs : cell_style_t)
    (st : sheet_state) :
  merge_step st (snd (run_add L a r cs st)).
Proof.
  apply merge_step_keeps; intros ?; [apply run_add_keeps_cells | apply run_add_keeps_merged].
Qed.

Lemma run_merged_add_merge_step (L : limits) (a : cell_add) (s e : integerref_t)
    (cs : cell_style_t) (st : sheet_state) :
  a <> AddEmpty -> sheet_inv st -> merge_step st (snd (run_merged_add L a s e cs st)).
Proof.
  intros Ha Hinv.
  destruct (run_merged_add_cases L a s e cs st Ha) as [(Hs & He & Hend & ->)|(msg & ->)];
    [| apply merge_step_refl].
  destruct (merged_add_body_outcome L a s e cs st Hinv Hs He) as [Hmono Hout].
  split; [exact Hmono|].
  destruct (fst (merged_add_body L a s e cs st)) as [u|err]; [| now left].
  right. exists s, e. destruct Hout as [Hregion Hins]. auto 6.
Qed.

Lemma set_column_width_keeps_merged (c : Z) (width : float) (ms : list merged_cell_t) :
  preserves (fun st => merged_cells (sheet st) = ms) (set_column_width c width).
Proof.
  intros st Hx. unfold set_column_width.
  destruct (_ || _)%bool; [exact Hx|]. destruct (_ || _)%bool; exact Hx.
Qed.

Lemma set_row_height_keeps_merged (L : limits) (r : Z) (height : float)
    (ms : list merged_cell_t) :
  preserves (fun st => merged_cells (sheet st) = ms) (set_row_height L r height).
Proof.
  intros st Hx. unfold set_row_height.
  destruct (_ || _)%bool; [exact Hx|]. destruct (_ || _)%bool; exact Hx.
Qed.

Lemma run_call_merge_step (L : limits) (c : sheet_call) (st : sheet_state) :
  sheet_inv st -> merge_step st (snd (run_call L c st)).
Proof.
  intros Hinv.
  assert (Hn : forall n, AddNumber n <> AddEmpty) by discriminate.
  assert (Hf : forall f, AddFormula f <> AddEmpty) by discriminate.
  assert (Hv : forall v, AddString v <> AddEmpty) by discriminate.
  destruct c; cbn [run_call];
    unfold add_number_cell_mixedref, add_formula_cell_mixedref, add_string_cell_mixedref,
      add_merged_number_cell_mixedref, add_merged_formula_cell_mixedref,
      add_merged_string_cell_mixedref, set_column_width_letters;
    repeat (apply merge_step_lift_bind; intros ?).
  - apply (run_add_merge_step L (AddNumber number)).
  - apply (run_add_merge_step L (AddNumber number)).
  - apply (run_merged_add_merge_step L (AddNumber number)); [apply Hn | exact Hinv].
  - apply (run_merged_add_merge_step L (AddNumber number)); [apply Hn | exact Hinv].
  - apply (run_add_merge_step L (AddFormula formula)).
  - apply (run_add_merge_step L (AddFormula formula)).
  - apply (run_merged_add_merge_step L (AddFormula formula)); [apply Hf | exact Hinv].
  - apply (run_merged_add_merge_step L (AddFormula formula)); [apply Hf | exact Hinv].
  - apply (run_add_merge_step L (AddString value)).
  - apply (run_add_merge_step L (AddString value)).
  - apply (run_merged_add_merge_step L (AddString value)); [apply Hv | exact Hinv].
  - apply (run_merged_add_merge_step L (AddString value)); [apply Hv | exact Hinv].
  - apply (run_add_merge_step L AddEmpty).
  - apply merge_step_keeps; intros ?;
      [apply set_column_width_keeps_cells | apply set_column_width_keeps_merged].
  - apply merge_step_keeps; intros ?;
      [apply set_column_width_keeps_cells | apply set_column_width_keeps_merged].
  - apply merge_step_keeps; intros ?;
      [apply set_row_height_keeps_cells | apply set_row_height_keeps_merged].
  - unfold bind, workbook_addStyle, ret.
    destruct (addStyle cs (workbook_cell_styles st)).
    split; [intros y Hy; exact Hy | left; reflexivity].
Qed.

Lemma reachable_merge_wf (L : limits) (st : sheet_state) : reachable L st -> merge_wf st.
Proof.
  induction 1 as [? ? ? ? ?|st c Hr IH].
  - constructor; cbn; intros; contradiction.
  - apply (merge_wf_step st); [exact IH|].
    apply run_call_merge_step. now apply (reachable_inv L).
Qed.

(** X11. The merges of a reachable sheet. The corners of every merge are
    in the grid, the end is not left of the start nor above it, and it is
    not the start; every reference of the region of a merge has a cell in
    the sheet; and no reference lies in the regions of two merges: merges
    never overlap. *)
Theorem merge_regions_filled_and_disjoint (L : limits) (st : sheet_state) :
  reachable L st ->
  (forall m, In m (merged_cells (sheet st)) ->
     valid_ref (start_ref m) /\ valid_ref (end_ref m)
     /\ row (start_ref m) <= row (end_ref m) /\ col (start_ref m) <= col (end_ref m)
     /\ start_ref m <> end_ref m)
  /\ (forall m r, In m (merged_cells (sheet st)) ->
        in_region (start_ref m) (end_ref m) r ->
        exists c, In c (cells (sheet st)) /\ integerref c = r)
  /\ (forall m1 m2 r,
        In m1 (merged_cells (sheet st)) -> In m2 (merged_cells (sheet st)) ->
        in_region (start_ref m1) (end_ref m1) r ->
        in_region (start_ref m2) (end_ref m2) r -> m1 = m2).
Proof.
  intros Hreach. destruct (reachable_merge_wf L st Hreach) as [Hcorners Hcells Hdisj].
  split; [| split; [exact Hcells | exact Hdisj]].
  intros m Hm. destruct (Hcorners m Hm) as (Hs & He & Hend).
  apply end_after_start in Hend. tauto.
Qed.

Lemma merge_regions_filled_and_disjoint_witness :
  (forall m, In m (merged_cells (sheet example_sheet_merged)) ->
     valid_ref (start_ref m) /\ valid_ref (end_ref m)
     /\ row (start_ref m) <= row (end_ref m) /\ col (start_ref m) <= col (end_ref m)
     /\ start_ref m <> end_ref m)
  /\ (forall m r, In m (merged_cells (sheet example_sheet_merged)) ->
        in_region (start_ref m) (end_ref m) r ->
        exists c, In c (cells (sheet example_sheet_merged)) /\ integerref c = r)
  /\ (forall m1 m2 r,
        In m1 (merged_cells (sheet example_sheet_merged)) ->
        In m2 (merged_cells (sheet example_sheet_merged)) ->
        in_region (start_ref m1) (end_ref m1) r ->
        in_region (start_ref m2) (end_ref m2) r -> m1 = m2).
Proof.
  apply (merge_regions_filled_and_disjoint example_limits).
  apply reachable_call. apply reachable_fresh.
Defined.

Lemma run_merged_add_checked (L : limits) (a : cell_add) (s e : integerref_t)
    (cs : cell_style_t) (st : sheet_state) :
  valid_ref s -> valid_ref e -> end_not_after_start s e = false ->
  run_merged_add L a s e cs st = merged_add_body L a s e cs st.
Proof.
  intros Hs He Hend. apply invalid_ref_false in Hs, He.
  destruct a; cbn [run_merged_add]; [| | | reflexivity];
    unfold add_merged_number_cell, add_merged_formula_cell, add_merged_string_cell;
    now rewrite Hs, He, Hend.
Qed.

(** A merged add that was stopped by a cell in its way: it threw the
    duplicate-cell error of the add at its start (named [fn]) or that of
    [add_empty_cell], it recorded no merge, and it kept the cells there
    were; and when the start was free, the error is that of
    [add_empty_cell] and the cell put at the start is left in the sheet. *)
Definition merged_add_stopped (fn : string) (s : integerref_t) (st : sheet_state)
    (run : result unit * sheet_state) : Prop :=
  exists err,
    fst run = Throw err
    /\ (err = duplicate_cell_error fn \/ err = duplicate_cell_error "add_empty_cell")
    /\ merged_cells (sheet (snd run)) = merged_cells (sheet st)
    /\ (forall c, In c (cells (sheet st)) -> In c (cells (sheet (snd run))))
    /\ (~ occupied s st ->
        err = duplicate_cell_error "add_empty_cell" /\ occupied s (snd run)).

Lemma merged_add_body_stopped (L : limits) (a : cell_add) (s e x : integerref_t)
    (cs : cell_style_t) (st : sheet_state) :
  sheet_inv st -> valid_ref s -> valid_ref e -> within_limits L a ->
  in_region s e x -> occupied x st ->
  merged_add_stopped (add_name a) s st (merged_add_body L a s e cs st).
Proof.
  intros Hinv Hs He Ha Hx Hocc. unfold merged_add_body, bind.
  rewrite run_add_checked by assumption.
  pose proof (add_checked_preserves a s cs Hs st Hinv) as Hinv1.
  pose proof (fun c => add_checked_keeps_cells a s cs c st) as Hc1.
  pose proof (add_checked_keeps_merged a s cs _ st eq_refl) as Hm1.
  destruct (add_checked a s cs st) as [[[]|e1] st1] eqn:Eadd; cbn [fst snd] in *.
  - destruct (add_checked_Ok_inv a s cs st st1 Hinv Eadd) as [Hsfree Hsocc].
    pose proof (fun c => add_merge_rest_keeps_cells s e cs c st1) as Hc2.
    destruct (add_merge_rest s e cs st1) as [[[]|err] st2] eqn:Erest; cbn [fst snd] in *.
    + exfalso. rewrite add_merge_rest_flat in Erest.
      apply bind_Ok in Erest as ([] & st3 & Hloops & _).
      destruct (integerref_eq_dec x s) as [->|Hne]; [contradiction|].
      destruct (merge_loops_Ok s e cs st1 st3 Hinv1 Hs He Hloops x Hx Hne) as [Hfree _].
      apply Hfree. destruct Hocc as (c & Hc & Hcx). exists c. split; [now apply Hc1 | exact Hcx].
    + apply add_merge_rest_Throw in Erest as [-> Hloops]; try assumption.
      exists (duplicate_cell_error "add_empty_cell").
      split; [reflexivity|]. split; [now right|]. split.
      { pose proof (merge_loops_keep_merged s e cs _ st1 Hm1) as Hm2.
        now rewrite Hloops in Hm2. }
      split; [intros c Hc; apply Hc2, Hc1, Hc|].
      intros _. split; [reflexivity|].
      destruct Hsocc as (c & Hc & Hcs). exists c. split; [now apply Hc2 | exact Hcs].
  - pose proof (add_checked_Throw a s cs st st1 e1 Eadd) as ->.
    exists (duplicate_cell_error (add_name a)).
    split; [reflexivity|]. split; [now left|]. split; [exact Hm1|].
    split; [exact Hc1|].
    intros Hfree. destruct (add_checked_Ok a s cs st Hfree) as [_ Hrun]. cbv zeta in Hrun.
    rewrite Hrun in Eadd. discriminate.
Qed.

(** X12. A merged add with a cell in its way. In a reachable sheet, when
    some reference of the region between two valid corners (the end after
    the start) already has a cell, each of the three merged adds throws a
    duplicate-cell error and records no merge; nothing is rolled back: the
    cells there were stay, and when the start itself was free the cell
    added at the start is left in the sheet. *)
Theorem merged_add_over_a_cell (L : limits) (s e x : integerref_t) (cs : cell_style_t)
    (st : sheet_state) :
  reachable L st -> valid_ref s -> valid_ref e -> end_not_after_start s e = false ->
  in_region s e x -> occupied x st ->
  (forall number,
      merged_add_stopped "add_number_cell" s st (add_merged_number_cell s e number cs st))
  /\ (forall formula, strlen formula <= MAX_FORMULA_LEN L ->
        merged_add_stopped "add_formula_cell" s st
          (add_merged_formula_cell L s e formula cs st))
  /\ (forall value, strlen value <= MAX_STRING_LEN L ->
        count_line_breaks value <= MAX_STRING_LINE_BREAKS L ->
        merged_add_stopped "add_string_cell" s st
          (add_merged_string_cell L s e value cs st)).
Proof.
  intros Hreach Hs He Hend Hx Hocc. pose proof (reachable_inv L st Hreach) as Hinv.
  split; [| split].
  - intros number.
    change (add_merged_number_cell s e number cs st)
      with (run_merged_add L (AddNumber number) s e cs st).
    rewrite run_merged_add_checked by assumption.
    now apply (merged_add_body_stopped L (AddNumber number) s e x).
  - intros formula Hlen.
    change (add_merged_formula_cell L s e formula cs st)
      with (run_merged_add L (AddFormula formula) s e cs st).
    rewrite run_merged_add_checked by assumption.
    now apply (merged_add_body_stopped L (AddFormula formula) s e x).
  - intros value Hlen Hbreaks.
    change (add_merged_string_cell L s e value cs st)
      with (run_merged_add L (AddString value) s e cs st).
    rewrite run_merged_add_checked by assumption.
    now apply (merged_add_body_stopped L (AddString value) s e x).
Qed.

(** The example sheet with a number at B2. *)
Definition example_sheet_B2 : sheet_state :=
  snd (run_call example_limits (call_add_number_cell B2 1%float generic_style) example_sheet).

Lemma merged_add_over_a_cell_witness :
  (forall number,
      merged_add_stopped "add_number_cell" A1 example_sheet_B2
        (add_merged_number_cell A1 B2 number bold_style example_sheet_B2))
  /\ (forall formula, strlen formula <= MAX_FORMULA_LEN example_limits ->
        merged_add_stopped "add_formula_cell" A1 example_sheet_B2
          (add_merged_formula_cell example_limits A1 B2 formula bold_style example_sheet_B2))
  /\ (forall value, strlen value <= MAX_STRING_LEN example_limits ->
        count_line_breaks value <= MAX_STRING_LINE_BREAKS example_limits ->
        merged_add_stopped "add_string_cell" A1 example_sheet_B2
          (add_merged_string_cell example_limits A1 B2 value bold_style example_sheet_B2)).
Proof.
  apply (merged_add_over_a_cell example_limits A1 B2 B2 bold_style example_sheet_B2).
  - apply reachable_call. apply reachable_fresh.
  - unfold valid_ref, MAX_ROW, MAX_COL. cbn. lia.
  - unfold valid_ref, MAX_ROW, MAX_COL. cbn. lia.
  - reflexivity.
  - unfold in_region. cbn. lia.
  - eexists. split; [left; reflexivity | reflexivity].
Defined.

(** The cells that the failed merged add over A1:B2 leaves behind on the
    sheet with a number at B2: A1, B1 and A2 are there besides B2, and no
    merge is. *)
Example merged_add_over_B2_leaves_cells :
  fst (add_merged_number_cell A1 B2 7%float bold_style example_sheet_B2)
    = Throw (duplicate_cell_error "add_empty_cell")
  /\ map integerref
       (cells (sheet (snd (add_merged_number_cell A1 B2 7%float bold_style example_sheet_B2))))
     = [A1; B1; A2; B2]
  /\ merged_cells (sheet (snd (add_merged_number_cell A1 B2 7%float bold_style
                                 example_sheet_B2))) = [].
Proof. repeat split. Qed.

(** A loop whose every round returns, returns. [I] relates the elements
    gone through to the state. *)
Lemma for_each_run {S T : Type} (l : list T) (body : T -> M S unit)
    (I : list T -> S -> Prop) :
  (forall done x rest s, l = (done ++ x :: rest)%list -> I done s ->
     exists s', body x s = (Ok tt, s') /\ I (done ++ [x])%list s') ->
  forall s, I [] s -> exists s', for_each l body s = (Ok tt, s') /\ I l s'.
Proof.
  intros Hbody.
  assert (H : forall rest done s, l = (done ++ rest)%list -> I done s ->
                exists s', for_each rest body s = (Ok tt, s') /\ I l s').
  { induction rest as [|x rest IH]; intros done s Hl Hs.
    - rewrite app_nil_r in Hl. subst done. now exists s.
    - destruct (Hbody done x rest s Hl Hs) as (s1 & Hx & Hs1).
      destruct (IH (done ++ [x])%list s1) as (s' & Hrest & Hs'); [| exact Hs1 |].
      + now rewrite <- app_assoc.
      + exists s'. split; [|exact Hs']. cbn [for_each]. unfold bind. now rewrite Hx. }
  intros s Hs. now apply (H l [] s).
Qed.

Lemma NoDup_map_inj {A B : Type} (f : A -> B) (l : list A) :
  (forall x y, f x = f y -> x = y) -> NoDup l -> NoDup (map f l).
Proof.
  intros Hinj. induction 1 as [|x l Hx Hnd IH]; cbn [map]; constructor; [|exact IH].
  intros Hin. apply in_map_iff in Hin as (y & Hy & Hin). apply Hinj in Hy. now subst y.
Qed.

Lemma range_NoDup (lo hi : Z) : NoDup (range lo hi).
Proof.
  unfold range. apply NoDup_map_inj; [intros x y; lia | apply seq_NoDup].
Qed.

Lemma region_refs_NoDup (s e : integerref_t) : NoDup (region_refs s e).
Proof.
  unfold region_refs.
  pose proof (range_NoDup (row s) (row e)) as Hrows.
  induction Hrows as [|jRow rows Hnew Hnd IH]; cbn [flat_map]; [constructor|].
  apply NoDup_app; [| exact IH |].
  - apply NoDup_map_inj; [now intros x y [=] | apply range_NoDup].
  - intros r Hr Hin. apply in_map_iff in Hr as (jCol & <- & _).
    apply in_flat_map in Hin as (jRow' & Hrow' & Hin).
    apply in_map_iff in Hin as (jCol' & [= <- _] & _). contradiction.
Qed.

(** A merged add that filled its region: it returned; the cells are those
    there were, the cell of the add at the start and an empty cell at every
    other reference of the region, all with the index that [addStyle] gives
    the style; the merge is in the set besides those there were. *)
Definition merged_add_filled (a : cell_add) (s e : integerref_t) (cs : cell_style_t)
    (st : sheet_state) (run : result unit * sheet_state) : Prop :=
  let index := fst (addStyle cs (workbook_cell_styles st)) in
  fst run = Ok tt
  /\ (forall c, In c (cells (sheet (snd run)))
                <-> In c (cells (sheet st))
                    \/ c = cell_of_add a s index
                    \/ exists r, in_region s e r /\ r <> s /\ c = cell_of_add AddEmpty r index)
  /\ (forall m, In m (merged_cells (sheet (snd run)))
                <-> m = {| start_ref := s; end_ref := e |} \/ In m (merged_cells (sheet st)))
  /\ workbook_cell_styles (snd run) = snd (addStyle cs (workbook_cell_styles st)).

Lemma merged_add_body_filled (L : limits) (a : cell_add) (s e : integerref_t)
    (cs : cell_style_t) (st : sheet_state) :
  merge_wf st -> valid_ref s -> valid_ref e -> end_not_after_start s e = false ->
  within_limits L a ->
  (forall r, in_region s e r -> ~ occupied r st) ->
  merged_add_filled a s e cs st (merged_add_body L a s e cs st).
Proof.
  intros Hmwf Hs He Hend Ha Hfree.
  pose proof (proj1 (end_after_start s e) Hend) as (Hrow & Hcol & Hne).
  assert (Hsin : in_region s e s) by (unfold in_region; lia).
  unfold merged_add_filled, merged_add_body, bind. cbv zeta.
  rewrite run_add_checked by assumption.
  destruct (add_checked_Ok a s cs st (Hfree s Hsin)) as [Hins ->]. cbv zeta in Hins.
  set (index := fst (addStyle cs (workbook_cell_styles st))) in *.
  set (catalog := snd (addStyle cs (workbook_cell_styles st))) in *.
  set (st1 := {| workbook_cell_styles := catalog; sheet := _ |}).
  assert (Hcells1 : forall c, In c (cells (sheet st1))
                              <-> c = cell_of_add a s index \/ In c (cells (sheet st)))
    by (intros c; cbn; now apply cells_insert_In).
  assert (Hagain : addStyle cs catalog = (index, catalog)).
  { unfold catalog, index. rewrite addStyle_again.
    now destruct (addStyle cs (workbook_cell_styles st)). }
  rewrite add_merge_rest_flat. unfold bind.
  destruct (for_each_run (region_refs s e) (merge_rest_body s cs)
              (fun done t =>
                 workbook_cell_styles t = catalog
                 /\ merged_cells (sheet t) = merged_cells (sheet st)
                 /\ forall c, In c (cells (sheet t))
                              <-> In c (cells (sheet st1))
                                  \/ exists r, In r done /\ r <> s
                                               /\ c = cell_of_add AddEmpty r index))
    with (s := st1) as (st2 & -> & Hcat & Hmerged & Hcells2).
  { intros done x rest t Hl (Hcat & Hmerged & Hcells).
    assert (Hxin : in_region s e x).
    { apply region_refs_In. rewrite Hl. apply in_or_app. right. now left. }
    assert (Hxnew : ~ In x done).
    { pose proof (region_refs_NoDup s e) as Hnd. rewrite Hl in Hnd.
      apply NoDup_remove_2 in Hnd. intros Hin. apply Hnd. apply in_or_app. now left. }
    unfold merge_rest_body.
    destruct ((row x =? row s) && (col x =? col s)) eqn:Estart.
    - apply merge_rest_body_start in Estart; [|exact cs]. subst x.
      exists t. split; [reflexivity|]. split; [exact Hcat|]. split; [exact Hmerged|].
      intros c. rewrite Hcells. split; (intros [H|(r & Hr & Hrs & Hc)]; [now left | right]).
      + exists r. split; [apply in_or_app; now left | now split].
      + exists r. apply in_app_or in Hr. destruct Hr as [Hr|[<-|[]]]; [now split | contradiction].
    - assert (Hxs : x <> s).
      { intros ->. rewrite !Z.eqb_refl in Estart. discriminate. }
      change (add_empty_cell x cs) with (run_add L AddEmpty x cs).
      rewrite run_add_checked by (exact I || now apply (in_region_valid s e)).
      assert (Hxfree : ~ occupied x t).
      { intros (c & Hc & Hcx). apply Hcells in Hc.
        destruct Hc as [Hc|(r & Hr & _ & ->)].
        - apply Hcells1 in Hc. destruct Hc as [->|Hc].
          + rewrite cell_of_add_ref in Hcx. congruence.
          + apply (Hfree x Hxin). now exists c.
        - rewrite cell_of_add_ref in Hcx. congruence. }
      destruct (add_checked_Ok AddEmpty x cs t Hxfree) as [Hins' ->]. cbv zeta in Hins'.
      rewrite Hcat, Hagain in *. cbn [fst snd] in *.
      eexists. split; [reflexivity|].
      cbn [sheet workbook_cell_styles set_used_columns set_cells cells merged_cells].
      split; [reflexivity|]. split; [exact Hmerged|].
      intros c. rewrite (cells_insert_In _ c _ Hins'), Hcells. split.
      + intros [->|[H|(r & Hr & Hrs & Hc)]].
        * right. exists x. split; [apply in_or_app; right; now left | now split].
        * now left.
        * right. exists r. split; [apply in_or_app; now left | now split].
      + intros [H|(r & Hr & Hrs & Hc)]; [right; now left|].
        apply in_app_or in Hr. destruct Hr as [Hr|[<-|[]]].
        * right. right. now exists r.
        * now left. }
  { split; [reflexivity|]. split; [reflexivity|]. intros c. split; [now left|].
    intros [H|(r & [] & _)]. exact H. }
  unfold merged_cells_insert, modify. cbn [fst snd on_this sheet set_merged_cells cells
    merged_cells workbook_cell_styles].
  split; [reflexivity|]. split; [| split; [| exact Hcat]].
  - intros c. rewrite Hcells2, Hcells1. split.
    + intros [[->|H]|(r & Hr & Hrs & ->)].
      * right. now left.
      * now left.
      * right. right. exists r. split; [now apply region_refs_In | now split].
    + intros [H|[->|(r & Hr & Hrs & ->)]].
      * left. now right.
      * left. now left.
      * right. exists r. split; [now apply region_refs_In | now split].
  - intros m. rewrite Hmerged.
    assert (Hnew : snd (set_insert merged_cell_sort_compare
                          {| start_ref := s; end_ref := e |} (merged_cells (sheet st))) = true).
    { apply set_insert_fresh. intros m0 Hm0 Heq. apply merged_equiv_same_start in Heq.
      cbn [start_ref] in Heq.
      destruct (mwf_corners st Hmwf m0 Hm0) as (_ & _ & Hend0).
      apply end_after_start in Hend0 as (Hr0 & Hc0 & _).
      apply (Hfree s Hsin). apply (mwf_cells st Hmwf m0 s Hm0).
      rewrite Heq. unfold in_region. lia. }
    split; [apply set_insert_In|].
    intros [->|Hm]; [now apply set_insert_true_In | now apply set_insert_keeps].
Qed.

(** X13. A merged add over a free region. In a reachable sheet, for two
    valid corners with the end after the start and no cell at any reference
    of the region between them, each of the three merged adds (with content
    within its limits) returns and leaves, besides the cells there were,
    the cell with the content at the start and an empty cell at every other
    reference of the region, all of them with the index that addStyle gives
    the style; the merge is recorded, and the catalog is the one addStyle
    leaves. *)
Theorem merged_add_fills_free_region (L : limits) (s e : integerref_t) (cs : cell_style_t)
    (st : sheet_state) :
  reachable L st -> valid_ref s -> valid_ref e -> end_not_after_start s e = false ->
  (forall r, in_region s e r -> ~ occupied r st) ->
  (forall number,
      merged_add_filled (AddNumber number) s e cs st
        (add_merged_number_cell s e number cs st))
  /\ (forall formula, strlen formula <= MAX_FORMULA_LEN L ->
        merged_add_filled (AddFormula formula) s e cs st
          (add_merged_formula_cell L s e formula cs st))
  /\ (forall value, strlen value <= MAX_STRING_LEN L ->
        count_line_breaks value <= MAX_STRING_LINE_BREAKS L ->
        merged_add_filled (AddString value) s e cs st
          (add_merged_string_cell L s e value cs st)).
Proof.
  intros Hreach Hs He Hend Hfree. pose proof (reachable_merge_wf L st Hreach) as Hmwf.
  split; [| split].
  - intros number.
    change (add_merged_number_cell s e number cs st)
      with (run_merged_add L (AddNumber number) s e cs st).
    rewrite run_merged_add_checked by assumption.
    now apply (merged_add_body_filled L (AddNumber number)).
  - intros formula Hlen.
    change (add_merged_formula_cell L s e formula cs st)
      with (run_merged_add L (AddFormula formula) s e cs st).
    rewrite run_merged_add_checked by assumption.
    now apply (merged_add_body_filled L (AddFormula formula)).
  - intros value Hlen Hbreaks.
    change (add_merged_string_cell L s e value cs st)
      with (run_merged_add L (AddString value) s e cs st).
    rewrite run_merged_add_checked by assumption.
    now apply (merged_add_body_filled L (AddString value)).
Qed.

Lemma merged_add_fills_free_region_witness :
  (forall number,
      merged_add_filled (AddNumber number) A1 B1 bold_style example_sheet_B2
        (add_merged_number_cell A1 B1 number bold_style example_sheet_B2))
  /\ (forall formula, strlen formula <= MAX_FORMULA_LEN example_limits ->
        merged_add_filled (AddFormula formula) A1 B1 bold_style example_sheet_B2
          (add_merged_formula_cell example_limits A1 B1 formula bold_style example_sheet_B2))
  /\ (forall value, strlen value <= MAX_STRING_LEN example_limits ->
        count_line_breaks value <= MAX_STRING_LINE_BREAKS example_limits ->
        merged_add_filled (AddString value) A1 B1 bold_style example_sheet_B2
          (add_merged_string_cell example_limits A1 B1 value bold_style example_sheet_B2)).
Proof.
  apply (merged_add_fills_free_region example_limits A1 B1 bold_style example_sheet_B2).
  - apply reachable_call. apply reachable_fresh.
  - unfold valid_ref, MAX_ROW, MAX_COL. cbn. lia.
  - unfold valid_ref, MAX_ROW, MAX_COL. cbn. lia.
  - reflexivity.
  - intros r [Hrow Hcol] (c & [<-|[]] & Hc). subst r. cbn in Hrow. lia.
Defined.


(** ** IttyZip: the checksum *)

(** One round of the loop of [crc32] on a register to which the byte has
    been added already. *)
Definition crc_step (x : Z) : Z :=
  Z.lxor (Z.shiftr x 8) (nth (Z.to_nat (Z.land 0x000000FF x)) IttyZip.crc32_table 0).

Lemma land_255 (x : Z) : Z.land 0xFF x = x mod 256.
Proof. rewrite Z.land_comm. change 0xFF with (Z.ones 8). now rewrite Z.land_ones by lia. Qed.

Lemma land_255_range (x : Z) : 0 <= Z.land 0xFF x < 256.
Proof. rewrite land_255. apply Z.mod_pos_bound. lia. Qed.

Lemma land_lxor_distr (m a b : Z) :
  Z.land m (Z.lxor a b) = Z.lxor (Z.land m a) (Z.land m b).
Proof.
  apply Z.bits_inj'. intros n Hn. rewrite !Z.lxor_spec, !Z.land_spec, Z.lxor_spec.
  now destruct (Z.testbit m n), (Z.testbit a n), (Z.testbit b n).
Qed.

Lemma land_255_lxor (a b : Z) :
  Z.land 0xFF (Z.lxor a b) = Z.lxor (Z.land 0xFF a) (Z.land 0xFF b).
Proof. apply land_lxor_distr. Qed.

Lemma crc32_loop_step (c : ascii) (data : string) (reg : Z) :
  IttyZip.crc32_loop (String c data) reg
  = IttyZip.crc32_loop data (crc_step (Z.lxor reg (code c))).
Proof.
  pose proof (code_range c) as Hc.
  cbn [IttyZip.crc32_loop]. unfold crc_step. f_equal.
  rewrite Z.shiftr_lxor, land_255_lxor.
  rewrite (Z.shiftr_div_pow2 (code c)) by lia.
  rewrite (Z.div_small (code c)) by (change (2 ^ 8) with 256; lia).
  rewrite Z.lxor_0_r.
  rewrite (land_255 (code c)), (Z.mod_small (code c)) by lia.
  reflexivity.
Qed.

Lemma crc32_loop_app (a b : string) (reg : Z) :
  IttyZip.crc32_loop (a ++ b) reg = IttyZip.crc32_loop b (IttyZip.crc32_loop a reg).
Proof.
  revert reg. induction a as [|c a IH]; intros reg; [reflexivity|].
  cbn [append]. now rewrite !crc32_loop_step, IH.
Qed.

(** Bits above the low byte pass through a round, eight places down. *)
Lemma crc_step_shift (x w : Z) :
  crc_step (Z.lxor x (Z.shiftl w 8)) = Z.lxor (crc_step x) w.
Proof.
  unfold crc_step. rewrite Z.shiftr_lxor, land_255_lxor.
  rewrite Z.shiftr_shiftl_l by lia. change (8 - 8) with 0. rewrite Z.shiftl_0_r.
  rewrite (land_255 (Z.shiftl w 8)), Z.shiftl_mul_pow2 by lia.
  rewrite Z.mod_mul by (change (2 ^ 8) with 256; lia).
  rewrite Z.lxor_0_r, !Z.lxor_assoc. f_equal. apply Z.lxor_comm.
Qed.

Lemma split_low_byte (i : Z) :
  i = Z.lxor (Z.land 0xFF i) (Z.shiftl (Z.shiftr i 8) 8).
Proof.
  apply Z.bits_inj'. intros n Hn.
  rewrite Z.lxor_spec, Z.land_spec, Z.shiftl_spec by lia.
  change 0xFF with (Z.ones 8).
  destruct (Z.lt_ge_cases n 8) as [Hlt|Hge].
  - rewrite Z.ones_spec_low by lia. rewrite (Z.testbit_neg_r _ (n - 8)) by lia.
    now rewrite xorb_false_r.
  - rewrite Z.ones_spec_high by lia. rewrite Z.shiftr_spec by lia.
    cbn [andb xorb]. f_equal. lia.
Qed.

(** A round on a register to which a whole word has been added: the low
    byte goes into the round, the rest comes out of it. *)
Lemma crc_step_word (reg j : Z) :
  crc_step (Z.lxor reg j)
  = Z.lxor (crc_step (Z.lxor reg (Z.land 0xFF j))) (Z.shiftr j 8).
Proof.
  rewrite (split_low_byte j) at 1.
  now rewrite <- Z.lxor_assoc, crc_step_shift.
Qed.

(** The four bytes of a word in little-endian order take the register
    through four rounds started on the register plus the word. *)
Lemma crc32_loop_word (reg i : Z) :
  0 <= i < 4294967296 ->
  IttyZip.crc32_loop (IttyZip.uint32_to_buffer i) reg
  = crc_step (crc_step (crc_step (crc_step (Z.lxor reg i)))).
Proof.
  intros Hi. unfold IttyZip.uint32_to_buffer.
  rewrite !crc32_loop_step. cbn [IttyZip.crc32_loop].
  rewrite !code_char_of by apply land_255_range.
  set (r1 := crc_step (Z.lxor reg (Z.land 0xFF i))).
  set (r2 := crc_step (Z.lxor r1 (Z.land 0xFF (Z.shiftr i 8)))).
  set (r3 := crc_step (Z.lxor r2 (Z.land 0xFF (Z.shiftr i 16)))).
  rewrite (crc_step_word reg i). fold r1.
  rewrite (crc_step_word r1 (Z.shiftr i 8)). fold r2.
  rewrite Z.shiftr_shiftr by lia. change (8 + 8) with 16.
  rewrite (crc_step_word r2 (Z.shiftr i 16)). fold r3.
  rewrite Z.shiftr_shiftr by lia. change (16 + 8) with 24.
  rewrite (crc_step_word r3 (Z.shiftr i 24)).
  rewrite Z.shiftr_shiftr by lia. change (24 + 8) with 32.
  rewrite (Z.shiftr_div_pow2 i 32) by lia.
  rewrite Z.div_small by (change (2 ^ 32) with 4294967296; lia).
  now rewrite Z.lxor_0_r.
Qed.

Lemma lxor_u32 (a b : Z) :
  0 <= a < 4294967296 -> 0 <= b < 4294967296 -> 0 <= Z.lxor a b < 4294967296.
Proof.
  intros Ha Hb. split; [apply Z.lxor_nonneg; lia|].
  replace (Z.lxor a b) with (Z.lxor a b mod 2 ^ 32).
  - apply Z.mod_pos_bound. lia.
  - rewrite <- Z.land_ones by lia. rewrite Z.land_comm, land_lxor_distr.
    rewrite !(Z.land_comm (Z.ones 32)), !Z.land_ones by lia.
    now rewrite !Z.mod_small by (change (2 ^ 32) with 4294967296; lia).
Qed.

Lemma crc32_table_range (n : nat) : 0 <= nth n IttyZip.crc32_table 0 < 4294967296.
Proof.
  assert (H : forallb (fun t => (0 <=? t) && (t <? 4294967296)) IttyZip.crc32_table = true)
    by (vm_compute; reflexivity).
  rewrite forallb_forall in H.
  destruct (Nat.lt_ge_cases n (List.length IttyZip.crc32_table)) as [Hlt|Hge].
  - specialize (H _ (nth_In _ 0 Hlt)). apply andb_true_iff in H as [H1 H2].
    apply Z.leb_le in H1. apply Z.ltb_lt in H2. lia.
  - rewrite nth_overflow by exact Hge. lia.
Qed.

Lemma crc_step_range (x : Z) : 0 <= x < 4294967296 -> 0 <= crc_step x < 4294967296.
Proof.
  intros Hx. unfold crc_step. apply lxor_u32; [| apply crc32_table_range].
  rewrite Z.shiftr_div_pow2 by lia. change (2 ^ 8) with 256.
  Z.div_mod_to_equations. lia.
Qed.

Lemma crc32_loop_range (data : string) (reg : Z) :
  0 <= reg < 4294967296 -> 0 <= IttyZip.crc32_loop data reg < 4294967296.
Proof.
  revert reg. induction data as [|c data IH]; intros reg Hreg; [exact Hreg|].
  rewrite crc32_loop_step. apply IH, crc_step_range, lxor_u32; [exact Hreg|].
  pose proof (code_range c). lia.
Qed.

Lemma crc32_range (data : string) : 0 <= IttyZip.crc32 data < 4294967296.
Proof.
  unfold IttyZip.crc32. apply lxor_u32; [|lia]. apply crc32_loop_range. lia.
Qed.

(** X14. The checksum is a 32-bit value, and it has the residue of
    CRC-32: whatever the data, the checksum of the data followed by the
    four bytes of its own checksum, least significant byte first (as
    uint32_to_buffer stores them), is the constant 0x2144DF1C. *)
Theorem crc32_residue (data : string) :
  0 <= IttyZip.crc32 data < 4294967296
  /\ IttyZip.crc32 (data ++ IttyZip.uint32_to_buffer (IttyZip.crc32 data)) = 0x2144DF1C.
Proof.
  split; [apply crc32_range|].
  pose proof (crc32_range data) as Hrange.
  unfold IttyZip.crc32 at 1. rewrite crc32_loop_app, crc32_loop_word by exact Hrange.
  unfold IttyZip.crc32.
  rewrite <- Z.lxor_assoc, Z.lxor_nilpotent, Z.lxor_0_l.
  vm_compute. reflexivity.
Qed.

(** ** IttyZip: bytes of a number *)

(** The number that a sequence of bytes stands for, least significant
    byte first. *)
Fixpoint le_value (bytes : string) : Z :=
  match bytes with
  | EmptyString => 0
  | String c rest => code c + 256 * le_value rest
  end.

(** X15. uint16_to_buffer and uint32_to_buffer store a number in two and
    in four bytes, least significant byte first: read back in that order
    the bytes give the number (modulo 2^16 and 2^32). *)
Theorem buffers_are_little_endian (i : Z) :
  String.length (IttyZip.uint16_to_buffer i) = 2%nat
  /\ le_value (IttyZip.uint16_to_buffer i) = i mod 65536
  /\ String.length (IttyZip.uint32_to_buffer i) = 4%nat
  /\ le_value (IttyZip.uint32_to_buffer i) = i mod 4294967296.
Proof.
  split; [reflexivity|]. split; [| split; [reflexivity|]];
    unfold IttyZip.uint16_to_buffer, IttyZip.uint32_to_buffer; cbn [le_value];
    rewrite !code_char_of by apply land_255_range;
    rewrite !land_255, !Z.shiftr_div_pow2 by lia;
    change (2 ^ 8) with 256; change (2 ^ 16) with 65536; change (2 ^ 24) with 16777216;
    Z.div_mod_to_equations; lia.
Qed.

(** ** IttyZip: the time stamp *)

(** A property of the integers from [lo] to [hi], checked on each. *)
Definition range_forall (lo hi : Z) (p : Z -> bool) : bool := forallb p (range lo hi).

Lemma range_forall_true (lo hi : Z) (p : Z -> bool) (k : Z) :
  range_forall lo hi p = true -> lo <= k <= hi -> p k = true.
Proof.
  unfold range_forall. rewrite forallb_forall. intros H Hk. apply H.
  unfold range. apply in_map_iff. exists (Z.to_nat (k - lo)). split; [lia|].
  apply in_seq. lia.
Qed.

(** A platform whose local time is [t]. *)
Definition platform_at (t : tm) : platform :=
  {| localtime_now := t; gmtime_now := t; can_open := fun _ => true;
     write_ok := fun _ _ => true; to_string_double := fun _ => "" |}.

Definition dos_time_at (hour minute sec : Z) : Z :=
  IttyZip.time (IttyZip.dosTimeDate (platform_at
    {| tm_sec := sec; tm_min := minute; tm_hour := hour;
       tm_mday := 1; tm_mon := 0; tm_year := 80 |})).

Definition dos_date_at (year mon mday : Z) : Z :=
  IttyZip.date (IttyZip.dosTimeDate (platform_at
    {| tm_sec := 0; tm_min := 0; tm_hour := 0;
       tm_mday := mday; tm_mon := mon; tm_year := year |})).

Lemma dos_time_checked :
  range_forall 0 23 (fun hour => range_forall 0 59 (fun minute => range_forall 0 60 (fun sec =>
    dos_time_at hour minute sec =? hour * 2048 + minute * 32 + Z.min sec 59 / 2))) = true.
Proof. vm_compute. reflexivity. Qed.

Lemma dos_date_checked :
  range_forall 80 207 (fun year => range_forall 0 11 (fun mon => range_forall 1 31 (fun mday =>
    dos_date_at year mon mday =? (year - 80) * 512 + (mon + 1) * 32 + mday))) = true.
Proof. vm_compute. reflexivity. Qed.

Lemma dos_date_no_year_checked :
  range_forall 0 11 (fun mon => range_forall 1 31 (fun mday =>
    dos_date_at 0 mon mday =? (mon + 1) * 32 + mday)) = true.
Proof. vm_compute. reflexivity. Qed.

Lemma dos_date_year_out (year mon mday : Z) :
  year < 80 \/ 207 < year -> dos_date_at year mon mday = dos_date_at 0 mon mday.
Proof.
  intros Hy. unfold dos_date_at, IttyZip.dosTimeDate, platform_at.
  cbn [localtime_now tm_year tm_mon tm_mday tm_sec tm_min tm_hour IttyZip.date].
  destruct (year >=? 80) eqn:E1; [| reflexivity].
  destruct (year - 80 <? 128) eqn:E2; [| reflexivity].
  rewrite Z.geb_leb in E1. apply Z.leb_le in E1. apply Z.ltb_lt in E2. lia.
Qed.

(** X16. The DOS time stamp of dosTimeDate. For a local time with seconds
    in [0, 60], minutes in [0, 59], hours in [0, 23], a day in [1, 31] and
    a month in [0, 11], the time word is hour * 2048 + minute * 32 +
    min(second, 59) / 2 and the date word is (year - 1980) * 512 +
    month * 32 + day (month counted from 1), where a year before 1980 or
    after 2107 is stored as 1980. *)
Theorem dosTimeDate_fields (P : platform) :
  let t := localtime_now P in
  0 <= tm_sec t <= 60 -> 0 <= tm_min t <= 59 -> 0 <= tm_hour t <= 23 ->
  1 <= tm_mday t <= 31 -> 0 <= tm_mon t <= 11 ->
  IttyZip.time (IttyZip.dosTimeDate P)
  = tm_hour t * 2048 + tm_min t * 32 + Z.min (tm_sec t) 59 / 2
  /\ IttyZip.date (IttyZip.dosTimeDate P)
     = (if (80 <=? tm_year t) && (tm_year t <=? 207) then tm_year t - 80 else 0) * 512
       + (tm_mon t + 1) * 32 + tm_mday t.
Proof.
  cbv zeta. destruct P as [[sec minute hour mday mon year] gm co wo ts].
  cbn [localtime_now tm_sec tm_min tm_hour tm_mday tm_mon tm_year].
  intros Hsec Hmin Hhour Hmday Hmon. split.
  - change (dos_time_at hour minute sec
            = hour * 2048 + minute * 32 + Z.min sec 59 / 2).
    apply Z.eqb_eq.
    pose proof (range_forall_true _ _ _ hour dos_time_checked Hhour) as H. cbv beta in H.
    pose proof (range_forall_true _ _ _ minute H Hmin) as H'. cbv beta in H'.
    exact (range_forall_true _ _ _ sec H' Hsec).
  - change (dos_date_at year mon mday
            = (if (80 <=? year) && (year <=? 207) then year - 80 else 0) * 512
              + (mon + 1) * 32 + mday).
    destruct ((80 <=? year) && (year <=? 207)) eqn:Ey.
    + apply andb_true_iff in Ey as [E1 E2]. apply Z.leb_le in E1, E2.
      apply Z.eqb_eq.
      pose proof (range_forall_true _ _ _ year dos_date_checked (conj E1 E2)) as H.
      cbv beta in H.
      pose proof (range_forall_true _ _ _ mon H Hmon) as H'. cbv beta in H'.
      exact (range_forall_true _ _ _ mday H' Hmday).
    + rewrite dos_date_year_out.
      2:{ apply andb_false_iff in Ey as [E|E]; apply Z.leb_gt in E; lia. }
      apply Z.eqb_eq.
      pose proof (range_forall_true _ _ _ mon dos_date_no_year_checked Hmon) as H.
      cbv beta in H.
      exact (range_forall_true _ _ _ mday H Hmday).
Qed.

Lemma dosTimeDate_fields_witness :
  IttyZip.time (IttyZip.dosTimeDate example_platform) = 10 * 2048 + 15 * 32 + Z.min 31 59 / 2
  /\ IttyZip.date (IttyZip.dosTimeDate example_platform)
     = (if (80 <=? 126) && (126 <=? 207) then 126 - 80 else 0) * 512 + (10 + 1) * 32 + 3.
Proof. apply (dosTimeDate_fields example_platform); cbn; lia. Defined.


(** ** IttyZip: the set of file names *)

Lemma string_compare_refl (s : string) : String.compare s s = Eq.
Proof.
  induction s as [|c s IH]; cbn; [reflexivity|].
  unfold Ascii.compare. now rewrite N.compare_refl.
Qed.

Lemma string_compare_trans (a b c : string) :
  String.compare a b = Lt -> String.compare b c = Lt -> String.compare a c = Lt.
Proof.
  revert b c. induction a as [|x a IH]; intros [|y b] [|z c]; cbn;
    try discriminate; try reflexivity.
  unfold Ascii.compare.
  destruct (N.compare_spec (N_of_ascii x) (N_of_ascii y)) as [Hxy|Hxy|Hxy];
    destruct (N.compare_spec (N_of_ascii y) (N_of_ascii z)) as [Hyz|Hyz|Hyz];
    destruct (N.compare_spec (N_of_ascii x) (N_of_ascii z)) as [Hxz|Hxz|Hxz];
    try discriminate; try reflexivity; try lia.
  apply IH.
Qed.

Lemma string_ltb_irrefl (a : string) : String.ltb a a = false.
Proof. unfold String.ltb. now rewrite string_compare_refl. Qed.

Lemma string_ltb_trans (a b c : string) :
  String.ltb a b = true -> String.ltb b c = true -> String.ltb a c = true.
Proof.
  unfold String.ltb. intros H1 H2.
  destruct (String.compare a b) eqn:E1; try discriminate.
  destruct (String.compare b c) eqn:E2; try discriminate.
  now rewrite (string_compare_trans a b c E1 E2).
Qed.

Lemma string_ltb_cotrans (a b c : string) :
  String.ltb a c = true -> String.ltb a b = true \/ String.ltb b c = true.
Proof.
  intros Hac. destruct (String.compare a b) eqn:E.
  - apply String.compare_eq_iff in E. subst b. now right.
  - left. unfold String.ltb. now rewrite E.
  - right. assert (Hba : String.ltb b a = true).
    { unfold String.ltb. rewrite String.compare_antisym, E. reflexivity. }
    exact (string_ltb_trans b a c Hba Hac).
Qed.

(** Two names are equivalent in the set exactly when they are the same. *)
Lemma string_equiv_eq (a b : string) : equiv_of String.ltb a b <-> a = b.
Proof.
  unfold equiv_of, String.ltb. split.
  - rewrite (String.compare_antisym b a).
    destruct (String.compare a b) eqn:E; cbn; try (intros [? ?]; discriminate).
    intros _. now apply String.compare_eq_iff.
  - intros ->. now rewrite string_compare_refl.
Qed.

Lemma substring_0_length (n : nat) (s : string) :
  String.length (substring 0 n s) = Nat.min n (String.length s).
Proof.
  revert n. induction s as [|c s IH]; intros [|n]; cbn; try reflexivity.
  now rewrite IH.
Qed.

Lemma substring_0_all (n : nat) (s : string) :
  (String.length s <= n)%nat -> substring 0 n s = s.
Proof.
  revert n. induction s as [|c s IH]; intros [|n] Hn; cbn in *; try reflexivity; try lia.
  rewrite IH by lia. reflexivity.
Qed.

Lemma strlen_app (a b : string) : strlen (a ++ b) = strlen a + strlen b.
Proof. unfold strlen. rewrite string_length_app. lia. Qed.

(** ** IttyZip: the output stream *)

(** Writes one after the other. *)
Fixpoint writes (P : platform) (chunks : list string) (f : ofstream) : ofstream :=
  match chunks with
  | [] => f
  | b :: rest => writes P rest (ofstream_write P b f)
  end.

Lemma ofstream_write_is_open (P : platform) (bytes : string) (f : ofstream) :
  is_open (ofstream_write P bytes f) = is_open f.
Proof.
  unfold ofstream_write. destruct (is_open f) eqn:E, (fail f); cbn; try assumption.
  destruct (write_ok P (file_bytes f) bytes); cbn; congruence.
Qed.

Lemma ofstream_write_failed (P : platform) (bytes : string) (f : ofstream) :
  fail f = true -> fail (ofstream_write P bytes f) = true.
Proof. intros H. unfold ofstream_write. rewrite H, orb_true_r. reflexivity. Qed.

(** A write after which the stream has not failed has put the bytes at the
    end of the file. *)
Lemma ofstream_write_good (P : platform) (bytes : string) (f : ofstream) :
  is_open f = true -> fail (ofstream_write P bytes f) = false ->
  fail f = false
  /\ file_bytes (ofstream_write P bytes f) = file_bytes f ++ bytes
  /\ file_name (ofstream_write P bytes f) = file_name f.
Proof.
  intros Hopen. unfold ofstream_write. rewrite Hopen. cbn [negb orb].
  destruct (fail f); [cbn; discriminate|].
  destruct (write_ok P (file_bytes f) bytes); [| cbn; discriminate].
  cbn. auto.
Qed.

Lemma writes_is_open (P : platform) (chunks : list string) (f : ofstream) :
  is_open (writes P chunks f) = is_open f.
Proof.
  revert f. induction chunks as [|b rest IH]; intros f; [reflexivity|].
  cbn [writes]. now rewrite IH, ofstream_write_is_open.
Qed.

Lemma writes_failed (P : platform) (chunks : list string) (f : ofstream) :
  fail f = true -> fail (writes P chunks f) = true.
Proof.
  revert f. induction chunks as [|b rest IH]; intros f H; [exact H|].
  cbn [writes]. now apply IH, ofstream_write_failed.
Qed.

Lemma writes_good (P : platform) (chunks : list string) (f : ofstream) :
  is_open f = true -> fail (writes P chunks f) = false ->
  fail f = false
  /\ file_bytes (writes P chunks f) = file_bytes f ++ String.concat "" chunks
  /\ file_name (writes P chunks f) = file_name f.
Proof.
  revert f. induction chunks as [|b rest IH]; intros f Hopen Hgood.
  - cbn in *. split; [exact Hgood|]. split; [|reflexivity].
    clear. induction (file_bytes f) as [|c s IHs]; cbn; [reflexivity | now rewrite <- IHs].
  - cbn [writes] in *.
    destruct (IH (ofstream_write P b f)) as (Hf & Hbytes & Hname);
      [now rewrite ofstream_write_is_open | exact Hgood |].
    destruct (ofstream_write_good P b f Hopen Hf) as (Hf0 & Hb & Hn).
    split; [exact Hf0|]. split; [| congruence].
    rewrite Hbytes, Hb, string_append_assoc. f_equal.
    destruct rest as [|b' rest']; [cbn; clear; induction b; cbn; congruence | reflexivity].
Qed.

(** ** IttyZip: what addFile and finalize write *)

(** The name as [generateHeaders] stores it: cut to the length that fits
    the 16-bit length field. *)
Definition stored_name (name : string) : string :=
  substring 0 (Z.to_nat (u16 (strlen name))) name.

(** The chunks that [writeLocalheader] writes for the entry of [addFile]. *)
Definition local_header_chunks (P : platform) (name contents : string) : list string :=
  [ IttyZip.uint32_to_buffer 0x04034b50;
    IttyZip.uint16_to_buffer 0x000A;
    IttyZip.uint16_to_buffer 0;
    IttyZip.uint16_to_buffer 0;
    IttyZip.uint16_to_buffer (IttyZip.time (IttyZip.dosTimeDate P));
    IttyZip.uint16_to_buffer (IttyZip.date (IttyZip.dosTimeDate P));
    IttyZip.uint32_to_buffer (IttyZip.crc32 contents);
    IttyZip.uint32_to_buffer (u32 (strlen contents));
    IttyZip.uint32_to_buffer (u32 (strlen contents));
    IttyZip.uint16_to_buffer (u16 (strlen name));
    IttyZip.uint16_to_buffer 0;
    stored_name name ].

(** The bytes that [storeDirheader] appends for the entry of [addFile]
    whose local header is at [offset]. *)
Definition directory_entry (P : platform) (name contents : string) (offset : Z) : string :=
  IttyZip.uint32_to_buffer 0x02014b50
  ++ IttyZip.uint16_to_buffer 0x000A
  ++ IttyZip.uint16_to_buffer 0x000A
  ++ IttyZip.uint16_to_buffer 0
  ++ IttyZip.uint16_to_buffer 0
  ++ IttyZip.uint16_to_buffer (IttyZip.time (IttyZip.dosTimeDate P))
  ++ IttyZip.uint16_to_buffer (IttyZip.date (IttyZip.dosTimeDate P))
  ++ IttyZip.uint32_to_buffer (IttyZip.crc32 contents)
  ++ IttyZip.uint32_to_buffer (u32 (strlen contents))
  ++ IttyZip.uint32_to_buffer (u32 (strlen contents))
  ++ IttyZip.uint16_to_buffer (u16 (strlen name))
  ++ IttyZip.uint16_to_buffer 0
  ++ IttyZip.uint16_to_buffer 0
  ++ IttyZip.uint16_to_buffer 0
  ++ IttyZip.uint16_to_buffer 0
  ++ IttyZip.uint32_to_buffer 0
  ++ IttyZip.uint32_to_buffer offset
  ++ stored_name name.

(** The chunks that [writeEndRecord] writes for an archive of [n] entries
    with a directory of [size] bytes at [offset]. *)
Definition end_record_chunks (n size offset : Z) : list string :=
  [ IttyZip.uint32_to_buffer 0x06054b50;
    IttyZip.uint16_to_buffer 0;
    IttyZip.uint16_to_buffer 0;
    IttyZip.uint16_to_buffer n;
    IttyZip.uint16_to_buffer n;
    IttyZip.uint32_to_buffer size;
    IttyZip.uint32_to_buffer offset;
    IttyZip.uint16_to_buffer 0 ].

(** The output file is ready: [addFile] and [finalize] pass their checks. *)
Definition ready (z : IttyZip.IttyZip) : Prop :=
  IttyZip.opened z = true /\ is_open (IttyZip.out_file z) = true
  /\ fail (IttyZip.out_file z) = false.

Lemma check_output_ready (z : IttyZip.IttyZip) :
  ready z -> IttyZip.check_output z = (Ok tt, z).
Proof. intros (H1 & H2 & H3). unfold IttyZip.check_output. now rewrite H1, H2, H3. Qed.

(** The chunks that [writeLocalheader] writes. *)
Definition localheader_chunks (h : IttyZip.localheader_t) : list string :=
  [ IttyZip.uint32_to_buffer (IttyZip.lh_signature h);
    IttyZip.uint16_to_buffer (IttyZip.lh_extract_version h);
    IttyZip.uint16_to_buffer (IttyZip.lh_general_bit_flag h);
    IttyZip.uint16_to_buffer (IttyZip.lh_compression_method h);
    IttyZip.uint16_to_buffer (IttyZip.time (IttyZip.lh_file_mod_timedate h));
    IttyZip.uint16_to_buffer (IttyZip.date (IttyZip.lh_file_mod_timedate h));
    IttyZip.uint32_to_buffer (IttyZip.lh_crc32 h);
    IttyZip.uint32_to_buffer (IttyZip.lh_size_compressed h);
    IttyZip.uint32_to_buffer (IttyZip.lh_size_uncompressed h);
    IttyZip.uint16_to_buffer (IttyZip.lh_filename_length h);
    IttyZip.uint16_to_buffer (IttyZip.lh_extra_field_length h);
    substring 0 (Z.to_nat (IttyZip.lh_filename_length h)) (IttyZip.lh_filename h) ].


Lemma bind_check_output_ready {A : Type} (k : unit -> M IttyZip.IttyZip A) (z : IttyZip.IttyZip) :
  ready z -> bind IttyZip.check_output k z = k tt z.
Proof. intros H. unfold bind. now rewrite (check_output_ready z H). Qed.

Lemma bind_write {A : Type} (P : platform) (b : string) (k : unit -> M IttyZip.IttyZip A)
    (z : IttyZip.IttyZip) :
  bind (IttyZip.write P b) k z = k tt (IttyZip.with_out_file (ofstream_write P b) z).
Proof. reflexivity. Qed.

Lemma with_out_file_write (P : platform) (b : string) (z : IttyZip.IttyZip) :
  IttyZip.with_out_file (ofstream_write P b) z = IttyZip.with_out_file (writes P [b]) z.
Proof. reflexivity. Qed.

Lemma with_out_file_writes (P : platform) (b : string) (chunks : list string)
    (z : IttyZip.IttyZip) :
  IttyZip.with_out_file (writes P chunks) (IttyZip.with_out_file (ofstream_write P b) z)
  = IttyZip.with_out_file (writes P (b :: chunks)) z.
Proof. reflexivity. Qed.

Lemma writeLocalheader_run (P : platform) (h : IttyZip.localheader_t) (z : IttyZip.IttyZip) :
  ready z ->
  IttyZip.writeLocalheader P h z
  = (Ok (u32 (30 + IttyZip.lh_filename_length h)),
     IttyZip.with_out_file (writes P (localheader_chunks h)) z).
Proof.
  intros Hready. unfold IttyZip.writeLocalheader.
  rewrite (bind_check_output_ready _ z Hready).
  repeat (rewrite bind_write; cbv beta).
  unfold ret. rewrite with_out_file_write. repeat rewrite with_out_file_writes.
  reflexivity.
Qed.

Lemma stored_name_again (name : string) :
  substring 0 (Z.to_nat (u16 (strlen name))) (stored_name name) = stored_name name.
Proof.
  apply substring_0_all. unfold stored_name. rewrite substring_0_length. lia.
Qed.

(** [addFile] on a ready archive, in one step. *)
Lemma addFile_run (P : platform) (name contents : string) (z : IttyZip.IttyZip) :
  ready z ->
  IttyZip.addFile P name contents z =
  if snd (set_insert String.ltb (stored_name name) (IttyZip.filenames z))
  then (Ok tt,
        {| IttyZip.num_files := u16 (IttyZip.num_files z + 1);
           IttyZip.out_file :=
             ofstream_write P contents
               (writes P (local_header_chunks P name contents) (IttyZip.out_file z));
           IttyZip.opened := true;
           IttyZip.next_offset :=
             u32 (u32 (IttyZip.next_offset z + u32 (30 + u16 (strlen name)))
                  + u32 (strlen contents));
           IttyZip.central_directory :=
             IttyZip.central_directory z
             ++ directory_entry P name contents (IttyZip.next_offset z);
           IttyZip.filenames :=
             fst (set_insert String.ltb (stored_name name) (IttyZip.filenames z)) |})
  else (Throw (std_exception IttyZip.DUPLICATE_FILE_MESG), z).
Proof.
  intros Hready. unfold IttyZip.addFile.
  rewrite (bind_check_output_ready _ z Hready). cbv zeta.
  unfold bind at 1. unfold IttyZip.generateHeaders at 1. cbv zeta. cbv beta iota.
  cbn [fst snd IttyZip.lh_filename].
  unfold bind at 1. unfold IttyZip.filenames_insert at 1. fold (stored_name name).
  pose proof (set_insert_false_same String.ltb (stored_name name) (IttyZip.filenames z)) as Hsame.
  destruct (set_insert String.ltb (stored_name name) (IttyZip.filenames z)) as [s [|]];
    cbn [negb fst snd].
  - destruct Hready as (Hopened & Hopen & Hfail).
    unfold bind at 1, IttyZip.storeDirheader at 1, modify at 1.
    cbn [IttyZip.num_files IttyZip.out_file IttyZip.opened IttyZip.next_offset
         IttyZip.central_directory IttyZip.filenames].
    unfold bind at 1. rewrite writeLocalheader_run by (repeat split; assumption).
    unfold IttyZip.with_out_file, localheader_chunks.
    cbn [IttyZip.num_files IttyZip.out_file IttyZip.opened IttyZip.next_offset
         IttyZip.central_directory IttyZip.filenames
         IttyZip.lh_signature IttyZip.lh_extract_version IttyZip.lh_general_bit_flag
         IttyZip.lh_compression_method IttyZip.lh_file_mod_timedate IttyZip.lh_crc32
         IttyZip.lh_size_compressed IttyZip.lh_size_uncompressed
         IttyZip.lh_filename_length IttyZip.lh_extra_field_length IttyZip.lh_filename].
    rewrite stored_name_again. fold (local_header_chunks P name contents).
    unfold bind, IttyZip.add_next_offset, IttyZip.write, modify, IttyZip.with_out_file.
    cbn [IttyZip.num_files IttyZip.out_file IttyZip.opened IttyZip.next_offset
         IttyZip.central_directory IttyZip.filenames].
    rewrite Hopened. unfold IttyZip.dirheader_bytes, directory_entry.
    cbn [IttyZip.dh_signature IttyZip.dh_version_made_by IttyZip.dh_extract_version
         IttyZip.dh_general_bit_flag IttyZip.dh_compression_method
         IttyZip.dh_file_mod_timedate IttyZip.dh_crc32 IttyZip.dh_size_compressed
         IttyZip.dh_size_uncompressed IttyZip.dh_filename_length
         IttyZip.dh_extra_field_length IttyZip.dh_comment_length
         IttyZip.dh_disk_number_start IttyZip.dh_internal_attributes
         IttyZip.dh_external_attributes IttyZip.dh_local_header_offset
         IttyZip.dh_filename].
    rewrite stored_name_again. reflexivity.
  - cbn [fst snd] in Hsame. unfold throw. rewrite (Hsame eq_refl). destruct z; reflexivity.
Qed.

(** The chunks that [writeEndRecord] writes. *)
Definition endrecord_chunks (r : IttyZip.endrecord_t) : list string :=
  [ IttyZip.uint32_to_buffer (IttyZip.er_signature r);
    IttyZip.uint16_to_buffer (IttyZip.er_disk_number r);
    IttyZip.uint16_to_buffer (IttyZip.er_dir_start_disk_number r);
    IttyZip.uint16_to_buffer (IttyZip.er_this_disk_entries r);
    IttyZip.uint16_to_buffer (IttyZip.er_total_entries r);
    IttyZip.uint32_to_buffer (IttyZip.er_central_dir_size r);
    IttyZip.uint32_to_buffer (IttyZip.er_central_dir_offset r);
    IttyZip.uint16_to_buffer (IttyZip.er_comment_length r) ].

Lemma writeEndRecord_run (P : platform) (r : IttyZip.endrecord_t) (z : IttyZip.IttyZip) :
  ready z ->
  IttyZip.writeEndRecord P r z
  = (Ok tt, IttyZip.with_out_file (writes P (endrecord_chunks r)) z).
Proof.
  intros Hready. unfold IttyZip.writeEndRecord.
  rewrite (bind_check_output_ready _ z Hready).
  repeat (rewrite bind_write; cbv beta).
  unfold IttyZip.write, modify. rewrite with_out_file_write.
  repeat rewrite with_out_file_writes. reflexivity.
Qed.

Lemma bind_check_output_failed {A : Type} (k : unit -> M IttyZip.IttyZip A)
    (z : IttyZip.IttyZip) :
  IttyZip.opened z = true -> is_open (IttyZip.out_file z) = true ->
  fail (IttyZip.out_file z) = true ->
  bind IttyZip.check_output k z = (Throw (std_exception IttyZip.OUTPUT_FAIL_MESG), z).
Proof.
  intros H1 H2 H3. unfold bind, IttyZip.check_output. now rewrite H1, H2, H3.
Qed.

(** [finalize] on a ready archive, in one step: the central directory is
    written; when that write fails the end record is refused; otherwise the
    end record is written, the file is closed and the archive is reset. *)
Lemma finalize_run (P : platform) (z : IttyZip.IttyZip) :
  ready z ->
  IttyZip.finalize P z =
  if (IttyZip.num_files z =? 0) || (IttyZip.next_offset z =? 0)
     || (strlen (IttyZip.central_directory z) =? 0)
  then (Throw (std_exception IttyZip.EMPTY_FINALIZE_MESG), z)
  else
    let f := ofstream_write P (IttyZip.central_directory z) (IttyZip.out_file z) in
    if fail f
    then (Throw (std_exception IttyZip.OUTPUT_FAIL_MESG), IttyZip.with_out_file (fun _ => f) z)
    else (Ok tt,
          {| IttyZip.num_files := 0;
             IttyZip.out_file :=
               ofstream_close
                 (writes P (end_record_chunks (IttyZip.num_files z)
                              (u32 (strlen (IttyZip.central_directory z)))
                              (IttyZip.next_offset z)) f);
             IttyZip.opened := false;
             IttyZip.next_offset := 0;
             IttyZip.central_directory := "";
             IttyZip.filenames := IttyZip.filenames z |}).
Proof.
  intros Hready. unfold IttyZip.finalize.
  destruct (_ || _ || _)%bool; [reflexivity|].
  rewrite (bind_check_output_ready _ z Hready).
  rewrite bind_write. cbv beta zeta.
  destruct Hready as (Hopened & Hopen & Hfail).
  unfold bind at 1, IttyZip.generateEndRecord, gets.
  destruct (fail (ofstream_write P (IttyZip.central_directory z) (IttyZip.out_file z)))
    eqn:Ef.
  - unfold bind at 1. unfold IttyZip.writeEndRecord.
    rewrite bind_check_output_failed; [reflexivity | exact Hopened | |];
      unfold IttyZip.with_out_file; cbn [IttyZip.out_file];
      [now rewrite ofstream_write_is_open | exact Ef].
  - unfold bind at 1. rewrite writeEndRecord_run.
    2:{ unfold ready, IttyZip.with_out_file. cbn [IttyZip.opened IttyZip.out_file].
        now rewrite ofstream_write_is_open. }
    unfold modify, IttyZip.with_out_file, endrecord_chunks, end_record_chunks.
    cbn [IttyZip.num_files IttyZip.out_file IttyZip.opened IttyZip.next_offset
         IttyZip.central_directory IttyZip.filenames
         IttyZip.er_signature IttyZip.er_disk_number IttyZip.er_dir_start_disk_number
         IttyZip.er_this_disk_entries IttyZip.er_total_entries IttyZip.er_central_dir_size
         IttyZip.er_central_dir_offset IttyZip.er_comment_length].
    reflexivity.
Qed.

(** ** IttyZip: the layout of the archive *)

(** The local file header of an entry: 30 bytes and the stored name. *)
Definition local_header (P : platform) (name contents : string) : string :=
  IttyZip.uint32_to_buffer 0x04034b50
  ++ IttyZip.uint16_to_buffer 0x000A
  ++ IttyZip.uint16_to_buffer 0
  ++ IttyZip.uint16_to_buffer 0
  ++ IttyZip.uint16_to_buffer (IttyZip.time (IttyZip.dosTimeDate P))
  ++ IttyZip.uint16_to_buffer (IttyZip.date (IttyZip.dosTimeDate P))
  ++ IttyZip.uint32_to_buffer (IttyZip.crc32 contents)
  ++ IttyZip.uint32_to_buffer (u32 (strlen contents))
  ++ IttyZip.uint32_to_buffer (u32 (strlen contents))
  ++ IttyZip.uint16_to_buffer (u16 (strlen name))
  ++ IttyZip.uint16_to_buffer 0
  ++ stored_name name.

(** The end of central directory record: 22 bytes. *)
Definition end_record (n size offset : Z) : string :=
  IttyZip.uint32_to_buffer 0x06054b50
  ++ IttyZip.uint16_to_buffer 0
  ++ IttyZip.uint16_to_buffer 0
  ++ IttyZip.uint16_to_buffer n
  ++ IttyZip.uint16_to_buffer n
  ++ IttyZip.uint32_to_buffer size
  ++ IttyZip.uint32_to_buffer offset
  ++ IttyZip.uint16_to_buffer 0.

(** The entries of an archive, first to last: header and contents of each. *)
Fixpoint local_part (P : platform) (entries : list (string * string)) : string :=
  match entries with
  | [] => ""
  | e :: rest => local_header P (fst e) (snd e) ++ snd e ++ local_part P rest
  end.

(** The central directory of the entries that follow the bytes [before]:
    each entry records the position of its local header, as a 32-bit
    number. *)
Fixpoint directory_part (P : platform) (before : string) (entries : list (string * string))
  : string :=
  match entries with
  | [] => ""
  | e :: rest =>
      directory_entry P (fst e) (snd e) (u32 (strlen before))
      ++ directory_part P (before ++ local_header P (fst e) (snd e) ++ snd e) rest
  end.

Lemma concat_local_header_chunks (P : platform) (name contents : string) :
  String.concat "" (local_header_chunks P name contents) = local_header P name contents.
Proof. reflexivity. Qed.

Lemma concat_end_record_chunks (n size offset : Z) :
  String.concat "" (end_record_chunks n size offset) = end_record n size offset.
Proof. reflexivity. Qed.

Lemma uint16_to_buffer_strlen (i : Z) : strlen (IttyZip.uint16_to_buffer i) = 2.
Proof. reflexivity. Qed.

Lemma uint32_to_buffer_strlen (i : Z) : strlen (IttyZip.uint32_to_buffer i) = 4.
Proof. reflexivity. Qed.

Lemma u16_le (n : Z) : 0 <= n -> 0 <= u16 n <= n.
Proof.
  intros Hn. unfold u16. split; [apply Z.mod_pos_bound; lia | apply Z.mod_le; lia].
Qed.

(** The stored name is as long as the length field says. *)
Lemma stored_name_strlen (name : string) : strlen (stored_name name) = u16 (strlen name).
Proof.
  unfold stored_name, strlen. rewrite substring_0_length.
  pose proof (u16_le (Z.of_nat (String.length name)) ltac:(lia)). lia.
Qed.

Lemma local_header_strlen (P : platform) (name contents : string) :
  strlen (local_header P name contents) = 30 + u16 (strlen name).
Proof.
  unfold local_header.
  rewrite !strlen_app, !uint16_to_buffer_strlen, !uint32_to_buffer_strlen, stored_name_strlen.
  lia.
Qed.

Lemma directory_entry_strlen (P : platform) (name contents : string) (offset : Z) :
  strlen (directory_entry P name contents offset) = 46 + u16 (strlen name).
Proof.
  unfold directory_entry.
  rewrite !strlen_app, !uint16_to_buffer_strlen, !uint32_to_buffer_strlen, stored_name_strlen.
  lia.
Qed.

Lemma end_record_strlen (n size offset : Z) : strlen (end_record n size offset) = 22.
Proof. reflexivity. Qed.

(** *** The set of names *)

Definition names_sorted (z : IttyZip.IttyZip) : Prop :=
  StronglySorted (lt_of String.ltb) (IttyZip.filenames z).

Lemma names_insert_true (x : string) (s : list string) :
  StronglySorted (lt_of String.ltb) s ->
  snd (set_insert String.ltb x s) = true -> ~ In x s.
Proof.
  intros Hs Hins Hin.
  rewrite (set_insert_present String.ltb string_ltb_irrefl string_ltb_trans
             string_ltb_cotrans x x s Hs Hin) in Hins; [discriminate|].
  now apply string_equiv_eq.
Qed.

Lemma names_insert_false (x : string) (s : list string) :
  snd (set_insert String.ltb x s) = false -> In x s.
Proof.
  intros Hins. destruct (in_dec string_dec x s) as [Hin|Hout]; [exact Hin|].
  rewrite (set_insert_fresh String.ltb x s) in Hins; [discriminate|].
  intros y Hy Heq. apply string_equiv_eq in Heq. now subst.
Qed.

Lemma names_insert_sorted (x : string) (s : list string) :
  StronglySorted (lt_of String.ltb) s ->
  StronglySorted (lt_of String.ltb) (fst (set_insert String.ltb x s)).
Proof. apply set_insert_sorted. exact string_ltb_trans. Qed.

Lemma names_insert_In (x y : string) (s : list string) :
  snd (set_insert String.ltb x s) = true ->
  In y (fst (set_insert String.ltb x s)) <-> y = x \/ In y s.
Proof.
  intros Hins. split.
  - apply set_insert_In.
  - intros [->|Hy]; [now apply set_insert_true_In | now apply set_insert_keeps].
Qed.

(** *** A failed stream stops the archive *)

Lemma addFile_on_failed (P : platform) (name contents : string) (z : IttyZip.IttyZip) :
  fail (IttyZip.out_file z) = true ->
  exists e, IttyZip.addFile P name contents z = (Throw e, z).
Proof.
  intros Hfail. unfold IttyZip.addFile, bind at 1, IttyZip.check_output.
  destruct (negb (IttyZip.opened z)); [eauto|].
  destruct (negb (is_open (IttyZip.out_file z))); [eauto|].
  rewrite Hfail. eauto.
Qed.

Lemma add_files_on_failed (P : platform) (entries : list (string * string))
    (z z' : IttyZip.IttyZip) :
  fail (IttyZip.out_file z) = true ->
  add_files P entries z = (Ok tt, z') -> z' = z.
Proof.
  intros Hfail. destruct entries as [|e rest]; cbn.
  - now intros [= <-].
  - unfold add_files. cbn [for_each]. unfold bind at 1.
    destruct (addFile_on_failed P (fst e) (snd e) z Hfail) as (x & ->). discriminate.
Qed.

(** *** What a run of [addFile] calls leaves *)

Lemma addFile_Ok_fields (P : platform) (name contents : string) (z z1 : IttyZip.IttyZip) :
  ready z ->
  IttyZip.addFile P name contents z = (Ok tt, z1) ->
  snd (set_insert String.ltb (stored_name name) (IttyZip.filenames z)) = true
  /\ IttyZip.num_files z1 = u16 (IttyZip.num_files z + 1)
  /\ IttyZip.out_file z1
     = ofstream_write P contents
         (writes P (local_header_chunks P name contents) (IttyZip.out_file z))
  /\ IttyZip.opened z1 = true
  /\ IttyZip.next_offset z1
     = u32 (u32 (IttyZip.next_offset z + u32 (30 + u16 (strlen name)))
            + u32 (strlen contents))
  /\ IttyZip.central_directory z1
     = IttyZip.central_directory z
       ++ directory_entry P name contents (IttyZip.next_offset z)
  /\ IttyZip.filenames z1
     = fst (set_insert String.ltb (stored_name name) (IttyZip.filenames z)).
Proof.
  intros Hready Hrun. rewrite (addFile_run P name contents z Hready) in Hrun.
  destruct (snd (set_insert String.ltb (stored_name name) (IttyZip.filenames z)));
    [|discriminate].
  pose proof (f_equal snd Hrun) as Hz. cbn [snd] in Hz. clear Hrun. subst z1.
  cbn [IttyZip.num_files IttyZip.out_file IttyZip.opened IttyZip.next_offset
       IttyZip.central_directory IttyZip.filenames].
  repeat (split; [reflexivity|]). reflexivity.
Qed.

(** When the stream is good after [addFile], the header and the contents
    are at the end of the file. *)
Lemma addFile_good (P : platform) (name contents : string) (z z1 : IttyZip.IttyZip) :
  ready z ->
  IttyZip.addFile P name contents z = (Ok tt, z1) ->
  fail (IttyZip.out_file z1) = false ->
  ready z1
  /\ file_bytes (IttyZip.out_file z1)
     = file_bytes (IttyZip.out_file z) ++ local_header P name contents ++ contents
  /\ file_name (IttyZip.out_file z1) = file_name (IttyZip.out_file z).
Proof.
  intros Hready Hrun Hgood.
  destruct (addFile_Ok_fields P name contents z z1 Hready Hrun)
    as (_ & _ & Hout & Hopened & _).
  destruct Hready as (_ & Hopen & _).
  rewrite Hout in Hgood |- *.
  assert (Hopen1 : is_open (writes P (local_header_chunks P name contents)
                              (IttyZip.out_file z)) = true)
    by now rewrite writes_is_open.
  destruct (ofstream_write_good P contents _ Hopen1 Hgood) as (Hgood1 & Hbytes & Hname).
  destruct (writes_good P _ _ Hopen Hgood1) as (_ & Hbytes1 & Hname1).
  split; [|split].
  - unfold ready. rewrite Hout, ofstream_write_is_open. auto.
  - rewrite Hbytes, Hbytes1, concat_local_header_chunks. apply string_append_assoc.
  - congruence.
Qed.

Lemma offset_after_entry (a h c : Z) :
  u32 (u32 (u32 a + u32 h) + u32 c) = u32 (a + (h + c)).
Proof.
  rewrite u32_add_l, u32_add_r.
  replace (u32 a + u32 h + c) with (u32 a + (u32 h + c)) by lia. rewrite u32_add_l.
  replace (a + (u32 h + c)) with (u32 h + (a + c)) by lia. rewrite u32_add_l.
  f_equal. lia.
Qed.

Lemma u16_add_l (a b : Z) : u16 (u16 a + b) = u16 (a + b).
Proof. unfold u16. apply Zplus_mod_idemp_l. Qed.

Lemma add_files_cons (P : platform) (e : string * string) (rest : list (string * string))
    (z z' : IttyZip.IttyZip) :
  add_files P (e :: rest) z = (Ok tt, z') ->
  exists z1, IttyZip.addFile P (fst e) (snd e) z = (Ok tt, z1)
             /\ add_files P rest z1 = (Ok tt, z').
Proof.
  unfold add_files. cbn [for_each]. intros H.
  apply bind_Ok in H as ([] & z1 & H1 & H2). now exists z1.
Qed.

Lemma add_files_layout (P : platform) (entries : list (string * string)) :
  forall z z' : IttyZip.IttyZip,
  ready z -> names_sorted z ->
  0 <= IttyZip.num_files z < 65536 ->
  IttyZip.next_offset z = u32 (strlen (file_bytes (IttyZip.out_file z))) ->
  add_files P entries z = (Ok tt, z') ->
  fail (IttyZip.out_file z') = false ->
  file_bytes (IttyZip.out_file z') = file_bytes (IttyZip.out_file z) ++ local_part P entries
  /\ file_name (IttyZip.out_file z') = file_name (IttyZip.out_file z)
  /\ IttyZip.central_directory z'
     = IttyZip.central_directory z
       ++ directory_part P (file_bytes (IttyZip.out_file z)) entries
  /\ IttyZip.num_files z' = u16 (IttyZip.num_files z + Z.of_nat (List.length entries))
  /\ IttyZip.next_offset z' = u32 (strlen (file_bytes (IttyZip.out_file z')))
  /\ ready z' /\ names_sorted z'
  /\ NoDup (map (fun e => stored_name (fst e)) entries)
  /\ (forall e, In e entries -> ~ In (stored_name (fst e)) (IttyZip.filenames z))
  /\ (forall n, In n (IttyZip.filenames z')
                <-> In n (IttyZip.filenames z)
                    \/ In n (map (fun e => stored_name (fst e)) entries)).
Proof.
  induction entries as [|e rest IH]; intros z z' Hready Hsorted Hcount Hoff Hrun Hgood.
  - cbn in Hrun. injection Hrun as <-. cbn [local_part directory_part List.length map].
    rewrite !string_app_nil_r.
    split; [reflexivity|]. split; [reflexivity|]. split; [reflexivity|].
    split; [unfold u16; rewrite Z.add_0_r, Z.mod_small; [reflexivity | exact Hcount]|].
    split; [exact Hoff|]. split; [exact Hready|]. split; [exact Hsorted|].
    split; [constructor|]. split; [intros e []|].
    intros n. cbn. tauto.
  - apply add_files_cons in Hrun as (z1 & Hadd & Hrest).
    destruct (fail (IttyZip.out_file z1)) eqn:Hfail1.
    { rewrite (add_files_on_failed P rest z1 z' Hfail1 Hrest) in Hgood. congruence. }
    destruct (addFile_Ok_fields P _ _ z z1 Hready Hadd)
      as (Hins & Hnum & _ & _ & Hoff1 & Hdir & Hnames).
    destruct (addFile_good P _ _ z z1 Hready Hadd Hfail1) as (Hready1 & Hbytes & Hname).
    assert (Hsorted1 : names_sorted z1).
    { unfold names_sorted. rewrite Hnames. now apply names_insert_sorted. }
    assert (Hoff1' : IttyZip.next_offset z1 = u32 (strlen (file_bytes (IttyZip.out_file z1)))).
    { rewrite Hoff1, Hbytes, Hoff, !strlen_app, local_header_strlen.
      apply offset_after_entry. }
    assert (Hcount1 : 0 <= IttyZip.num_files z1 < 65536).
    { rewrite Hnum. unfold u16. apply Z.mod_pos_bound. reflexivity. }
    destruct (IH z1 z' Hready1 Hsorted1 Hcount1 Hoff1' Hrest Hgood)
      as (Hb & Hn & Hd & Hc & Ho & Hr & Hs & Hnd & Hfresh & Hin).
    cbn [local_part directory_part List.length map].
    split; [rewrite Hb, Hbytes, !string_append_assoc; reflexivity|].
    split; [congruence|].
    split.
    { rewrite Hd, Hdir, Hbytes, Hoff, !string_append_assoc. reflexivity. }
    split.
    { rewrite Hc, Hnum, u16_add_l. f_equal. lia. }
    split; [exact Ho|]. split; [exact Hr|]. split; [exact Hs|].
    pose proof (names_insert_true _ _ Hsorted Hins) as Hnew.
    pose proof (fun y => names_insert_In (stored_name (fst e)) y _ Hins) as Hiff.
    rewrite <- Hnames in Hiff.
    split; [|split].
    + constructor; [|exact Hnd]. intros Hdup. apply in_map_iff in Hdup as (e' & He' & Hine').
      apply (Hfresh e' Hine'). rewrite He'. apply Hiff. now left.
    + intros e' [<-|Hine']; [exact Hnew|].
      intros Hold. apply (Hfresh e' Hine'). apply Hiff. now right.
    + intros n. rewrite Hin, Hiff. cbn. intuition congruence.
Qed.

(** ** IttyZip: the states of an archive *)

(** The calls a user of the class can make. *)
Inductive archive_call : Type :=
| call_open (outputFilename : string)
| call_addFile (filename contents : string)
| call_finalize.

Definition run_archive_call (P : platform) (c : archive_call) : M IttyZip.IttyZip unit :=
  match c with
  | call_open outputFilename => IttyZip.open P outputFilename
  | call_addFile filename contents => IttyZip.addFile P filename contents
  | call_finalize => IttyZip.finalize P
  end.

(** The archive after a list of calls, whatever each call returned or threw. *)
Definition run_archive_calls (P : platform) (calls : list archive_call)
    (z : IttyZip.IttyZip) : IttyZip.IttyZip :=
  fold_left (fun z c => snd (run_archive_call P c z)) calls z.

(** The states an archive object can be in: built by one of the two
    constructors, then any calls. *)
Inductive archive_reachable (P : platform) : IttyZip.IttyZip -> Prop :=
| archive_default : archive_reachable P IttyZip.IttyZip_default
| archive_constructed outputFilename z :
    IttyZip.IttyZip_with_file P outputFilename = (Ok tt, z) -> archive_reachable P z
| archive_called c z :
    archive_reachable P z -> archive_reachable P (snd (run_archive_call P c z)).

Record archive_wf (z : IttyZip.IttyZip) : Prop := {
  awf_open : is_open (IttyZip.out_file z) = IttyZip.opened z;
  awf_sorted : names_sorted z;
  awf_count : 0 <= IttyZip.num_files z < 65536;
  awf_closed : IttyZip.opened z = false ->
               IttyZip.num_files z = 0 /\ IttyZip.next_offset z = 0
               /\ IttyZip.central_directory z = "";
  awf_offset : IttyZip.opened z = true -> fail (IttyZip.out_file z) = false ->
               IttyZip.next_offset z = u32 (strlen (file_bytes (IttyZip.out_file z)))
}.

(** A call on an archive that is not ready throws and changes nothing,
    except [open]. *)
Lemma addFile_not_ready (P : platform) (name contents : string) (z : IttyZip.IttyZip) :
  ~ ready z -> exists e, IttyZip.addFile P name contents z = (Throw e, z)
                         /\ e <> std_exception IttyZip.DUPLICATE_FILE_MESG.
Proof.
  intros Hnot. unfold IttyZip.addFile, bind at 1, IttyZip.check_output.
  destruct (IttyZip.opened z) eqn:E1; cbn [negb];
    [| eexists; split; [reflexivity | discriminate]].
  destruct (is_open (IttyZip.out_file z)) eqn:E2; cbn [negb];
    [| eexists; split; [reflexivity | discriminate]].
  destruct (fail (IttyZip.out_file z)) eqn:E3;
    [eexists; split; [reflexivity | discriminate]|].
  exfalso. apply Hnot. now repeat split.
Qed.

Lemma finalize_not_ready (P : platform) (z : IttyZip.IttyZip) :
  ~ ready z -> exists e, IttyZip.finalize P z = (Throw e, z).
Proof.
  intros Hnot. unfold IttyZip.finalize.
  destruct (_ || _ || _)%bool; [eauto|].
  unfold bind at 1, IttyZip.check_output.
  destruct (IttyZip.opened z) eqn:E1; cbn [negb]; [|eauto].
  destruct (is_open (IttyZip.out_file z)) eqn:E2; cbn [negb]; [|eauto].
  destruct (fail (IttyZip.out_file z)) eqn:E3; [eauto|].
  exfalso. apply Hnot. now repeat split.
Qed.

Lemma ready_dec (z : IttyZip.IttyZip) : ready z \/ ~ ready z.
Proof.
  unfold ready.
  destruct (IttyZip.opened z), (is_open (IttyZip.out_file z)), (fail (IttyZip.out_file z));
    intuition congruence.
Qed.

Lemma open_run (P : platform) (outputFilename : string) (z : IttyZip.IttyZip) :
  is_open (IttyZip.out_file z) = IttyZip.opened z ->
  IttyZip.open P outputFilename z =
  if IttyZip.opened z then (Throw (std_exception IttyZip.DOUBLE_OPEN_MESG), z)
  else if can_open P outputFilename
  then (Ok tt,
        {| IttyZip.num_files := 0;
           IttyZip.out_file := {| is_open := true; fail := false;
                                  file_name := outputFilename; file_bytes := "" |};
           IttyZip.opened := true; IttyZip.next_offset := 0;
           IttyZip.central_directory := ""; IttyZip.filenames := IttyZip.filenames z |})
  else (Throw (std_exception IttyZip.CANNOT_OPEN_MESG),
        {| IttyZip.num_files := 0;
           IttyZip.out_file := set_failbit (IttyZip.out_file z);
           IttyZip.opened := false; IttyZip.next_offset := 0;
           IttyZip.central_directory := ""; IttyZip.filenames := IttyZip.filenames z |}).
Proof.
  intros Hopen. unfold IttyZip.open, ofstream_open. rewrite Hopen.
  destruct (IttyZip.opened z) eqn:Eop; cbn [orb]; [reflexivity|].
  destruct (can_open P outputFilename); [reflexivity|].
  cbn [is_open set_failbit]. rewrite Hopen. reflexivity.
Qed.

Ltac archive_wf_fields :=
  split; unfold names_sorted; cbn;
  try reflexivity; try lia; try discriminate; try (now constructor); auto.

Lemma archive_wf_default : archive_wf IttyZip.IttyZip_default.
Proof. archive_wf_fields. Qed.

Lemma archive_wf_constructed (P : platform) (outputFilename : string) (z : IttyZip.IttyZip) :
  IttyZip.IttyZip_with_file P outputFilename = (Ok tt, z) -> archive_wf z.
Proof.
  unfold IttyZip.IttyZip_with_file, ofstream_open. cbn [is_open ofstream_default].
  destruct (can_open P outputFilename); cbn; [|discriminate].
  intros [= <-]. archive_wf_fields.
Qed.

Lemma archive_wf_open (P : platform) (outputFilename : string) (z : IttyZip.IttyZip) :
  archive_wf z -> archive_wf (snd (IttyZip.open P outputFilename z)).
Proof.
  intros Hwf. rewrite (open_run P outputFilename z (awf_open z Hwf)).
  destruct (IttyZip.opened z) eqn:Eop; [exact Hwf|].
  destruct (can_open P outputFilename); cbn [snd].
  - archive_wf_fields. exact (awf_sorted z Hwf).
  - archive_wf_fields; [| exact (awf_sorted z Hwf)].
    rewrite (awf_open z Hwf). exact Eop.
Qed.

Lemma archive_wf_addFile (P : platform) (name contents : string) (z : IttyZip.IttyZip) :
  archive_wf z -> archive_wf (snd (IttyZip.addFile P name contents z)).
Proof.
  intros Hwf. destruct (ready_dec z) as [Hready|Hnot].
  2:{ destruct (addFile_not_ready P name contents z Hnot) as (e & -> & _). exact Hwf. }
  destruct (IttyZip.addFile P name contents z) as [[[]|e] z1] eqn:Hrun.
  2:{ rewrite (addFile_run P name contents z Hready) in Hrun.
      destruct (snd (set_insert _ _ _)); [discriminate|].
      pose proof (f_equal snd Hrun) as Hz. cbn [snd] in Hz. now subst z1. }
  cbn [snd].
  destruct (addFile_Ok_fields P name contents z z1 Hready Hrun)
    as (Hins & Hnum & Hout & Hopened & Hoff & Hdir & Hnames).
  split.
  - rewrite Hout, ofstream_write_is_open, writes_is_open, Hopened. apply Hready.
  - unfold names_sorted. rewrite Hnames. apply names_insert_sorted, (awf_sorted z Hwf).
  - rewrite Hnum. unfold u16. apply Z.mod_pos_bound. reflexivity.
  - rewrite Hopened. discriminate.
  - intros _ Hgood.
    destruct (addFile_good P name contents z z1 Hready Hrun Hgood) as (_ & Hbytes & _).
    rewrite Hoff, Hbytes, (awf_offset z Hwf), !strlen_app, local_header_strlen;
      try apply Hready.
    apply offset_after_entry.
Qed.

Lemma ofstream_close_is_open (f : ofstream) : is_open (ofstream_close f) = false.
Proof. unfold ofstream_close. destruct (is_open f) eqn:E; cbn; [reflexivity | exact E]. Qed.

Lemma archive_wf_finalize (P : platform) (z : IttyZip.IttyZip) :
  archive_wf z -> archive_wf (snd (IttyZip.finalize P z)).
Proof.
  intros Hwf. destruct (ready_dec z) as [Hready|Hnot].
  2:{ destruct (finalize_not_ready P z Hnot) as (e & ->). exact Hwf. }
  rewrite (finalize_run P z Hready).
  destruct (_ || _ || _)%bool; [exact Hwf|]. cbv zeta.
  destruct (fail (ofstream_write P (IttyZip.central_directory z) (IttyZip.out_file z)))
    eqn:Ef; cbn [snd].
  - split; unfold names_sorted, IttyZip.with_out_file; cbn.
    + rewrite ofstream_write_is_open. apply Hwf.
    + apply Hwf.
    + apply Hwf.
    + apply Hwf.
    + intros _ Hgood. congruence.
  - split; unfold names_sorted; cbn; try lia; try discriminate.
    + apply ofstream_close_is_open.
    + apply Hwf.
    + auto.
Qed.

Lemma archive_wf_call (P : platform) (c : archive_call) (z : IttyZip.IttyZip) :
  archive_wf z -> archive_wf (snd (run_archive_call P c z)).
Proof.
  destruct c as [f | name contents |]; cbn [run_archive_call].
  - apply archive_wf_open.
  - apply archive_wf_addFile.
  - apply archive_wf_finalize.
Qed.

Lemma archive_reachable_wf (P : platform) (z : IttyZip.IttyZip) :
  archive_reachable P z -> archive_wf z.
Proof.
  induction 1 as [| f z Hctor | c z _ IH].
  - exact archive_wf_default.
  - exact (archive_wf_constructed P f z Hctor).
  - exact (archive_wf_call P c z IH).
Qed.

(** ** IttyZip: the archive that the calls produce *)

(** An archive just opened, by the opening constructor or by [open]. *)
Definition freshly_opened (P : platform) (z : IttyZip.IttyZip) : Prop :=
  (exists outputFilename, IttyZip.IttyZip_with_file P outputFilename = (Ok tt, z))
  \/ (exists outputFilename z0,
        archive_reachable P z0 /\ IttyZip.open P outputFilename z0 = (Ok tt, z)).

Lemma freshly_opened_reachable (P : platform) (z : IttyZip.IttyZip) :
  freshly_opened P z -> archive_reachable P z.
Proof.
  intros [(f & Hctor) | (f & z0 & Hz0 & Hopen)].
  - exact (archive_constructed P f z Hctor).
  - replace z with (snd (run_archive_call P (call_open f) z0))
      by (cbn [run_archive_call]; now rewrite Hopen).
    now apply archive_called.
Qed.

Lemma freshly_opened_fresh (P : platform) (z : IttyZip.IttyZip) :
  freshly_opened P z ->
  ready z /\ IttyZip.num_files z = 0 /\ IttyZip.next_offset z = 0
  /\ IttyZip.central_directory z = "" /\ file_bytes (IttyZip.out_file z) = "".
Proof.
  intros [(f & Hctor) | (f & z0 & Hz0 & Hopen)].
  - unfold IttyZip.IttyZip_with_file, ofstream_open in Hctor.
    cbn [is_open ofstream_default] in Hctor.
    destruct (can_open P f); cbn in Hctor; [|discriminate].
    injection Hctor as <-. unfold ready. cbn. tauto.
  - rewrite (open_run P f z0 (awf_open z0 (archive_reachable_wf P z0 Hz0))) in Hopen.
    destruct (IttyZip.opened z0); [discriminate|].
    destruct (can_open P f); [|discriminate].
    injection Hopen as <-. unfold ready. cbn. tauto.
Qed.

Lemma local_part_strlen_pos (P : platform) (entries : list (string * string)) :
  entries <> [] -> 30 <= strlen (local_part P entries).
Proof.
  destruct entries as [|e rest]; [congruence | intros _].
  cbn [local_part]. rewrite !strlen_app, local_header_strlen.
  pose proof (u16_le (strlen (fst e)) ltac:(unfold strlen; lia)).
  unfold strlen in *. lia.
Qed.

Lemma directory_part_strlen_pos (P : platform) (before : string)
    (entries : list (string * string)) :
  entries <> [] -> 46 <= strlen (directory_part P before entries).
Proof.
  destruct entries as [|e rest]; [congruence | intros _].
  cbn [directory_part]. rewrite !strlen_app, directory_entry_strlen.
  pose proof (u16_le (strlen (fst e)) ltac:(unfold strlen; lia)).
  unfold strlen in *. lia.
Qed.

Lemma add_files_from_fresh (P : platform) (entries : list (string * string))
    (z z' : IttyZip.IttyZip) :
  freshly_opened P z ->
  add_files P entries z = (Ok tt, z') ->
  fail (IttyZip.out_file z') = false ->
  file_bytes (IttyZip.out_file z') = local_part P entries
  /\ IttyZip.central_directory z' = directory_part P "" entries
  /\ IttyZip.num_files z' = u16 (Z.of_nat (List.length entries))
  /\ IttyZip.next_offset z' = u32 (strlen (local_part P entries))
  /\ NoDup (map (fun e => stored_name (fst e)) entries)
  /\ ready z'.
Proof.
  intros Hfresh Hrun Hgood.
  pose proof (archive_reachable_wf P z (freshly_opened_reachable P z Hfresh)) as Hwf.
  destruct (freshly_opened_fresh P z Hfresh) as (Hready & Hnum & Hoff & Hdir & Hbytes).
  destruct (add_files_layout P entries z z' Hready (awf_sorted z Hwf) (awf_count z Hwf)
              ltac:(now rewrite Hoff, Hbytes) Hrun Hgood)
    as (Hb & _ & Hd & Hc & Ho & Hr & _ & Hnd & _).
  rewrite Hbytes in Hb, Hd. rewrite Hdir in Hd. rewrite Hnum in Hc. cbn [append] in Hb, Hd.
  rewrite Hb in Ho.
  split; [exact Hb|]. split; [exact Hd|]. split; [exact Hc|]. split; [exact Ho|].
  split; [exact Hnd | exact Hr].
Qed.

(** X17. After a successful open and a run of addFile calls that all
    return, with the stream still good, the file holds, entry after entry, a
    local header of 30 bytes plus the stored name and then the contents; the
    central directory holds one record of 46 bytes plus the stored name per
    entry, each with the position of its local header in the file (modulo
    2^32); the entry count and the next offset agree with the file (modulo
    2^16 and 2^32); and the stored names are pairwise different. *)
Theorem archive_layout (P : platform) (entries : list (string * string))
    (z z' : IttyZip.IttyZip) :
  freshly_opened P z ->
  add_files P entries z = (Ok tt, z') ->
  fail (IttyZip.out_file z') = false ->
  file_bytes (IttyZip.out_file z') = local_part P entries
  /\ IttyZip.central_directory z' = directory_part P "" entries
  /\ IttyZip.num_files z' = u16 (Z.of_nat (List.length entries))
  /\ IttyZip.next_offset z' = u32 (strlen (local_part P entries))
  /\ NoDup (map (fun e => stored_name (fst e)) entries)
  /\ (forall name contents offset,
        strlen (local_header P name contents) = 30 + strlen (stored_name name)
        /\ strlen (directory_entry P name contents offset) = 46 + strlen (stored_name name)).
Proof.
  intros Hfresh Hrun Hgood.
  destruct (add_files_from_fresh P entries z z' Hfresh Hrun Hgood)
    as (Hb & Hd & Hc & Ho & Hnd & _).
  split; [exact Hb|]. split; [exact Hd|]. split; [exact Hc|]. split; [exact Ho|].
  split; [exact Hnd|].
  intros name contents offset.
  now rewrite local_header_strlen, directory_entry_strlen, stored_name_strlen.
Qed.

Definition example_entries : list (string * string) :=
  [ ("a.txt", "hello"); ("dir/b.txt", "") ].

Definition example_archive_open : IttyZip.IttyZip :=
  snd (IttyZip.open example_platform "out.zip" IttyZip.IttyZip_default).

Definition example_archive : IttyZip.IttyZip :=
  snd (add_files example_platform example_entries example_archive_open).

Lemma example_archive_open_fresh : freshly_opened example_platform example_archive_open.
Proof.
  right. exists "out.zip", IttyZip.IttyZip_default. split; [constructor | reflexivity].
Qed.

Lemma archive_layout_witness :
  file_bytes (IttyZip.out_file example_archive) = local_part example_platform example_entries
  /\ IttyZip.central_directory example_archive
     = directory_part example_platform "" example_entries
  /\ IttyZip.num_files example_archive = u16 (Z.of_nat (List.length example_entries))
  /\ IttyZip.next_offset example_archive
     = u32 (strlen (local_part example_platform example_entries))
  /\ NoDup (map (fun e => stored_name (fst e)) example_entries)
  /\ (forall name contents offset,
        strlen (local_header example_platform name contents) = 30 + strlen (stored_name name)
        /\ strlen (directory_entry example_platform name contents offset)
           = 46 + strlen (stored_name name)).
Proof.
  apply (archive_layout example_platform example_entries example_archive_open example_archive).
  - exact example_archive_open_fresh.
  - vm_compute. reflexivity.
  - vm_compute. reflexivity.
Defined.

Lemma u16_small (z : Z) : 0 <= z < 65536 -> u16 z = z.
Proof. intros H. unfold u16. apply Z.mod_small. exact H. Qed.

Lemma ofstream_close_good (f : ofstream) :
  is_open f = true ->
  fail (ofstream_close f) = fail f /\ file_bytes (ofstream_close f) = file_bytes f
  /\ file_name (ofstream_close f) = file_name f.
Proof. intros H. unfold ofstream_close. rewrite H. cbn. auto. Qed.

Lemma finalize_after_adds (P : platform) (entries : list (string * string))
    (z z1 : IttyZip.IttyZip) :
  freshly_opened P z ->
  add_files P entries z = (Ok tt, z1) ->
  fail (IttyZip.out_file z1) = false ->
  0 < Z.of_nat (List.length entries) < 65536 ->
  strlen (local_part P entries) < 4294967296 ->
  exists z2,
    IttyZip.finalize P z1
    = (if fail (ofstream_write P (IttyZip.central_directory z1) (IttyZip.out_file z1))
       then Throw (std_exception IttyZip.OUTPUT_FAIL_MESG) else Ok tt, z2)
    /\ IttyZip.filenames z2 = IttyZip.filenames z1
    /\ (fail (IttyZip.out_file z2) = false ->
        file_bytes (IttyZip.out_file z2)
        = local_part P entries ++ directory_part P "" entries
          ++ end_record (Z.of_nat (List.length entries))
               (u32 (strlen (directory_part P "" entries)))
               (strlen (local_part P entries))
        /\ is_open (IttyZip.out_file z2) = false
        /\ IttyZip.opened z2 = false
        /\ IttyZip.num_files z2 = 0
        /\ IttyZip.next_offset z2 = 0
        /\ IttyZip.central_directory z2 = "").
Proof.
  intros Hfresh Hrun Hgood Hlen Hsize.
  destruct (add_files_from_fresh P entries z z1 Hfresh Hrun Hgood)
    as (Hb & Hd & Hc & Ho & _ & Hready).
  assert (Hne : entries <> []) by (intros ->; cbn in Hlen; lia).
  pose proof (local_part_strlen_pos P entries Hne) as Hlocal.
  pose proof (directory_part_strlen_pos P "" entries Hne) as Hdirlen.
  rewrite u16_small in Hc by lia. rewrite u32_small in Ho by lia.
  rewrite (finalize_run P z1 Hready).
  replace ((IttyZip.num_files z1 =? 0) || (IttyZip.next_offset z1 =? 0)
           || (strlen (IttyZip.central_directory z1) =? 0))%bool with false.
  2:{ symmetry. rewrite !orb_false_iff, !Z.eqb_neq, Hc, Ho, Hd. lia. }
  cbv zeta.
  destruct (fail (ofstream_write P (IttyZip.central_directory z1) (IttyZip.out_file z1)))
    eqn:Ef.
  - eexists. split; [reflexivity|]. split; [reflexivity|].
    unfold IttyZip.with_out_file. cbn [IttyZip.out_file]. congruence.
  - eexists. split; [reflexivity|]. split; [reflexivity|].
    cbn [IttyZip.out_file IttyZip.opened IttyZip.num_files IttyZip.next_offset
         IttyZip.central_directory].
    intros Hgood2.
    destruct Hready as (_ & Hopen & _).
    assert (Hopen1 : is_open (ofstream_write P (IttyZip.central_directory z1)
                                (IttyZip.out_file z1)) = true)
      by now rewrite ofstream_write_is_open.
    match type of Hgood2 with
    | fail (ofstream_close ?f) = false =>
        assert (Hopen2 : is_open f = true) by (now rewrite writes_is_open);
        destruct (ofstream_close_good f Hopen2) as (Hcf & Hcb & _)
    end.
    rewrite Hcf in Hgood2. rewrite Hcb.
    destruct (writes_good P _ _ Hopen1 Hgood2) as (_ & Hwb & _). rewrite Hwb.
    destruct (ofstream_write_good P _ _ Hopen Ef) as (_ & Hwb1 & _). rewrite Hwb1.
    rewrite concat_end_record_chunks, Hb, Hd, Hc, Ho, string_append_assoc.
    split; [reflexivity|]. split; [apply ofstream_close_is_open|]. auto.
Qed.

Lemma addFile_closed (P : platform) (name contents : string) (z : IttyZip.IttyZip) :
  IttyZip.opened z = false ->
  IttyZip.addFile P name contents z = (Throw (std_exception IttyZip.NOT_OPENED_MESG), z).
Proof.
  intros H. unfold IttyZip.addFile, bind at 1, IttyZip.check_output. now rewrite H.
Qed.

Lemma finalize_no_entries (P : platform) (z : IttyZip.IttyZip) :
  IttyZip.num_files z = 0 ->
  IttyZip.finalize P z = (Throw (std_exception IttyZip.EMPTY_FINALIZE_MESG), z).
Proof. intros H. unfold IttyZip.finalize. now rewrite H. Qed.

(** X18. finalize after a run of addFile calls (at least one entry, fewer
    than 65536, less than 4 GiB of entries): it throws the output-failure
    error exactly when writing the central directory fails, and returns
    otherwise, also when writing the end record fails. When the stream is
    good afterwards the file is the entries, then the central directory,
    then the 22-byte end record with the entry count, the size of the
    directory and its position; the file is closed and the archive is reset,
    so that addFile then throws the not-opened error and finalize the
    empty-archive error. The set of names is kept. *)
Theorem finalize_completes_archive (P : platform) (entries : list (string * string))
    (z z1 : IttyZip.IttyZip) :
  freshly_opened P z ->
  add_files P entries z = (Ok tt, z1) ->
  fail (IttyZip.out_file z1) = false ->
  0 < Z.of_nat (List.length entries) < 65536 ->
  strlen (local_part P entries) < 4294967296 ->
  exists z2,
    IttyZip.finalize P z1
    = (if fail (ofstream_write P (IttyZip.central_directory z1) (IttyZip.out_file z1))
       then Throw (std_exception IttyZip.OUTPUT_FAIL_MESG) else Ok tt, z2)
    /\ IttyZip.filenames z2 = IttyZip.filenames z1
    /\ (fail (IttyZip.out_file z2) = false ->
        file_bytes (IttyZip.out_file z2)
        = local_part P entries ++ directory_part P "" entries
          ++ end_record (Z.of_nat (List.length entries))
               (u32 (strlen (directory_part P "" entries)))
               (strlen (local_part P entries))
        /\ strlen (end_record (Z.of_nat (List.length entries))
                     (u32 (strlen (directory_part P "" entries)))
                     (strlen (local_part P entries))) = 22
        /\ is_open (IttyZip.out_file z2) = false
        /\ IttyZip.opened z2 = false
        /\ IttyZip.num_files z2 = 0
        /\ IttyZip.next_offset z2 = 0
        /\ IttyZip.central_directory z2 = ""
        /\ (forall name contents,
              IttyZip.addFile P name contents z2
              = (Throw (std_exception IttyZip.NOT_OPENED_MESG), z2))
        /\ IttyZip.finalize P z2
           = (Throw (std_exception IttyZip.EMPTY_FINALIZE_MESG), z2)).
Proof.
  intros Hfresh Hrun Hgood Hlen Hsize.
  destruct (finalize_after_adds P entries z z1 Hfresh Hrun Hgood Hlen Hsize)
    as (z2 & Hfin & Hnames & Hrest).
  exists z2. split; [exact Hfin|]. split; [exact Hnames|].
  intros Hgood2. destruct (Hrest Hgood2) as (Hb & Hio & Hop & Hn & Ho & Hd).
  split; [exact Hb|]. split; [apply end_record_strlen|].
  split; [exact Hio|]. split; [exact Hop|]. split; [exact Hn|]. split; [exact Ho|].
  split; [exact Hd|]. split.
  - intros name contents. now apply addFile_closed.
  - now apply finalize_no_entries.
Qed.

Lemma finalize_completes_archive_witness :
  exists z2,
    IttyZip.finalize example_platform example_archive
    = (if fail (ofstream_write example_platform (IttyZip.central_directory example_archive)
                  (IttyZip.out_file example_archive))
       then Throw (std_exception IttyZip.OUTPUT_FAIL_MESG) else Ok tt, z2)
    /\ IttyZip.filenames z2 = IttyZip.filenames example_archive
    /\ (fail (IttyZip.out_file z2) = false ->
        file_bytes (IttyZip.out_file z2)
        = local_part example_platform example_entries
          ++ directory_part example_platform "" example_entries
          ++ end_record (Z.of_nat (List.length example_entries))
               (u32 (strlen (directory_part example_platform "" example_entries)))
               (strlen (local_part example_platform example_entries))
        /\ strlen (end_record (Z.of_nat (List.length example_entries))
                     (u32 (strlen (directory_part example_platform "" example_entries)))
                     (strlen (local_part example_platform example_entries))) = 22
        /\ is_open (IttyZip.out_file z2) = false
        /\ IttyZip.opened z2 = false
        /\ IttyZip.num_files z2 = 0
        /\ IttyZip.next_offset z2 = 0
        /\ IttyZip.central_directory z2 = ""
        /\ (forall name contents,
              IttyZip.addFile example_platform name contents z2
              = (Throw (std_exception IttyZip.NOT_OPENED_MESG), z2))
        /\ IttyZip.finalize example_platform z2
           = (Throw (std_exception IttyZip.EMPTY_FINALIZE_MESG), z2)).
Proof.
  apply (finalize_completes_archive example_platform example_entries example_archive_open
           example_archive).
  - exact example_archive_open_fresh.
  - vm_compute. reflexivity.
  - vm_compute. reflexivity.
  - cbn. lia.
  - vm_compute. reflexivity.
Defined.

(** The bytes of the example archive once finalized: 207 of them, ending
    with the end record that counts two entries. *)
Example example_archive_finalized :
  let z2 := snd (IttyZip.finalize example_platform example_archive) in
  fst (IttyZip.finalize example_platform example_archive) = Ok tt
  /\ fail (IttyZip.out_file z2) = false
  /\ strlen (file_bytes (IttyZip.out_file z2)) = 30 + 5 + 5 + 30 + 9 + 46 + 5 + 46 + 9 + 22.
Proof. vm_compute. repeat split; reflexivity. Qed.

(** *** Names stay taken *)

Lemma open_keeps_names (P : platform) (outputFilename : string) (z : IttyZip.IttyZip) :
  IttyZip.filenames (snd (IttyZip.open P outputFilename z)) = IttyZip.filenames z.
Proof.
  unfold IttyZip.open. destruct (_ || _)%bool; [reflexivity|].
  cbv zeta. destruct (negb _); reflexivity.
Qed.

Lemma finalize_keeps_names (P : platform) (z : IttyZip.IttyZip) :
  IttyZip.filenames (snd (IttyZip.finalize P z)) = IttyZip.filenames z.
Proof.
  destruct (ready_dec z) as [Hready|Hnot].
  2:{ now destruct (finalize_not_ready P z Hnot) as (e & ->). }
  rewrite (finalize_run P z Hready).
  destruct (_ || _ || _)%bool; [reflexivity|]. cbv zeta.
  destruct (fail _); reflexivity.
Qed.

Lemma addFile_keeps_names (P : platform) (name contents n : string) (z : IttyZip.IttyZip) :
  In n (IttyZip.filenames z) ->
  In n (IttyZip.filenames (snd (IttyZip.addFile P name contents z))).
Proof.
  intros Hin. destruct (ready_dec z) as [Hready|Hnot].
  2:{ now destruct (addFile_not_ready P name contents z Hnot) as (e & -> & _). }
  rewrite (addFile_run P name contents z Hready).
  destruct (snd (set_insert _ _ _)); cbn [snd IttyZip.filenames]; [|exact Hin].
  now apply set_insert_keeps.
Qed.

Lemma call_keeps_names (P : platform) (c : archive_call) (n : string) (z : IttyZip.IttyZip) :
  In n (IttyZip.filenames z) ->
  In n (IttyZip.filenames (snd (run_archive_call P c z))).
Proof.
  destruct c as [f | name contents |]; cbn [run_archive_call]; intros Hin.
  - now rewrite open_keeps_names.
  - now apply addFile_keeps_names.
  - now rewrite finalize_keeps_names.
Qed.

Lemma calls_keep_names (P : platform) (calls : list archive_call) (n : string)
    (z : IttyZip.IttyZip) :
  In n (IttyZip.filenames z) -> In n (IttyZip.filenames (run_archive_calls P calls z)).
Proof.
  revert z. induction calls as [|c calls IH]; intros z Hin; [exact Hin|].
  cbn [run_archive_calls fold_left]. apply IH. now apply call_keeps_names.
Qed.

Lemma calls_reachable (P : platform) (calls : list archive_call) (z : IttyZip.IttyZip) :
  archive_reachable P z -> archive_reachable P (run_archive_calls P calls z).
Proof.
  revert z. induction calls as [|c calls IH]; intros z Hz; [exact Hz|].
  cbn [run_archive_calls fold_left]. apply IH. now apply archive_called.
Qed.

Lemma addFile_Ok_ready (P : platform) (name contents : string) (z z1 : IttyZip.IttyZip) :
  IttyZip.addFile P name contents z = (Ok tt, z1) -> ready z.
Proof.
  intros Hrun. destruct (ready_dec z) as [Hready|Hnot]; [exact Hready|].
  destruct (addFile_not_ready P name contents z Hnot) as (e & He & _). congruence.
Qed.

Lemma addFile_taken (P : platform) (name contents : string) (z : IttyZip.IttyZip) :
  names_sorted z -> In (stored_name name) (IttyZip.filenames z) ->
  exists e, IttyZip.addFile P name contents z = (Throw e, z)
            /\ (ready z -> e = std_exception IttyZip.DUPLICATE_FILE_MESG).
Proof.
  intros Hsorted Hin. destruct (ready_dec z) as [Hready|Hnot].
  - rewrite (addFile_run P name contents z Hready).
    rewrite (set_insert_present String.ltb string_ltb_irrefl string_ltb_trans
               string_ltb_cotrans (stored_name name) (stored_name name) _ Hsorted Hin)
      by now apply string_equiv_eq.
    cbn [snd]. eauto.
  - destruct (addFile_not_ready P name contents z Hnot) as (e & He & _).
    exists e. split; [exact He | intros Hready; contradiction].
Qed.

(** X19. A name that addFile has accepted stays taken for the life of the
    archive object: after any further calls of open, addFile and finalize,
    addFile with a name that is stored the same way throws and changes
    nothing, with the duplicate-name error whenever the archive is open and
    its stream good. Neither finalize nor open forgets the names. *)
Theorem file_name_stays_taken (P : platform) (name name' contents contents' : string)
    (calls : list archive_call) (z z1 : IttyZip.IttyZip) :
  archive_reachable P z ->
  IttyZip.addFile P name contents z = (Ok tt, z1) ->
  stored_name name' = stored_name name ->
  exists e,
    IttyZip.addFile P name' contents' (run_archive_calls P calls z1)
    = (Throw e, run_archive_calls P calls z1)
    /\ (ready (run_archive_calls P calls z1) ->
        e = std_exception IttyZip.DUPLICATE_FILE_MESG).
Proof.
  intros Hz Hadd Hsame.
  pose proof (addFile_Ok_ready P name contents z z1 Hadd) as Hready.
  destruct (addFile_Ok_fields P name contents z z1 Hready Hadd)
    as (Hins & _ & _ & _ & _ & _ & Hnames).
  assert (Hz1 : archive_reachable P z1).
  { replace z1 with (snd (run_archive_call P (call_addFile name contents) z))
      by (cbn [run_archive_call]; now rewrite Hadd).
    now apply archive_called. }
  assert (Hin : In (stored_name name) (IttyZip.filenames z1)).
  { rewrite Hnames. now apply set_insert_true_In. }
  apply addFile_taken.
  - apply archive_reachable_wf with (P := P). now apply calls_reachable.
  - rewrite Hsame. now apply calls_keep_names.
Qed.

Lemma file_name_stays_taken_witness :
  exists e,
    IttyZip.addFile example_platform "a.txt" "again"
      (run_archive_calls example_platform [call_finalize; call_open "second.zip"]
         (snd (IttyZip.addFile example_platform "a.txt" "hello" example_archive_open)))
    = (Throw e,
       run_archive_calls example_platform [call_finalize; call_open "second.zip"]
         (snd (IttyZip.addFile example_platform "a.txt" "hello" example_archive_open)))
    /\ (ready (run_archive_calls example_platform [call_finalize; call_open "second.zip"]
                 (snd (IttyZip.addFile example_platform "a.txt" "hello"
                         example_archive_open))) ->
        e = std_exception IttyZip.DUPLICATE_FILE_MESG).
Proof.
  apply (file_name_stays_taken example_platform "a.txt" "a.txt" "hello" "again"
           [call_finalize; call_open "second.zip"] example_archive_open).
  - apply freshly_opened_reachable. exact example_archive_open_fresh.
  - vm_compute. reflexivity.
  - reflexivity.
Defined.

(** In the second archive of the example the name of the first is refused. *)
Example second_archive_refuses_name :
  let z := run_archive_calls example_platform [call_finalize; call_open "second.zip"]
             (snd (IttyZip.addFile example_platform "a.txt" "hello" example_archive_open)) in
  ready z /\ file_name (IttyZip.out_file z) = "second.zip"
  /\ fst (IttyZip.addFile example_platform "a.txt" "again" z)
     = Throw (std_exception IttyZip.DUPLICATE_FILE_MESG).
Proof. vm_compute. repeat split; reflexivity. Qed.

(** *** A failed write *)

Lemma open_opened (P : platform) (outputFilename : string) (z : IttyZip.IttyZip) :
  IttyZip.opened z = true ->
  IttyZip.open P outputFilename z = (Throw (std_exception IttyZip.DOUBLE_OPEN_MESG), z).
Proof. intros H. unfold IttyZip.open. now rewrite H. Qed.

Lemma addFile_failed_stream (P : platform) (name contents : string) (z : IttyZip.IttyZip) :
  IttyZip.opened z = true -> is_open (IttyZip.out_file z) = true ->
  fail (IttyZip.out_file z) = true ->
  IttyZip.addFile P name contents z = (Throw (std_exception IttyZip.OUTPUT_FAIL_MESG), z).
Proof. intros H1 H2 H3. unfold IttyZip.addFile. now apply bind_check_output_failed. Qed.

Lemma finalize_failed_stream (P : platform) (z : IttyZip.IttyZip) :
  IttyZip.opened z = true -> is_open (IttyZip.out_file z) = true ->
  fail (IttyZip.out_file z) = true ->
  IttyZip.finalize P z
  = (Throw (std_exception (if (IttyZip.num_files z =? 0) || (IttyZip.next_offset z =? 0)
                              || (strlen (IttyZip.central_directory z) =? 0)
                           then IttyZip.EMPTY_FINALIZE_MESG
                           else IttyZip.OUTPUT_FAIL_MESG)), z).
Proof.
  intros H1 H2 H3. unfold IttyZip.finalize.
  destruct (_ || _ || _)%bool; [reflexivity|]. now apply bind_check_output_failed.
Qed.

(** X20. addFile does not report a failure of its own writes: it returns
    although the stream failed, and the entry is counted and its name taken.
    From then on the archive object is stuck: open throws the double-open
    error, addFile the output-failure error, finalize the empty-archive or
    the output-failure error, and none of them changes anything. *)
Theorem write_failure_is_silent (P : platform) (name contents : string)
    (z z1 : IttyZip.IttyZip) :
  IttyZip.addFile P name contents z = (Ok tt, z1) ->
  fail (IttyZip.out_file z1) = true ->
  IttyZip.num_files z1 = u16 (IttyZip.num_files z + 1)
  /\ In (stored_name name) (IttyZip.filenames z1)
  /\ (forall outputFilename,
        IttyZip.open P outputFilename z1
        = (Throw (std_exception IttyZip.DOUBLE_OPEN_MESG), z1))
  /\ (forall name' contents',
        IttyZip.addFile P name' contents' z1
        = (Throw (std_exception IttyZip.OUTPUT_FAIL_MESG), z1))
  /\ (IttyZip.finalize P z1 = (Throw (std_exception IttyZip.EMPTY_FINALIZE_MESG), z1)
      \/ IttyZip.finalize P z1 = (Throw (std_exception IttyZip.OUTPUT_FAIL_MESG), z1))
  /\ (forall calls, run_archive_calls P calls z1 = z1).
Proof.
  intros Hadd Hfail.
  pose proof (addFile_Ok_ready P name contents z z1 Hadd) as Hready.
  destruct (addFile_Ok_fields P name contents z z1 Hready Hadd)
    as (Hins & Hnum & Hout & Hopened & _ & _ & Hnames).
  assert (Hopen : is_open (IttyZip.out_file z1) = true).
  { rewrite Hout, ofstream_write_is_open, writes_is_open. apply Hready. }
  assert (Hfin : IttyZip.finalize P z1
                 = (Throw (std_exception IttyZip.EMPTY_FINALIZE_MESG), z1)
                 \/ IttyZip.finalize P z1
                    = (Throw (std_exception IttyZip.OUTPUT_FAIL_MESG), z1)).
  { rewrite (finalize_failed_stream P z1 Hopened Hopen Hfail).
    destruct (_ || _ || _)%bool; [now left | now right]. }
  split; [exact Hnum|]. split; [rewrite Hnames; now apply set_insert_true_In|].
  split; [intros f; now apply open_opened|].
  split; [intros n c; now apply addFile_failed_stream|].
  split; [exact Hfin|].
  induction calls as [|c calls IH]; [reflexivity|].
  cbn [run_archive_calls fold_left].
  replace (snd (run_archive_call P c z1)) with z1; [exact IH|].
  destruct c as [f | n c |]; cbn [run_archive_call].
  - now rewrite open_opened.
  - now rewrite addFile_failed_stream.
  - now destruct Hfin as [-> | ->].
Qed.

(** A stream on a device that takes no byte: the buffer of the stream takes
    a write of less than 1024 bytes, and a longer write goes to the device
    and fails. *)
Definition full_device_platform : platform :=
  {| localtime_now := localtime_now example_platform;
     gmtime_now := gmtime_now example_platform;
     can_open := fun _ => true;
     write_ok := fun _ bytes => strlen bytes <? 1024;
     to_string_double := to_string_double example_platform |}.

(** [std::string(n, c)]. *)
Fixpoint string_fill (n : nat) (c : ascii) : string :=
  match n with
  | O => ""
  | S n' => String c (string_fill n' c)
  end.

Definition full_device_archive : IttyZip.IttyZip :=
  snd (IttyZip.open full_device_platform "out.zip" IttyZip.IttyZip_default).

(** An entry of 4096 bytes is added. *)
Definition full_device_archive_added : IttyZip.IttyZip :=
  snd (IttyZip.addFile full_device_platform "a.txt" (string_fill 4096 "x")
         full_device_archive).

Lemma write_failure_is_silent_witness :
  IttyZip.num_files full_device_archive_added
  = u16 (IttyZip.num_files full_device_archive + 1)
  /\ In (stored_name "a.txt") (IttyZip.filenames full_device_archive_added)
  /\ (forall outputFilename,
        IttyZip.open full_device_platform outputFilename full_device_archive_added
        = (Throw (std_exception IttyZip.DOUBLE_OPEN_MESG), full_device_archive_added))
  /\ (forall name' contents',
        IttyZip.addFile full_device_platform name' contents' full_device_archive_added
        = (Throw (std_exception IttyZip.OUTPUT_FAIL_MESG), full_device_archive_added))
  /\ (IttyZip.finalize full_device_platform full_device_archive_added
      = (Throw (std_exception IttyZip.EMPTY_FINALIZE_MESG), full_device_archive_added)
      \/ IttyZip.finalize full_device_platform full_device_archive_added
         = (Throw (std_exception IttyZip.OUTPUT_FAIL_MESG), full_device_archive_added))
  /\ (forall calls,
        run_archive_calls full_device_platform calls full_device_archive_added
        = full_device_archive_added).
Proof.
  apply (write_failure_is_silent full_device_platform "a.txt" (string_fill 4096 "x")
           full_device_archive full_device_archive_added).
  - vm_compute. reflexivity.
  - vm_compute. reflexivity.
Defined.

(** In the example the stream is good after the header of the entry, which
    its buffer takes, and fails at the write of the contents; [addFile]
    returns, and [finalize] then throws the output-failure error. *)
Example full_device_archive_run :
  fail (IttyZip.out_file full_device_archive) = false
  /\ fail (writes full_device_platform
             (local_header_chunks full_device_platform "a.txt" (string_fill 4096 "x"))
             (IttyZip.out_file full_device_archive)) = false
  /\ fst (IttyZip.addFile full_device_platform "a.txt" (string_fill 4096 "x")
            full_device_archive) = Ok tt
  /\ fail (IttyZip.out_file full_device_archive_added) = true
  /\ IttyZip.finalize full_device_platform full_device_archive_added
     = (Throw (std_exception IttyZip.OUTPUT_FAIL_MESG), full_device_archive_added).
Proof. repeat split; vm_compute; reflexivity. Qed.

(** *** The states of an archive *)

Lemma sorted_names_NoDup (s : list string) :
  StronglySorted (lt_of String.ltb) s -> NoDup s.
Proof.
  induction 1 as [|x s Hs IH Hall]; constructor; [|exact IH].
  intros Hin. rewrite Forall_forall in Hall. specialize (Hall x Hin).
  unfold lt_of in Hall. rewrite string_ltb_irrefl in Hall. discriminate.
Qed.

(** What [check_output] can do when the open flag and the stream agree. *)
Lemma check_output_cases (z : IttyZip.IttyZip) :
  is_open (IttyZip.out_file z) = IttyZip.opened z ->
  IttyZip.check_output z = (Ok tt, z)
  \/ IttyZip.check_output z = (Throw (std_exception IttyZip.NOT_OPENED_MESG), z)
  \/ IttyZip.check_output z = (Throw (std_exception IttyZip.OUTPUT_FAIL_MESG), z).
Proof.
  intros Hopen. unfold IttyZip.check_output. rewrite Hopen.
  destruct (IttyZip.opened z); cbn [negb]; [|auto].
  destruct (fail (IttyZip.out_file z)); auto.
Qed.

Lemma archive_call_throws (P : platform) (c : archive_call) (z z' : IttyZip.IttyZip)
    (e : exn) :
  archive_wf z ->
  run_archive_call P c z = (Throw e, z') ->
  e <> std_exception IttyZip.UNEXPECTED_CLOSE_MESG
  /\ (forall name contents, c = call_addFile name contents -> z' = z).
Proof.
  intros Hwf Hrun. pose proof (awf_open z Hwf) as Hopen.
  destruct c as [f | name contents |]; cbn [run_archive_call] in Hrun.
  - split; [|discriminate].
    rewrite (open_run P f z Hopen) in Hrun.
    destruct (IttyZip.opened z); [injection Hrun as <- _; discriminate|].
    destruct (can_open P f); [discriminate|]. injection Hrun as <- _. discriminate.
  - destruct (ready_dec z) as [Hready|Hnot].
    + rewrite (addFile_run P name contents z Hready) in Hrun.
      destruct (snd (set_insert _ _ _)); [discriminate|].
      injection Hrun as <- <-. split; [discriminate | reflexivity].
    + unfold IttyZip.addFile, bind at 1 in Hrun.
      destruct (check_output_cases z Hopen) as [H|[H|H]]; rewrite H in Hrun.
      * exfalso. apply Hnot. unfold IttyZip.check_output in H. unfold ready.
        destruct (IttyZip.opened z); [|discriminate].
        destruct (is_open (IttyZip.out_file z)); [|discriminate].
        destruct (fail (IttyZip.out_file z)); [discriminate|]. auto.
      * injection Hrun as <- <-. split; [discriminate | reflexivity].
      * injection Hrun as <- <-. split; [discriminate | reflexivity].
  - split; [|discriminate].
    destruct (ready_dec z) as [Hready|Hnot].
    + rewrite (finalize_run P z Hready) in Hrun.
      destruct (_ || _ || _)%bool; [injection Hrun as <- _; discriminate|].
      cbv zeta in Hrun. destruct (fail _); [|discriminate].
      injection Hrun as <- _. discriminate.
    + unfold IttyZip.finalize in Hrun.
      destruct (_ || _ || _)%bool; [injection Hrun as <- _; discriminate|].
      unfold bind at 1 in Hrun.
      destruct (check_output_cases z Hopen) as [H|[H|H]]; rewrite H in Hrun.
      * exfalso. apply Hnot. unfold IttyZip.check_output in H. unfold ready.
        destruct (IttyZip.opened z); [|discriminate].
        destruct (is_open (IttyZip.out_file z)); [|discriminate].
        destruct (fail (IttyZip.out_file z)); [discriminate|]. auto.
      * injection Hrun as <- _. discriminate.
      * injection Hrun as <- _. discriminate.
Qed.

(** X21. In every state an archive object can reach, the open flag and
    the stream agree, a closed archive has no entries, no offset and an empty
    directory, the count of entries is a 16-bit number and the names are
    strictly increasing, so pairwise different. No call ever throws the
    unexpected-close error, and an addFile that throws leaves the archive
    exactly as it was. *)
Theorem archive_states (P : platform) (z : IttyZip.IttyZip) :
  archive_reachable P z ->
  is_open (IttyZip.out_file z) = IttyZip.opened z
  /\ (IttyZip.opened z = false ->
      IttyZip.num_files z = 0 /\ IttyZip.next_offset z = 0
      /\ IttyZip.central_directory z = "")
  /\ 0 <= IttyZip.num_files z < 65536
  /\ StronglySorted (fun a b => String.ltb a b = true) (IttyZip.filenames z)
  /\ NoDup (IttyZip.filenames z)
  /\ (forall c e z',
        run_archive_call P c z = (Throw e, z') ->
        e <> std_exception IttyZip.UNEXPECTED_CLOSE_MESG
        /\ (forall name contents, c = call_addFile name contents -> z' = z)).
Proof.
  intros Hz. pose proof (archive_reachable_wf P z Hz) as Hwf.
  split; [exact (awf_open z Hwf)|]. split; [exact (awf_closed z Hwf)|].
  split; [exact (awf_count z Hwf)|]. split; [exact (awf_sorted z Hwf)|].
  split; [exact (sorted_names_NoDup _ (awf_sorted z Hwf))|].
  intros c e z' Hrun. exact (archive_call_throws P c z z' e Hwf Hrun).
Qed.

Lemma example_archive_reachable : archive_reachable example_platform example_archive.
Proof.
  replace example_archive
    with (run_archive_calls example_platform
            [call_addFile "a.txt" "hello"; call_addFile "dir/b.txt" ""]
            example_archive_open) by (vm_compute; reflexivity).
  apply calls_reachable, freshly_opened_reachable, example_archive_open_fresh.
Qed.

Lemma archive_states_witness :
  is_open (IttyZip.out_file example_archive) = IttyZip.opened example_archive
  /\ (IttyZip.opened example_archive = false ->
      IttyZip.num_files example_archive = 0 /\ IttyZip.next_offset example_archive = 0
      /\ IttyZip.central_directory example_archive = "")
  /\ 0 <= IttyZip.num_files example_archive < 65536
  /\ StronglySorted (fun a b => String.ltb a b = true) (IttyZip.filenames example_archive)
  /\ NoDup (IttyZip.filenames example_archive)
  /\ (forall c e z',
        run_archive_call example_platform c example_archive = (Throw e, z') ->
        e <> std_exception IttyZip.UNEXPECTED_CLOSE_MESG
        /\ (forall name contents, c = call_addFile name contents -> z' = example_archive)).
Proof.
  apply (archive_states example_platform example_archive).
  exact example_archive_reachable.
Defined.

(** ** Workbook: publishing more than once *)

(** The workbook at a later time: after any calls of addSheet, addStyle,
    publish, and any operation on one of its sheets. *)
Inductive workbook_later (P : platform) (wb : Workbook) : Workbook -> Prop :=
| later_now : workbook_later P wb wb
| later_addSheet name_ wb' :
    workbook_later P wb wb' -> workbook_later P wb (snd (addSheet name_ wb'))
| later_addStyle cell_style wb' :
    workbook_later P wb wb' ->
    workbook_later P wb (snd (Workbook_addStyle cell_style wb'))
| later_on_sheet (A : Type) (j : nat) (m : M sheet_state A) r wb' wb'' :
    workbook_later P wb wb' -> on_sheet j m wb' = Some (r, wb'') ->
    workbook_later P wb wb''
| later_publish filename_ wb' :
    workbook_later P wb wb' -> workbook_later P wb (snd (publish P filename_ wb')).

(** The archive of the workbook is in a state it can reach, and holds the
    name [n]. *)
Definition archive_holds (P : platform) (n : string) (wb : Workbook) : Prop :=
  archive_reachable P (archive wb) /\ In n (IttyZip.filenames (archive wb)).

Lemma on_archive_call_holds (P : platform) (n : string) (c : archive_call) :
  preserves (archive_holds P n) (on_archive (run_archive_call P c)).
Proof.
  intros wb [Hreach Hin]. unfold on_archive.
  pose proof (archive_called P c _ Hreach) as Hreach'.
  pose proof (call_keeps_names P c n _ Hin) as Hin'.
  destruct (run_archive_call P c (archive wb)) as [r z]. now split.
Qed.

Lemma modify_sheets_holds (P : platform) (n : string) (f : Workbook -> list Sheet) :
  preserves (archive_holds P n) (modify (fun wb => set_sheets (f wb) wb)).
Proof. intros wb H. exact H. Qed.

Lemma publish_fixed_parts_holds (P : platform) (n : string) :
  preserves (archive_holds P n) (publish_fixed_parts P).
Proof.
  unfold publish_fixed_parts.
  repeat first
    [ apply preserves_bind; [| intros ?]
    | apply preserves_gets
    | apply preserves_throw
    | match goal with
      | |- preserves _ (on_archive (IttyZip.addFile P ?a ?b)) =>
          exact (on_archive_call_holds P n (call_addFile a b))
      | |- preserves _ (match ?x with _ => _ end) => destruct x
      end ].
Qed.

Lemma publish_sheets_holds (P : platform) (n : string) (k : nat) :
  preserves (archive_holds P n) (publish_sheets P k).
Proof.
  induction k as [|k IH]; cbn [publish_sheets]; [apply preserves_ret|].
  apply preserves_bind; [apply preserves_gets | intros wb].
  destruct (back (sheets wb)) as [last_sheet|]; [|apply preserves_ret].
  apply preserves_bind; [apply preserves_lift_result | intros contents].
  apply preserves_bind;
    [exact (on_archive_call_holds P n (call_addFile (filename last_sheet) contents))
    | intros _].
  apply preserves_bind; [apply (modify_sheets_holds P n (fun wb => pop_back (sheets wb))) | intros _].
  exact IH.
Qed.

Lemma publish_holds (P : platform) (n : string) (filename_ : string) :
  preserves (archive_holds P n) (publish P filename_).
Proof.
  unfold publish.
  apply preserves_bind; [apply preserves_gets | intros wb].
  destruct (sheets wb) as [|s l]; [apply preserves_throw|].
  destruct (Nat.eqb (String.length filename_) 0); [apply preserves_throw|].
  apply preserves_bind; [exact (on_archive_call_holds P n (call_open filename_)) | intros _].
  apply preserves_bind; [apply publish_fixed_parts_holds | intros _].
  apply preserves_bind; [apply publish_sheets_holds | intros _].
  apply preserves_bind; [apply (modify_sheets_holds P n (fun _ => [])) | intros _].
  exact (on_archive_call_holds P n call_finalize).
Qed.

Lemma workbook_later_holds (P : platform) (n : string) (wb wb' : Workbook) :
  archive_holds P n wb -> workbook_later P wb wb' -> archive_holds P n wb'.
Proof.
  intros Hwb. induction 1 as [| name_ wb' _ IH | cs wb' _ IH | A j m r wb' wb'' _ IH Hon
                              | f wb' _ IH].
  - exact Hwb.
  - unfold addSheet.
    destruct (Nat.eqb _ 0); [exact IH|]. destruct (existsb _ _); exact IH.
  - unfold Workbook_addStyle. destruct (addStyle cs (cell_styles wb')). exact IH.
  - unfold on_sheet in Hon. destruct (nth_error (sheets wb') j) as [s|]; [|discriminate].
    destruct (m _) as [r' st]. injection Hon as _ <-. exact IH.
  - exact (publish_holds P n f wb' IH).
Qed.

(** A publish that returns has taken the name of the first part. *)
Lemma publish_Ok_holds (P : platform) (filename_ : string) (wb wb1 : Workbook) :
  archive_reachable P (archive wb) ->
  publish P filename_ wb = (Ok tt, wb1) ->
  archive_holds P "[Content_Types].xml" wb1.
Proof.
  intros Hreach Hpub.
  assert (Hfirst : forall w w' : Workbook,
             archive_reachable P (archive w) ->
             publish_fixed_parts P w = (Ok tt, w') ->
             archive_holds P "[Content_Types].xml" w').
  { intros w w' Hw H. unfold publish_fixed_parts in H.
    apply bind_Ok in H as (wb0 & w0 & [= <- <-] & H).
    apply bind_Ok in H as ([] & w1 & H1 & H).
    pose proof H1 as H1'. apply on_archive_Ok in H1' as (Hadd & _ & _).
    assert (Hw1 : archive_holds P "[Content_Types].xml" w1).
    { split.
      - replace (archive w1)
          with (snd (run_archive_call P
                       (call_addFile "[Content_Types].xml" (content_types_xml w)) (archive w)))
          by (cbn [run_archive_call]; now rewrite Hadd).
        now apply archive_called.
      - destruct (addFile_Ok_fields P _ _ _ _ (addFile_Ok_ready P _ _ _ _ Hadd) Hadd)
          as (Hins & _ & _ & _ & _ & _ & Hnames).
        rewrite Hnames.
        change "[Content_Types].xml" with (stored_name "[Content_Types].xml") at 1.
        now apply set_insert_true_In. }
    clear H1 Hadd.
    assert (Hrest : forall (m : M Workbook unit),
               preserves (archive_holds P "[Content_Types].xml") m ->
               m w1 = (Ok tt, w') -> archive_holds P "[Content_Types].xml" w').
    { intros m Hm Hrun. specialize (Hm w1 Hw1). now rewrite Hrun in Hm. }
    refine (Hrest _ _ H).
    repeat first
      [ apply preserves_bind; [| intros ?]
      | apply preserves_throw
      | match goal with
        | |- preserves _ (on_archive (IttyZip.addFile P ?a ?b)) =>
            exact (on_archive_call_holds P _ (call_addFile a b))
        | |- preserves _ (match ?x with _ => _ end) => destruct x
        end ]. }
  unfold publish in Hpub.
  apply bind_Ok in Hpub as (wb0 & w0 & [= <- <-] & H).
  destruct (sheets wb) as [|s0 l0] eqn:Es; [discriminate|].
  destruct (Nat.eqb (String.length filename_) 0); [discriminate|].
  apply bind_Ok in H as ([] & w1 & H1 & H).
  apply bind_Ok in H as ([] & w2 & H2 & H).
  assert (Hw1 : archive_reachable P (archive w1)).
  { apply on_archive_Ok in H1 as (Hopen & _ & _).
    replace (archive w1) with (snd (run_archive_call P (call_open filename_) (archive wb)))
      by (cbn [run_archive_call]; now rewrite Hopen).
    now apply archive_called. }
  pose proof (Hfirst w1 w2 Hw1 H2) as Hw2.
  assert (Hrest : preserves (archive_holds P "[Content_Types].xml")
                    (publish_sheets P (List.length (s0 :: l0)) ;;
                     modify (set_sheets []) ;;
                     on_archive (IttyZip.finalize P))).
  { apply preserves_bind; [apply publish_sheets_holds | intros _].
    apply preserves_bind; [apply (modify_sheets_holds P _ (fun _ => [])) | intros _].
    exact (on_archive_call_holds P _ call_finalize). }
  specialize (Hrest w2 Hw2). unfold bind at 1 2 in Hrest.
  revert Hrest. 
  apply bind_Ok in H as ([] & w3 & H3 & H). rewrite H3.
  apply bind_Ok in H as ([] & w4 & H4 & H). rewrite H4. rewrite H. auto.
Qed.

(** X22. A workbook can be published once. After a publish that
    returned, every later publish throws, whatever sheets and styles were
    added in between and whatever the file name: the archive member keeps
    the names of the parts of the first publish, and open does not clear
    them. *)
Theorem publish_only_once (P : platform) (filename_ filename2 : string)
    (wb wb1 wb2 : Workbook) :
  archive_reachable P (archive wb) ->
  publish P filename_ wb = (Ok tt, wb1) ->
  workbook_later P wb1 wb2 ->
  exists e wb3, publish P filename2 wb2 = (Throw e, wb3).
Proof.
  intros Hreach Hpub Hlater.
  destruct (workbook_later_holds P _ wb1 wb2 (publish_Ok_holds P filename_ wb wb1 Hreach Hpub)
              Hlater) as [Hz Hin].
  unfold publish, bind at 1, gets.
  destruct (sheets wb2) as [|s l]; [unfold throw; eauto|].
  destruct (Nat.eqb (String.length filename2) 0); [unfold throw; eauto|].
  unfold bind at 1.
  destruct (on_archive (IttyZip.open P filename2) wb2) as [[[]|e] w1] eqn:Hopen; [|eauto].
  apply on_archive_Ok in Hopen as (Hopen & _ & _).
  assert (Hz1 : archive_reachable P (archive w1)).
  { replace (archive w1) with (snd (run_archive_call P (call_open filename2) (archive wb2)))
      by (cbn [run_archive_call]; now rewrite Hopen).
    now apply archive_called. }
  assert (Hin1 : In "[Content_Types].xml" (IttyZip.filenames (archive w1))).
  { replace (archive w1) with (snd (IttyZip.open P filename2 (archive wb2)))
      by now rewrite Hopen.
    now rewrite open_keeps_names. }
  destruct (addFile_taken P "[Content_Types].xml" (content_types_xml w1) (archive w1)
              (awf_sorted _ (archive_reachable_wf P _ Hz1)) Hin1) as (e & Hadd & _).
  unfold bind at 1, publish_fixed_parts, bind at 1, gets, bind at 1, on_archive at 1.
  rewrite Hadd. eauto.
Qed.

Definition example_workbook_published : Workbook :=
  snd (publish example_platform "book.xlsx" example_workbook).

Definition example_workbook_again : Workbook :=
  snd (addSheet "Third" example_workbook_published).

Lemma publish_only_once_witness :
  exists e wb3,
    publish example_platform "again.xlsx" example_workbook_again = (Throw e, wb3).
Proof.
  apply (publish_only_once example_platform "book.xlsx" "again.xlsx" example_workbook
           example_workbook_published example_workbook_again).
  - exact (archive_default example_platform).
  - vm_compute. reflexivity.
  - apply later_addSheet, later_now.
Defined.

(** The second publish of the example stops at its first part. *)
Example publish_again_duplicate :
  List.length (sheets example_workbook_again) = 1%nat
  /\ fst (publish example_platform "again.xlsx" example_workbook_again)
     = Throw (std_exception IttyZip.DUPLICATE_FILE_MESG).
Proof. vm_compute. split; reflexivity. Qed.

(** ** Sheet names *)

Lemma tolower_code_eq (x y : ascii) :
  (code (tolower x) =? code (tolower y)) = true <-> tolower x = tolower y.
Proof.
  rewrite Z.eqb_eq. split; [apply code_inj | now intros ->].
Qed.

Lemma case_insensitive_same_loop_lower (a b : string) :
  String.length a = String.length b ->
  case_insensitive_same_loop a b = true
  <-> string_map tolower a = string_map tolower b.
Proof.
  revert b. induction a as [|x a IH]; intros [|y b] Hlen; cbn in Hlen; try discriminate.
  - cbn. tauto.
  - cbn [case_insensitive_same_loop string_map].
    destruct (code (tolower x) =? code (tolower y)) eqn:E; cbn [negb].
    + apply tolower_code_eq in E. rewrite (IH b) by lia. rewrite E.
      split; [now intros -> | now intros [= ->]].
    + split; [discriminate|]. intros [= Hxy _].
      apply tolower_code_eq in Hxy. congruence.
Qed.

Lemma case_insensitive_same_lower (a b : string) :
  case_insensitive_same a b = true
  <-> string_map tolower a = string_map tolower b.
Proof.
  unfold case_insensitive_same.
  destruct (Nat.eqb (String.length a) (String.length b)) eqn:E; cbn [negb].
  - apply Nat.eqb_eq in E. now apply case_insensitive_same_loop_lower.
  - apply Nat.eqb_neq in E. split; [discriminate|]. intros H. exfalso. apply E.
    rewrite <- (string_map_length tolower a), <- (string_map_length tolower b).
    now rewrite H.
Qed.

(** X23. case_insensitive_same holds exactly when the two strings are the
    same once every upper-case letter is made lower-case; so it is
    reflexive, symmetric and transitive, and strings of different lengths
    are never the same. *)
Theorem case_insensitive_same_is_equality_of_lowercase :
  (forall a b, case_insensitive_same a b = true
               <-> string_map tolower a = string_map tolower b)
  /\ (forall a, case_insensitive_same a a = true)
  /\ (forall a b, case_insensitive_same a b = case_insensitive_same b a)
  /\ (forall a b c, case_insensitive_same a b = true -> case_insensitive_same b c = true ->
                    case_insensitive_same a c = true)
  /\ (forall a b, String.length a <> String.length b -> case_insensitive_same a b = false).
Proof.
  split; [exact case_insensitive_same_lower|]. split; [|split; [|split]].
  - intros a. now apply case_insensitive_same_lower.
  - intros a b.
    destruct (case_insensitive_same a b) eqn:E1, (case_insensitive_same b a) eqn:E2;
      try reflexivity.
    + apply case_insensitive_same_lower in E1. symmetry in E1.
      apply case_insensitive_same_lower in E1. congruence.
    + apply case_insensitive_same_lower in E2. symmetry in E2.
      apply case_insensitive_same_lower in E2. congruence.
  - intros a b c H1 H2. apply case_insensitive_same_lower.
    apply case_insensitive_same_lower in H1, H2. congruence.
  - intros a b Hlen. unfold case_insensitive_same.
    apply Nat.eqb_neq in Hlen. now rewrite Hlen.
Qed.

Example case_insensitive_same_examples :
  case_insensitive_same "Sheet1" "SHEET1" = true
  /\ case_insensitive_same "Sheet1" "Sheet2" = false
  /\ case_insensitive_same "Sheet" "Sheet1" = false.
Proof. repeat split. Qed.

(** ** Sheet methods keep what identifies the sheet *)

Definition keeps_identity (f : Sheet -> Sheet) : Prop :=
  forall s, name (f s) = name s /\ filename (f s) = filename s
            /\ sheetId (f s) = sheetId s /\ relId (f s) = relId s.

Section SheetMethods.
Context (I : sheet_state -> Prop).
Hypothesis I_addStyle : forall cs, preserves I (workbook_addStyle cs).
Hypothesis I_on_this : forall f st, keeps_identity f -> I st -> I (on_this f st).

Lemma any_cells_insert (cell : cell_t) : preserves I (cells_insert cell).
Proof.
  intros st Hst. unfold cells_insert.
  destruct (set_insert cell_sort_compare cell (cells (sheet st))) as [s b]. cbn [snd].
  apply I_on_this; [|exact Hst]. intros x. now cbn.
Qed.

Lemma any_used_columns_insert (c : Z) : preserves I (used_columns_insert c).
Proof.
  intros st Hst. unfold used_columns_insert, modify. cbn [snd].
  apply I_on_this; [|exact Hst]. intros x. now cbn.
Qed.

Lemma any_merged_cells_insert (m : merged_cell_t) : preserves I (merged_cells_insert m).
Proof.
  intros st Hst. unfold merged_cells_insert, modify. cbn [snd].
  apply I_on_this; [|exact Hst]. intros x. now cbn.
Qed.

Ltac any_method :=
  repeat first
    [ apply preserves_throw | apply preserves_ret | apply preserves_lift_result
    | apply I_addStyle | apply any_cells_insert | apply any_used_columns_insert
    | apply any_merged_cells_insert
    | apply preserves_for_each; intros ?
    | apply preserves_bind; [| intros ?]
    | match goal with
      | |- preserves _ (if ?b then _ else _) => destruct b
      end ].

Lemma any_add_empty_cell (r : integerref_t) (cs : cell_style_t) :
  preserves I (add_empty_cell r cs).
Proof. unfold add_empty_cell. any_method. Qed.

Lemma any_add_number_cell (r : integerref_t) (number : float) (cs : cell_style_t) :
  preserves I (add_number_cell r number cs).
Proof. unfold add_number_cell. any_method. Qed.

Lemma any_add_formula_cell (L : limits) (r : integerref_t) (formula : string)
    (cs : cell_style_t) :
  preserves I (add_formula_cell L r formula cs).
Proof. unfold add_formula_cell. any_method. Qed.

Lemma any_add_string_cell (L : limits) (r : integerref_t) (value : string)
    (cs : cell_style_t) :
  preserves I (add_string_cell L r value cs).
Proof. unfold add_string_cell. any_method. Qed.

Lemma any_add_merge_rest (s e : integerref_t) (cs : cell_style_t) :
  preserves I (add_merge_rest s e cs).
Proof.
  unfold add_merge_rest.
  apply preserves_bind; [| intros _; apply any_merged_cells_insert].
  apply preserves_for_each. intros jRow. apply preserves_for_each. intros jCol.
  destruct (_ && _)%bool; [apply preserves_ret | apply any_add_empty_cell].
Qed.

Lemma any_set_column_width (c : Z) (width : float) :
  preserves I (set_column_width c width).
Proof.
  unfold set_column_width.
  destruct (_ || _)%bool; [apply preserves_throw|].
  destruct (_ || _)%bool; [apply preserves_throw|].
  intros st Hst. unfold modify. cbn [snd]. apply I_on_this; [|exact Hst]. intros x. now cbn.
Qed.

Lemma any_set_row_height (L : limits) (r : Z) (height : float) :
  preserves I (set_row_height L r height).
Proof.
  unfold set_row_height.
  destruct (_ || _)%bool; [apply preserves_throw|].
  destruct (_ || _)%bool; [apply preserves_throw|].
  intros st Hst. unfold modify. cbn [snd]. apply I_on_this; [|exact Hst]. intros x. now cbn.
Qed.

(** Every call on a sheet keeps [I]. *)
Lemma any_run_call (L : limits) (c : sheet_call) : preserves I (run_call L c).
Proof.
  destruct c; cbn [run_call];
    unfold add_number_cell_mixedref, add_formula_cell_mixedref, add_string_cell_mixedref,
      add_merged_number_cell_mixedref, add_merged_formula_cell_mixedref,
      add_merged_string_cell_mixedref, add_merged_number_cell, add_merged_formula_cell,
      add_merged_string_cell, set_column_width_letters;
    repeat first
      [ apply any_add_number_cell | apply any_add_formula_cell | apply any_add_string_cell
      | apply any_add_empty_cell | apply any_add_merge_rest | apply any_set_column_width
      | apply any_set_row_height | apply I_addStyle
      | apply preserves_throw | apply preserves_ret | apply preserves_lift_result
      | apply preserves_bind; [| intros ?]
      | match goal with
        | |- preserves _ (if ?b then _ else _) => destruct b
        end ].
Qed.

End SheetMethods.

(** The catalog grows by calls of addStyle. *)
Definition catalog_grows (catalog catalog' : list cell_style_t) : Prop :=
  exists styles,
    catalog' = fold_left (fun c cs => snd (addStyle cs c)) styles catalog.

Lemma catalog_grows_refl (catalog : list cell_style_t) : catalog_grows catalog catalog.
Proof. now exists []. Qed.

Lemma catalog_grows_step (catalog catalog' : list cell_style_t) (cs : cell_style_t) :
  catalog_grows catalog catalog' -> catalog_grows catalog (snd (addStyle cs catalog')).
Proof.
  intros (styles & ->). exists (styles ++ [cs])%list. now rewrite fold_left_app.
Qed.

(** What a call on a sheet keeps of the state it started in. *)
Definition sheet_step (st0 st : sheet_state) : Prop :=
  name (sheet st) = name (sheet st0) /\ filename (sheet st) = filename (sheet st0)
  /\ sheetId (sheet st) = sheetId (sheet st0) /\ relId (sheet st) = relId (sheet st0)
  /\ catalog_grows (workbook_cell_styles st0) (workbook_cell_styles st).

Lemma run_call_sheet_step (L : limits) (c : sheet_call) (st : sheet_state) :
  sheet_step st (snd (run_call L c st)).
Proof.
  apply (any_run_call (sheet_step st)).
  - intros cs s (H1 & H2 & H3 & H4 & H5). unfold workbook_addStyle.
    pose proof (catalog_grows_step _ _ cs H5) as H5'.
    destruct (addStyle cs (workbook_cell_styles s)) as [i c']. cbn in *.
    unfold sheet_step. cbn. tauto.
  - intros f s Hf (H1 & H2 & H3 & H4 & H5).
    destruct (Hf (sheet s)) as (F1 & F2 & F3 & F4).
    unfold sheet_step, on_this. cbn. repeat split; congruence.
  - unfold sheet_step. repeat split; try reflexivity. apply catalog_grows_refl.
Qed.

Lemma reachable_catalog_grows (L : limits) (catalog catalog' : list cell_style_t)
    (s : Sheet) :
  catalog_grows catalog catalog' ->
  reachable L {| workbook_cell_styles := catalog; sheet := s |} ->
  reachable L {| workbook_cell_styles := catalog'; sheet := s |}.
Proof.
  intros (styles & ->). revert catalog.
  induction styles as [|cs styles IH]; intros catalog Hr; [exact Hr|].
  cbn [fold_left]. apply IH.
  replace {| workbook_cell_styles := snd (addStyle cs catalog); sheet := s |}
    with (snd (run_call L (call_workbook_addStyle cs)
                 {| workbook_cell_styles := catalog; sheet := s |})).
  - now apply reachable_call.
  - cbn [run_call]. unfold bind, workbook_addStyle, ret. cbn.
    now destruct (addStyle cs catalog).
Qed.

(** ** Workbook: the sheets of a workbook *)

(** The states a workbook can reach: created empty, then any calls of
    addSheet, addStyle and publish, and any calls on its sheets. *)
Inductive workbook_reachable (P : platform) (L : limits) : Workbook -> Prop :=
| workbook_new : workbook_reachable P L Workbook_new
| workbook_addSheet name_ wb :
    workbook_reachable P L wb -> workbook_reachable P L (snd (addSheet name_ wb))
| workbook_addStyle_called cell_style wb :
    workbook_reachable P L wb ->
    workbook_reachable P L (snd (Workbook_addStyle cell_style wb))
| workbook_sheet_call j c r wb wb' :
    workbook_reachable P L wb -> on_sheet j (run_call L c) wb = Some (r, wb') ->
    workbook_reachable P L wb'
| workbook_publish filename_ wb :
    workbook_reachable P L wb -> workbook_reachable P L (snd (publish P filename_ wb)).

(** The sheet at index [j]: its number, its part name and its relation id. *)
Definition sheet_numbered (j : nat) (s : Sheet) : Prop :=
  sheetId s = u32 (Z.of_nat j + 1)
  /\ filename s = "xl/worksheets/sheet" ++ to_string (sheetId s) ++ ".xml"
  /\ relId s = "rId" ++ to_string (u32 (sheetId s + 1)).

Record sheets_wf (L : limits) (catalog : list cell_style_t) (l : list Sheet) : Prop := {
  swf_sheet : forall j s, nth_error l j = Some s ->
      sheet_numbered j s /\ name s <> ""
      /\ reachable L {| workbook_cell_styles := catalog; sheet := s |};
  swf_names : forall i j s t, nth_error l i = Some s -> nth_error l j = Some t ->
      case_insensitive_same (name s) (name t) = true -> i = j
}.

Definition workbook_wf (L : limits) (wb : Workbook) : Prop :=
  sheets_wf L (cell_styles wb) (sheets wb).

Lemma nth_error_prefix {T : Type} (l rest : list T) (j : nat) (x : T) :
  nth_error l j = Some x -> nth_error (l ++ rest) j = Some x.
Proof.
  intros H. rewrite nth_error_app1; [exact H|].
  apply nth_error_Some. congruence.
Qed.

Lemma sheets_wf_prefix (L : limits) (catalog : list cell_style_t) (l rest : list Sheet) :
  sheets_wf L catalog (l ++ rest) -> sheets_wf L catalog l.
Proof.
  intros [H1 H2]. split.
  - intros j s Hj. apply H1. now apply nth_error_prefix.
  - intros i j s t Hi Hj. apply H2; now apply nth_error_prefix.
Qed.

Lemma sheets_wf_pop_back (L : limits) (catalog : list cell_style_t) (l : list Sheet) :
  sheets_wf L catalog l -> sheets_wf L catalog (pop_back l).
Proof.
  intros H. unfold pop_back. destruct l as [|x l]; [exact H|].
  apply sheets_wf_prefix with (rest := [last (x :: l) x]).
  rewrite <- app_removelast_last; [exact H | discriminate].
Qed.

Lemma sheets_wf_nil (L : limits) (catalog : list cell_style_t) : sheets_wf L catalog [].
Proof. split; intros; destruct j; discriminate. Qed.

Lemma sheets_wf_catalog (L : limits) (catalog catalog' : list cell_style_t)
    (l : list Sheet) :
  catalog_grows catalog catalog' -> sheets_wf L catalog l -> sheets_wf L catalog' l.
Proof.
  intros Hg [H1 H2]. split; [|exact H2].
  intros j s Hj. destruct (H1 j s Hj) as (Hn & Hne & Hr).
  split; [exact Hn|]. split; [exact Hne|]. exact (reachable_catalog_grows L _ _ s Hg Hr).
Qed.

Lemma case_insensitive_same_sym (a b : string) :
  case_insensitive_same a b = true -> case_insensitive_same b a = true.
Proof.
  intros H. apply case_insensitive_same_lower. apply case_insensitive_same_lower in H.
  congruence.
Qed.

Lemma nth_error_snoc {T : Type} (l : list T) (x y : T) (j : nat) :
  nth_error (l ++ [x]) j = Some y ->
  (nth_error l j = Some y /\ (j < List.length l)%nat) \/ (j = List.length l /\ y = x).
Proof.
  intros H. destruct (Nat.lt_ge_cases j (List.length l)) as [Hlt|Hge].
  - rewrite nth_error_app1 in H by exact Hlt. now left.
  - rewrite nth_error_app2 in H by exact Hge.
    destruct (j - List.length l)%nat as [|k] eqn:E; cbn in H.
    + right. split; [lia | congruence].
    + destruct k; discriminate.
Qed.

Lemma workbook_wf_addSheet (L : limits) (name_ : string) (wb : Workbook) :
  workbook_wf L wb -> workbook_wf L (snd (addSheet name_ wb)).
Proof.
  intros Hwf. unfold addSheet.
  destruct (Nat.eqb (String.length name_) 0) eqn:Ename; [exact Hwf|].
  destruct (existsb _ (sheets wb)) eqn:Eex; [exact Hwf|].
  cbv zeta. cbn [snd]. unfold workbook_wf, set_sheets. cbn [sheets cell_styles].
  destruct Hwf as [H1 H2].
  assert (Hfresh : forall j t, nth_error (sheets wb) j = Some t ->
                     case_insensitive_same name_ (name t) = false).
  { intros j t Hj.
    destruct (case_insensitive_same name_ (name t)) eqn:E; [|reflexivity].
    rewrite <- Eex. symmetry. apply existsb_exists. exists t.
    split; [now apply nth_error_In in Hj | exact E]. }
  split.
  - intros j s Hj. apply nth_error_snoc in Hj as [[Hj _]|[-> ->]]; [now apply H1|].
    split; [|split].
    + unfold sheet_numbered, Sheet_new. cbn. auto.
    + cbn. intros ->. discriminate.
    + apply reachable_fresh.
  - intros i j s t Hi Hj Hsame.
    apply nth_error_snoc in Hi as [[Hi Hil]|[-> ->]];
      apply nth_error_snoc in Hj as [[Hj Hjl]|[-> ->]].
    + exact (H2 i j s t Hi Hj Hsame).
    + cbn in Hsame. apply case_insensitive_same_sym in Hsame.
      rewrite (Hfresh i s Hi) in Hsame. discriminate.
    + cbn in Hsame. rewrite (Hfresh j t Hj) in Hsame. discriminate.
    + reflexivity.
Qed.

Lemma workbook_wf_addStyle (L : limits) (cs : cell_style_t) (wb : Workbook) :
  workbook_wf L wb -> workbook_wf L (snd (Workbook_addStyle cs wb)).
Proof.
  intros Hwf. unfold Workbook_addStyle, workbook_wf in *.
  pose proof (catalog_grows_step _ _ cs (catalog_grows_refl (cell_styles wb))) as Hg.
  destruct (addStyle cs (cell_styles wb)) as [i c']. cbn in *.
  exact (sheets_wf_catalog L _ _ _ Hg Hwf).
Qed.

Lemma nth_error_replace {T : Type} (l : list T) (j i : nat) (x y z : T) :
  nth_error l j = Some x ->
  nth_error (firstn j l ++ y :: skipn (S j) l) i = Some z ->
  (i = j /\ z = y) \/ (i <> j /\ nth_error l i = Some z).
Proof.
  intros Hj Hi.
  assert (Hlen : (j < List.length l)%nat) by (apply nth_error_Some; congruence).
  assert (Hfl : List.length (firstn j l) = j) by (rewrite length_firstn; lia).
  destruct (Nat.lt_trichotomy i j) as [Hlt|[->|Hgt]].
  - right. split; [lia|].
    rewrite nth_error_app1 in Hi by lia.
    rewrite <- (firstn_skipn j l) at 1. now rewrite nth_error_app1 by lia.
  - left. split; [reflexivity|].
    rewrite nth_error_app2 in Hi by lia. rewrite Hfl, Nat.sub_diag in Hi. cbn in Hi.
    congruence.
  - right. split; [lia|].
    rewrite nth_error_app2 in Hi by lia. rewrite Hfl in Hi.
    destruct (i - j)%nat as [|k] eqn:E; [lia|]. cbn [nth_error] in Hi.
    rewrite nth_error_skipn in Hi. replace (S j + k)%nat with i in Hi by lia. exact Hi.
Qed.

Lemma workbook_wf_sheet_call (L : limits) (j : nat) (c : sheet_call) (r : result unit)
    (wb wb' : Workbook) :
  workbook_wf L wb -> on_sheet j (run_call L c) wb = Some (r, wb') -> workbook_wf L wb'.
Proof.
  intros [H1 H2] Hon. unfold on_sheet in Hon.
  destruct (nth_error (sheets wb) j) as [s|] eqn:Hj; [|discriminate].
  pose proof (run_call_sheet_step L c {| workbook_cell_styles := cell_styles wb; sheet := s |})
    as (Sn & Sf & Si & Sr & Sg).
  destruct (H1 j s Hj) as (Hnum & Hne & Hreach).
  pose proof (reachable_call L _ c Hreach) as Hreach'.
  destruct (run_call L c {| workbook_cell_styles := cell_styles wb; sheet := s |})
    as [r' st] eqn:Hrun.
  injection Hon as _ <-. cbn [snd workbook_cell_styles sheet] in *.
  unfold workbook_wf. cbn [sheets cell_styles].
  assert (Hsame : forall i z,
             nth_error (firstn j (sheets wb) ++ sheet st :: skipn (S j) (sheets wb)) i = Some z ->
             exists z0, nth_error (sheets wb) i = Some z0 /\ name z = name z0
                        /\ (sheet_numbered i z0 -> sheet_numbered i z)
                        /\ (reachable L {| workbook_cell_styles := cell_styles wb; sheet := z0 |} ->
                            reachable L {| workbook_cell_styles := workbook_cell_styles st;
                                           sheet := z |})).
  { intros i z Hi. destruct (nth_error_replace _ j i s _ z Hj Hi) as [[-> ->]|[Hne' Hi']].
    - exists s. split; [exact Hj|]. split; [exact Sn|]. split.
      + unfold sheet_numbered. rewrite Sf, Si, Sr. tauto.
      + intros _. now destruct st.
    - exists z. split; [exact Hi'|]. split; [reflexivity|]. split; [tauto|].
      now apply reachable_catalog_grows. }
  split.
  - intros i z Hi. destruct (Hsame i z Hi) as (z0 & Hz0 & Hn0 & Hnum0 & Hr0).
    destruct (H1 i z0 Hz0) as (A1 & A2 & A3).
    split; [now apply Hnum0|]. split; [now rewrite Hn0 | now apply Hr0].
  - intros i1 i2 z1 z2 Hi1 Hi2 Hcs.
    destruct (Hsame i1 z1 Hi1) as (y1 & Hy1 & Hn1 & _).
    destruct (Hsame i2 z2 Hi2) as (y2 & Hy2 & Hn2 & _).
    rewrite Hn1, Hn2 in Hcs. exact (H2 i1 i2 y1 y2 Hy1 Hy2 Hcs).
Qed.

Lemma on_archive_workbook_wf (L : limits) {A : Type} (m : M IttyZip.IttyZip A) :
  preserves (workbook_wf L) (on_archive m).
Proof.
  intros wb Hwf. unfold on_archive. destruct (m (archive wb)) as [r z]. exact Hwf.
Qed.

Lemma publish_fixed_parts_workbook_wf (P : platform) (L : limits) :
  preserves (workbook_wf L) (publish_fixed_parts P).
Proof.
  unfold publish_fixed_parts.
  repeat first
    [ apply preserves_bind; [| intros ?]
    | apply preserves_gets
    | apply preserves_throw
    | apply on_archive_workbook_wf
    | match goal with
      | |- preserves _ (match ?x with _ => _ end) => destruct x
      end ].
Qed.

Lemma publish_sheets_workbook_wf (P : platform) (L : limits) (k : nat) :
  preserves (workbook_wf L) (publish_sheets P k).
Proof.
  induction k as [|k IH]; cbn [publish_sheets]; [apply preserves_ret|].
  apply preserves_bind; [apply preserves_gets | intros wb].
  destruct (back (sheets wb)) as [last_sheet|]; [|apply preserves_ret].
  apply preserves_bind; [apply preserves_lift_result | intros contents].
  apply preserves_bind; [apply on_archive_workbook_wf | intros _].
  apply preserves_bind; [| intros _; exact IH].
  intros w Hw. unfold modify, set_sheets, workbook_wf in *. cbn.
  now apply sheets_wf_pop_back.
Qed.

Lemma workbook_wf_publish (P : platform) (L : limits) (filename_ : string) :
  preserves (workbook_wf L) (publish P filename_).
Proof.
  unfold publish.
  apply preserves_bind; [apply preserves_gets | intros wb].
  destruct (sheets wb) as [|s l]; [apply preserves_throw|].
  destruct (Nat.eqb (String.length filename_) 0); [apply preserves_throw|].
  apply preserves_bind; [apply on_archive_workbook_wf | intros _].
  apply preserves_bind; [apply publish_fixed_parts_workbook_wf | intros _].
  apply preserves_bind; [apply publish_sheets_workbook_wf | intros _].
  apply preserves_bind; [| intros _; apply on_archive_workbook_wf].
  intros w Hw. unfold modify, set_sheets, workbook_wf. cbn. apply sheets_wf_nil.
Qed.

Lemma workbook_reachable_wf (P : platform) (L : limits) (wb : Workbook) :
  workbook_reachable P L wb -> workbook_wf L wb.
Proof.
  induction 1 as [| name_ wb _ IH | cs wb _ IH | j c r wb wb' _ IH Hon | f wb _ IH].
  - apply sheets_wf_nil.
  - now apply workbook_wf_addSheet.
  - now apply workbook_wf_addStyle.
  - exact (workbook_wf_sheet_call L j c r wb wb' IH Hon).
  - now apply workbook_wf_publish.
Qed.

(** *** Part names *)

Lemma string_app_inv_tail (a b suffix : string) :
  a ++ suffix = b ++ suffix -> a = b.
Proof.
  revert b. induction a as [|x a IH]; intros [|y b] H; cbn in H.
  - reflexivity.
  - exfalso. apply (f_equal String.length) in H. cbn in H.
    rewrite string_length_app in H. lia.
  - exfalso. apply (f_equal String.length) in H. cbn in H.
    rewrite string_length_app in H. lia.
  - injection H as -> H. f_equal. now apply IH.
Qed.

Lemma to_string_inj (a b : Z) : 0 <= a -> 0 <= b -> to_string a = to_string b -> a = b.
Proof.
  intros Ha Hb H.
  destruct (to_string_digits a Ha) as (Va & _). destruct (to_string_digits b Hb) as (Vb & _).
  congruence.
Qed.

Lemma sheet_filename_inj (a b : Z) :
  0 <= a -> 0 <= b ->
  "xl/worksheets/sheet" ++ to_string a ++ ".xml"
  = "xl/worksheets/sheet" ++ to_string b ++ ".xml" -> a = b.
Proof.
  intros Ha Hb H. cbn [append] in H. injection H as H.
  apply string_app_inv_tail in H. now apply to_string_inj.
Qed.

(** Sheets at different positions have different part names. *)
Lemma sheets_wf_filenames (L : limits) (catalog : list cell_style_t) (l : list Sheet)
    (i j : nat) (s t : Sheet) :
  sheets_wf L catalog l -> Z.of_nat (List.length l) < 4294967295 ->
  nth_error l i = Some s -> nth_error l j = Some t -> filename s = filename t -> i = j.
Proof.
  intros [H1 _] Hlen Hi Hj Hfile.
  destruct (H1 i s Hi) as ((Ai & Bi & _) & _). destruct (H1 j t Hj) as ((Aj & Bj & _) & _).
  assert (Hil : (i < List.length l)%nat) by (apply nth_error_Some; congruence).
  assert (Hjl : (j < List.length l)%nat) by (apply nth_error_Some; congruence).
  rewrite Bi, Bj, Ai, Aj in Hfile.
  apply sheet_filename_inj in Hfile; try apply u32_range.
  rewrite !u32_small in Hfile by lia. lia.
Qed.

(** X24. In every state a workbook can reach, the sheet at position j
    has the number j+1 (as a 32-bit number), the part name
    xl/worksheets/sheet(j+1).xml and the relation id rId(j+2); its name is
    not empty; and with the catalog of the workbook it is in a state that
    the calls on a sheet reach, so what holds of those states holds of every
    sheet of the workbook. No two sheets have the same name up to case, and
    with fewer than 2^32 - 1 sheets no two have the same part name. *)
Theorem workbook_sheets (P : platform) (L : limits) (wb : Workbook) :
  workbook_reachable P L wb ->
  (forall j s, nth_error (sheets wb) j = Some s ->
     sheetId s = u32 (Z.of_nat j + 1)
     /\ filename s = "xl/worksheets/sheet" ++ to_string (sheetId s) ++ ".xml"
     /\ relId s = "rId" ++ to_string (u32 (sheetId s + 1))
     /\ name s <> ""
     /\ reachable L {| workbook_cell_styles := cell_styles wb; sheet := s |})
  /\ (forall i j s t,
        nth_error (sheets wb) i = Some s -> nth_error (sheets wb) j = Some t ->
        string_map tolower (name s) = string_map tolower (name t) -> i = j)
  /\ (Z.of_nat (List.length (sheets wb)) < 4294967295 ->
      forall i j s t,
        nth_error (sheets wb) i = Some s -> nth_error (sheets wb) j = Some t ->
        filename s = filename t -> i = j).
Proof.
  intros Hr. destruct (workbook_reachable_wf P L wb Hr) as [H1 H2].
  split; [|split].
  - intros j s Hj. destruct (H1 j s Hj) as ((A & B & C) & D & E). auto.
  - intros i j s t Hi Hj Hlow. apply (H2 i j s t Hi Hj).
    now apply case_insensitive_same_lower.
  - intros Hlen i j s t Hi Hj Hfile.
    exact (sheets_wf_filenames L _ _ i j s t (workbook_reachable_wf P L wb Hr) Hlen Hi Hj Hfile).
Qed.

Lemma example_workbook_reachable :
  workbook_reachable example_platform example_limits example_workbook.
Proof. unfold example_workbook. do 2 apply workbook_addSheet. apply workbook_new. Qed.

Lemma workbook_sheets_witness :
  (forall j s, nth_error (sheets example_workbook) j = Some s ->
     sheetId s = u32 (Z.of_nat j + 1)
     /\ filename s = "xl/worksheets/sheet" ++ to_string (sheetId s) ++ ".xml"
     /\ relId s = "rId" ++ to_string (u32 (sheetId s + 1))
     /\ name s <> ""
     /\ reachable example_limits
          {| workbook_cell_styles := cell_styles example_workbook; sheet := s |})
  /\ (forall i j s t,
        nth_error (sheets example_workbook) i = Some s ->
        nth_error (sheets example_workbook) j = Some t ->
        string_map tolower (name s) = string_map tolower (name t) -> i = j)
  /\ (Z.of_nat (List.length (sheets example_workbook)) < 4294967295 ->
      forall i j s t,
        nth_error (sheets example_workbook) i = Some s ->
        nth_error (sheets example_workbook) j = Some t ->
        filename s = filename t -> i = j).
Proof.
  apply (workbook_sheets example_platform example_limits example_workbook).
  exact example_workbook_reachable.
Defined.

(** ** Workbook::publish on a workbook not yet published *)

(** A reachable sheet renders. *)
Lemma generate_file_Ok (P : platform) (L : limits) (st : sheet_state) :
  reachable L st -> exists text, generate_file P (sheet st) = Ok text.
Proof.
  intros Hreach. destruct (reachable_inv L st Hreach) as [Hs Hv _ _ Hm].
  assert (Hmerges : exists merges, mergeCells_section P (sheet st) = Ok merges).
  { unfold mergeCells_section. destruct (mergeCells_events_Ok _ Hm) as (ms & ->).
    destruct (merged_cells (sheet st)); eexists; reflexivity. }
  destruct Hmerges as (merges & Hmerges).
  assert (Hdata : exists data, sheetData_section P (sheet st) = Ok data).
  { unfold sheetData_section.
    pose proof (sheetData_events_blocks (sheet st)) as Hblocks.
    destruct (cells (sheet st)) as [|c rest] eqn:Ec; [eexists; reflexivity|].
    rewrite Hblocks by (discriminate || assumption). cbn [rbind]. eexists. reflexivity. }
  destruct Hdata as (data & Hdata).
  unfold generate_file. rewrite Hdata, Hmerges. cbn [rbind]. eexists. reflexivity.
Qed.

(** The decimal text of a number below 10^k has at most k characters. *)
Lemma to_string_loop_length (fuel : nat) :
  forall (k : nat) (n : Z), (1 <= k)%nat -> 0 <= n < 10 ^ Z.of_nat k ->
  (String.length (to_string_loop fuel n "") <= k)%nat.
Proof.
  induction fuel as [|fuel IH]; intros k n Hk Hn; cbn [to_string_loop].
  - destruct (n <? 10); cbn; lia.
  - destruct (n <? 10) eqn:E; [cbn; lia|].
    apply Z.ltb_ge in E.
    destruct k as [|k]; [lia|]. destruct k as [|k].
    { change (10 ^ Z.of_nat 1) with 10 in Hn. lia. }
    rewrite to_string_loop_app, string_length_app. cbn [String.length].
    assert (Hdiv : 0 <= n / 10 < 10 ^ Z.of_nat (S k)).
    { split; [apply Z.div_pos; lia|].
      apply Z.div_lt_upper_bound; [lia|].
      replace (Z.of_nat (S (S k))) with (Z.succ (Z.of_nat (S k))) in Hn by lia.
      rewrite Z.pow_succ_r in Hn by lia. lia. }
    specialize (IH (S k) (n / 10) ltac:(lia) Hdiv). lia.
Qed.

Lemma to_string_u32_length (n : Z) :
  0 <= n < 4294967296 -> (String.length (to_string n) <= 10)%nat.
Proof.
  intros Hn. unfold to_string. apply to_string_loop_length; [lia|].
  change (10 ^ Z.of_nat 10) with 10000000000. lia.
Qed.

Lemma stored_name_short (name : string) : strlen name < 65536 -> stored_name name = name.
Proof.
  intros H. unfold stored_name. apply substring_0_all.
  rewrite u16_small by (unfold strlen in *; lia). unfold strlen. lia.
Qed.

(** *** A platform on which every write succeeds *)

Definition writes_succeed (P : platform) : Prop :=
  forall bytes b, write_ok P bytes b = true.

Lemma ofstream_write_succeeds (P : platform) (b : string) (f : ofstream) :
  writes_succeed P -> is_open f = true -> fail f = false ->
  fail (ofstream_write P b f) = false.
Proof.
  intros Hw Hopen Hfail. unfold ofstream_write. now rewrite Hopen, Hfail, Hw.
Qed.

Lemma writes_succeeds (P : platform) (chunks : list string) (f : ofstream) :
  writes_succeed P -> is_open f = true -> fail f = false ->
  fail (writes P chunks f) = false.
Proof.
  intros Hw. revert f. induction chunks as [|b rest IH]; intros f Hopen Hfail; [exact Hfail|].
  cbn [writes]. apply IH; [now rewrite ofstream_write_is_open|].
  now apply ofstream_write_succeeds.
Qed.

(** With names that are new and pairwise different, every addFile of a run
    returns and the stream stays good. *)
Lemma add_files_Ok (P : platform) (entries : list (string * string)) :
  writes_succeed P ->
  forall z, ready z -> names_sorted z ->
  NoDup (map fst entries) ->
  (forall e, In e entries ->
     strlen (fst e) < 65536 /\ ~ In (fst e) (IttyZip.filenames z)) ->
  exists z', add_files P entries z = (Ok tt, z') /\ ready z'.
Proof.
  intros Hw. induction entries as [|e rest IH]; intros z Hready Hsorted Hnd Hnew.
  - exists z. split; [reflexivity | exact Hready].
  - destruct (Hnew e (or_introl eq_refl)) as (Hlen & Hfresh).
    pose proof (stored_name_short (fst e) Hlen) as Hstored.
    destruct (IttyZip.addFile P (fst e) (snd e) z) as [[[]|x] z1] eqn:Hadd.
    2:{ exfalso. rewrite (addFile_run P (fst e) (snd e) z Hready) in Hadd.
        destruct (snd (set_insert _ _ _)) eqn:Eins; [discriminate|].
        apply names_insert_false in Eins. rewrite Hstored in Eins. contradiction. }
    destruct (addFile_Ok_fields P _ _ z z1 Hready Hadd)
      as (Hins & _ & Hout & Hopened & _ & _ & Hnames).
    assert (Hready1 : ready z1).
    { destruct Hready as (_ & Hopen & Hfail). unfold ready. rewrite Hout.
      split; [exact Hopened|]. split.
      - now rewrite ofstream_write_is_open, writes_is_open.
      - apply ofstream_write_succeeds; [exact Hw | now rewrite writes_is_open |].
        now apply writes_succeeds. }
    assert (Hsorted1 : names_sorted z1).
    { unfold names_sorted. rewrite Hnames. now apply names_insert_sorted. }
    inversion Hnd as [|? ? Hnotin Hnd']; subst.
    destruct (IH z1 Hready1 Hsorted1 Hnd') as (z' & Hrun & Hready').
    { intros e' He'. destruct (Hnew e' (or_intror He')) as (Hlen' & Hfresh').
      split; [exact Hlen'|]. rewrite Hnames. intros Hin.
      apply (names_insert_In _ _ _ Hins) in Hin. rewrite Hstored in Hin.
      destruct Hin as [Heq|Hin]; [|contradiction].
      apply Hnotin. rewrite <- Heq. now apply in_map. }
    exists z'. split; [|exact Hready'].
    unfold add_files in *. cbn [for_each]. unfold bind at 1. now rewrite Hadd.
Qed.

(** *** publish, step by step *)

Lemma bind_on_archive_Ok {A B : Type} (m : M IttyZip.IttyZip A) (k : A -> M Workbook B)
    (sh : list Sheet) (cs : list cell_style_t) (z z' : IttyZip.IttyZip) (a : A) :
  m z = (Ok a, z') ->
  bind (on_archive m) k {| sheets := sh; cell_styles := cs; archive := z |}
  = k a {| sheets := sh; cell_styles := cs; archive := z' |}.
Proof. intros H. unfold bind, on_archive. cbn [archive sheets cell_styles]. now rewrite H. Qed.

Lemma on_archive_run {A : Type} (m : M IttyZip.IttyZip A)
    (sh : list Sheet) (cs : list cell_style_t) (z z' : IttyZip.IttyZip) (r : result A) :
  m z = (r, z') ->
  on_archive m {| sheets := sh; cell_styles := cs; archive := z |}
  = (r, {| sheets := sh; cell_styles := cs; archive := z' |}).
Proof. intros H. unfold on_archive. cbn [archive sheets cell_styles]. now rewrite H. Qed.

Lemma publish_fixed_parts_run (P : platform) (time_string : string)
    (sh : list Sheet) (cs : list cell_style_t) (z z' : IttyZip.IttyZip) :
  strftime_timestamp TIME_BUF_SIZE (gmtime_now P) = Some time_string ->
  add_files P (fixed_parts {| sheets := sh; cell_styles := cs; archive := z |} time_string) z
  = (Ok tt, z') ->
  publish_fixed_parts P {| sheets := sh; cell_styles := cs; archive := z |}
  = (Ok tt, {| sheets := sh; cell_styles := cs; archive := z' |}).
Proof.
  intros Hts Hrun. unfold add_files, fixed_parts in Hrun. cbn [for_each fst snd] in Hrun.
  apply bind_Ok in Hrun as ([] & z1 & H1 & Hrun).
  apply bind_Ok in Hrun as ([] & z2 & H2 & Hrun).
  apply bind_Ok in Hrun as ([] & z3 & H3 & Hrun).
  apply bind_Ok in Hrun as ([] & z4 & H4 & Hrun).
  apply bind_Ok in Hrun as ([] & z5 & H5 & Hrun).
  apply bind_Ok in Hrun as ([] & z6 & H6 & Hrun).
  apply bind_Ok in Hrun as ([] & z7 & H7 & Hrun).
  injection Hrun as <-.
  unfold publish_fixed_parts. unfold bind at 1, gets.
  rewrite (bind_on_archive_Ok _ _ sh cs z z1 tt H1).
  rewrite (bind_on_archive_Ok _ _ sh cs z1 z2 tt H2).
  rewrite (bind_on_archive_Ok _ _ sh cs z2 z3 tt H3).
  rewrite Hts.
  rewrite (bind_on_archive_Ok _ _ sh cs z3 z4 tt H4).
  rewrite (bind_on_archive_Ok _ _ sh cs z4 z5 tt H5).
  rewrite (bind_on_archive_Ok _ _ sh cs z5 z6 tt H6).
  exact (on_archive_run _ sh cs z6 z7 (Ok tt) H7).
Qed.

Lemma publish_sheets_run (P : platform) (l : list Sheet) :
  forall (cs : list cell_style_t) (z z' : IttyZip.IttyZip) (parts : list (string * string)),
  Forall2 (sheet_part P) (rev l) parts ->
  add_files P parts z = (Ok tt, z') ->
  publish_sheets P (List.length l) {| sheets := l; cell_styles := cs; archive := z |}
  = (Ok tt, {| sheets := []; cell_styles := cs; archive := z' |}).
Proof.
  induction l as [|x l IH] using rev_ind; intros cs z z' parts Hparts Hrun.
  - cbn in Hparts. inversion Hparts; subst. cbn in Hrun. injection Hrun as <-. reflexivity.
  - rewrite rev_app_distr in Hparts. cbn [rev app] in Hparts.
    inversion Hparts as [|? p ? parts' [Hname Hgen] Hparts']; subst.
    apply add_files_cons in Hrun as (z1 & Hadd & Hrest).
    rewrite List.length_app, Nat.add_comm. cbn [List.length Nat.add publish_sheets].
    unfold bind at 1, gets. cbn [sheets]. rewrite back_last.
    unfold bind at 1, lift_result. rewrite Hgen.
    rewrite Hname in Hadd.
    rewrite (bind_on_archive_Ok _ _ (l ++ [x])%list cs z z1 tt Hadd).
    unfold bind at 1, modify, set_sheets. cbn [sheets cell_styles archive].
    rewrite pop_back_last. exact (IH cs z1 z' parts' Hparts' Hrest).
Qed.

Lemma fixed_parts_archive (sh : list Sheet) (cs : list cell_style_t)
    (z z' : IttyZip.IttyZip) (time_string : string) :
  fixed_parts {| sheets := sh; cell_styles := cs; archive := z |} time_string
  = fixed_parts {| sheets := sh; cell_styles := cs; archive := z' |} time_string.
Proof. reflexivity. Qed.

(** The parts of a list of sheets that all render. *)
Lemma sheet_parts_exist (P : platform) (L : limits) (catalog : list cell_style_t)
    (l : list Sheet) :
  (forall s, In s l -> reachable L {| workbook_cell_styles := catalog; sheet := s |}) ->
  exists parts, Forall2 (sheet_part P) l parts /\ map fst parts = map filename l.
Proof.
  induction l as [|s l IH]; intros Hl.
  - exists []. split; [constructor | reflexivity].
  - destruct (IH (fun x Hx => Hl x (or_intror Hx))) as (parts & Hparts & Hnames).
    destruct (generate_file_Ok P L _ (Hl s (or_introl eq_refl))) as (text & Htext).
    exists ((filename s, text) :: parts). split.
    + constructor; [now split | exact Hparts].
    + cbn. now rewrite Hnames.
Qed.

Definition fixed_names : list string :=
  [ "[Content_Types].xml"; "_rels/.rels"; "docProps/app.xml"; "docProps/core.xml";
    "xl/_rels/workbook.xml.rels"; "xl/styles.xml"; "xl/workbook.xml" ].

Lemma fixed_parts_names (wb : Workbook) (time_string : string) :
  map fst (fixed_parts wb time_string) = fixed_names.
Proof. reflexivity. Qed.

Lemma fixed_names_NoDup : NoDup fixed_names.
Proof.
  unfold fixed_names.
  repeat (constructor;
          [cbn; intros H; decompose [or] H; first [discriminate | contradiction]|]).
  constructor.
Qed.

Lemma fixed_names_short (n : string) : In n fixed_names -> strlen n < 65536.
Proof.
  unfold fixed_names. cbn. intros H. decompose [or] H; subst; try contradiction;
    vm_compute; reflexivity.
Qed.

Lemma sheet_filename_not_fixed (id : string) :
  ~ In ("xl/worksheets/sheet" ++ id ++ ".xml") fixed_names.
Proof.
  unfold fixed_names. cbn. intros H. decompose [or] H; try discriminate; contradiction.
Qed.

Lemma sheet_filename_short (n : Z) :
  0 <= n < 4294967296 -> strlen ("xl/worksheets/sheet" ++ to_string n ++ ".xml") < 65536.
Proof.
  intros Hn. pose proof (to_string_u32_length n Hn) as Hlen.
  rewrite !strlen_app. unfold strlen in *. cbn [String.length]. lia.
Qed.

Lemma NoDup_map_nth_error {A B : Type} (f : A -> B) (l : list A) :
  (forall i j a b, nth_error l i = Some a -> nth_error l j = Some b -> f a = f b -> i = j) ->
  NoDup (map f l).
Proof.
  intros H. apply NoDup_nth_error. intros i j Hi Hij.
  rewrite length_map in Hi.
  rewrite !nth_error_map in Hij.
  destruct (nth_error l i) as [a|] eqn:Ea; [|apply nth_error_None in Ea; lia].
  destruct (nth_error l j) as [b|] eqn:Eb; [|discriminate].
  cbn in Hij. injection Hij as Hab. exact (H i j a b Ea Eb Hab).
Qed.

(** With a good stream, finalize on a non-empty archive writes the central
    directory and the end record, and closes the file. *)
Lemma finalize_good_stream (P : platform) (z : IttyZip.IttyZip) :
  writes_succeed P -> ready z ->
  IttyZip.num_files z <> 0 -> IttyZip.next_offset z <> 0 ->
  strlen (IttyZip.central_directory z) <> 0 ->
  exists z2,
    IttyZip.finalize P z = (Ok tt, z2)
    /\ IttyZip.out_file z2
       = {| is_open := false; fail := false;
            file_name := file_name (IttyZip.out_file z);
            file_bytes := file_bytes (IttyZip.out_file z) ++ IttyZip.central_directory z
                          ++ end_record (IttyZip.num_files z)
                               (u32 (strlen (IttyZip.central_directory z)))
                               (IttyZip.next_offset z) |}
    /\ IttyZip.opened z2 = false /\ IttyZip.num_files z2 = 0.
Proof.
  intros Hw Hready Hn Ho Hd. rewrite (finalize_run P z Hready).
  replace ((IttyZip.num_files z =? 0) || (IttyZip.next_offset z =? 0)
           || (strlen (IttyZip.central_directory z) =? 0))%bool with false
    by (symmetry; rewrite !orb_false_iff, !Z.eqb_neq; auto).
  cbv zeta. destruct Hready as (_ & Hopen & Hfail).
  pose proof (ofstream_write_succeeds P (IttyZip.central_directory z) _ Hw Hopen Hfail) as Hf1.
  rewrite Hf1. eexists. split; [reflexivity|].
  cbn [IttyZip.out_file IttyZip.opened IttyZip.num_files]. split; [|auto].
  assert (Hopen1 : is_open (ofstream_write P (IttyZip.central_directory z)
                              (IttyZip.out_file z)) = true)
    by now rewrite ofstream_write_is_open.
  destruct (ofstream_write_good P _ _ Hopen Hf1) as (_ & Hb1 & Hn1).
  pose proof (writes_succeeds P (end_record_chunks (IttyZip.num_files z)
                                   (u32 (strlen (IttyZip.central_directory z)))
                                   (IttyZip.next_offset z)) _ Hw Hopen1 Hf1) as Hf2.
  destruct (writes_good P _ _ Hopen1 Hf2) as (_ & Hb2 & Hn2).
  pose proof (writes_is_open P (end_record_chunks (IttyZip.num_files z)
                                  (u32 (strlen (IttyZip.central_directory z)))
                                  (IttyZip.next_offset z))
                (ofstream_write P (IttyZip.central_directory z) (IttyZip.out_file z)))
    as Hopen2.
  rewrite Hopen1 in Hopen2.
  rewrite concat_end_record_chunks, Hb1, string_append_assoc in Hb2. rewrite Hn1 in Hn2.
  destruct (writes P _ _) as [io fl fn fb]. cbn in *. subst. reflexivity.
Qed.

(** X25. publish on a reachable workbook that has not been published
    before (its archive member is as constructed), with at least one sheet
    and fewer than 65529, a non-empty file name that can be opened, a
    timestamp that fits and writes that succeed: every sheet renders, and,
    when the entries take less than 4 GiB, publish returns, the sheet list
    is emptied, and the file of that name, closed and not failed, holds a
    ZIP archive of the seven fixed parts followed by the parts of the sheets
    from the last sheet to the first: the local entries, the central
    directory and the end record. *)
Theorem publish_writes_the_archive (P : platform) (L : limits)
    (filename_ time_string : string) (wb : Workbook) :
  workbook_reachable P L wb ->
  archive wb = IttyZip.IttyZip_default ->
  sheets wb <> [] -> filename_ <> "" -> can_open P filename_ = true ->
  writes_succeed P ->
  strftime_timestamp TIME_BUF_SIZE (gmtime_now P) = Some time_string ->
  Z.of_nat (List.length (sheets wb)) < 65529 ->
  exists sheet_parts,
    Forall2 (sheet_part P) (rev (sheets wb)) sheet_parts
    /\ (strlen (local_part P (fixed_parts wb time_string ++ sheet_parts)) < 4294967296 ->
        exists wb',
          publish P filename_ wb = (Ok tt, wb')
          /\ sheets wb' = [] /\ cell_styles wb' = cell_styles wb
          /\ IttyZip.out_file (archive wb')
             = {| is_open := false; fail := false; file_name := filename_;
                  file_bytes :=
                    local_part P (fixed_parts wb time_string ++ sheet_parts)
                    ++ directory_part P "" (fixed_parts wb time_string ++ sheet_parts)
                    ++ end_record (7 + Z.of_nat (List.length (sheets wb)))
                         (u32 (strlen (directory_part P ""
                                         (fixed_parts wb time_string ++ sheet_parts))))
                         (strlen (local_part P
                                    (fixed_parts wb time_string ++ sheet_parts))) |}).
Proof.
  intros Hreach Harch Hsheets Hname Hcan Hw Hts Hcount.
  pose proof (workbook_reachable_wf P L wb Hreach) as Hwf.
  destruct wb as [sh cs z]. cbn [archive sheets cell_styles] in *. subst z.
  unfold workbook_wf in Hwf. cbn [sheets cell_styles] in Hwf.
  destruct (sheet_parts_exist P L cs (rev sh)) as (parts & Hparts & Hnames).
  { intros s Hs. apply in_rev in Hs. apply In_nth_error in Hs as (j & Hj).
    now destruct (swf_sheet L cs sh Hwf j s Hj) as (_ & _ & Hr). }
  exists parts. split; [exact Hparts|]. intros Hsize.
  set (wb0 := {| sheets := sh; cell_styles := cs; archive := IttyZip.IttyZip_default |}) in *.
  set (all := (fixed_parts wb0 time_string ++ parts)%list) in *.
  (* the archive once opened *)
  assert (Hopen : exists z1, IttyZip.open P filename_ IttyZip.IttyZip_default = (Ok tt, z1)).
  { rewrite (open_run P filename_ IttyZip.IttyZip_default eq_refl).
    cbn [IttyZip.opened IttyZip.IttyZip_default]. rewrite Hcan. eauto. }
  destruct Hopen as (z1 & Hopen).
  assert (Hfresh : freshly_opened P z1).
  { right. exists filename_, IttyZip.IttyZip_default. split; [constructor | exact Hopen]. }
  destruct (freshly_opened_fresh P z1 Hfresh) as (Hready1 & _).
  pose proof (awf_sorted z1 (archive_reachable_wf P z1 (freshly_opened_reachable P z1 Hfresh)))
    as Hsorted1.
  assert (Hnames1 : IttyZip.filenames z1 = []).
  { replace z1 with (snd (IttyZip.open P filename_ IttyZip.IttyZip_default))
      by now rewrite Hopen.
    now rewrite open_keeps_names. }
  assert (Hfile1 : file_name (IttyZip.out_file z1) = filename_).
  { rewrite (open_run P filename_ IttyZip.IttyZip_default eq_refl) in Hopen.
    cbn [IttyZip.opened IttyZip.IttyZip_default] in Hopen. rewrite Hcan in Hopen.
    injection Hopen as <-. reflexivity. }
  (* the names of the parts *)
  assert (Hlen : Z.of_nat (List.length sh) < 4294967295) by lia.
  assert (Hall : map fst all = (fixed_names ++ map filename (rev sh))%list).
  { unfold all. now rewrite map_app, fixed_parts_names, Hnames. }
  assert (Hform : forall s, In s (rev sh) ->
             exists id, 0 <= id < 4294967296
                        /\ filename s = "xl/worksheets/sheet" ++ to_string id ++ ".xml").
  { intros s Hs. apply in_rev in Hs. apply In_nth_error in Hs as (j & Hj).
    destruct (swf_sheet L cs sh Hwf j s Hj) as ((Hid & Hfn & _) & _).
    exists (sheetId s). split; [rewrite Hid; apply u32_range | exact Hfn]. }
  assert (Hnd : NoDup (map fst all)).
  { rewrite Hall. apply NoDup_app.
    - exact fixed_names_NoDup.
    - rewrite map_rev. apply NoDup_rev. apply NoDup_map_nth_error.
      intros i j a b Hi Hj Hab. exact (sheets_wf_filenames L cs sh i j a b Hwf Hlen Hi Hj Hab).
    - intros n Hn Hin. apply in_map_iff in Hin as (s & <- & Hs).
      destruct (Hform s Hs) as (id & _ & Hfn). rewrite Hfn in Hn.
      exact (sheet_filename_not_fixed _ Hn). }
  assert (Hnew : forall e, In e all ->
             strlen (fst e) < 65536 /\ ~ In (fst e) (IttyZip.filenames z1)).
  { intros e He. rewrite Hnames1. split; [|intros []].
    assert (Hin : In (fst e) (map fst all)) by now apply in_map.
    rewrite Hall in Hin. apply in_app_or in Hin as [Hin|Hin].
    - now apply fixed_names_short.
    - apply in_map_iff in Hin as (s & <- & Hs).
      destruct (Hform s Hs) as (id & Hid & ->). now apply sheet_filename_short. }
  destruct (add_files_Ok P all Hw z1 Hready1 Hsorted1 Hnd Hnew) as (z2 & Hrun & Hready2).
  destruct (add_files_from_fresh P all z1 z2 Hfresh Hrun ltac:(apply Hready2))
    as (Hb & Hd & Hc & Ho & _ & _).
  assert (Hlenall : Z.of_nat (List.length all) = 7 + Z.of_nat (List.length sh)).
  { unfold all. rewrite List.length_app.
    rewrite <- (length_map fst parts), Hnames, length_map, length_rev.
    cbn [fixed_parts List.length]. lia. }
  assert (Hne : all <> []) by (unfold all, fixed_parts; discriminate).
  pose proof (local_part_strlen_pos P all Hne) as Hlocal.
  pose proof (directory_part_strlen_pos P "" all Hne) as Hdir.
  rewrite Hlenall, u16_small in Hc by lia. rewrite u32_small in Ho by lia.
  destruct (finalize_good_stream P z2 Hw Hready2) as (z3 & Hfin & Hout & Hop3 & Hn3);
    [lia | lia | rewrite Hd; lia |].
  (* the file name is kept by the adds *)
  assert (Hfile2 : file_name (IttyZip.out_file z2) = filename_).
  { destruct (add_files_layout P all z1 z2 Hready1 Hsorted1
                (awf_count z1 (archive_reachable_wf P z1
                                 (freshly_opened_reachable P z1 Hfresh)))
                ltac:(destruct (freshly_opened_fresh P z1 Hfresh) as (_ & _ & -> & _ & ->);
                      reflexivity)
                Hrun ltac:(apply Hready2)) as (_ & Hfn & _).
    congruence. }
  (* publish, step by step *)
  unfold all in Hrun. rewrite add_files_app in Hrun.
  destruct (add_files P (fixed_parts wb0 time_string) z1) as [[[]|e] zf] eqn:Hfixed;
    [|discriminate].
  exists {| sheets := []; cell_styles := cs; archive := z3 |}.
  split; [| split; [reflexivity | split; [reflexivity|]]].
  - unfold publish, bind at 1, gets. unfold wb0 at 1 2. cbn [sheets].
    destruct sh as [|s0 l0]; [congruence|].
    replace (Nat.eqb (String.length filename_) 0) with false
      by (symmetry; apply Nat.eqb_neq; destruct filename_; [congruence | discriminate]).
    unfold wb0. rewrite (bind_on_archive_Ok _ _ _ _ _ z1 tt Hopen).
    unfold bind at 1.
    rewrite (publish_fixed_parts_run P time_string _ _ z1 zf Hts
               ltac:(rewrite (fixed_parts_archive _ _ z1 IttyZip.IttyZip_default);
                     exact Hfixed)).
    unfold bind at 1. rewrite (publish_sheets_run P (s0 :: l0) cs zf z2 parts Hparts Hrun).
    unfold bind at 1, modify, set_sheets. cbn [sheets cell_styles archive].
    exact (on_archive_run _ [] cs z2 z3 (Ok tt) Hfin).
  - cbn [archive]. rewrite Hout, Hb, Hd, Hc, Ho, Hfile2. reflexivity.
Qed.

Lemma publish_writes_the_archive_witness :
  exists sheet_parts,
    Forall2 (sheet_part example_platform) (rev (sheets example_workbook)) sheet_parts
    /\ (strlen (local_part example_platform
                  (fixed_parts example_workbook "2026-11-03T09:15:31Z" ++ sheet_parts))
        < 4294967296 ->
        exists wb',
          publish example_platform "book.xlsx" example_workbook = (Ok tt, wb')
          /\ sheets wb' = [] /\ cell_styles wb' = cell_styles example_workbook
          /\ IttyZip.out_file (archive wb')
             = {| is_open := false; fail := false; file_name := "book.xlsx";
                  file_bytes :=
                    local_part example_platform
                      (fixed_parts example_workbook "2026-11-03T09:15:31Z" ++ sheet_parts)
                    ++ directory_part example_platform ""
                         (fixed_parts example_workbook "2026-11-03T09:15:31Z" ++ sheet_parts)
                    ++ end_record (7 + Z.of_nat (List.length (sheets example_workbook)))
                         (u32 (strlen (directory_part example_platform ""
                                         (fixed_parts example_workbook "2026-11-03T09:15:31Z"
                                          ++ sheet_parts))))
                         (strlen (local_part example_platform
                                    (fixed_parts example_workbook "2026-11-03T09:15:31Z"
                                     ++ sheet_parts))) |}).
Proof.
  apply (publish_writes_the_archive example_platform example_limits "book.xlsx"
           "2026-11-03T09:15:31Z" example_workbook).
  - exact example_workbook_reachable.
  - reflexivity.
  - discriminate.
  - discriminate.
  - reflexivity.
  - intros bytes b. reflexivity.
  - vm_compute. reflexivity.
  - vm_compute. reflexivity.
Defined.

(** The example workbook is published: nine entries in the archive. *)
Example example_workbook_is_published :
  fst (publish example_platform "book.xlsx" example_workbook) = Ok tt
  /\ IttyZip.filenames (archive example_workbook_published)
     = [ "[Content_Types].xml"; "_rels/.rels"; "docProps/app.xml"; "docProps/core.xml";
         "xl/_rels/workbook.xml.rels"; "xl/styles.xml"; "xl/workbook.xml";
         "xl/worksheets/sheet1.xml"; "xl/worksheets/sheet2.xml" ].
Proof. vm_compute. split; reflexivity. Qed.
